(* ===== verification/_CoqProject ===== *)
-Q . S2P
Prelude.v
GoStrings.v
Errors.v
Version.v
Quantity.v
Parse.v
ParseSpec.v
Objects.v
Config.v
Effects.v
Logic.v
Wait.v
Plugin.v
Cloud.v
InstanceMeta.v
Client.v
Block.v
BlockSpec.v
BlockLive.v
Store.v
Fss.v
FssSpec.v
FssStore.v
FssAssets.v
FssLive.v
Mocks.v
Zones.v
Core.v
CoreSpec.v
Controller.v
ControllerSpec.v
Ledger.v
Logging.v
Flags.v
Startup.v
Typing.v
Queue.v
Lease.v
Operations.v
Overlap.v
Deployment.v
Signals.v
Depot.v
Sample.v
Scenarios.v
Witnesses.v
