(* ===== verification/Prelude.v ===== *)
(** * A verification development for the OCI volume provisioner

    The program is a Kubernetes volume provisioner: one process (src/cmd, src/pkg) that the
    external-storage controller asks to [Provision] a PersistentVolume for a claim and to
    [Delete] it again, and that does so through the REST services of Oracle's cloud.

    ** The parts of the program and their files

    - src/cmd/main.go: the start-up.  [Startup.main], with client-go as the class
      [Startup.Kube], after package flag over the flags of the program ([Flags.Parse]);
      the options it gives to the controller are [Controller.main_options].
    - src/pkg/provisioner/core (provisioner.go, utils.go): the provisioner that the
      controller calls.  Core.v: [NewOCIProvisioner], [chooseAvailabilityDomain],
      [findADByName], [Provision], [Delete], [Ready]; CoreSpec.v: its properties, and those
      of core together with either plugin.
    - src/pkg/provisioner/plugin, utils.go: the plugin interface and the shared constants.
      Plugin.v: the class [ProvisionerPlugin] with the laws [PluginContract] that core relies
      on.  Core is proved against the class; BlockSpec.v and FssSpec.v discharge the laws.
    - src/pkg/provisioner/block/block.go: block volumes.  Block.v and BlockSpec.v.
    - src/pkg/provisioner/fss/fss.go: file systems and exports.  Fss.v and FssSpec.v.
    - src/pkg/provisioner/errors.go and the error libraries: Errors.v.
    - src/pkg/oci/client: client.go in Client.v (sub-clients, transports, where the
      compartment comes from), config.go and config_validate.go in Config.v ([LoadConfig],
      which is effectful, in Client.v).
    - src/pkg/oci/instancemeta: InstanceMeta.v.
    - src/pkg/logging: Logging.v.  src/pkg/signals: Signals.v.
    - src/pkg/provisioner/mock_interfaces.go and instance_metadata_mock.go: Mocks.v, with
      what the unit tests of the plugins check.
    - the controller that calls the program (vendored external-storage): Controller.v (the
      sync handlers, [provisionClaimOperation], [deleteVolumeOperation]), Queue.v (the work
      queues of client-go and the workers), Lease.v (the leader election among several
      processes on a claim), Operations.v (the operations that these elections start, the
      terms of the leaders, and how the electors learn the results), Overlap.v (operations
      that are too long for this), and Version.v (the versions by which it tells API servers
      apart).  ControllerSpec.v and Typing.v have the properties of the controller with this
      program's provisioner.
    - all of it together: Ledger.v (what one operation can have done to its volume after each
      of its calls) and Deployment.v (the operations of all processes on a claim, call by
      call, with what they report, over one volume service).
    - other vendored code on which the behaviour of the program depends: Wait.v (the polling
      loop of apimachinery), Zones.v (the choice of a zone of kubernetes/pkg/volume/util),
      Quantity.v, Parse.v and ParseSpec.v (resource quantities: scaling, [Value], [Cmp],
      [ParseQuantity]), and in Objects.v the fields of the API objects that are read or
      written.
    - Prelude.v (this file): machine integers, maps that may be nil, list search.
      GoStrings.v: the parts of strings, strconv and fmt that are used.  Effects.v: the monad
      in which the program is written.  Logic.v: its proof rules.
    - the contracts of the plugins, seen from outside: Store.v (an abstract store of
      volumes that the block plugin refines), BlockLive.v (when that plugin succeeds), and
      FssStore.v, FssAssets.v and FssLive.v (the same for the file-storage plugin: its
      retries, its store of file systems and exports, and when it succeeds).
    - Cloud.v, Depot.v and Sample.v: small executable worlds (a cloud, services that keep
      what those contracts ask of them, a cluster).  Scenarios.v runs whole operations of the
      controller in the cluster, in one process and in two; Witnesses.v applies every property
      with hypotheses in one of these worlds.

    ** How the program is modelled

    A procedure is a computation [Effects.M W A]: it threads the clock, the state [W] of
    everything outside the process and the one shared mutable object, the [*Config] into
    which the client caches the compartment; it may return, panic, exit the process or (for
    loops without a bound) run out of fuel; and it yields the list of its calls to the
    outside, each with the time, the deadline of its context, the request and the reply.
    The services are the operations of a [Backend], about which nothing is assumed except
    that time does not run backwards; what the contracts of the plugins ask of a service are
    the classes listed below; library
    functions whose code is not here (URL, JSON, YAML and PEM parsing, the file system, the
    constructors of the SDK's clients) are the parameters [GoLib] and [SDK].  A pointer that
    may be nil is an option, and dereferencing nil, indexing out of range and writing to a
    nil map are panics, as in Go.  int64 is a [Z] with its wrap-around written out; a
    duration is a number of nanoseconds.

    What runs concurrently is a transition system instead: the signal handler
    ([Signals.step], a process with a two-element channel), the informers' handlers and the
    workers over a work queue ([Queue.step]), the processes that compete for the record in a
    claim, with the API server between them ([Lease.step]), and on top of these the
    operations of all the processes on the claim ([Operations.advance], whose first
    component makes steps of [Lease.step] only), and with their calls and volumes
    ([Deployment.act], whose contest makes steps of [Operations.advance] only, and whose logs
    are beginnings of runs of [provisionClaimOperation]).  So are, as abstract specifications, the
    protocols of the two plugins ([BlockSpec.pstep], [FssSpec.fstep]), of which the calls of
    every run are shown to be a path, and the stores of
    volumes and of file systems ([Store.store_step], [FssAssets.store_step]).

    ** What is asked of the services

    The protocols, the life cycles and the accounts of the controller hold of every backend.
    The contracts of the plugins need a service that does what it says, and say what it is:

    - [Store.VolumeStore], [FssStore.FileStore], [FssAssets.ExportStore]: a request that is
      answered as done has been done, and a new resource has a new OCID.  A request that is
      answered by an error may have been executed or not; an answer 404 does not say that
      nothing is there; a listing of file systems with a token for a next page may be partial,
      and may show deleted ones.  The properties say what follows from these in terms of the
      log: [Store.leaks], [Store.denied], [FssStore.cut_short], [FssAssets.denied].
    - [BlockLive.PromptVolumes], [FssLive.PromptFiles]: services that are in order and fast
      enough, for the properties that a volume is provisioned.
    - [Deployment.acknowledged]: the volumes that all the processes make are accounted for as
      far as the replies tell; [Deployment.Elsewhere] has what else happens to the volumes.
    - [Ledger.shows_stored]: the API server shows objects that were saved, by their names.
    - The latency of the electors' calls, the time of an operation and the delay of results
      are parameters of Lease.v and Operations.v, with the bounds that a theorem needs as its
      hypotheses; whether a watch delivers results that are of no operation under way is the
      parameter [strays].

    ** What the theorems show

    - The protocols: every run of [Block.Provision] and [Fss.Provision] follows its state
      machine, deletes only what it created, creates only after its checks, and answers with
      the volume or the error in which the protocol ended (BlockSpec.v, FssSpec.v); what is
      left behind when it fails; how many calls it can make; when its cleanup is too late.
    - The life cycle: a volume that core hands out and deletes later is deleted by the plugin
      that made it, and it is that very volume (CoreSpec.v).
    - The controller with this program behind it: every volume that an operation on a claim
      creates is saved once or asked to be deleted, a volume is deleted only when it is
      released and the policy says so, and what is returned has the type that the plugin's
      [Delete] and the controller rely on (ControllerSpec.v, Typing.v); that the check for a
      volume that was saved for the claim never finds it (Ledger.v), and what a second
      operation on the same claim does (Scenarios.v); that a claim has one worker and is never
      given up (Queue.v), and at most one leader among all processes (Lease.v).
    - The operations on a claim in all processes: if they end within the deadline for a
      renewal, they are all in the process that the claim names, whatever the watches deliver,
      and there is at most one, if no result is stray and they end within the term
      (Operations.v); longer ones overlap, in one process or in several (Overlap.v).
    - The volumes of a claim among all processes: whatever overlaps and wherever an operation
      is cut short, each volume is that of one PV object and exists, or its deletion was asked
      for, or an operation has it in hand; and with short operations the processes take turns
      in making and saving volumes (Ledger.v, Deployment.v), which fails with operations as
      long as the lease (Scenarios.v).
    - The contract of the block plugin: it refines a store of volumes, over any sequence of
      operations (Store.v), and succeeds if the services are prompt (BlockLive.v).
    - The contract of the file-storage plugin: over any sequence of attempts for any claims, a
      claim gets at most one file system, and all its successes return that one, if no listing
      is cut short (FssStore.v); over any sequence of operations it refines a store of file
      systems and exports (FssAssets.v); it succeeds if the services are in order, whatever an earlier attempt
      left (FssLive.v).
    - The operations: [Delete] on every branch; the choice of the availability domain; the
      labels and annotations written, and that the labels are accepted as selectors.
    - Sizes: what is asked for covers the claim, with the exact range in which the int64
      arithmetic is exact and the values for which it wraps (BlockSpec.v over Quantity.v);
      parsing is exact, rounded to billionths (ParseSpec.v).
    - Termination: the polling loop and the paging loop (Wait.v, FssSpec.v).
    - Start-up and configuration: the command lines that are accepted are those of a grammar
      and set what they say (Flags.v), except for the logger, which is built before they are
      read; validation reports exactly the offending settings, the client is made only from a
      valid configuration, and the controller runs only after every step of the start-up
      succeeded (Config.v, Client.v, Startup.v).
    - Logging and signals (Logging.v, Signals.v).

    ** Fuel

    [Wait.WaitFor] polls for a timeout of 0 without end, so it takes fuel;
    [Wait.enough_fuel] is enough for every positive timeout: one more round than the timeout
    has intervals.  That is 37 for the three minutes of a block volume (which
    [NewOCIProvisioner] fixes) and 61 for the five minutes of the file-storage waits
    ([Fss.poll_fuel]).  The paging loop of [Fss.findExport] goes on as long as the service
    returns page tokens; it terminates when the tokens decrease in some measure, with one
    more round than the measure of the first.

    The loops of the controller over its retries and the scanners of quantities and versions
    recurse on a count or on the text and need no fuel.

    ** What is not modelled

    - client-go (the REST client, informers and listers: the classes [Startup.Kube] and
      [Controller.ApiServer]), the watch on a claim's events, and the controller's metrics.
      The election is the class [Controller.Election] for the operations that run in it, and
      has models of its own in Lease.v and Operations.v; of the watch, Ledger.v has the events
      that it reports as results and Operations.v the time that this takes, and whether it may
      report others.  Lease.v takes the polling of its renewals as a bound on when the last try
      begins, the API server to refuse an update of a version of the claim that is not the last
      one, and nobody else to change the record in the claim's annotation.
    - That others edit or remove that record, after which a new elector takes the lock.
    - The delay of the token bucket, an argument in Queue.v, and the order in which the
      delaying queue releases its items, which is left open there.
    - Log messages, and the [cancel] functions of contexts, which run after the last use of
      the context they cancel.  The scheduling of goroutines is taken to need no time.
    - The printed form of quantities, and [Format], which only affects it.
    - The umask that main sets, and the flags of other linked packages (the class
      [Flags.OtherFlags]).
    - In Deployment.v: that a volume of the claim is touched by others, as it is when its PV
      object is released, and how the times of the calls relate to the contest for the claim.
    - src/test/e2e, which drives clusters with kubectl and the SDK, the manifests and the
      build. *)

From Stdlib Require Export ZArith Lia.
From stdpp Require Export base list gmap strings option.
Export list_basics.list list_relations.list list_monad.list list_misc.list.

#[export] Set Default Goal Selector "!".

(** ** Go's machine integers

    An [int64] (and an [int] of a 64-bit platform) is kept as a [Z] in
    [int64_range]; every arithmetic operation wraps around explicitly. *)

Definition two63 : Z := 9223372036854775808.
Definition two64 : Z := 18446744073709551616.
Definition two32 : Z := 4294967296.

Definition MaxInt64 : Z := two63 - 1.
Definition MinInt64 : Z := - two63.

Definition int64_range (z : Z) : Prop := (MinInt64 <= z <= MaxInt64)%Z.
Definition uint32_range (z : Z) : Prop := (0 <= z < two32)%Z.

Definition wrap64 (z : Z) : Z := ((z + two63) mod two64 - two63)%Z.
Definition wrap32u (z : Z) : Z := (z mod two32)%Z.

Definition add64 (a b : Z) : Z := wrap64 (a + b).
Definition sub64 (a b : Z) : Z := wrap64 (a - b).
Definition mul64 (a b : Z) : Z := wrap64 (a * b).
(** Go's [/] and [%] truncate toward zero. *)
Definition div64 (a b : Z) : Z := wrap64 (Z.quot a b).
Definition rem64 (a b : Z) : Z := Z.rem a b.

Ltac unfold_int :=
  unfold int64_range, uint32_range, MaxInt64, MinInt64, two63, two64, two32 in *.

Lemma wrap64_id z : int64_range z -> wrap64 z = z.
Proof. unfold wrap64. unfold_int. intros ?. rewrite Z.mod_small; lia. Qed.

Lemma wrap64_range z : int64_range (wrap64 z).
Proof.
  unfold wrap64. unfold_int.
  pose proof (Z.mod_pos_bound (z + 9223372036854775808) 18446744073709551616). lia.
Qed.

Lemma wrap64_above z :
  (two63 <= z < two63 + two64)%Z -> wrap64 z = (z - two64)%Z.
Proof.
  unfold wrap64. unfold_int. intros H.
  replace (z + 9223372036854775808)%Z
    with ((z - 9223372036854775808) + 1 * 18446744073709551616)%Z by lia.
  rewrite Z.mod_add by lia. rewrite Z.mod_small; lia.
Qed.

Lemma wrap64_add_l a b : wrap64 (wrap64 a + b) = wrap64 (a + b).
Proof.
  unfold wrap64. f_equal.
  replace ((a + two63) mod two64 - two63 + b + two63)%Z
    with ((a + two63) mod two64 + b)%Z by lia.
  rewrite Z.add_mod_idemp_l by (unfold_int; lia). f_equal. lia.
Qed.

Lemma wrap32u_range z : uint32_range (wrap32u z).
Proof. unfold wrap32u. unfold_int. apply Z.mod_pos_bound. lia. Qed.

Lemma wrap32u_id z : uint32_range z -> wrap32u z = z.
Proof. unfold wrap32u. unfold_int. intros ?. apply Z.mod_small. lia. Qed.

Lemma add64_id a b : int64_range (a + b) -> add64 a b = (a + b)%Z.
Proof. apply wrap64_id. Qed.

Lemma sub64_id a b : int64_range (a - b) -> sub64 a b = (a - b)%Z.
Proof. apply wrap64_id. Qed.

(** A quotient by a divisor of at least one stays in range. *)
Lemma div64_pos a b :
  int64_range a -> (1 <= b)%Z -> div64 a b = Z.quot a b.
Proof.
  unfold div64. intros Ha Hb. apply wrap64_id. unfold_int.
  destruct (Z_le_gt_dec 0 a).
  - rewrite Z.quot_div_nonneg by lia.
    pose proof (Z.div_le_upper_bound a b a). pose proof (Z.div_pos a b). nia.
  - replace a with (- (- a))%Z by lia. rewrite Z.quot_opp_l by lia.
    rewrite Z.quot_div_nonneg by lia.
    pose proof (Z.div_le_upper_bound (- a) b (- a)). pose proof (Z.div_pos (- a) b). nia.
Qed.

Create HintDb goint.
Create Rewrite HintDb goint_rw.
#[export] Hint Resolve wrap64_range wrap32u_range : goint.
#[export] Hint Rewrite wrap64_id wrap32u_id add64_id sub64_id using (unfold_int; lia) : goint_rw.

(** ** Go's maps

    A map that is only read is a [gmap]: reading a nil map and reading an empty one agree.
    A map that is written is a [gomap]: [None] is the nil map, and writing to it panics. *)

Definition gomap (A : Type) : Type := option (gmap string A).

Definition gomap_lookup {A} (m : gomap A) (k : string) : option A :=
  match m with Some g => g !! k | None => None end.

(** Reading a [map[string]string] without the [ok] result gives the zero value. *)
Definition read_or_empty (m : gmap string string) (k : string) : string :=
  default EmptyString (m !! k).

(** ** Lists and options *)

(** The first element that satisfies a test, as Go's [for ... range] with an early return. *)
Fixpoint first_such {A} (p : A -> bool) (l : list A) : option A :=
  match l with
  | [] => None
  | x :: r => if p x then Some x else first_such p r
  end.

Lemma first_such_Some {A} (p : A -> bool) (l : list A) x :
  first_such p l = Some x <->
  exists l1 l2, l = l1 ++ x :: l2 /\ p x = true /\ Forall (fun y => p y = false) l1.
Proof.
  split.
  - induction l as [|y r IH]; simpl; [done|].
    destruct (p y) eqn:Hy.
    + intros [= ->]. exists [], r. auto.
    + intros (l1 & l2 & -> & Hx & Hall)%IH. exists (y :: l1), l2. auto.
  - intros (l1 & l2 & -> & Hx & Hall).
    induction Hall as [|y r Hy Hr IH]; simpl; [by rewrite Hx|by rewrite Hy].
Qed.

Lemma first_such_None {A} (p : A -> bool) (l : list A) :
  first_such p l = None <-> Forall (fun y => p y = false) l.
Proof.
  induction l as [|y r IH]; simpl; [done|].
  destruct (p y) eqn:Hy.
  - split; [done|]. intros H. inversion H; congruence.
  - rewrite IH. split; [by constructor|]. intros H. by inversion H.
Qed.

Lemma first_such_In {A} (p : A -> bool) (l : list A) x :
  first_such p l = Some x -> x ∈ l /\ p x = true.
Proof.
  intros (l1 & l2 & -> & Hx & _)%first_such_Some. split; [set_solver|done].
Qed.

Lemma first_such_app {A} (p : A -> bool) (l k : list A) :
  first_such p (l ++ k) =
  match first_such p l with Some x => Some x | None => first_such p k end.
Proof. induction l as [|y r IH]; simpl; [done|]. by destruct (p y). Qed.

(** ** Tactics

    [case_bool] splits on the string or integer tests of
    the code that appear in the goal. *)
Ltac case_bool :=
  match goal with
  | |- context [bool_decide ?P] => destruct (bool_decide_reflect P)
  | |- context [String.eqb ?a ?b] => destruct (String.eqb_spec a b)
  | |- context [Z.eqb ?a ?b] => destruct (Z.eqb_spec a b)
  | |- context [Z.ltb ?a ?b] => destruct (Z.ltb_spec a b)
  | |- context [Z.leb ?a ?b] => destruct (Z.leb_spec a b)
  end.
