(* ===== verification/GoStrings.v ===== *)
(** * The part of Go's [strings], [strconv] and [fmt] packages that the program uses

    A Go string is a sequence of bytes: a [string], one [ascii] per byte.  Every separator
    the program splits on is one byte, and so is the byte it searches for. *)

From Stdlib Require Import Ascii.
From stdpp Require Import pretty.
From S2P Require Import Prelude.

(** ** Slicing: [s\[n:\]] and [s\[:n\]] *)

Fixpoint sdrop (n : nat) (s : string) : string :=
  match n, s with
  | O, _ => s
  | S _, EmptyString => EmptyString
  | S n, String _ r => sdrop n r
  end.

Fixpoint stake (n : nat) (s : string) : string :=
  match n, s with
  | O, _ => EmptyString
  | S _, EmptyString => EmptyString
  | S n, String c r => String c (stake n r)
  end.

(** [s = empty] in Go. *)
Definition is_empty (s : string) : bool := String.eqb s EmptyString.

(** ** [strings] *)

Definition HasPrefix (s prefix : string) : bool :=
  (String.length prefix <=? String.length s)%nat
  && String.eqb (stake (String.length prefix) s) prefix.

Definition HasSuffix (s suffix : string) : bool :=
  (String.length suffix <=? String.length s)%nat
  && String.eqb (sdrop (String.length s - String.length suffix) s) suffix.

(** The text before and after the first [c]. *)
Fixpoint cut (s : string) (c : ascii) : option (string * string) :=
  match s with
  | EmptyString => None
  | String a r =>
      if Ascii.eqb a c then Some (EmptyString, r)
      else match cut r c with
           | Some (x, y) => Some (String a x, y)
           | None => None
           end
  end.

Fixpoint Count (s : string) (c : ascii) : nat :=
  match s with
  | EmptyString => 0
  | String a r => (if Ascii.eqb a c then 1 else 0) + Count r c
  end.

(** [strings.SplitN(s, sep, n)] for a one-byte [sep]; [n = 0] gives nil. *)
Fixpoint SplitN (s : string) (c : ascii) (n : nat) : list string :=
  match n with
  | O => []
  | S O => [s]
  | S m => match cut s c with
           | Some (x, y) => x :: SplitN y c m
           | None => [s]
           end
  end.

Definition Split (s : string) (c : ascii) : list string := SplitN s c (S (Count s c)).

(** [strings.LastIndexByte]; [None] is [-1]. *)
Fixpoint LastIndexByte (s : string) (c : ascii) : option nat :=
  match s with
  | EmptyString => None
  | String a r =>
      match LastIndexByte r c with
      | Some i => Some (S i)
      | None => if Ascii.eqb a c then Some 0 else None
      end
  end.

(** [unicode.IsSpace] on the UTF-8 encodings of one, two and three bytes. *)
Definition space1 (a : ascii) : bool :=
  let n := nat_of_ascii a in ((9 <=? n) && (n <=? 13))%nat || (n =? 32)%nat.

Definition space2 (a b : ascii) : bool :=
  (nat_of_ascii a =? 194)%nat
  && ((nat_of_ascii b =? 133)%nat || (nat_of_ascii b =? 160)%nat).

Definition space3 (a b c : ascii) : bool :=
  let x := nat_of_ascii a in let y := nat_of_ascii b in let z := nat_of_ascii c in
  ((x =? 225) && (y =? 154) && (z =? 128))%nat
  || ((x =? 226) && (y =? 128)
      && (((128 <=? z) && (z <=? 138)) || (z =? 168) || (z =? 169) || (z =? 175)))%nat
  || ((x =? 226) && (y =? 129) && (z =? 159))%nat
  || ((x =? 227) && (y =? 128) && (z =? 128))%nat.

Section Trim.
Variable sp2 : ascii -> ascii -> bool.
Variable sp3 : ascii -> ascii -> ascii -> bool.

Fixpoint trim_bytes (l : list ascii) : list ascii :=
  match l with
  | [] => []
  | a :: l1 =>
      if space1 a then trim_bytes l1
      else match l1 with
           | [] => l
           | b :: l2 =>
               if sp2 a b then trim_bytes l2
               else match l2 with
                    | [] => l
                    | c :: l3 => if sp3 a b c then trim_bytes l3 else l
                    end
           end
  end.
End Trim.

Definition TrimLeftSpace (l : list ascii) : list ascii := trim_bytes space2 space3 l.
Definition TrimRightSpace (l : list ascii) : list ascii :=
  rev (trim_bytes (fun a b => space2 b a) (fun a b c => space3 c b a) (rev l)).

Definition TrimSpace (s : string) : string :=
  String.string_of_list_ascii (TrimRightSpace (TrimLeftSpace (String.list_ascii_of_string s))).

(** [bytes.ToLower] on ASCII letters and the two other characters whose lower-case form is
    ASCII (I with a dot above, and the Kelvin sign).  Other characters are kept: their
    lower-case forms are not ASCII either. *)
Definition lower_byte (c : ascii) : ascii :=
  let n := nat_of_ascii c in
  if (65 <=? n)%nat && (n <=? 90)%nat then ascii_of_nat (n + 32) else c.

Definition nat_bytes (l : list nat) : list ascii := map ascii_of_nat l.

Fixpoint lower_bytes (l : list ascii) : list ascii :=
  match l with
  | [] => []
  | a :: l1 =>
      match l1 with
      | b :: l2 =>
          if bool_decide ([a; b] = nat_bytes [196; 176]) then "i"%char :: lower_bytes l2
          else match l2 with
               | c :: l3 =>
                   if bool_decide ([a; b; c] = nat_bytes [226; 132; 170])
                   then "k"%char :: lower_bytes l3
                   else lower_byte a :: lower_bytes l1
               | [] => lower_byte a :: lower_bytes l1
               end
      | [] => [lower_byte a]
      end
  end.

Definition ToLower (s : string) : string :=
  String.string_of_list_ascii (lower_bytes (String.list_ascii_of_string s)).

(** ** [strconv] *)

Definition ParseBool (s : string) : option bool :=
  if bool_decide (s ∈ ["1"; "t"; "T"; "true"; "TRUE"; "True"]) then Some true
  else if bool_decide (s ∈ ["0"; "f"; "F"; "false"; "FALSE"; "False"]) then Some false
  else None.

Definition digit (c : ascii) : option Z :=
  let n := Z.of_nat (nat_of_ascii c) in
  if ((48 <=? n) && (n <=? 57))%Z then Some (n - 48)%Z else None.

Fixpoint parse_digits (max : Z) (acc : Z) (s : string) : option Z :=
  match s with
  | EmptyString => Some acc
  | String c r =>
      match digit c with
      | Some d => let acc' := (acc * 10 + d)%Z in
                  if (max <? acc')%Z then None else parse_digits max acc' r
      | None => None
      end
  end.

(** [strconv.ParseUint(s, 10, 32)]; [None] is any of its errors. *)
Definition ParseUint32 (s : string) : option Z :=
  match s with
  | EmptyString => None
  | _ => parse_digits (two32 - 1) 0 s
  end.

Definition is_digit (c : ascii) : bool := match digit c with Some _ => true | None => false end.

(** The longest prefix of bytes that satisfy a test, and the rest. *)
Fixpoint span (p : ascii -> bool) (s : string) : string * string :=
  match s with
  | EmptyString => (EmptyString, EmptyString)
  | String c r => if p c then let '(x, y) := span p r in (String c x, y) else (EmptyString, s)
  end.

(** [strconv.Quote] on ASCII text; bytes from 128 on are copied, which is what Quote does
    for printable UTF-8. *)
Definition hex_digit (n : nat) : ascii :=
  ascii_of_nat (if (n <? 10)%nat then 48 + n else 87 + n).

Definition quote_byte (c : ascii) : string :=
  let n := nat_of_ascii c in
  let esc (k : nat) := String "\" (String (ascii_of_nat k) EmptyString) in
  if (n =? 34)%nat || (n =? 92)%nat then esc n
  else if (128 <=? n)%nat || ((32 <=? n) && (n <=? 126))%nat then String c EmptyString
  else if (n =? 7)%nat then esc 97
  else if (n =? 8)%nat then esc 98
  else if (n =? 12)%nat then esc 102
  else if (n =? 10)%nat then esc 110
  else if (n =? 13)%nat then esc 114
  else if (n =? 9)%nat then esc 116
  else if (n =? 11)%nat then esc 118
  else String "\" (String "x" (String (hex_digit (n / 16))
         (String (hex_digit (n mod 16)) EmptyString))).

Fixpoint quote_bytes (s : string) : string :=
  match s with
  | EmptyString => EmptyString
  | String c r => quote_byte c +:+ quote_bytes r
  end.

Definition dquote : string := String (ascii_of_nat 34) EmptyString.
Definition Quote (s : string) : string := dquote +:+ quote_bytes s +:+ dquote.

(** ** [fmt.Sprintf] for the verbs of the source: [%s], [%v], [%q] and [%d] *)

Inductive fmt_arg : Type :=
| FStr (s : string)
| FInt (z : Z).

Definition format_arg (verb : ascii) (a : fmt_arg) : string :=
  match a with
  | FStr s =>
      if Ascii.eqb verb "s" || Ascii.eqb verb "v" then s
      else if Ascii.eqb verb "q" then Quote s
      else "%!" +:+ String verb ("(string=" +:+ s +:+ ")")
  | FInt z =>
      if Ascii.eqb verb "d" || Ascii.eqb verb "v" then pretty z
      else "%!" +:+ String verb ("(int=" +:+ pretty z +:+ ")")
  end.

Fixpoint Sprintf (f : string) (args : list fmt_arg) : string :=
  match f with
  | EmptyString => EmptyString
  | String "%" (String v r) =>
      if Ascii.eqb v "%" then String "%" (Sprintf r args)
      else match args with
           | a :: args' => format_arg v a +:+ Sprintf r args'
           | [] => "%!" +:+ String v ("(MISSING)" +:+ Sprintf r [])
           end
  | String c r => String c (Sprintf r args)
  end.

(** ** Lemmas *)

Lemma append_assoc s t u : (s +:+ t) +:+ u = s +:+ (t +:+ u).
Proof. induction s as [|c s IH]; simpl; [done|]. unfold String.append in *. simpl. by f_equal. Qed.

Lemma append_nil_r s : s +:+ EmptyString = s.
Proof. induction s as [|c s IH]; [done|]. change (String c (s +:+ EmptyString) = String c s). by f_equal. Qed.

Lemma append_cons c s t : String c s +:+ t = String c (s +:+ t).
Proof. done. Qed.

Lemma length_append s t : String.length (s +:+ t) = String.length s + String.length t.
Proof. induction s as [|c s IH]; [done|]. rewrite append_cons. simpl. by rewrite IH. Qed.

Lemma sdrop_app s t : sdrop (String.length s) (s +:+ t) = t.
Proof. by induction s. Qed.

Lemma stake_app s t : stake (String.length s) (s +:+ t) = s.
Proof. induction s as [|c s IH]; [done|]. rewrite append_cons. simpl. by rewrite IH. Qed.

Lemma stake_sdrop n s : stake n s +:+ sdrop n s = s.
Proof.
  revert s. induction n as [|n IH]; intros [|c s]; try done.
  simpl. rewrite append_cons. by rewrite IH.
Qed.

Lemma length_stake n s : n <= String.length s -> String.length (stake n s) = n.
Proof.
  revert s. induction n as [|n IH]; intros [|c s]; simpl; try lia.
  intros H. rewrite IH; lia.
Qed.

Lemma HasPrefix_spec s p : HasPrefix s p = true <-> exists r, s = p +:+ r.
Proof.
  unfold HasPrefix. rewrite andb_true_iff, Nat.leb_le, String.eqb_eq. split.
  - intros [_ H]. exists (sdrop (String.length p) s).
    rewrite <- (stake_sdrop (String.length p) s) at 1. by rewrite H.
  - intros [r ->]. rewrite length_append, stake_app. split; [lia|done].
Qed.

Lemma HasSuffix_spec s p : HasSuffix s p = true <-> exists r, s = r +:+ p.
Proof.
  unfold HasSuffix. rewrite andb_true_iff, Nat.leb_le, String.eqb_eq. split.
  - intros [_ H]. set (n := String.length s - String.length p) in *. exists (stake n s).
    rewrite <- (stake_sdrop n s) at 1. by rewrite H.
  - intros [r ->]. rewrite length_append. split; [lia|].
    replace (String.length r + String.length p - String.length p)
      with (String.length r) by lia.
    apply sdrop_app.
Qed.

Lemma cut_Some s c x y : cut s c = Some (x, y) -> s = x +:+ String c y /\ Count x c = 0.
Proof.
  revert x y. induction s as [|a s IH]; intros x y; simpl; [done|].
  destruct (Ascii.eqb_spec a c) as [->|Hne].
  - intros [= <- <-]. done.
  - destruct (cut s c) as [[x' y']|]; [|done]. intros [= <- <-].
    destruct (IH x' y') as [-> Hc]; [done|].
    rewrite append_cons. split; [done|].
    simpl. apply Ascii.eqb_neq in Hne. by rewrite Hne.
Qed.

Lemma cut_None s c : cut s c = None <-> Count s c = 0.
Proof.
  induction s as [|a s IH]; simpl; [done|].
  destruct (Ascii.eqb a c); [split; [done|lia]|].
  rewrite Nat.add_0_l, <- IH. destruct (cut s c) as [[??]|]; done.
Qed.

Lemma cut_app x c y : Count x c = 0 -> cut (x +:+ String c y) c = Some (x, y).
Proof.
  induction x as [|a x IH]; intros H.
  - change (cut (String c y) c = Some (EmptyString, y)). simpl. by rewrite Ascii.eqb_refl.
  - rewrite append_cons. simpl in *. destruct (Ascii.eqb a c); [lia|].
    rewrite IH by lia. done.
Qed.

Lemma Count_app s t c : Count (s +:+ t) c = Count s c + Count t c.
Proof. induction s as [|a s IH]; [done|]. rewrite append_cons. simpl. rewrite IH. lia. Qed.

(** Joining the pieces with the separator gives the string back. *)
Fixpoint Join (l : list string) (c : ascii) : string :=
  match l with
  | [] => EmptyString
  | [x] => x
  | x :: r => x +:+ String c (Join r c)
  end.

Lemma SplitN_nonempty s c n : n <> 0 -> SplitN s c n <> [].
Proof. destruct n as [|[|n]]; simpl; [done..|]. by destruct (cut s c) as [[??]|]. Qed.

Lemma SplitN_SS s c n :
  SplitN s c (S (S n)) =
  match cut s c with Some (x, y) => x :: SplitN y c (S n) | None => [s] end.
Proof. done. Qed.

Lemma Join_cons x l c : l <> [] -> Join (x :: l) c = x +:+ String c (Join l c).
Proof. by destruct l. Qed.

Lemma Join_SplitN s c n : n <> 0 -> Join (SplitN s c n) c = s.
Proof.
  revert s. induction n as [|n IH]; [done|]. intros s _.
  destruct n as [|n]; [done|]. rewrite SplitN_SS.
  destruct (cut s c) as [[x y]|] eqn:Hc; [|done].
  apply cut_Some in Hc as [-> _].
  rewrite Join_cons by (by apply SplitN_nonempty). by rewrite IH.
Qed.

Lemma SplitN_length s c n : length (SplitN s c n) <= n.
Proof.
  revert s. induction n as [|n IH]; [done|]. intros s.
  destruct n as [|n]; [done|]. rewrite SplitN_SS.
  destruct (cut s c) as [[x y]|]; [|simpl; lia].
  rewrite length_cons. specialize (IH y). lia.
Qed.

Lemma digit_range c d : digit c = Some d -> (0 <= d <= 9)%Z.
Proof.
  unfold digit. destruct (_ && _) eqn:E; [|done]. intros [= <-].
  apply andb_true_iff in E as [H1%Z.leb_le H2%Z.leb_le]. lia.
Qed.

Lemma parse_digits_range max acc s z :
  (0 <= acc <= max)%Z -> parse_digits max acc s = Some z -> (0 <= z <= max)%Z.
Proof.
  revert acc. induction s as [|c s IH]; simpl; intros acc Hacc; [by intros [= <-]|].
  destruct (digit c) as [d|] eqn:Hd; [|done]. apply digit_range in Hd.
  destruct (Z.ltb_spec max (acc * 10 + d)); [done|]. apply IH. lia.
Qed.

Lemma ParseUint32_range s z : ParseUint32 s = Some z -> uint32_range z.
Proof.
  unfold ParseUint32. destruct s as [|c s]; [done|]. intros H.
  apply parse_digits_range in H; unfold_int; lia.
Qed.

Create HintDb gostrings.
#[export] Hint Resolve SplitN_nonempty SplitN_length ParseUint32_range : gostrings.

Lemma is_empty_true s : is_empty s = true <-> s = EmptyString.
Proof. apply String.eqb_eq. Qed.
