(* ===== verification/Errors.v ===== *)
(** * Error values

    Go errors as the program creates and inspects them: the package-level sentinels, which
    are compared by identity; the flat messages of [errors.New], [errors.Errorf] and
    [fmt.Errorf]; the wrappers of github.com/pkg/errors; the errors the OCI SDK returns;
    [controller.IgnoredError]; and the aggregated field errors of the configuration
    validation.  A Go variable of type [error] is an [option error]: [None] is nil. *)

From S2P Require Import Prelude GoStrings.

(** The package-level [errors.New] values: each is a distinct pointer. *)
Inductive sentinel : Set :=
| provisioner_errNotFound
| fss_errNotFound
| fss_errNoCandidateFound
| wait_ErrWaitTimeout.

(** What an SDK call returns as its error: a [servicefailure], or anything else (transport
    failures, an expired context). *)
Inductive sdk_error : Set :=
| ServiceFailure (StatusCode : Z) (Code Message : string)
| OtherSDKError (msg : string).

(** [field.ErrorType]: the two the program produces. *)
Inductive ErrorType : Set := ErrorTypeRequired | ErrorTypeForbidden.

(** [field.Error]; [BadValue] is always the empty string here and is not printed for these
    two types. *)
Record field_Error : Set := { Type_ : ErrorType; Field : string; Detail : string }.

Inductive error : Set :=
| ErrSentinel (s : sentinel)
| ErrFundamental (msg : string)
| ErrWithMessage (cause : error) (msg : string)
| ErrWithStack (cause : error)
| ErrSDK (e : sdk_error)
| ErrIgnored (Reason : string)
| ErrAggregate (errs : list field_Error).

#[export] Instance sentinel_eq_dec : EqDecision sentinel.
Proof. solve_decision. Defined.
#[export] Instance sdk_error_eq_dec : EqDecision sdk_error.
Proof. solve_decision. Defined.
#[export] Instance ErrorType_eq_dec : EqDecision ErrorType.
Proof. solve_decision. Defined.
#[export] Instance field_Error_eq_dec : EqDecision field_Error.
Proof. solve_decision. Defined.
#[export] Instance error_eq_dec : EqDecision error.
Proof. solve_decision. Defined.

(** A Go [(T, error)] result of which the callers use one half: [Ok v] is [(v, nil)] and
    [Err e] is [(zero, e)] with [e] not nil. *)
Inductive result (A : Type) : Type :=
| Ok (a : A)
| Err (e : error).
Arguments Ok {A} _.
Arguments Err {A} _.

(** ** Messages *)

Definition sentinel_msg (s : sentinel) : string :=
  match s with
  | provisioner_errNotFound | fss_errNotFound => "not found"
  | fss_errNoCandidateFound => "no candidate mount targets found"
  | wait_ErrWaitTimeout => "timed out waiting for the condition"
  end.

Definition sdk_msg (e : sdk_error) : string :=
  match e with
  | ServiceFailure st c m =>
      Sprintf "Service error:%s. %s. http status code: %d" [FStr c; FStr m; FInt st]
  | OtherSDKError m => m
  end.

(** [ErrorType.String] *)
Definition ErrorType_String (t : ErrorType) : string :=
  match t with
  | ErrorTypeRequired => "Required value"
  | ErrorTypeForbidden => "Forbidden"
  end.

(** [Error.ErrorBody]: the two types above do not print the bad value. *)
Definition ErrorBody (v : field_Error) : string :=
  let s := ErrorType_String (Type_ v) in
  if (String.length (Detail v) =? 0)%nat then s
  else s +:+ Sprintf ": %s" [FStr (Detail v)].

Definition field_Error_String (v : field_Error) : string :=
  Sprintf "%s: %s" [FStr (Field v); FStr (ErrorBody v)].

Definition aggregate_msg (agg : list field_Error) : string :=
  match agg with
  | [] => EmptyString
  | [e] => field_Error_String e
  | e :: r =>
      foldl (fun acc x => acc +:+ Sprintf ", %s" [FStr (field_Error_String x)])
            (Sprintf "[%s" [FStr (field_Error_String e)]) r +:+ "]"
  end.

(** The [Error()] method. *)
Fixpoint Error (e : error) : string :=
  match e with
  | ErrSentinel s => sentinel_msg s
  | ErrFundamental m => m
  | ErrWithMessage c m => m +:+ ": " +:+ Error c
  | ErrWithStack c => Error c
  | ErrSDK e => sdk_msg e
  | ErrIgnored r => Sprintf "ignored because %s" [FStr r]
  | ErrAggregate l => aggregate_msg l
  end.

(** [fmt.Errorf], [errors.Errorf] and [errors.New]: the text is fixed when the error is
    made, so an error passed as an argument survives only as its message. *)
Definition Errorf (f : string) (args : list fmt_arg) : error := ErrFundamental (Sprintf f args).
Definition errors_New (m : string) : error := ErrFundamental m.

(** [errors.Wrap] of a non-nil error. *)
Definition Wrap (e : error) (m : string) : error := ErrWithStack (ErrWithMessage e m).

(** ** Inspection *)

(** [errors.Cause] *)
Fixpoint Cause (e : error) : error :=
  match e with
  | ErrWithMessage c _ | ErrWithStack c => Cause c
  | _ => e
  end.

Definition StatusNotFound : Z := 404.
Definition StatusOK : Z := 200.

(** [common.IsServiceError]: the status code when [err] is a service error. *)
Definition IsServiceError (e : error) : option Z :=
  match e with ErrSDK (ServiceFailure st _ _) => Some st | _ => None end.

(** [provisioner.IsNotFound] *)
Definition IsNotFound (err : option error) : bool :=
  match err with
  | None => false
  | Some e =>
      let c := Cause e in
      if bool_decide (c = ErrSentinel provisioner_errNotFound) then true
      else match IsServiceError c with
           | Some st => (st =? StatusNotFound)%Z
           | None => false
           end
  end.

(** ** Lemmas *)

Lemma Cause_idemp e : Cause (Cause e) = Cause e.
Proof. by induction e. Qed.

Lemma IsNotFound_Cause e : IsNotFound (Some (Cause e)) = IsNotFound (Some e).
Proof. simpl. by rewrite Cause_idemp. Qed.

(** ** Properties *)

(** [IsNotFound] holds exactly for the package's own sentinel and for a service error
    with status 404, each possibly wrapped by github.com/pkg/errors; wrapping never changes
    the answer, while formatting the same error into a new message with [fmt.Errorf] always
    loses it. *)
Theorem IsNotFound_spec e m f args :
  (IsNotFound (Some e) = true <->
     Cause e = ErrSentinel provisioner_errNotFound
     \/ exists c msg, Cause e = ErrSDK (ServiceFailure StatusNotFound c msg))
  /\ IsNotFound (Some (Wrap e m)) = IsNotFound (Some e)
  /\ IsNotFound (Some (Errorf f args)) = false
  /\ IsNotFound None = false.
Proof.
  split; [|done]. unfold IsNotFound. case_bool.
  - split; auto.
  - split.
    + unfold IsServiceError. destruct (Cause e) as [| | | |[st c msg|]| |]; try done.
      intros ->%Z.eqb_eq. right. eauto.
    + intros [?|(c & msg & ->)]; [done|reflexivity].
Qed.
