(* ===== verification/Version.v ===== *)
(** * Versions: k8s.io/kubernetes/pkg/util/version (vendored)

    The versions by which the provision controller tells API servers apart: parsing, with the
    two regular expressions as scanners, and comparison. *)

From Stdlib Require Import Ascii.
From S2P Require Import Prelude GoStrings Errors.

Open Scope Z_scope.

(** [components] are Go [uint]s. *)
Record Version : Type := {
  components : list Z;
  semver : bool;
  preRelease : string;
  buildMetadata : string
}.

Definition onlyZeros (array : list Z) : bool := forallb (fun num => num =? 0) array.

(** [strconv.ParseUint(s, 10, 0)] *)
Definition ParseUint64 (s : string) : option Z :=
  if is_empty s then None else parse_digits (two64 - 1) 0 s.

(** ** Parsing *)

(** [\s] of the regular expressions *)
Definition is_space (c : ascii) : bool :=
  let n := nat_of_ascii c in
  (n =? 9)%nat || (n =? 10)%nat || (n =? 12)%nat || (n =? 13)%nat || (n =? 32)%nat.

(** [\[0-9A-Za-z-\]] *)
Definition is_ident (c : ascii) : bool :=
  let n := nat_of_ascii c in
  is_digit c || ((65 <=? n) && (n <=? 90))%nat || ((97 <=? n) && (n <=? 122))%nat || (n =? 45)%nat.

(** [(?:\.p+)*], greedily; the fuel is a length. *)
Fixpoint dotted (p : ascii -> bool) (fuel : nat) (s : string) : string * string :=
  match fuel, s with
  | S fuel, String c r =>
      if Ascii.eqb c "." then
        let '(x, r') := span p r in
        if is_empty x then (EmptyString, s)
        else let '(y, r'') := dotted p fuel r' in (String c (x +:+ y), r'')
      else (EmptyString, s)
  | _, _ => (EmptyString, s)
  end.

(** [p+(?:\.p+)*] *)
Definition dotted_list (p : ascii -> bool) (s : string) : option (string * string) :=
  let '(x, r) := span p s in
  if is_empty x then None
  else let '(y, r') := dotted p (String.length r) r in Some (x +:+ y, r').

(** [versionMatchRE]: the numbers and the rest, which has no newline. *)
Definition versionMatch (str : string) : option (string * string) :=
  let '(_, s) := span is_space str in
  let s := match s with String c r => if Ascii.eqb c "v" then r else s | EmptyString => s end in
  match dotted_list is_digit s with
  | Some (numbers, extra) =>
      if (Count extra (ascii_of_nat 10) =? 0)%nat then Some (numbers, extra) else None
  | None => None
  end.

(** An optional group after a mark. *)
Definition marked (mark : ascii) (s : string) : string * string :=
  match s with
  | String c r =>
      if Ascii.eqb c mark then
        match dotted_list is_ident r with Some g => g | None => (EmptyString, s) end
      else (EmptyString, s)
  | EmptyString => (EmptyString, s)
  end.

(** [extraMatchRE]: the pre-release and the build metadata. *)
Definition extraMatch (extra : string) : option (string * string) :=
  let '(pre, r) := marked "-" extra in
  let '(build, r) := marked "+" r in
  let '(_, r) := span is_space r in
  if is_empty r then Some (pre, build) else None.

Definition zero_prefixed (comp : string) : bool := HasPrefix comp "0" && negb (String.eqb comp "0").

Fixpoint parse_components (str : string) (semver : bool) (i : nat) (comps : list string) :
  result (list Z) :=
  match comps with
  | [] => Ok []
  | comp :: comps =>
      if ((i =? 0)%nat || semver) && zero_prefixed comp then
        Err (Errorf "illegal zero-prefixed version component %q in %q" [FStr comp; FStr str])
      else match ParseUint64 comp with
           | None =>
               Err (Errorf "illegal non-numeric version component %q in %q: %v"
                      [FStr comp; FStr str;
                       FStr (Sprintf "strconv.ParseUint: parsing %q: value out of range" [FStr comp])])
           | Some num =>
               match parse_components str semver (S i) comps with
               | Ok nums => Ok (num :: nums)
               | Err e => Err e
               end
           end
  end.

(** A numeric identifier of the pre-release with a leading zero. *)
Definition bad_identifier (comp : string) : bool :=
  match ParseUint64 comp with Some _ => zero_prefixed comp | None => false end.

Definition parse (str : string) (semver : bool) : result Version :=
  match versionMatch str with
  | None => Err (Errorf "could not parse %q as version" [FStr str])
  | Some (numbers, extra) =>
      let comps := Split numbers "."%char in
      if (if semver then negb (length comps =? 3)%nat else (length comps <? 2)%nat)
      then Err (Errorf "illegal version string %q" [FStr str])
      else
        match parse_components str semver O comps with
        | Err e => Err e
        | Ok nums =>
            let v pre build := {| components := nums; semver := semver; preRelease := pre;
                                  buildMetadata := build |} in
            if semver && negb (is_empty extra) then
              match extraMatch extra with
              | None => Err (Errorf "could not parse pre-release/metadata (%s) in version %q"
                               [FStr extra; FStr str])
              | Some (pre, build) =>
                  match filter (fun comp => bad_identifier comp = true) (Split pre "."%char) with
                  | comp :: _ =>
                      Err (Errorf "illegal zero-prefixed version component %q in %q"
                             [FStr comp; FStr str])
                  | [] => Ok (v pre build)
                  end
              end
            else Ok (v EmptyString EmptyString)
        end
  end.

Definition ParseSemantic (str : string) : result Version := parse str true.

(** ** Comparison *)

(** The first loop: a difference in a common component decides. *)
Fixpoint compare_components (v other : list Z) : option Z :=
  match v, other with
  | a :: v, b :: other =>
      if b <? a then Some 1 else if a <? b then Some (-1) else compare_components v other
  | _, _ => None
  end.

Definition compare_identifier (a b : string) : option Z :=
  let by_string :=
    if String.ltb b a then Some 1 else if String.ltb a b then Some (-1) else None in
  match ParseUint64 a, ParseUint64 b with
  | Some vNum, Some oNum =>
      if oNum <? vNum then Some 1 else if vNum <? oNum then Some (-1) else None
  | _, _ => by_string
  end.

(** The second loop, and the comparison of the lengths after it. *)
Fixpoint compare_identifiers (vPR oPR : list string) : Z :=
  match vPR, oPR with
  | a :: vPR, b :: oPR =>
      match compare_identifier a b with Some r => r | None => compare_identifiers vPR oPR end
  | [], [] => 0
  | _ :: _, [] => 1
  | [], _ :: _ => -1
  end.

Definition compare_preRelease (v other : string) : Z :=
  if is_empty v && negb (is_empty other) then 1
  else if negb (is_empty v) && is_empty other then -1
  else if String.eqb v other then 0
  else compare_identifiers (Split v "."%char) (Split other "."%char).

Definition compareInternal (v other : Version) : Z :=
  let vs := components v in
  let os := components other in
  match compare_components vs os with
  | Some r => r
  | None =>
      if (length os <? length vs)%nat && negb (onlyZeros (drop (length os) vs)) then 1
      else if (length vs <? length os)%nat && negb (onlyZeros (drop (length vs) os)) then -1
      else if negb (semver v) || negb (semver other) then 0
      else compare_preRelease (preRelease v) (preRelease other)
  end.

Definition AtLeast (v min : Version) : bool := negb (compareInternal v min =? -1).

(** [MustParseSemantic("v1.5.0")] and the like. *)
Definition release (major minor patch : Z) : Version :=
  {| components := [major; minor; patch]; semver := true; preRelease := EmptyString;
     buildMetadata := EmptyString |}.

(** ** Lemmas *)

(** Between releases the order is the lexicographic one. *)
Lemma AtLeast_release a b c x y z :
  AtLeast (release a b c) (release x y z) = true <->
  x < a \/ x = a /\ (y < b \/ y = b /\ z <= c).
Proof.
  unfold AtLeast, compareInternal. simpl.
  destruct (Z.ltb_spec x a), (Z.ltb_spec a x), (Z.ltb_spec y b), (Z.ltb_spec b y),
    (Z.ltb_spec z c), (Z.ltb_spec c z); simpl; split; intros; try done; try lia.
Qed.

(** ** Versions of API servers *)

Example ParseSemantic_release : ParseSemantic "v1.5.0" = Ok (release 1 5 0).
Proof. reflexivity. Qed.

Example ParseSemantic_vendor :
  ParseSemantic "v1.9.3-rc.1+10ab " =
  Ok {| components := [1; 9; 3]; semver := true; preRelease := "rc.1"; buildMetadata := "10ab" |}.
Proof. reflexivity. Qed.

Example ParseSemantic_errors :
  map (fun s => match ParseSemantic s with Err e => Error e | Ok _ => EmptyString end)
    ["1.9"; "v1.09.0"; "1.9.0-01"; "1.9.0_1"; "one"] =
  ["illegal version string " +:+ Quote "1.9";
   "illegal zero-prefixed version component " +:+ Quote "09" +:+ " in " +:+ Quote "v1.09.0";
   "illegal zero-prefixed version component " +:+ Quote "01" +:+ " in " +:+ Quote "1.9.0-01";
   "could not parse pre-release/metadata (_1) in version " +:+ Quote "1.9.0_1";
   "could not parse " +:+ Quote "one" +:+ " as version"].
Proof. reflexivity. Qed.
