(* ===== verification/Quantity.v ===== *)
(** * Kubernetes resource quantities

    The part of [k8s.io/apimachinery/pkg/api/resource] (vendored) that the provisioner's
    size arithmetic relies on: the two representations of a [Quantity], the overflow-checked
    scaling of [math.go], [Value] and [Cmp].  The [Format] and the cached string of a
    quantity only affect printing and are left out. *)

From S2P Require Import Prelude.

Open Scope Z_scope.

(** ** Data *)

(** [type Scale int32] *)
Definition wrap32 (z : Z) : Z := (z + 2147483648) mod two32 - 2147483648.
Definition scale_range (s : Z) : Prop := -1073741823 <= s <= 1073741823.

(** [amount.go]: the value is [value * 10^scale]. *)
Record int64Amount : Set := { value : Z; scale : Z }.

(** [gopkg.in/inf.v0]: the value is [unscaled * 10^(- dscale)], of any size. *)
Record Dec : Set := { unscaled : Z; dscale : Z }.

(** [quantity.go]: [qi] is meaningful when [qd] is nil. *)
Record Quantity : Set := { qi : int64Amount; qd : option Dec }.

#[export] Instance int64Amount_eq_dec : EqDecision int64Amount.
Proof. solve_decision. Defined.
#[export] Instance Dec_eq_dec : EqDecision Dec.
Proof. solve_decision. Defined.
#[export] Instance Quantity_eq_dec : EqDecision Quantity.
Proof. solve_decision. Defined.

(** [NewQuantity(v, _)] *)
Definition NewQuantity (v : Z) : Quantity :=
  {| qi := {| value := v; scale := 0 |}; qd := None |}.

(** ** [math.go] *)

Definition mostNegative : Z := MinInt64.

(** The product and whether it did not overflow. *)
Definition int64MultiplyScale (a b : Z) : Z * bool :=
  if (a =? 0) || (a =? 1) then (mul64 a b, true)
  else if (a =? mostNegative) && negb (b =? 1) then (0, false)
  else let c := mul64 a b in (c, div64 c b =? a).

(** [int64MultiplyScale10], [..100] and [..1000]: the same code with a constant factor. *)
Definition int64MultiplyScaleConst (k a : Z) : Z * bool :=
  if (a =? 0) || (a =? 1) then (mul64 a k, true)
  else if a =? mostNegative then (0, false)
  else let c := mul64 a k in (c, div64 c k =? a).

Fixpoint scale_loop (n : nat) (v : Z) : Z * bool :=
  match n with
  | O => (v, true)
  | S n => match int64MultiplyScale v 10 with
           | (v', true) => scale_loop n v'
           | (_, false) => (0, false)
           end
  end.

Definition positiveScaleInt64 (base s : Z) : Z * bool :=
  if s =? 0 then (base, true)
  else if s =? 1 then int64MultiplyScaleConst 10 base
  else if s =? 2 then int64MultiplyScaleConst 100 base
  else if s =? 3 then int64MultiplyScaleConst 1000 base
  else if s =? 6 then int64MultiplyScale base 1000000
  else if s =? 9 then int64MultiplyScale base 1000000000
  else scale_loop (Z.to_nat s) base.

(** The loop of [negativeScaleInt64] after its first statement. *)
Fixpoint negative_loop (n : nat) (base v : Z) (fraction : bool) : Z * bool :=
  match n with
  | O => if fraction
         then ((if 0 <? base then add64 v 1 else add64 v (-1)), false)
         else (v, true)
  | S n =>
      let fraction' := fraction || negb (rem64 v 10 =? 0) in
      let v' := div64 v 10 in
      if v' =? 0
      then (if fraction' then ((if 0 <? base then 1 else -1), false) else (0, true))
      else negative_loop n base v' fraction'
  end.

Definition negativeScaleInt64 (base s : Z) : Z * bool :=
  if s =? 0 then (base, true) else negative_loop (Z.to_nat s) base base false.

Definition pow10Int64 (b : Z) : Z :=
  if (0 <=? b) && (b <=? 18) then 10 ^ b else 0.

Definition divideByScaleInt64 (base s : Z) : Z * Z * bool :=
  if s =? 0 then (base, 0, true)
  else if 18 <=? s then (0, base, false)
  else let divisor := pow10Int64 s in (div64 base divisor, rem64 base divisor, true).

(** ** [amount.go] *)

Definition AsScaledInt64 (a : int64Amount) (s : Z) : Z * bool :=
  if scale a <? s then (fst (negativeScaleInt64 (value a) (wrap32 (s - scale a))), true)
  else positiveScaleInt64 (value a) (wrap32 (scale a - s)).

Definition AsDec (a : int64Amount) : Dec :=
  {| unscaled := value a; dscale := wrap32 (- scale a) |}.

(** [Cmp] of inf.Dec: both sides are brought to the larger scale. *)
Definition cmpZ (x y : Z) : Z := match x ?= y with Lt => -1 | Eq => 0 | Gt => 1 end.

Definition dec_Cmp (x y : Dec) : Z :=
  let s := Z.max (dscale x) (dscale y) in
  cmpZ (unscaled x * 10 ^ (s - dscale x)) (unscaled y * 10 ^ (s - dscale y)).

Definition amount_Cmp (a b : int64Amount) : Z :=
  if scale a =? scale b then cmpZ (value a) (value b)
  else if scale b <? scale a then
    match divideByScaleInt64 (value b) (wrap32 (scale a - scale b)) with
    | (_, _, false) => dec_Cmp (AsDec a) (AsDec b)
    | (result, remainder, true) =>
        if result =? value a
        then (if remainder =? 0 then 0 else if 0 <? remainder then -1 else 1)
        else cmpZ (value a) result
    end
  else
    match divideByScaleInt64 (value a) (wrap32 (scale b - scale a)) with
    | (_, _, false) => dec_Cmp (AsDec a) (AsDec b)
    | (result, remainder, true) =>
        if result =? value b
        then (if remainder =? 0 then 0 else if 0 <? remainder then 1 else -1)
        else cmpZ result (value b)
    end.

(** ** [scale_int.go] *)

(** [int64(math.Pow10(n))]; from [10^19] on the conversion overflows, which gives the
    smallest int64 on amd64. *)
Definition int64Pow10 (n : Z) : Z := if n <=? 18 then 10 ^ n else MinInt64.

Definition scaledValue (u sc newScale : Z) : Z :=
  let dif := sc - newScale in
  if dif =? 0 then wrap64 u
  else if dif <? 0 then mul64 (wrap64 u) (int64Pow10 (- dif))
  else if (u <? MaxInt64) && (dif <? 19) then
    let divide := int64Pow10 dif in
    let result := div64 (wrap64 u) divide in
    if rem64 (wrap64 u) divide =? 0 then result else add64 result 1
  else
    let divisor := 10 ^ dif in
    if u mod divisor =? 0 then wrap64 (u / divisor) else add64 (wrap64 (u / divisor)) 1.

(** ** [quantity.go] *)

Definition quantity_AsDec (q : Quantity) : Dec :=
  match qd q with Some d => d | None => AsDec (qi q) end.

(** [ToDec]/[AsDec] leave the receiver in decimal form. *)
Definition promote (q : Quantity) : Quantity :=
  match qd q with
  | Some _ => q
  | None => {| qi := {| value := 0; scale := 0 |}; qd := Some (AsDec (qi q)) |}
  end.

Definition ScaledValue (q : Quantity) (s : Z) : Z :=
  match qd q with
  | None => fst (AsScaledInt64 (qi q) s)
  | Some d => scaledValue (unscaled d) (dscale d) (wrap32 (- s))
  end.

Definition Value (q : Quantity) : Z := ScaledValue q 0.

(** The result of [q.Cmp(y)] and the receiver after the call: a mixed comparison promotes
    the receiver in place. *)
Definition Cmp (q y : Quantity) : Z * Quantity :=
  match qd q, qd y with
  | None, None => (amount_Cmp (qi q) (qi y), q)
  | _, _ => (dec_Cmp (quantity_AsDec q) (quantity_AsDec y), promote q)
  end.

(** ** Scaling up *)

Lemma mul64_check a k :
  int64_range a -> 2 <= k <= 10 ^ 18 ->
  (div64 (mul64 a k) k =? a) = true <-> int64_range (a * k).
Proof.
  intros Ha Hk. rewrite Z.eqb_eq. pose proof (wrap64_range (a * k)) as Hr.
  unfold mul64. rewrite div64_pos by (done || lia). split.
  - intros Hq. pose proof (Z.quot_rem' (wrap64 (a * k)) k) as Heq.
    pose proof (Z.rem_bound_abs (wrap64 (a * k)) k ltac:(lia)) as Hb. rewrite Hq in Heq.
    assert (exists m, wrap64 (a * k) = a * k - m * two64) as [m Hm].
    { unfold wrap64. exists ((a * k + two63) / two64).
      pose proof (Z.div_mod (a * k + two63) two64). unfold_int. lia. }
    assert (m = 0) as ->; [unfold_int; nia|].
    replace (a * k) with (wrap64 (a * k)) by lia. done.
  - intros H. rewrite wrap64_id by done. apply Z.quot_mul. lia.
Qed.

Lemma int64MultiplyScale_spec a k :
  int64_range a -> 2 <= k <= 10 ^ 18 ->
  (snd (int64MultiplyScale a k) = true <-> int64_range (a * k))
  /\ (int64_range (a * k) -> fst (int64MultiplyScale a k) = a * k).
Proof.
  intros Ha Hk. unfold int64MultiplyScale.
  destruct ((a =? 0) || (a =? 1)) eqn:H01.
  - assert (int64_range (a * k)) as Hin.
    { apply orb_true_iff in H01 as [->%Z.eqb_eq| ->%Z.eqb_eq]; unfold_int; lia. }
    split; [done|]. intros _. by apply wrap64_id.
  - destruct ((a =? mostNegative) && negb (k =? 1)) eqn:Hmin; simpl.
    + apply andb_true_iff in Hmin as [->%Z.eqb_eq _]. unfold mostNegative.
      split; [split; [done|]|]; unfold_int; intros; lia.
    + rewrite mul64_check by done. split; [done|]. intros. by apply wrap64_id.
Qed.

Lemma int64MultiplyScaleConst_eq k a :
  2 <= k -> int64MultiplyScaleConst k a = int64MultiplyScale a k.
Proof.
  intros Hk. unfold int64MultiplyScaleConst, int64MultiplyScale.
  destruct (_ || _); [done|]. rewrite (proj2 (Z.eqb_neq k 1)) by lia.
  by rewrite andb_true_r.
Qed.

Lemma scale_loop_spec n a :
  int64_range a -> int64_range (a * 10 ^ Z.of_nat n) ->
  scale_loop n a = (a * 10 ^ Z.of_nat n, true).
Proof.
  revert a. induction n as [|n IH]; intros a Ha Hr; simpl scale_loop.
  - by rewrite Z.mul_1_r.
  - replace (10 ^ Z.of_nat (S n)) with (10 * 10 ^ Z.of_nat n) in *
      by (rewrite Nat2Z.inj_succ, Z.pow_succ_r; lia).
    assert (0 < 10 ^ Z.of_nat n) by (apply Z.pow_pos_nonneg; lia).
    assert (int64_range (a * 10)) as H10 by (unfold_int; nia).
    destruct (int64MultiplyScale_spec a 10) as [Hok Hv]; [done|lia|].
    specialize (Hv H10). apply Hok in H10 as Ht.
    destruct (int64MultiplyScale a 10) as [c b]; simpl in *; subst.
    rewrite IH; [f_equal; lia|done|]. by replace (a * 10 * 10 ^ Z.of_nat n)
      with (a * (10 * 10 ^ Z.of_nat n)) by lia.
Qed.

Lemma int64MultiplyScale_ok a k :
  int64_range a -> 2 <= k <= 10 ^ 18 -> int64_range (a * k) ->
  int64MultiplyScale a k = (a * k, true).
Proof.
  intros Ha Hk Hr. destruct (int64MultiplyScale_spec a k) as [Hok Hv]; [done..|].
  rewrite (surjective_pairing (int64MultiplyScale a k)). by rewrite Hv, (proj2 Hok).
Qed.

(** The fast cases and the loop agree with exact multiplication when it fits. *)
Lemma positiveScaleInt64_spec a s :
  int64_range a -> 0 <= s -> int64_range (a * 10 ^ s) ->
  positiveScaleInt64 a s = (a * 10 ^ s, true).
Proof.
  intros Ha Hs Hr. unfold positiveScaleInt64.
  destruct (Z.eqb_spec s 0) as [->|]; [by rewrite Z.mul_1_r|].
  repeat (case_bool;
    [subst; rewrite ?int64MultiplyScaleConst_eq by lia;
     apply int64MultiplyScale_ok; [done|lia|exact Hr]|]).
  rewrite <- (Z2Nat.id s) in Hr |- * by lia. rewrite Nat2Z.id. by apply scale_loop_spec.
Qed.

(** ** Scaling down *)

Definition ceil_div (a b : Z) : Z := (a + b - 1) / b.

Lemma ceil_div_spec a b :
  0 < b -> ceil_div a b = a / b + (if a mod b =? 0 then 0 else 1).
Proof.
  intros Hb. unfold ceil_div. pose proof (Z.div_mod a b ltac:(lia)).
  pose proof (Z.mod_pos_bound a b ltac:(lia)).
  destruct (Z.eqb_spec (a mod b) 0).
  - symmetry. apply Z.div_unique with (r := b - 1); lia.
  - symmetry. apply Z.div_unique with (r := a mod b - 1); lia.
Qed.

Lemma fraction_step x y p :
  0 < p -> 0 <= x -> 0 <= y ->
  negb (x =? 0) || negb (y =? 0) = negb (x + p * y =? 0).
Proof.
  intros. destruct (Z.eqb_spec x 0), (Z.eqb_spec y 0), (Z.eqb_spec (x + p * y) 0);
    simpl; try done; nia.
Qed.

Lemma negative_loop_spec n base p v f :
  0 <= base <= MaxInt64 -> 0 < p -> v = base / p ->
  f = negb (base mod p =? 0) ->
  fst (negative_loop n base v f) = ceil_div base (p * 10 ^ Z.of_nat n).
Proof.
  revert p v f. induction n as [|n IH]; intros p v f Hb Hp -> ->.
  - simpl. rewrite Z.mul_1_r, ceil_div_spec by done.
    pose proof (Z.div_mod base p ltac:(lia)). pose proof (Z.mod_pos_bound base p Hp).
    pose proof (Z.div_pos base p ltac:(lia) Hp).
    destruct (Z.eqb_spec (base mod p) 0); simpl; [lia|].
    destruct (Z.ltb_spec 0 base); simpl.
    + apply add64_id. unfold_int. nia.
    + assert (base = 0) by lia. subst. by rewrite Zmod_0_l in *.
  - simpl negative_loop. set (v := base / p).
    assert (0 <= v <= base) as Hv.
    { unfold v. split; [apply Z.div_pos; lia|]. apply Z.div_le_upper_bound; nia. }
    rewrite div64_pos by (unfold_int; lia). unfold rem64.
    rewrite Z.quot_div_nonneg, Z.rem_mod_nonneg by lia.
    replace (10 ^ Z.of_nat (S n)) with (10 * 10 ^ Z.of_nat n)
      by (rewrite Nat2Z.inj_succ, Z.pow_succ_r; lia).
    assert (v / 10 = base / (p * 10)) as Hdiv by (unfold v; apply Z.div_div; lia).
    assert (base mod (p * 10) = base mod p + p * (v mod 10)) as Hmod
      by (unfold v; apply Z.rem_mul_r; lia).
    pose proof (Z.mod_pos_bound base p Hp). pose proof (Z.mod_pos_bound v 10 ltac:(lia)).
    assert (negb (base mod p =? 0) || negb (v mod 10 =? 0) = negb (base mod (p * 10) =? 0))
      as Hf.
    { rewrite Hmod. apply fraction_step; lia. }
    assert (0 < 10 ^ Z.of_nat n) by (apply Z.pow_pos_nonneg; lia).
    rewrite Hf, Hdiv, Z.mul_assoc. destruct (Z.eqb_spec (base / (p * 10)) 0) as [Hz|Hz].
    + pose proof (Z.div_mod base (p * 10) ltac:(lia)) as Hdm. rewrite Hz in Hdm.
      pose proof (Z.mod_pos_bound base (p * 10) ltac:(lia)).
      assert (0 <= base < p * 10 * 10 ^ Z.of_nat n) by nia.
      rewrite ceil_div_spec by lia. rewrite (Z.div_small base), (Z.mod_small base) by lia.
      rewrite (Z.mod_small base) by lia.
      destruct (Z.eqb_spec base 0); simpl; [done|].
      destruct (Z.ltb_spec 0 base); simpl; [done|lia].
    + apply IH; [done|lia|done|done].
Qed.

Lemma negativeScaleInt64_spec base s :
  0 <= base <= MaxInt64 -> 0 <= s ->
  fst (negativeScaleInt64 base s) = ceil_div base (10 ^ s).
Proof.
  intros Hb Hs. unfold negativeScaleInt64. destruct (Z.eqb_spec s 0) as [->|].
  - rewrite ceil_div_spec by done. simpl. rewrite Z.div_1_r, Z.mod_1_r. simpl. lia.
  - rewrite (negative_loop_spec _ _ 1); rewrite ?Z.div_1_r, ?Z.mod_1_r; try done.
    by rewrite Z2Nat.id, Z.mul_1_l by lia.
Qed.

(** ** Comparison *)

Lemma cmpZ_scale x y k : 0 < k -> cmpZ (x * k) (y * k) = cmpZ x y.
Proof.
  intros Hk. unfold cmpZ.
  destruct (Z.compare_spec (x * k) (y * k)), (Z.compare_spec x y); try done; nia.
Qed.

Lemma cmpZ_antisym x y : cmpZ x y = - cmpZ y x.
Proof. unfold cmpZ. rewrite Z.compare_antisym. by destruct (y ?= x). Qed.

(** Comparing a whole number with a truncated quotient decides the comparison with the
    exact one. *)
Lemma cmpZ_quot a b d :
  0 < d ->
  cmpZ (a * d) b =
  if Z.quot b d =? a
  then (if Z.rem b d =? 0 then 0 else if 0 <? Z.rem b d then -1 else 1)
  else cmpZ a (Z.quot b d).
Proof.
  intros Hd. pose proof (Z.quot_rem' b d) as Hb.
  pose proof (Z.rem_bound_abs b d ltac:(lia)) as Hr.
  pose proof (Z.rem_sign_mul b d ltac:(lia)) as Hs.
  set (q := Z.quot b d) in *. set (r := Z.rem b d) in *. clearbody q r.
  unfold cmpZ. destruct (Z.eqb_spec q a) as [->|Hne].
  - destruct (Z.compare_spec (a * d) b), (Z.eqb_spec r 0), (Z.ltb_spec 0 r); try done; nia.
  - destruct (Z.compare_spec (a * d) b), (Z.compare_spec a q); try done; nia.
Qed.

Lemma wrap32_id z : -2147483648 <= z <= 2147483647 -> wrap32 z = z.
Proof. intros. unfold wrap32. unfold_int. rewrite Z.mod_small; lia. Qed.

Lemma pow10Int64_pos s : 1 <= s < 18 -> pow10Int64 s = 10 ^ s.
Proof.
  intros. unfold pow10Int64. rewrite (proj2 (Z.leb_le 0 s)), (proj2 (Z.leb_le s 18)) by lia.
  done.
Qed.

Lemma divideByScaleInt64_exact b s q r :
  int64_range b -> 0 < s -> divideByScaleInt64 b s = (q, r, true) ->
  q = Z.quot b (10 ^ s) /\ r = Z.rem b (10 ^ s).
Proof.
  intros Hb Hs. unfold divideByScaleInt64. case_bool; [lia|]. case_bool; [done|].
  rewrite pow10Int64_pos by lia. intros [= <- <-].
  pose proof (Z.pow_pos_nonneg 10 s). rewrite div64_pos by (done || lia). done.
Qed.

(** The fast comparison of two int64 amounts is the exact decimal comparison. *)
Lemma amount_Cmp_exact a b :
  int64_range (value a) -> int64_range (value b) ->
  scale_range (scale a) -> scale_range (scale b) ->
  amount_Cmp a b = dec_Cmp (AsDec a) (AsDec b).
Proof.
  unfold scale_range. intros Ha Hb Hsa Hsb. unfold amount_Cmp.
  unfold dec_Cmp, AsDec; simpl. rewrite !(wrap32_id (- _)) by lia.
  destruct (Z.eqb_spec (scale a) (scale b)) as [Heq|Hne].
  - rewrite Heq, Z.max_id, Z.sub_diag. by rewrite !Z.mul_1_r.
  - destruct (Z.ltb_spec (scale b) (scale a)).
    + rewrite Z.max_r, Z.sub_diag, Z.mul_1_r by lia. rewrite wrap32_id by lia.
      replace (- scale b - - scale a) with (scale a - scale b) by lia.
      destruct (divideByScaleInt64 _ _) as [[q r] []] eqn:Hd; [|done].
      apply divideByScaleInt64_exact in Hd as [-> ->]; [|done|lia].
      symmetry. apply cmpZ_quot, Z.pow_pos_nonneg; lia.
    + rewrite Z.max_l, Z.sub_diag, Z.mul_1_r by lia. rewrite wrap32_id by lia.
      replace (- scale a - - scale b) with (scale b - scale a) by lia.
      destruct (divideByScaleInt64 _ _) as [[q r] []] eqn:Hd; [|done].
      apply divideByScaleInt64_exact in Hd as [-> ->]; [|done|lia].
      rewrite (cmpZ_antisym (value a)), cmpZ_quot by (apply Z.pow_pos_nonneg; lia).
      rewrite (cmpZ_antisym (Z.quot _ _)). repeat case_bool; lia.
Qed.

(** ** The abstract value of a quantity

    [exact_ceil] is the least integer that is not below the exact decimal value; a
    [quantity_ok] is a non-negative quantity whose rounded value fits an int64. *)

Definition dec_ceil (d : Dec) : Z :=
  if 0 <=? dscale d then ceil_div (unscaled d) (10 ^ dscale d)
  else unscaled d * 10 ^ (- dscale d).

Definition exact_ceil (q : Quantity) : Z := dec_ceil (quantity_AsDec q).

Definition quantity_ok (q : Quantity) : Prop :=
  match qd q with
  | None => 0 <= value (qi q) <= MaxInt64 /\ scale_range (scale (qi q))
  | Some d => 0 <= unscaled d /\ scale_range (dscale d)
  end /\ exact_ceil q <= MaxInt64.

#[export] Instance quantity_ok_dec q : Decision (quantity_ok q).
Proof. unfold quantity_ok, scale_range. destruct (qd q); apply _. Defined.

Lemma ceil_div_nonneg a b : 0 <= a -> 0 < b -> 0 <= ceil_div a b.
Proof. intros. unfold ceil_div. apply Z.div_pos; lia. Qed.

Lemma ceil_div_1 a : ceil_div a 1 = a.
Proof. unfold ceil_div. rewrite Z.div_1_r. lia. Qed.

Lemma dec_ceil_nonneg d : 0 <= unscaled d -> 0 <= dec_ceil d.
Proof.
  intros. unfold dec_ceil. destruct (Z.leb_spec 0 (dscale d)).
  - apply ceil_div_nonneg; [done|]. apply Z.pow_pos_nonneg; lia.
  - pose proof (Z.pow_pos_nonneg 10 (- dscale d)). nia.
Qed.

Lemma exact_ceil_nonneg q : quantity_ok q -> 0 <= exact_ceil q.
Proof.
  unfold quantity_ok, exact_ceil, quantity_AsDec.
  destruct (qd q); intros [[? _] _]; apply dec_ceil_nonneg; simpl; lia.
Qed.

Lemma scaledValue_exact u sc :
  0 <= u -> scale_range sc -> dec_ceil {| unscaled := u; dscale := sc |} <= MaxInt64 ->
  scaledValue u sc 0 = dec_ceil {| unscaled := u; dscale := sc |}.
Proof.
  unfold dec_ceil, scaledValue; simpl. intros Hu Hs Hfit. rewrite Z.sub_0_r.
  destruct (Z.eqb_spec sc 0) as [->|Hne].
  { rewrite Z.pow_0_r, ceil_div_1 in *. apply wrap64_id. unfold_int. simpl in *. lia. }
  destruct (Z.leb_spec 0 sc); [rewrite (proj2 (Z.ltb_ge sc 0)) by lia
                              |rewrite (proj2 (Z.ltb_lt sc 0)) by lia].
  - assert (0 < 10 ^ sc) by (apply Z.pow_pos_nonneg; lia).
    rewrite ceil_div_spec in * by done.
    pose proof (Z.div_pos u (10 ^ sc) ltac:(lia) ltac:(lia)).
    destruct (_ && _) eqn:Hfast.
    + apply andb_true_iff in Hfast as [Hm%Z.ltb_lt Hd%Z.ltb_lt].
      unfold int64Pow10. rewrite (proj2 (Z.leb_le sc 18)) by lia.
      rewrite wrap64_id by (unfold_int; lia).
      rewrite div64_pos by (unfold_int; lia). unfold rem64.
      rewrite Z.quot_div_nonneg, Z.rem_mod_nonneg by lia.
      destruct (Z.eqb_spec (u mod 10 ^ sc) 0); [lia|]. apply add64_id. unfold_int. lia.
    + destruct (Z.eqb_spec (u mod 10 ^ sc) 0).
      * rewrite wrap64_id by (unfold_int; lia). lia.
      * rewrite (wrap64_id (u / _)) by (unfold_int; lia). apply add64_id. unfold_int. lia.
  - assert (0 < 10 ^ (- sc)) by (apply Z.pow_pos_nonneg; lia).
    destruct (Z.eq_dec u 0) as [->|Hu0]; [done|].
    assert (- sc <= 18) as H18.
    { destruct (Z.le_gt_cases (- sc) 18); [done|].
      assert (10 ^ 19 <= 10 ^ (- sc)) by (apply Z.pow_le_mono_r; lia). unfold_int. nia. }
    unfold int64Pow10, mul64. rewrite (proj2 (Z.leb_le _ 18)) by lia.
    rewrite (wrap64_id u) by (unfold_int; nia). apply wrap64_id. unfold_int. nia.
Qed.

(** [Value] is exact: it rounds the decimal value up, in both representations. *)
Lemma Value_exact q : quantity_ok q -> Value q = exact_ceil q.
Proof.
  unfold quantity_ok, exact_ceil, Value, ScaledValue, quantity_AsDec.
  destruct (qd q) as [[u sc]|]; simpl.
  - intros [[Hu Hs] Hfit]. by apply scaledValue_exact.
  - unfold scale_range. intros [[Hv Hs] Hfit]. unfold AsScaledInt64, AsDec, dec_ceil in *; simpl in *.
    rewrite (wrap32_id (- scale (qi q))) in * by lia.
    destruct (Z.ltb_spec (scale (qi q)) 0).
    + destruct (Z.leb_spec 0 (- scale (qi q))); [|lia]. simpl. rewrite wrap32_id by lia.
      rewrite negativeScaleInt64_spec by lia. by rewrite Z.sub_0_l.
    + rewrite Z.sub_0_r, wrap32_id by lia.
      assert (0 < 10 ^ scale (qi q)) by (apply Z.pow_pos_nonneg; lia).
      destruct (Z.leb_spec 0 (- scale (qi q))).
      * assert (scale (qi q) = 0) as -> by lia. rewrite Z.pow_0_r, ceil_div_1. done.
      * rewrite Z.opp_involutive in *.
        rewrite positiveScaleInt64_spec; [done|unfold_int; lia|lia|unfold_int; nia].
Qed.

(** Comparisons agree with the exact comparison, and a promoted quantity has the same value. *)
Lemma Cmp_exact q y :
  quantity_ok q -> quantity_ok y ->
  fst (Cmp q y) = dec_Cmp (quantity_AsDec q) (quantity_AsDec y).
Proof.
  unfold quantity_ok, Cmp, quantity_AsDec, scale_range.
  destruct (qd q), (qd y); simpl; try done.
  intros [[??] _] [[??] _]. apply amount_Cmp_exact; unfold scale_range; unfold_int; lia.
Qed.

Lemma promote_exact q :
  quantity_ok q -> exact_ceil (promote q) = exact_ceil q /\ quantity_ok (promote q).
Proof.
  unfold quantity_ok, promote, exact_ceil, quantity_AsDec, scale_range.
  destruct (qd q) eqn:Hd; simpl; rewrite ?Hd; [done|].
  intros [[??] ?]. rewrite wrap32_id by lia. repeat split; try done; lia.
Qed.

Lemma Cmp_receiver q y :
  quantity_ok q ->
  exact_ceil (snd (Cmp q y)) = exact_ceil q /\ quantity_ok (snd (Cmp q y)).
Proof.
  unfold Cmp. intros Hq. destruct (qd q), (qd y); simpl; try by apply promote_exact.
  done.
Qed.

(** Rounding up is monotone. *)
Lemma ceil_div_mono a b d : 0 < d -> a <= b -> ceil_div a d <= ceil_div b d.
Proof. intros. unfold ceil_div. apply Z.div_le_mono; lia. Qed.

Lemma ceil_div_cancel a b k : 0 < b -> 0 < k -> ceil_div (a * k) (b * k) = ceil_div a b.
Proof.
  intros. rewrite !ceil_div_spec by nia. rewrite Z.div_mul_cancel_r by lia.
  rewrite Z.mul_mod_distr_r by lia. f_equal.
  destruct (Z.eqb_spec (a mod b) 0), (Z.eqb_spec (a mod b * k) 0); nia.
Qed.

(** The rounded value after rescaling to any larger scale. *)
Lemma dec_ceil_rescale d s :
  0 <= s -> dscale d <= s ->
  dec_ceil d = ceil_div (unscaled d * 10 ^ (s - dscale d)) (10 ^ s).
Proof.
  intros Hs Hds. unfold dec_ceil.
  assert (0 < 10 ^ (s - dscale d)) by (apply Z.pow_pos_nonneg; lia).
  destruct (Z.leb_spec 0 (dscale d)).
  - replace (10 ^ s) with (10 ^ dscale d * 10 ^ (s - dscale d))
      by (rewrite <- Z.pow_add_r by lia; f_equal; lia).
    symmetry. apply ceil_div_cancel; [apply Z.pow_pos_nonneg; lia|done].
  - replace (s - dscale d) with (- dscale d + s) by lia. rewrite Z.pow_add_r by lia.
    assert (0 < 10 ^ s) by (apply Z.pow_pos_nonneg; lia).
    rewrite Z.mul_assoc. replace (10 ^ s) with (1 * 10 ^ s) at 2 by lia.
    rewrite ceil_div_cancel by lia. by rewrite ceil_div_1.
Qed.

Lemma dec_Cmp_rescale x y s :
  Z.max (dscale x) (dscale y) <= s ->
  dec_Cmp x y = cmpZ (unscaled x * 10 ^ (s - dscale x)) (unscaled y * 10 ^ (s - dscale y)).
Proof.
  intros Hs. unfold dec_Cmp. set (m := Z.max _ _) in *.
  rewrite <- (cmpZ_scale _ _ (10 ^ (s - m))) by (apply Z.pow_pos_nonneg; lia).
  rewrite <- !Z.mul_assoc, <- !Z.pow_add_r by lia. f_equal; f_equal; f_equal; lia.
Qed.

Lemma dec_Cmp_ceil x y :
  (dec_Cmp x y = 1 -> dec_ceil y <= dec_ceil x)
  /\ (dec_Cmp x y <> 1 -> dec_ceil x <= dec_ceil y).
Proof.
  set (s := Z.max 0 (Z.max (dscale x) (dscale y))).
  rewrite (dec_Cmp_rescale x y s), (dec_ceil_rescale x s), (dec_ceil_rescale y s) by lia.
  assert (0 < 10 ^ s) by (apply Z.pow_pos_nonneg; lia).
  unfold cmpZ. split; intros Hc; apply ceil_div_mono; try done;
    destruct (Z.compare_spec (unscaled x * 10 ^ (s - dscale x))
                (unscaled y * 10 ^ (s - dscale y))); try done; lia.
Qed.

Create HintDb quantity.
#[export] Hint Resolve exact_ceil_nonneg ceil_div_nonneg : quantity.

(** ** Values seen in the repository's tests and flags *)

Definition Gi (n : Z) : Quantity := NewQuantity (n * 1024 * 1024 * 1024).

Example Cmp_50Gi_20Gi : Cmp (Gi 50) (Gi 20) = (1, Gi 50).
Proof. reflexivity. Qed.

Example Cmp_mixed :
  fst (Cmp (Gi 50) {| qi := {| value := 5; scale := 11 |}; qd := None |}) = -1.
Proof. reflexivity. Qed.

Example Value_500m :
  Value {| qi := {| value := 1500; scale := -3 |}; qd := None |} = 2.
Proof. reflexivity. Qed.
