(* ===== verification/Parse.v ===== *)
(** * Parsing quantities: k8s.io/apimachinery/pkg/api/resource (vendored)

    [ParseQuantity] with its scanner and the table of suffixes, and the decimal parser and
    the rounding of gopkg.in/inf.v0 on which its slow path relies.  The scanner's indices are
    the remaining text here; the [Format] of a quantity is used while parsing and then left
    out, like its cached string.  Lengths are those of strings in memory, below 2^31. *)

From Stdlib Require Import Ascii.
From S2P Require Import Prelude GoStrings Errors Quantity.

Open Scope Z_scope.

(** ** Errors (quantity.go) *)

Definition ErrFormatWrong : error :=
  errors_New "quantities must match the regular expression '^([+-]?[0-9.]+)([eEinumkKMGTP]*[-+]?[0-9]*)$'".
Definition ErrNumeric : error := errors_New "unable to parse numeric part of quantity".
Definition ErrSuffix : error := errors_New "unable to parse quantity's suffix".

(** ** parseQuantityString *)

Definition is_zero (c : ascii) : bool := Ascii.eqb c "0".
Definition is_suffix_letter (c : ascii) : bool :=
  existsb (Ascii.eqb c) (String.list_ascii_of_string "eEinumkKMGTP").

(** A leading sign: whether the text is positive, and the rest. *)
Definition cut_sign (s : string) : bool * string :=
  match s with
  | String c r =>
      if Ascii.eqb c "-" then (false, r) else if Ascii.eqb c "+" then (true, r) else (true, s)
  | EmptyString => (true, s)
  end.

Record scanned : Type := Scanned {
  sc_positive : bool;
  sc_value : string;
  sc_num : string;
  sc_denom : string;
  sc_suffix : string
}.

(** From the suffix on; [rest] begins there. *)
Definition scan_suffix (str : string) (positive : bool) (num denom rest : string) :
  result scanned :=
  let value := stake (String.length str - String.length rest) str in
  let r := Scanned positive value num denom rest in
  let '(_, rest1) := span is_suffix_letter rest in
  if is_empty rest1 then Ok r
  else
    let '(_, rest2) := cut_sign rest1 in
    let '(_, rest3) := span is_digit rest2 in
    if is_empty rest3 then Ok r else Err ErrFormatWrong.

Definition parseQuantityString (str : string) : result scanned :=
  let '(positive, rest) := cut_sign str in
  let '(_, rest) := span is_zero rest in
  if is_empty rest then Ok (Scanned positive "0" "0" EmptyString EmptyString)
  else
    let '(num, rest) := span is_digit rest in
    if is_empty rest then Ok (Scanned positive str num EmptyString EmptyString)
    else
      let num := if is_empty num then "0" else num in
      match rest with
      | String c rest' =>
          if Ascii.eqb c "." then
            let '(denom, rest'') := span is_digit rest' in
            if is_empty rest'' then Ok (Scanned positive str num denom EmptyString)
            else scan_suffix str positive num denom rest''
          else scan_suffix str positive num EmptyString rest
      | EmptyString => scan_suffix str positive num EmptyString rest
      end.

(** ** suffix.go *)

Inductive Format : Set := DecimalExponent | BinarySI | DecimalSI.

Definition decSuffixes : gmap string (Z * Z) :=
  {["n" := (10, -9); "u" := (10, -6); "m" := (10, -3); EmptyString := (10, 0); "k" := (10, 3);
    "M" := (10, 6); "G" := (10, 9); "T" := (10, 12); "P" := (10, 15); "E" := (10, 18)]}.
Definition binSuffixes : gmap string (Z * Z) :=
  {["Ki" := (2, 10); "Mi" := (2, 20); "Gi" := (2, 30); "Ti" := (2, 40); "Pi" := (2, 50);
    "Ei" := (2, 60)]}.

(** [strconv.ParseInt(s, 10, 64)] *)
Definition ParseInt64 (s : string) : option Z :=
  let '(positive, r) := cut_sign s in
  if is_empty r then None
  else if positive then parse_digits MaxInt64 0 r
  else Z.opp <$> parse_digits two63 0 r.

(** [interpret]; the fast lookup agrees with the tables. *)
Definition interpret (s : string) : option (Z * Z * Format) :=
  match decSuffixes !! s with
  | Some (b, e) => Some (b, e, DecimalSI)
  | None =>
      match binSuffixes !! s with
      | Some (b, e) => Some (b, e, BinarySI)
      | None =>
          match s with
          | String c r =>
              if negb (is_empty r) && (Ascii.eqb c "E" || Ascii.eqb c "e") then
                match ParseInt64 r with
                | Some parsed => Some (10, wrap32 parsed, DecimalExponent)
                | None => None
                end
              else None
          | EmptyString => None
          end
      end
  end.

(** ** inf.v0 *)

(** The loop of [scan]: the digits collected so far as a number, how many bytes were
    collected, their sign, the position of the point, and whether there was a digit.
    [None]: it stopped before the end of the text. *)
Record scan_state : Type := ScanState {
  ss_value : Z; ss_length : Z; ss_negative : bool; ss_point : option Z; ss_digit : bool
}.

Fixpoint scan (s : string) (st : scan_state) : option scan_state :=
  match s with
  | EmptyString => Some st
  | String c r =>
      if Ascii.eqb c "+" || Ascii.eqb c "-" then
        if (0 <? ss_length st) || (match ss_point st with Some _ => true | None => false end)
        then None
        else scan r (ScanState 0 1 (Ascii.eqb c "-") None false)
      else if Ascii.eqb c "." then
        match ss_point st with
        | Some _ => None
        | None => scan r (ScanState (ss_value st) (ss_length st) (ss_negative st)
                            (Some (ss_length st)) (ss_digit st))
        end
      else match digit c with
           | Some d => scan r (ScanState (ss_value st * 10 + d) (ss_length st + 1)
                                 (ss_negative st) (ss_point st) true)
           | None => None
           end
  end.

Definition SetString (s : string) : option Dec :=
  match scan s (ScanState 0 0 false None false) with
  | Some st =>
      if ss_digit st then
        Some {| unscaled := if ss_negative st then - ss_value st else ss_value st;
                dscale := match ss_point st with
                          | Some dp => wrap32 (ss_length st - dp)
                          | None => 0
                          end |}
      else None
  | None => None
  end.

(** [Round] with [RoundUp]: away from zero.  The remainder has the sign of the dividend. *)
Definition Round (x : Dec) (s : Z) : Dec :=
  let shift := s - dscale x in
  let ix := if 0 <? shift then unscaled x * 10 ^ shift else unscaled x in
  let iy := if shift <? 0 then 10 ^ (- shift) else 1 in
  let quo := Z.quot ix iy in
  let rem := Z.rem ix iy in
  {| unscaled := if rem =? 0 then quo else quo + Z.sgn rem * Z.sgn iy; dscale := s |}.

Definition Neg (x : Dec) : Dec := {| unscaled := - unscaled x; dscale := dscale x |}.

(** ** math.go *)

Definition int64Multiply (a b : Z) : Z * bool :=
  if (a =? 0) || (b =? 0) || (a =? 1) || (b =? 1) then (mul64 a b, true)
  else if (a =? mostNegative) || (b =? mostNegative) then (0, false)
  else let c := mul64 a b in (c, div64 c b =? a).

Definition maxInt64Factors : Z := 18.
Definition Nano : Z := -9.
Definition maxAllowed : Dec := {| unscaled := MaxInt64; dscale := 0 |}.

(** ** ParseQuantity *)

(** The scale, the precision left and the factor of the fast path.
    [int32(float32(exponent)*3/10)] is exact for the exponents of the binary suffixes. *)
Definition fast_path (format : Format) (exponent : Z) (num denom : string) : Z * Z * Z :=
  let len s := Z.of_nat (String.length s) in
  match format with
  | DecimalExponent | DecimalSI => (exponent, maxInt64Factors - (len num + len denom), 1)
  | BinarySI =>
      if (0 <=? exponent) && (len denom =? 0)
      then (0, 15 - len num - exponent * 3 / 10 - 1, wrap64 (Z.shiftl 1 exponent))
      else (0, -1, 1)
  end.

(** The slow path, from [amount.SetString] on. *)
Definition slow_path (value : string) (base exponent : Z) (format : Format) : result Quantity :=
  match SetString value with
  | None => Err ErrNumeric
  | Some amount =>
      let amount :=
        if base =? 10 then
          {| unscaled := unscaled amount; dscale := wrap32 (dscale amount + wrap32 (- exponent)) |}
        else if base =? 2 then
          {| unscaled := unscaled amount * Z.shiftl 1 exponent; dscale := dscale amount |}
        else amount in
      let sign := Z.sgn (unscaled amount) in
      let amount := if sign =? -1 then Neg amount else amount in
      let amount := if unscaled amount =? 0 then amount else Round amount (wrap32 (- Nano)) in
      let amount :=
        match format with
        | BinarySI => if 0 <? dec_Cmp amount maxAllowed then maxAllowed else amount
        | _ => amount
        end in
      let amount := if sign =? -1 then Neg amount else amount in
      Ok {| qi := {| value := 0; scale := 0 |}; qd := Some amount |}
  end.

Definition ParseQuantity (str : string) : result Quantity :=
  if is_empty str then Err ErrFormatWrong
  else if String.eqb str "0" then Ok (NewQuantity 0)
  else
    match parseQuantityString str with
    | Err err => Err err
    | Ok s =>
        match interpret (sc_suffix s) with
        | None => Err ErrSuffix
        | Some (base, exponent, format) =>
            let '(sc, precision, mantissa) := fast_path format exponent (sc_num s) (sc_denom s) in
            let slow := slow_path (sc_value s) base exponent format in
            if 0 <=? precision then
              let sc := wrap32 (sc - Z.of_nat (String.length (sc_denom s))) in
              if Nano <=? sc then
                match ParseInt64 (sc_num s +:+ sc_denom s) with
                | None => Err ErrNumeric
                | Some v =>
                    match int64Multiply v mantissa with
                    | (result, true) =>
                        let result := if sc_positive s then result else wrap64 (- result) in
                        Ok {| qi := {| value := result; scale := sc |}; qd := None |}
                    | (_, false) => slow
                    end
                end
              else slow
            else slow
        end
    end.
