(* ===== verification/ParseSpec.v ===== *)
(** * What parsing a quantity yields

    The texts that [ParseQuantity] is meant for and their exact meaning: the fast path is
    exact, the slow path rounds away from zero to a billionth, and a binary suffix caps the
    result at the largest int64. *)

From Stdlib Require Import Ascii.
From S2P Require Import Prelude GoStrings Errors Quantity Parse.

Open Scope Z_scope.

(** ** The number in a text *)

Fixpoint all_bytes (p : ascii -> bool) (s : string) : bool :=
  match s with EmptyString => true | String c r => p c && all_bytes p r end.
Abbreviation digits s := (all_bytes is_digit s = true).

Fixpoint number_from (acc : Z) (s : string) : Z :=
  match s with
  | EmptyString => acc
  | String c r => number_from (acc * 10 + default 0 (digit c)) r
  end.
Definition number (s : string) : Z := number_from 0 s.

(** [s] does not begin with a byte of [p]. *)
Definition stops (p : ascii -> bool) (s : string) : Prop :=
  match s with EmptyString => True | String c _ => p c = false end.

Lemma all_bytes_app p s t : all_bytes p (s +:+ t) = all_bytes p s && all_bytes p t.
Proof.
  induction s as [|c s IH]; [done|]. rewrite append_cons. simpl. by rewrite IH, andb_assoc.
Qed.

Lemma span_app p s t : all_bytes p s = true -> stops p t -> span p (s +:+ t) = (s, t).
Proof.
  intros Hs Ht. induction s as [|c s IH].
  - change (span p t = (EmptyString, t)). destruct t as [|c t]; [done|]. simpl in *. by rewrite Ht.
  - rewrite append_cons. simpl in *. apply andb_true_iff in Hs as [-> Hs]. by rewrite IH.
Qed.

Lemma is_digit_Some c : is_digit c = true <-> is_Some (digit c).
Proof.
  unfold is_digit. by destruct (digit c).
Qed.

Lemma number_from_app acc s t : number_from acc (s +:+ t) = number_from (number_from acc s) t.
Proof.
  revert acc. induction s as [|c s IH]; intros acc; [done|]. rewrite append_cons. apply IH.
Qed.

Lemma number_from_bound acc s :
  0 <= acc -> digits s ->
  acc * 10 ^ Z.of_nat (String.length s) <= number_from acc s
  < (acc + 1) * 10 ^ Z.of_nat (String.length s).
Proof.
  revert acc. induction s as [|c s IH]; simpl String.length; intros acc Hacc Hs.
  - simpl. lia.
  - simpl in Hs. apply andb_true_iff in Hs as [[d Hd]%is_digit_Some Hs].
    apply digit_range in Hd as Hr. simpl number_from. rewrite Hd. simpl.
    rewrite Nat2Z.inj_succ, Z.pow_succ_r by lia.
    specialize (IH (acc * 10 + d) ltac:(lia) Hs). nia.
Qed.

Lemma number_bound s :
  digits s -> 0 <= number s < 10 ^ Z.of_nat (String.length s).
Proof. intros Hs. pose proof (number_from_bound 0 s ltac:(lia) Hs). unfold number. lia. Qed.

Lemma zeros_number s : all_bytes is_zero s = true -> digits s /\ number s = 0.
Proof.
  induction s as [|c s IH]; [done|]. simpl. intros [Hc Hs]%andb_true_iff.
  unfold is_zero in Hc. apply Ascii.eqb_eq in Hc as ->. destruct (IH Hs) as [Hd Hn]. done.
Qed.

(** Leading zeros, as [parseQuantityString] strips them. *)
Lemma strip_zeros s :
  digits s -> exists z s', s = z +:+ s' /\ all_bytes is_zero z = true /\ digits s' /\ stops is_zero s'.
Proof.
  induction s as [|c s IH]; intros Hs.
  - by exists EmptyString, EmptyString.
  - simpl in Hs. apply andb_true_iff in Hs as [Hc Hs]. destruct (is_zero c) eqn:Hz.
    + destruct (IH Hs) as (z & s' & -> & Hall & Hd & Hst). exists (String c z), s'. simpl.
      rewrite Hz. done.
    + exists EmptyString, (String c s). simpl. by rewrite Hc.
Qed.

Lemma parse_digits_number max acc s :
  0 <= acc -> digits s -> number_from acc s <= max -> parse_digits max acc s = Some (number_from acc s).
Proof.
  revert acc. induction s as [|c s IH]; simpl; intros acc Hacc Hs Hm; [done|].
  apply andb_true_iff in Hs as [[d Hd]%is_digit_Some Hs]. rewrite Hd in *. simpl in *.
  apply digit_range in Hd. pose proof (number_from_bound (acc * 10 + d) s ltac:(lia) Hs).
  assert (1 <= 10 ^ Z.of_nat (String.length s)) by (apply (Z.pow_le_mono_r 10 0); lia).
  rewrite (proj2 (Z.ltb_ge _ _)) by nia. by apply IH; [lia|..].
Qed.

Lemma ParseInt64_number s :
  digits s -> s <> EmptyString -> number s <= MaxInt64 -> ParseInt64 s = Some (number s).
Proof.
  intros Hs Hne Hm. unfold ParseInt64. destruct s as [|c s]; [done|].
  assert (cut_sign (String c s) = (true, String c s)) as ->.
  { simpl in *. apply andb_true_iff in Hs as [Hc _]. unfold is_digit in Hc.
    destruct (Ascii.eqb_spec c "-") as [->|]; [done|].
    destruct (Ascii.eqb_spec c "+") as [->|]; done. }
  simpl is_empty. by apply parse_digits_number.
Qed.

Lemma digit_byte c :
  is_digit c = true ->
  Ascii.eqb c "+" = false /\ Ascii.eqb c "-" = false /\ Ascii.eqb c "." = false.
Proof.
  intros Hc. repeat split; apply Ascii.eqb_neq; intros ->; done.
Qed.

Lemma scan_digits s t st :
  digits s ->
  scan (s +:+ t) st =
  scan t (ScanState (number_from (ss_value st) s) (ss_length st + Z.of_nat (String.length s))
            (ss_negative st) (ss_point st) (ss_digit st || negb (is_empty s))).
Proof.
  revert st. induction s as [|c s IH]; intros st Hs.
  - simpl. rewrite Z.add_0_r, orb_false_r. by destruct st.
  - simpl in Hs. apply andb_true_iff in Hs as [Hc Hs].
    destruct (digit_byte c Hc) as (E1 & E2 & E3). apply is_digit_Some in Hc as [d Hd].
    rewrite append_cons. simpl scan. rewrite E1, E2, E3, Hd. cbn [orb]. rewrite IH by done.
    simpl. do 2 f_equal; [lia|by rewrite orb_true_r].
Qed.

(** ** Texts: a sign, digits, possibly a point with more digits, and a suffix *)

Record text : Type := Text {
  tx_sign : string; tx_int : string; tx_frac : option string; tx_suffix : string
}.

Definition frac (t : text) : string := default EmptyString (tx_frac t).
Definition number_text (t : text) : string :=
  tx_sign t +:+ (tx_int t +:+ match tx_frac t with Some f => String "." f | None => EmptyString end).
Definition render (t : text) : string := number_text t +:+ tx_suffix t.

Definition well_formed (t : text) : Prop :=
  tx_sign t ∈ [EmptyString; "+"; "-"]
  /\ digits (tx_int t +:+ frac t) /\ tx_int t +:+ frac t <> EmptyString
  /\ Z.of_nat (String.length (frac t)) < 2 ^ 30.

Definition positive (t : text) : bool := negb (String.eqb (tx_sign t) "-").
Definition signed (t : text) (z : Z) : Z := if positive t then z else - z.
Definition digits_number (t : text) : Z := number (tx_int t +:+ frac t).

(** The loop of [scan] on the digits and the point. *)
Lemma scan_number ds fr n neg :
  digits (ds +:+ default EmptyString fr) ->
  scan (ds +:+ match fr with Some f => String "." f | None => EmptyString end)
    (ScanState 0 n neg None false) =
  Some (ScanState (number (ds +:+ default EmptyString fr))
          (n + Z.of_nat (String.length ds) + Z.of_nat (String.length (default EmptyString fr))) neg
          ((fun _ => n + Z.of_nat (String.length ds)) <$> fr)
          (negb (is_empty (ds +:+ default EmptyString fr)))).
Proof.
  rewrite all_bytes_app. intros [Hds Hf]%andb_true_iff. rewrite scan_digits by done. simpl.
  unfold number. destruct fr as [f|]; simpl in *.
  - rewrite <- (append_nil_r f), scan_digits, append_nil_r by done. simpl.
    rewrite number_from_app. do 2 f_equal. by destruct ds, f.
  - rewrite append_nil_r, Z.add_0_r. done.
Qed.

Lemma SetString_number t :
  well_formed t ->
  SetString (number_text t) =
  Some {| unscaled := signed t (digits_number t); dscale := Z.of_nat (String.length (frac t)) |}.
Proof.
  destruct t as [sg ds fr suf]. unfold well_formed, frac, number_text, signed, positive, digits_number.
  simpl. intros (Hsg & Hd & Hne & Hlen). set (f := default EmptyString fr) in *.
  assert (forall n neg,
    match scan (ds +:+ match fr with Some f => String "." f | None => EmptyString end)
            (ScanState 0 n neg None false) with
    | Some st =>
        if ss_digit st then
          Some {| unscaled := if ss_negative st then - ss_value st else ss_value st;
                  dscale := match ss_point st with
                            | Some dp => wrap32 (ss_length st - dp)
                            | None => 0
                            end |}
        else None
    | None => None
    end = Some {| unscaled := if neg then - number (ds +:+ f) else number (ds +:+ f);
                  dscale := Z.of_nat (String.length f) |}) as Hrest.
  { intros n neg. rewrite scan_number by done. simpl. fold f.
    destruct (is_empty (ds +:+ f)) eqn:He; [by apply is_empty_true in He|]. simpl.
    do 2 f_equal. unfold f in *. destruct fr as [g|]; [|done]. simpl in *.
    rewrite wrap32_id; lia. }
  unfold SetString.
  repeat (apply elem_of_cons in Hsg as [->|Hsg]); [..|by apply elem_of_nil in Hsg].
  - exact (Hrest 0 false).
  - exact (Hrest 1 false).
  - exact (Hrest 1 true).
Qed.

(** ** Units: the billionths a suffix stands for, and whether it is binary *)

Definition units : list (string * Z * bool) :=
  [("n", 1, false); ("u", 10 ^ 3, false); ("m", 10 ^ 6, false); (EmptyString, 10 ^ 9, false);
   ("k", 10 ^ 12, false); ("M", 10 ^ 15, false); ("G", 10 ^ 18, false); ("T", 10 ^ 21, false);
   ("P", 10 ^ 24, false); ("E", 10 ^ 27, false);
   ("Ki", 2 ^ 10 * 10 ^ 9, true); ("Mi", 2 ^ 20 * 10 ^ 9, true); ("Gi", 2 ^ 30 * 10 ^ 9, true);
   ("Ti", 2 ^ 40 * 10 ^ 9, true); ("Pi", 2 ^ 50 * 10 ^ 9, true); ("Ei", 2 ^ 60 * 10 ^ 9, true)].

(** What [interpret] makes of a unit. *)
Definition interpreted (suf : string) (unit_ : Z) (binary : bool) : Prop :=
  exists e, stops is_digit suf /\ stops (Ascii.eqb ".") suf /\ all_bytes is_suffix_letter suf = true
  /\ if binary then
       interpret suf = Some (2, e, BinarySI) /\ unit_ = 2 ^ e * 10 ^ 9 /\ suf <> EmptyString
       /\ e ∈ [10; 20; 30; 40; 50; 60]
     else interpret suf = Some (10, e, DecimalSI) /\ unit_ = 10 ^ (9 + e) /\ -9 <= e <= 18.

Lemma units_interpreted suf u binary : (suf, u, binary) ∈ units -> interpreted suf u binary.
Proof.
  unfold units. intros Hin.
  repeat (apply elem_of_cons in Hin as [[= -> -> ->]|Hin]); [..|by apply elem_of_nil in Hin].
  1: exists (-9). 2: exists (-6). 3: exists (-3). 4: exists 0. 5: exists 3. 6: exists 6. 7: exists 9.
  8: exists 12. 9: exists 15. 10: exists 18. 11: exists 10. 12: exists 20. 13: exists 30.
  14: exists 40. 15: exists 50. 16: exists 60.
  all: repeat split; try done; try lia; by apply (bool_decide_unpack _).
Qed.

(** ** The scanner on a well-formed text *)

Lemma span_all p s : all_bytes p s = true -> span p s = (s, EmptyString).
Proof. intros Hs. rewrite <- (append_nil_r s) at 1. by apply span_app. Qed.

Lemma is_empty_false s : s <> EmptyString -> is_empty s = false.
Proof. by destruct s. Qed.

Lemma append_eq_nil s t : s +:+ t = EmptyString -> s = EmptyString /\ t = EmptyString.
Proof. by destruct s. Qed.

Lemma stops_app p s t : stops p s -> (s = EmptyString -> stops p t) -> stops p (s +:+ t).
Proof. destruct s; [|done]. intros _ H. by apply H. Qed.

Lemma stops_zero s : stops is_digit s -> stops is_zero s.
Proof.
  destruct s as [|c s]; [done|]. simpl. intros Hc. unfold is_zero.
  apply Ascii.eqb_neq. by intros ->.
Qed.

Lemma scan_suffix_letters v pos num denom suf :
  all_bytes is_suffix_letter suf = true ->
  scan_suffix (v +:+ suf) pos num denom suf = Ok (Scanned pos v num denom suf).
Proof.
  intros Hs. unfold scan_suffix. rewrite (span_all _ suf) by done.
  rewrite length_append, Nat.add_sub, stake_app. done.
Qed.

Definition point_text (fr : option string) : string :=
  match fr with Some f => String "." f | None => EmptyString end.

Lemma cut_sign_text sg ds fr suf :
  sg ∈ [EmptyString; "+"; "-"] -> digits ds -> ds +:+ default EmptyString fr <> EmptyString ->
  cut_sign ((sg +:+ (ds +:+ point_text fr)) +:+ suf) =
  (negb (String.eqb sg "-"), ds +:+ (point_text fr +:+ suf)).
Proof.
  intros Hsg Hds Hne. rewrite !append_assoc.
  repeat (apply elem_of_cons in Hsg as [->|Hsg]); [|done..|by apply elem_of_nil in Hsg].
  change (cut_sign (ds +:+ (point_text fr +:+ suf)) = (true, ds +:+ (point_text fr +:+ suf))).
  destruct ds as [|c ds].
  - destruct fr as [f|]; done.
  - simpl in Hds. apply andb_true_iff in Hds as [Hc _].
    destruct (digit_byte c Hc) as (E1 & E2 & _). rewrite append_cons. simpl.
    by rewrite E1, E2.
Qed.

(** After the sign and the leading zeros: the digits that are left, the point and the
    suffix. *)
Lemma parse_rest sg ds z ds' fr suf u binary :
  sg ∈ [EmptyString; "+"; "-"] -> ds +:+ default EmptyString fr <> EmptyString ->
  ds = z +:+ ds' -> all_bytes is_zero z = true -> digits ds' -> stops is_zero ds' ->
  digits (default EmptyString fr) -> interpreted suf u binary ->
  let str := (sg +:+ (ds +:+ point_text fr)) +:+ suf in
  parseQuantityString str =
  Ok (if is_empty (ds' +:+ (point_text fr +:+ suf))
      then Scanned (negb (String.eqb sg "-")) "0" "0" EmptyString EmptyString
      else Scanned (negb (String.eqb sg "-")) (sg +:+ (ds +:+ point_text fr))
             (if is_empty ds' then "0" else ds') (default EmptyString fr) suf).
Proof.
  intros Hsg Hne -> Hz Hds' Hst Hf (e & Hdig & Hpt & Hlet & _) str.
  assert (stops is_digit (point_text fr +:+ suf)) as HstP
    by (apply stops_app; [by destruct fr|done]).
  assert (digits (z +:+ ds')) as Hds
    by (rewrite all_bytes_app, Hds', (proj1 (zeros_number z Hz)); done).
  unfold parseQuantityString, str. rewrite cut_sign_text by done.
  rewrite !(append_assoc z), span_app; [|done|].
  2: { apply stops_app; [done|]. intros _. by apply stops_zero. }
  destruct (is_empty (ds' +:+ _)) eqn:Hempty; [done|].
  rewrite span_app by done. fold str.
  destruct fr as [f|]; cbn [point_text default from_option] in *.
  - rewrite (is_empty_false (String "." f +:+ suf)) by done. rewrite append_cons. cbn [Ascii.eqb].
    simpl Ascii.eqb. cbn iota. rewrite span_app by done.
    destruct (is_empty suf) eqn:Hs.
    + apply is_empty_true in Hs as ->. unfold str. by rewrite append_nil_r.
    + unfold str. by apply scan_suffix_letters.
  - change (EmptyString +:+ suf) with suf in *. destruct suf as [|c suf].
    + rewrite append_nil_r in *. simpl is_empty at 1. cbn iota. rewrite Hempty. done.
    + rewrite (is_empty_false (String c suf)) by done.
      change (Ascii.eqb "." c = false) in Hpt. rewrite Ascii.eqb_sym, Hpt. unfold str. by apply scan_suffix_letters.
Qed.

Lemma parse_text t u binary :
  well_formed t -> (tx_suffix t, u, binary) ∈ units ->
  exists value num,
    parseQuantityString (render t) = Ok (Scanned (positive t) value num (frac t) (tx_suffix t))
    /\ digits (num +:+ frac t) /\ num <> EmptyString /\ number (num +:+ frac t) = digits_number t
    /\ SetString value =
       Some {| unscaled := signed t (digits_number t); dscale := Z.of_nat (String.length (frac t)) |}.
Proof.
  intros Hwf Hu. pose proof (SetString_number t Hwf) as Hset.
  destruct t as [sg ds fr suf]. destruct Hwf as (Hsg & Hd & Hne & Hlen).
  unfold render, number_text, frac, digits_number, positive, signed in *. simpl in *.
  rewrite all_bytes_app in Hd. apply andb_true_iff in Hd as [Hds Hf].
  destruct (strip_zeros ds Hds) as (z & ds' & Heq & Hz & Hds' & Hst).
  apply units_interpreted in Hu.
  pose proof (parse_rest sg ds z ds' fr suf u binary Hsg Hne Heq Hz Hds' Hst Hf Hu) as Hparse.
  destruct (zeros_number z Hz) as [_ Hz0].
  assert (forall x, number (ds +:+ x) = number (ds' +:+ x)) as Hnum.
  { intros x. rewrite Heq. unfold number in *. rewrite append_assoc, number_from_app, Hz0. done. }
  fold (point_text fr) in *. rewrite Hparse. rewrite Hnum in *.
  destruct (is_empty (ds' +:+ _)) eqn:Hempty.
  - apply is_empty_true, append_eq_nil in Hempty as [-> [Hp ->]%append_eq_nil].
    destruct fr as [f|]; [done|]. exists "0", "0". simpl in *.
    repeat split; try done. unfold positive; simpl. by destruct (String.eqb sg "-").
  - do 2 eexists. split; [done|]. destruct (is_empty ds') eqn:He.
    + apply is_empty_true in He as ->. done.
    + rewrite all_bytes_app, Hds'. split; [done|]. split; [by intros ->|]. done.
Qed.

(** ** Equal decimals *)

Lemma cmpZ_0 x y : cmpZ x y = 0 <-> x = y.
Proof. unfold cmpZ. destruct (Z.compare_spec x y); split; try done; lia. Qed.

Lemma dec_Cmp_0 x y s :
  Z.max (dscale x) (dscale y) <= s ->
  dec_Cmp x y = 0 <-> unscaled x * 10 ^ (s - dscale x) = unscaled y * 10 ^ (s - dscale y).
Proof. intros Hs. by rewrite (dec_Cmp_rescale x y s Hs), cmpZ_0. Qed.

Lemma dec_Cmp_Neg x y : dec_Cmp x y = 0 -> dec_Cmp (Neg x) (Neg y) = 0.
Proof.
  intros H. apply (dec_Cmp_0 _ _ (Z.max (dscale x) (dscale y))) in H; [|lia].
  apply (dec_Cmp_0 _ _ (Z.max (dscale x) (dscale y))); simpl; lia.
Qed.

Lemma dec_Cmp_refl x : dec_Cmp x x = 0.
Proof. by apply (dec_Cmp_0 _ _ (dscale x)); [lia|]. Qed.

Definition negate_if (b : bool) (d : Dec) : Dec := if b then Neg d else d.

Lemma dec_Cmp_negate_if b x y : dec_Cmp x y = 0 -> dec_Cmp (negate_if b x) (negate_if b y) = 0.
Proof. destruct b; [apply dec_Cmp_Neg|done]. Qed.

(** ** The slow path *)

Definition signed_by (b : bool) (z : Z) : Z := if b then z else - z.

Lemma ceil_div_exact a s l :
  0 <= l -> l <= s -> ceil_div (a * 10 ^ s) (10 ^ l) = a * 10 ^ (s - l).
Proof.
  intros Hl Hs. assert (0 < 10 ^ l) by (apply Z.pow_pos_nonneg; lia).
  replace (a * 10 ^ s) with (a * 10 ^ (s - l) * 10 ^ l)
    by (rewrite <- Z.mul_assoc, <- Z.pow_add_r by lia; do 2 f_equal; lia).
  replace (10 ^ l) with (1 * 10 ^ l) at 2 by lia.
  rewrite ceil_div_cancel by lia. apply ceil_div_1.
Qed.

(** Rounding a non-negative decimal to billionths. *)
Lemma Round_up n l e :
  0 <= n -> 0 <= l -> 0 <= 9 + e ->
  Round {| unscaled := n; dscale := l - e |} 9 =
  {| unscaled := ceil_div (n * 10 ^ (9 + e)) (10 ^ l); dscale := 9 |}.
Proof.
  intros Hn Hl He. unfold Round. cbn [unscaled dscale]. f_equal.
  destruct (Z.ltb_spec 0 (9 - (l - e))).
  - rewrite (proj2 (Z.ltb_ge _ 0)) by lia. rewrite Z.rem_1_r, Z.quot_1_r. simpl.
    rewrite ceil_div_exact by lia. do 2 f_equal. lia.
  - replace (if 9 - (l - e) <? 0 then 10 ^ (- (9 - (l - e))) else 1) with (10 ^ (l - (9 + e))).
    2: { case_bool; [f_equal; lia|]. by replace (l - (9 + e)) with 0 by lia. }
    set (d := 10 ^ (l - (9 + e))). assert (0 < d) by (apply Z.pow_pos_nonneg; lia).
    replace (10 ^ l) with (d * 10 ^ (9 + e)) by (unfold d; rewrite <- Z.pow_add_r by lia; f_equal; lia).
    rewrite ceil_div_cancel by (try apply Z.pow_pos_nonneg; lia).
    rewrite Z.quot_div_nonneg, Z.rem_mod_nonneg, ceil_div_spec by lia.
    pose proof (Z.mod_pos_bound n d ltac:(lia)).
    case_bool; [lia|]. rewrite !Z.sgn_pos by lia. lia.
Qed.

(** What the slow path does with the magnitude. *)
Definition magnitude (format : Format) (amount : Dec) : Dec :=
  let amount := if unscaled amount =? 0 then amount else Round amount 9 in
  match format with
  | BinarySI => if 0 <? dec_Cmp amount maxAllowed then maxAllowed else amount
  | _ => amount
  end.

Definition capped (format : Format) (n : Z) : Z :=
  match format with BinarySI => Z.min n (MaxInt64 * 10 ^ 9) | _ => n end.

Lemma dec_Cmp_zero a b : dec_Cmp {| unscaled := 0; dscale := a |} {| unscaled := 0; dscale := b |} = 0.
Proof. by apply (dec_Cmp_0 _ _ (Z.max a b)); [simpl; lia|]. Qed.

Lemma capped_zero format s l : 0 <= s -> 0 <= l -> capped format (ceil_div (0 * 10 ^ s) (10 ^ l)) = 0.
Proof.
  intros. assert (0 < 10 ^ l) by (apply Z.pow_pos_nonneg; lia).
  rewrite Z.mul_0_l, ceil_div_spec, Z.div_0_l, Z.mod_0_l by lia. by destruct format.
Qed.

Lemma magnitude_spec format n l e :
  0 <= n -> 0 <= l -> 0 <= 9 + e ->
  dec_Cmp (magnitude format {| unscaled := n; dscale := l - e |})
    {| unscaled := capped format (ceil_div (n * 10 ^ (9 + e)) (10 ^ l)); dscale := 9 |} = 0.
Proof.
  intros Hn Hl He. unfold magnitude. cbn [unscaled]. destruct (Z.eqb_spec n 0) as [->|Hne].
  - rewrite capped_zero by lia.
    destruct format; try apply dec_Cmp_zero.
    destruct (Z.ltb_spec 0 (dec_Cmp {| unscaled := 0; dscale := l - e |} maxAllowed)) as [Hlt|];
      [|apply dec_Cmp_zero].
    rewrite (dec_Cmp_rescale _ _ (Z.max 0 (l - e))) in Hlt by (simpl; lia).
    cbn [unscaled dscale maxAllowed] in Hlt. rewrite Z.mul_0_l in Hlt.
    set (x := 10 ^ (Z.max 0 (l - e) - 0)) in *.
    assert (0 < x) by (apply Z.pow_pos_nonneg; lia).
    assert (0 < MaxInt64 * x) as Hpos by (unfold_int; lia).
    unfold cmpZ in Hlt. apply Z.compare_lt_iff in Hpos. by rewrite Hpos in Hlt.
  - rewrite Round_up by done. set (c := ceil_div _ _).
    destruct format; try apply dec_Cmp_refl. cbn [capped].
    assert (dec_Cmp {| unscaled := c; dscale := 9 |} maxAllowed = cmpZ c (MaxInt64 * 10 ^ 9)) as ->.
    { rewrite (dec_Cmp_rescale _ _ 9) by (simpl; lia). simpl. by rewrite Z.mul_1_r. }
    clearbody c. unfold cmpZ.
    destruct (Z.compare_spec c (MaxInt64 * 10 ^ 9)) as [->|Hlt|Hgt];
      repeat change (0 <? 0) with false; repeat change (0 <? -1) with false;
      repeat change (0 <? 1) with true; cbn iota;
      [rewrite Z.min_id|rewrite Z.min_l by lia|rewrite Z.min_r by lia].
    1,2: apply dec_Cmp_refl.
    by apply (dec_Cmp_0 _ _ 9); [simpl; lia|].
Qed.

Definition factor (base exponent : Z) : Z := if base =? 2 then 2 ^ exponent else 1.
Definition exponent10 (base exponent : Z) : Z := if base =? 10 then exponent else 0.

(** The sign is taken off before the rounding and put back after it. *)
Lemma signed_magnitude format pos m l e :
  0 <= m -> 0 <= l -> 0 <= 9 + e ->
  let amount := {| unscaled := signed_by pos m; dscale := l - e |} in
  let neg := Z.sgn (signed_by pos m) =? -1 in
  dec_Cmp (negate_if neg (magnitude format (negate_if neg amount)))
    {| unscaled := signed_by pos (capped format (ceil_div (m * 10 ^ (9 + e)) (10 ^ l))); dscale := 9 |} = 0.
Proof.
  intros Hm Hl He. destruct (Z.eq_dec m 0) as [->|Hne].
  - replace (signed_by pos 0) with 0 by (by destruct pos). cbn -[magnitude capped Z.mul Z.pow Z.add].
    rewrite capped_zero by lia. replace (signed_by pos 0) with 0 by (by destruct pos).
    rewrite <- (capped_zero format (9 + e) l) at 2 by lia. by apply magnitude_spec.
  - destruct pos; simpl signed_by.
    + rewrite Z.sgn_pos by lia. by apply magnitude_spec.
    + rewrite Z.sgn_neg by lia. change (-1 =? -1) with true. cbn [negate_if].
      change {| unscaled := - ?c; dscale := 9 |} with (Neg {| unscaled := c; dscale := 9 |}).
      apply dec_Cmp_Neg. unfold Neg at 1. cbn [unscaled dscale]. rewrite Z.opp_involutive.
      by apply magnitude_spec.
Qed.

Lemma slow_path_spec value base exponent format pos n l :
  SetString value = Some {| unscaled := signed_by pos n; dscale := l |} ->
  0 <= n -> 0 <= l < 2 ^ 30 -> base = 10 /\ -9 <= exponent <= 18 \/ base = 2 /\ 0 <= exponent ->
  exists d, slow_path value base exponent format =
            Ok {| qi := {| value := 0; scale := 0 |}; qd := Some d |}
  /\ dec_Cmp d
       {| unscaled := signed_by pos (capped format
            (ceil_div (n * factor base exponent * 10 ^ (9 + exponent10 base exponent)) (10 ^ l)));
          dscale := 9 |} = 0.
Proof.
  intros Hset Hn Hl Hbase. unfold slow_path. rewrite Hset. cbn [unscaled dscale].
  set (a := if base =? 10 then _ else _).
  assert (a = {| unscaled := signed_by pos (n * factor base exponent);
                 dscale := l - exponent10 base exponent |}) as ->.
  { unfold a, factor, exponent10. destruct Hbase as [[-> He]|[-> He]]; simpl Z.eqb; cbn iota; f_equal.
    - by rewrite Z.mul_1_r.
    - rewrite (wrap32_id (- exponent)), wrap32_id by lia. lia.
    - rewrite Z.shiftl_mul_pow2, Z.mul_1_l by lia. destruct pos; simpl; lia.
    - lia. }
  cbn [unscaled]. eexists. split; [done|].
  apply (signed_magnitude format pos (n * factor base exponent) l (exponent10 base exponent)).
  - unfold factor. case_bool; [|lia]. assert (0 < 2 ^ exponent) by (apply Z.pow_pos_nonneg; lia). nia.
  - lia.
  - unfold exponent10. case_bool; lia.
Qed.

(** ** The fast path *)

Lemma int64Multiply_1 a : int64_range a -> int64Multiply a 1 = (a, true).
Proof.
  intros Ha. unfold int64Multiply. rewrite !orb_true_r. unfold mul64.
  by rewrite Z.mul_1_r, wrap64_id.
Qed.

Lemma int64Multiply_ok a k :
  0 <= a -> 2 <= k <= 10 ^ 18 -> a * k <= MaxInt64 -> int64Multiply a k = (a * k, true).
Proof.
  intros Ha Hk Hm. unfold int64Multiply.
  assert (int64_range (a * k)) as Hr by (unfold_int; nia).
  assert (int64_range a) as Hra by (unfold_int; nia).
  destruct (_ || _ || _ || _); [unfold mul64; by rewrite wrap64_id|].
  replace ((a =? mostNegative) || (k =? mostNegative)) with false.
  2: { symmetry. apply orb_false_iff. unfold mostNegative, MinInt64, two63.
       split; apply Z.eqb_neq; lia. }
  rewrite (proj2 (mul64_check a k Hra Hk) Hr). unfold mul64. by rewrite wrap64_id.
Qed.

(** A fast result [r] at scale [sc]. *)
Lemma fast_value (pos : bool) r sc :
  0 <= r <= MaxInt64 -> -9 <= sc <= 18 ->
  dec_Cmp (quantity_AsDec {| qi := {| value := if pos then r else wrap64 (- r); scale := sc |};
                             qd := None |})
    {| unscaled := signed_by pos (r * 10 ^ (9 + sc)); dscale := 9 |} = 0.
Proof.
  intros Hr Hsc. unfold quantity_AsDec, AsDec. cbn [qd qi value scale].
  rewrite wrap32_id by lia. rewrite wrap64_id by (unfold_int; lia).
  apply (dec_Cmp_0 _ _ 9); cbn [unscaled dscale]; [lia|].
  rewrite Z.sub_opp_r, Z.sub_diag, Z.pow_0_r. destruct pos; simpl; lia.
Qed.

Lemma digits_bound s k :
  digits s -> Z.of_nat (String.length s) <= k -> 0 <= number s < 10 ^ k.
Proof.
  intros Hs Hk. pose proof (number_bound s Hs).
  assert (10 ^ Z.of_nat (String.length s) <= 10 ^ k) by (apply Z.pow_le_mono_r; lia). lia.
Qed.

(** ** The theorem *)

(** The meaning of a text: its number in billionths rounded up, capped for a binary unit,
    and signed. *)
Definition meaning (t : text) (unit_ : Z) (binary : bool) : Dec :=
  let n := ceil_div (digits_number t * unit_) (10 ^ Z.of_nat (String.length (frac t))) in
  {| unscaled := signed_by (positive t) (if binary then Z.min n (MaxInt64 * 10 ^ 9) else n);
     dscale := 9 |}.

Definition parses (t : text) (unit_ : Z) (binary : bool) (r : result Quantity) : Prop :=
  exists q, r = Ok q /\ dec_Cmp (quantity_AsDec q) (meaning t unit_ binary) = 0.

Section Paths.
Context (t : text) (u : Z) (binary : bool) (val_text num : string).
Hypothesis Hwf : well_formed t.
Hypothesis Hdigits : digits (num +:+ frac t).
Hypothesis Hne : num <> EmptyString.
Hypothesis Hnum : number (num +:+ frac t) = digits_number t.
Hypothesis Hset : SetString val_text =
  Some {| unscaled := signed t (digits_number t); dscale := Z.of_nat (String.length (frac t)) |}.

Lemma digits_number_nonneg : 0 <= digits_number t.
Proof using Hdigits Hnum. rewrite <- Hnum. by apply number_bound. Qed.

Lemma slow_decimal exponent :
  u = 10 ^ (9 + exponent) -> -9 <= exponent <= 18 -> binary = false ->
  parses t u binary (slow_path val_text 10 exponent DecimalSI).
Proof using All.
  intros -> He ->. destruct Hwf as (_ & _ & _ & Hlen). pose proof digits_number_nonneg.
  destruct (slow_path_spec val_text 10 exponent DecimalSI (positive t) (digits_number t)
              (Z.of_nat (String.length (frac t)))) as (d & -> & Hd); [done|done|lia|auto|].
  eexists. split; [done|]. cbn [quantity_AsDec qd]. unfold meaning.
  unfold factor, exponent10 in Hd. simpl Z.eqb in Hd. cbn iota in Hd. by rewrite Z.mul_1_r in Hd.
Qed.

Lemma slow_binary exponent :
  u = 2 ^ exponent * 10 ^ 9 -> 0 <= exponent -> binary = true ->
  parses t u binary (slow_path val_text 2 exponent BinarySI).
Proof using All.
  intros -> He ->. destruct Hwf as (_ & _ & _ & Hlen). pose proof digits_number_nonneg.
  destruct (slow_path_spec val_text 2 exponent BinarySI (positive t) (digits_number t)
              (Z.of_nat (String.length (frac t)))) as (d & -> & Hd); [done|done|lia|auto|].
  eexists. split; [done|]. cbn [quantity_AsDec qd]. unfold meaning.
  unfold factor, exponent10 in Hd. simpl Z.eqb in Hd. cbn iota in Hd. by rewrite Z.mul_assoc.
Qed.

Lemma num_frac_nonempty : num +:+ frac t <> EmptyString.
Proof using Hne. intros [? _]%append_eq_nil. done. Qed.

Lemma ParseInt64_text k :
  Z.of_nat (String.length (num +:+ frac t)) <= k -> k <= 18 ->
  ParseInt64 (num +:+ frac t) = Some (digits_number t)
  /\ 0 <= digits_number t < 10 ^ k /\ digits_number t <= MaxInt64.
Proof using Hdigits Hne Hnum.
  intros Hlen Hk. pose proof (digits_bound _ k Hdigits Hlen) as Hb.
  assert (10 ^ k <= 10 ^ 18) by (apply Z.pow_le_mono_r; lia).
  assert (number (num +:+ frac t) <= MaxInt64) by (unfold_int; lia).
  rewrite <- Hnum. split; [|lia]. apply ParseInt64_number; auto using num_frac_nonempty.
Qed.
Lemma path_decimal exponent :
  u = 10 ^ (9 + exponent) -> -9 <= exponent <= 18 -> binary = false ->
  parses t u binary
    (if 0 <=? maxInt64Factors - (Z.of_nat (String.length num) + Z.of_nat (String.length (frac t)))
     then
       let sc := wrap32 (exponent - Z.of_nat (String.length (frac t))) in
       if Nano <=? sc then
         match ParseInt64 (num +:+ frac t) with
         | None => Err ErrNumeric
         | Some v =>
             match int64Multiply v 1 with
             | (result, true) =>
                 Ok {| qi := {| value := if positive t then result else wrap64 (- result);
                                scale := sc |}; qd := None |}
             | (_, false) => slow_path val_text 10 exponent DecimalSI
             end
         end
       else slow_path val_text 10 exponent DecimalSI
     else slow_path val_text 10 exponent DecimalSI).
Proof using All.
  intros Hu He Hb. pose proof (slow_decimal exponent Hu He Hb) as Hslow.
  destruct (Z.leb_spec 0 (maxInt64Factors - (Z.of_nat (String.length num)
    + Z.of_nat (String.length (frac t))))) as [Hp|]; [|done].
  unfold maxInt64Factors in Hp. rewrite wrap32_id by lia. cbn zeta.
  destruct (Z.leb_spec Nano (exponent - Z.of_nat (String.length (frac t)))) as [Hs|]; [|done].
  unfold Nano in Hs. clear Hslow.
  destruct (ParseInt64_text 18) as (-> & Hn & Hm); [rewrite length_append; lia|lia|].
  rewrite int64Multiply_1 by (unfold_int; lia). eexists. split; [done|].
  subst u binary. unfold meaning. rewrite ceil_div_exact by lia.
  replace (9 + exponent - Z.of_nat (String.length (frac t)))
    with (9 + (exponent - Z.of_nat (String.length (frac t)))) by lia.
  apply fast_value; lia.
Qed.

Lemma path_binary exponent :
  u = 2 ^ exponent * 10 ^ 9 -> exponent ∈ [10; 20; 30; 40; 50; 60] -> binary = true ->
  parses t u binary
    (let '(sc, precision, mantissa) := fast_path BinarySI exponent num (frac t) in
     if 0 <=? precision then
       let sc := wrap32 (sc - Z.of_nat (String.length (frac t))) in
       if Nano <=? sc then
         match ParseInt64 (num +:+ frac t) with
         | None => Err ErrNumeric
         | Some v =>
             match int64Multiply v mantissa with
             | (result, true) =>
                 Ok {| qi := {| value := if positive t then result else wrap64 (- result);
                                scale := sc |}; qd := None |}
             | (_, false) => slow_path val_text 2 exponent BinarySI
             end
         end
       else slow_path val_text 2 exponent BinarySI
     else slow_path val_text 2 exponent BinarySI).
Proof using All.
  intros Hu He Hb.
  assert (0 <= exponent) as He0.
  { repeat (apply elem_of_cons in He as [->|He]); [lia..|by apply elem_of_nil in He]. }
  pose proof (slow_binary exponent Hu He0 Hb) as Hslow. unfold fast_path.
  destruct (_ && _) eqn:Hf; [|done].
  apply andb_true_iff in Hf as [_ Hf%Z.eqb_eq]. rewrite Hf.
  assert (frac t = EmptyString) as Hfr by (destruct (frac t); [done|simpl in Hf; lia]).
  destruct (Z.leb_spec 0 (15 - Z.of_nat (String.length num) - exponent * 3 / 10 - 1))
    as [Hp|]; [|done]. clear Hslow.
  change (wrap32 (0 - 0)) with 0. cbn zeta. change (Nano <=? 0) with true. cbn iota.
  destruct (ParseInt64_text (14 - exponent * 3 / 10)) as (-> & Hn & Hm);
    [rewrite length_append; lia| |].
  { assert (0 <= exponent * 3 / 10) by (apply Z.div_pos; lia). lia. }
  assert (digits_number t * 2 ^ exponent <= MaxInt64) as Hfit.
  { repeat (apply elem_of_cons in He as [->|He]); [..|by apply elem_of_nil in He].
    all: vm_compute (14 - _) in Hn; simpl Z.pow in *; unfold_int; lia. }
  assert (wrap64 (Z.shiftl 1 exponent) = 2 ^ exponent /\ 2 <= 2 ^ exponent <= 10 ^ 18) as [-> Hk].
  { destruct num as [|c r] eqn:Hr; [done|]. simpl String.length in Hp.
    repeat (apply elem_of_cons in He as [->|He]); [..|by apply elem_of_nil in He].
    all: try (by split; [reflexivity|lia]). all: exfalso; vm_compute (_ / 10) in Hp; lia. }
  rewrite int64Multiply_ok by lia. eexists. split; [done|].
  subst u binary. unfold meaning. rewrite Hfr. simpl String.length. rewrite Z.pow_0_r, ceil_div_1.
  rewrite Z.min_l by (unfold_int; nia). rewrite Z.mul_assoc. by apply (fast_value (positive t) _ 0); lia.
Qed.
End Paths.

Lemma render_nonempty t : well_formed t -> is_empty (render t) = false.
Proof.
  intros (Hsg & _ & Hne & _). apply is_empty_false. unfold render, number_text.
  intros [[_ [Hi Hf]%append_eq_nil]%append_eq_nil _]%append_eq_nil. apply Hne.
  unfold frac. rewrite Hi. by destruct (tx_frac t).
Qed.

(** C27: [ParseQuantity] reads every well-formed quantity exactly: for a text of an optional
    sign, digits with at most one point, and one of the sixteen decimal and binary suffixes,
    it succeeds, whether by the fast path in int64 arithmetic or by the slow one in
    decimals, and the result is the number times its unit, signed, rounded away from zero to
    a billionth, and for a binary suffix no larger in size than the largest int64. (The
    comment of [Quantity] promises less: at most 2^63-1 and three decimals for every form.
    The code caps only the binary ones and keeps nine decimals; see the findings.) *)
Theorem ParseQuantity_meaning t unit_ binary :
  well_formed t -> (tx_suffix t, unit_, binary) ∈ units ->
  exists q, ParseQuantity (render t) = Ok q
  /\ dec_Cmp (quantity_AsDec q) (meaning t unit_ binary) = 0.
Proof.
  intros Hwf Hu. destruct (parse_text t unit_ binary Hwf Hu) as (v & num & Hparse & Hd & Hne & Hnum & Hset).
  apply units_interpreted in Hu as (e & _ & _ & _ & Hu).
  unfold ParseQuantity. rewrite render_nonempty, Hparse by done. cbn [sc_suffix sc_num sc_denom sc_value sc_positive].
  destruct (String.eqb_spec (render t) "0") as [Heq|_].
  - rewrite Heq in Hparse.
    change (parseQuantityString "0") with (Ok (Scanned true "0" "0" EmptyString EmptyString)) in Hparse.
    injection Hparse as Hp _ Hn Hf Hs.
    eexists. split; [done|]. unfold meaning. rewrite <- Hnum, <- Hn, <- Hf, <- Hp.
    destruct binary; [by destruct Hu as (_ & _ & ? & _)|].
    change (number ("0" +:+ EmptyString)) with 0. simpl String.length.
    rewrite Z.pow_0_r, ceil_div_1. done.
  - destruct binary.
    + destruct Hu as (-> & Hu & _ & He). by eapply path_binary.
    + destruct Hu as (-> & Hu & He). by eapply path_decimal.
Qed.
