(* ===== verification/Objects.v ===== *)
(** * Kubernetes and OCI data

    The fields of the API objects that the provisioner reads or writes.  A pointer that can
    be nil is an [option]; a string enumeration of an SDK stays a string, since a service
    may return values the SDK does not list. *)

From S2P Require Import Prelude GoStrings Errors Quantity.

(** ** Kubernetes (k8s.io/api/core/v1) *)

Definition ReadWriteOnce : string := "ReadWriteOnce".
Definition ReadOnlyMany : string := "ReadOnlyMany".
Definition ReadWriteMany : string := "ReadWriteMany".
Definition ResourceStorage : string := "storage".
Definition VolumeReleased : string := "Released".
Definition VolumeFailed : string := "Failed".
Definition PersistentVolumeReclaimDelete : string := "Delete".
Definition PersistentVolumeBlock : string := "Block".
Definition BetaStorageClassAnnotation : string := "volume.beta.kubernetes.io/storage-class".

Record LabelSelector : Type := { MatchLabels : gmap string string }.

Record PersistentVolumeClaim : Type := {
  pvc_Namespace : string;
  pvc_Name : string;
  pvc_UID : string;
  pvc_Annotations : gmap string string;
  pvc_AccessModes : list string;
  pvc_Selector : option LabelSelector;
  pvc_Requests : gmap string Quantity;
  pvc_VolumeName : string;
  pvc_StorageClassName : option string;
  pvc_VolumeMode : option string
}.

Record ObjectReference : Type := {
  or_Kind : string;
  or_APIVersion : string;
  or_Namespace : string;
  or_Name : string;
  or_UID : string;
  or_ResourceVersion : string
}.

(** controller.VolumeOptions *)
Record VolumeOptions : Type := {
  vo_ReclaimPolicy : string;
  vo_PVName : string;
  vo_MountOptions : list string;
  vo_PVC : option PersistentVolumeClaim;
  vo_Parameters : gmap string string
}.

Record FlexPersistentVolumeSource : Type := { flex_Driver : string; flex_FSType : string }.
Record NFSVolumeSource : Type := { nfs_Server : string; nfs_Path : string; nfs_ReadOnly : bool }.

Record PersistentVolume : Type := {
  pv_Name : string;
  pv_Annotations : gomap string;
  pv_Labels : gomap string;
  pv_ReclaimPolicy : string;
  pv_AccessModes : list string;
  pv_Capacity : gmap string Quantity;
  pv_FlexVolume : option FlexPersistentVolumeSource;
  pv_NFS : option NFSVolumeSource;
  pv_MountOptions : list string;
  pv_ClaimRef : option ObjectReference;
  pv_StorageClassName : string;
  pv_Phase : string
}.

(** storage.k8s.io StorageClass *)
Record StorageClass : Type := {
  sc_Provisioner : string;
  sc_Parameters : gmap string string;
  sc_ReclaimPolicy : option string;
  sc_MountOptions : list string
}.

Record Node : Type := { node_Name : string; node_Labels : gmap string string }.

(** ** OCI identity and networking *)

Record AvailabilityDomain : Type := { ad_Name : option string; ad_CompartmentId : option string }.
Record PrivateIp : Type := { ip_IpAddress : option string }.

(** ** OCI block storage *)

Definition VolumeAvailable : string := "AVAILABLE".
Definition VolumeFaulty : string := "FAULTY".
Definition VolumeTerminated : string := "TERMINATED".
Definition VolumeTerminating : string := "TERMINATING".
Definition VolumeProvisioning : string := "PROVISIONING".

Record CreateVolumeDetails : Type := {
  cv_AvailabilityDomain : option string;
  cv_CompartmentId : option string;
  cv_DisplayName : option string;
  cv_SizeInMBs : option Z;
  (** core.VolumeSourceFromVolumeBackupDetails: the backup id *)
  cv_SourceBackupId : option string
}.

Record Volume : Type := { vol_Id : option string; vol_LifecycleState : string }.

(** DeleteVolumeResponse and the error returned next to it: the status of the raw response,
    when there is one. *)
Record DeleteVolumeReply : Type := { dv_RawStatus : option Z; dv_err : option sdk_error }.

(** ** OCI file storage *)

Definition FssCreating : string := "CREATING".
Definition FssActive : string := "ACTIVE".
Definition FssDeleting : string := "DELETING".
Definition FssDeleted : string := "DELETED".
Definition FssFailed : string := "FAILED".

Record FileSystem : Type := { fs_Id : option string; fs_LifecycleState : string }.
Record FileSystemSummary : Type := { fss_Id : option string; fss_DisplayName : option string }.
Record MountTarget : Type := {
  mt_Id : option string;
  mt_LifecycleState : string;
  mt_PrivateIpIds : list string;
  mt_ExportSetId : option string
}.
Record Export : Type := {
  ex_Id : option string; ex_LifecycleState : string; ex_Path : option string
}.
Record ExportSummary : Type := { es_Id : option string; es_LifecycleState : string }.

Record CreateFileSystemDetails : Type := {
  cf_CompartmentId : option string;
  cf_AvailabilityDomain : option string;
  cf_DisplayName : option string
}.
Record ListFileSystemsRequest : Type := {
  lf_CompartmentId : option string;
  lf_AvailabilityDomain : option string;
  lf_DisplayName : option string
}.
Record ListFileSystemsResponse : Type := {
  lfs_Items : list FileSystemSummary; lfs_OpcNextPage : option string
}.
Record CreateExportDetails : Type := {
  ce_ExportSetId : option string; ce_FileSystemId : option string; ce_Path : option string
}.
Record ListExportsRequest : Type := {
  le_CompartmentId : option string;
  le_FileSystemId : option string;
  le_ExportSetId : option string;
  le_Page : option string
}.
Record ListExportsResponse : Type := {
  le_Items : list ExportSummary; le_OpcNextPage : option string
}.

(** ** Instance metadata (pkg/oci/instancemeta) *)

Record InstanceMetadata : Type := { md_CompartmentOCID : string; md_Region : string }.

(** The outcome of an SDK call: the response or an SDK error. *)
Definition api (A : Type) : Type := (A + sdk_error)%type.

Definition from_api {A} (r : api A) : result A :=
  match r with inl a => Ok a | inr e => Err (ErrSDK e) end.
