(* ===== verification/Config.v ===== *)
(** * The OCI configuration: pkg/oci/client/config.go and config_validate.go

    The configuration structs, the defaulting of the deprecated compartment setting, and the
    validation that produces one field error per offending field. *)

From S2P Require Import Prelude GoStrings Errors.

(** ** Data (config.go) *)

Record AuthConfig : Set := {
  TenancyOCID : string;
  UserOCID : string;
  auth_CompartmentOCID : string;
  PrivateKey : string;
  Fingerprint : string;
  Region : string;
  PrivateKeyPassphrase : string
}.

Record Config : Set := {
  Auth : AuthConfig;
  UseInstancePrincipals : bool;
  CompartmentOCID : string
}.

#[export] Instance AuthConfig_eq_dec : EqDecision AuthConfig.
Proof. solve_decision. Defined.
#[export] Instance Config_eq_dec : EqDecision Config.
Proof. solve_decision. Defined.

Definition set_CompartmentOCID (c : Config) (v : string) : Config :=
  {| Auth := Auth c; UseInstancePrincipals := UseInstancePrincipals c; CompartmentOCID := v |}.

(** [Complete]: the deprecated [auth.compartment] is used only when [compartment] is unset. *)
Definition Complete (c : Config) : Config :=
  if is_empty (CompartmentOCID c) && negb (is_empty (auth_CompartmentOCID (Auth c)))
  then set_CompartmentOCID c (auth_CompartmentOCID (Auth c))
  else c.

(** ** Field paths (k8s.io/apimachinery/pkg/util/validation/field, vendored) *)

Inductive Path : Set := MkPath (name index : string) (parent : option Path).

Definition NewPath (name : string) : Path := MkPath name EmptyString None.
Definition Child (p : Path) (name : string) : Path := MkPath name EmptyString (Some p).

Fixpoint Path_String (p : Path) : string :=
  match p with
  | MkPath name index parent =>
      let elem := if is_empty name then Sprintf "[%s]" [FStr index] else name in
      match parent with
      | None => elem
      | Some q => Path_String q +:+ (if is_empty name then elem else "." +:+ elem)
      end
  end.

Definition Required (p : Path) (detail : string) : field_Error :=
  {| Type_ := ErrorTypeRequired; Field := Path_String p; Detail := detail |}.
Definition Forbidden (p : Path) (detail : string) : field_Error :=
  {| Type_ := ErrorTypeForbidden; Field := Path_String p; Detail := detail |}.

(** [ErrorList.ToAggregate]: errors with a message seen before are dropped, and an empty
    list is the nil error. *)
Fixpoint dedup_by_message (seen : gset string) (l : list field_Error) : list field_Error :=
  match l with
  | [] => []
  | e :: r =>
      let msg := field_Error_String e in
      if bool_decide (msg ∈ seen) then dedup_by_message seen r
      else e :: dedup_by_message ({[msg]} ∪ seen) r
  end.

Definition ToAggregate (l : list field_Error) : option error :=
  match dedup_by_message ∅ l with
  | [] => None
  | errs => Some (ErrAggregate errs)
  end.

(** ** Validation (config_validate.go) *)

Definition instance_principals_detail : string :=
  "cannot be used when useInstancePrincipals is enabled".

(** [if s != EmptyString { allErrs = append(allErrs, e) }] and its negation. *)
Definition append_unless_empty (s : string) (e : field_Error) (l : list field_Error) :
  list field_Error := if negb (is_empty s) then l ++ [e] else l.
Definition append_if_empty (s : string) (e : field_Error) (l : list field_Error) :
  list field_Error := if is_empty s then l ++ [e] else l.

Definition validateAuthConfig (c : Config) (fldPath : Path) : list field_Error :=
  let allErrs := [] in
  if UseInstancePrincipals c then
    let forbid k := Forbidden (Child fldPath k) instance_principals_detail in
    let allErrs := append_unless_empty (Region (Auth c)) (forbid "region") allErrs in
    let allErrs := append_unless_empty (TenancyOCID (Auth c)) (forbid "tenancy") allErrs in
    let allErrs := append_unless_empty (UserOCID (Auth c)) (forbid "user") allErrs in
    let allErrs := append_unless_empty (PrivateKey (Auth c)) (forbid "key") allErrs in
    let allErrs := append_unless_empty (Fingerprint (Auth c)) (forbid "fingerprint") allErrs in
    allErrs
  else
    let require k := Required (Child fldPath k) EmptyString in
    let allErrs := append_if_empty (Region (Auth c)) (require "region") allErrs in
    let allErrs := append_if_empty (TenancyOCID (Auth c)) (require "tenancy") allErrs in
    let allErrs := append_if_empty (UserOCID (Auth c)) (require "user") allErrs in
    let allErrs := append_if_empty (PrivateKey (Auth c)) (require "key") allErrs in
    let allErrs := append_if_empty (Fingerprint (Auth c)) (require "fingerprint") allErrs in
    allErrs.

Definition ValidateConfig (c : Config) : list field_Error :=
  [] ++ validateAuthConfig c (NewPath "auth").

Definition Validate (c : Config) : option error := ToAggregate (ValidateConfig c).

(** ** The abstract specification of the validation *)

(** The validated settings with the names they have in the configuration file. *)
Definition auth_fields (a : AuthConfig) : list (string * string) :=
  [("region", Region a); ("tenancy", TenancyOCID a); ("user", UserOCID a);
   ("key", PrivateKey a); ("fingerprint", Fingerprint a)].

(** A setting offends when it is present with instance principals, or absent without. *)
Definition offending (c : Config) (v : string) : bool :=
  if UseInstancePrincipals c then negb (is_empty v) else is_empty v.

Definition field_error (c : Config) (k : string) : field_Error :=
  {| Type_ := if UseInstancePrincipals c then ErrorTypeForbidden else ErrorTypeRequired;
     Field := "auth." +:+ k;
     Detail := if UseInstancePrincipals c then instance_principals_detail else EmptyString |}.

Definition expected_errors (c : Config) : list field_Error :=
  flat_map (fun '(k, v) => if offending c v then [field_error c k] else [])
           (auth_fields (Auth c)).

Lemma dedup_nil seen l : dedup_by_message seen l = [] -> Forall (fun e => field_Error_String e ∈ seen) l.
Proof.
  revert seen. induction l as [|e l IH]; simpl; intros seen; [done|].
  case_bool; [|done]. intros H. constructor; auto.
Qed.

Lemma ToAggregate_None l : ToAggregate l = None <-> l = [].
Proof.
  unfold ToAggregate. split; [|by intros ->].
  destruct (dedup_by_message ∅ l) eqn:E; [|done]. apply dedup_nil in E.
  destruct l; [done|]. inversion E; set_solver.
Qed.

(** Errors with pairwise distinct messages are all kept, in order. *)
Lemma dedup_NoDup seen l :
  NoDup (field_Error_String <$> l) ->
  Forall (fun e => field_Error_String e ∉ seen) l -> dedup_by_message seen l = l.
Proof.
  revert seen. induction l as [|e l IH]; intros seen Hnd Hall; [done|].
  rewrite fmap_cons in Hnd. apply NoDup_cons in Hnd as [Hni Hnd].
  apply Forall_cons in Hall as [He Hall].
  simpl. rewrite bool_decide_eq_false_2 by done.
  f_equal. apply IH; [done|]. rewrite Forall_forall in Hall |- *. intros x Hx.
  assert (field_Error_String x ≠ field_Error_String e).
  { intros Heq. apply Hni. rewrite <- Heq. by apply list_elem_of_fmap_2. }
  specialize (Hall x Hx). set_solver.
Qed.

Ltac five_settings c :=
  destruct (UseInstancePrincipals c); simpl;
  destruct (is_empty (Region (Auth c))), (is_empty (TenancyOCID (Auth c))),
    (is_empty (UserOCID (Auth c))), (is_empty (PrivateKey (Auth c))),
    (is_empty (Fingerprint (Auth c))).

Lemma reported c : ValidateConfig c = expected_errors c.
Proof.
  unfold ValidateConfig, validateAuthConfig, expected_errors, auth_fields, offending,
    append_unless_empty, append_if_empty, field_error, Forbidden, Required.
  five_settings c; reflexivity.
Qed.

(** No two of the errors read alike, so the aggregate keeps them all. *)
Lemma expected_errors_distinct c : NoDup (field_Error_String <$> expected_errors c).
Proof.
  apply (bool_decide_unpack (NoDup (field_Error_String <$> expected_errors c))). unfold expected_errors, auth_fields, offending, field_error.
  five_settings c; vm_compute; exact I.
Qed.

Lemma expected_errors_nil c :
  expected_errors c = [] <-> Forall (fun '(_, v) => offending c v = false) (auth_fields (Auth c)).
Proof.
  unfold expected_errors. generalize (auth_fields (Auth c)) as l.
  induction l as [|[k v] l IH]; simpl; [done|].
  destruct (offending c v) eqn:Ho; simpl.
  - split; [done|]. intros H. inversion H; congruence.
  - rewrite IH. split; [by constructor|]. intros H. by inversion H.
Qed.

(** ** Properties *)

(** C36: the validation reports exactly one error per offending setting, in the order
    region, tenancy, user, key, fingerprint, under the path of the setting: with instance
    principals every setting that is present is forbidden, without them every setting that
    is absent is required. [Validate] returns them all: the aggregation, which drops errors
    that read alike, drops none of them. *)
Theorem ValidateConfig_spec c :
  ValidateConfig c = expected_errors c
  /\ Validate c = match expected_errors c with [] => None | l => Some (ErrAggregate l) end.
Proof.
  split; [apply reported|]. unfold Validate, ToAggregate. rewrite reported.
  rewrite dedup_NoDup; [done|apply expected_errors_distinct|].
  apply Forall_forall. set_solver.
Qed.

(** [Validate] accepts (returns nil) exactly the two usable shapes of configuration: an
    instance-principals configuration that leaves all five user credentials empty, and a
    user-credentials configuration that sets all five. *)
Theorem Validate_accepts c :
  Validate c = None <->
  (UseInstancePrincipals c = true
     /\ Forall (fun '(_, v) => v = EmptyString) (auth_fields (Auth c)))
  \/ (UseInstancePrincipals c = false
     /\ Forall (fun '(_, v) => v ≠ EmptyString) (auth_fields (Auth c))).
Proof.
  unfold Validate. rewrite ToAggregate_None, reported, expected_errors_nil.
  rewrite !Forall_forall. unfold offending.
  destruct (UseInstancePrincipals c); split.
  - intros H. left. split; [done|]. intros [k v] Hin.
    by apply is_empty_true, negb_false_iff, (H (k, v)).
  - intros [[_ H]|[? _]]; [|done]. intros [k v] Hin. by rewrite (H (k, v) Hin).
  - intros H. right. split; [done|]. intros [k v] Hin ->. by specialize (H _ Hin).
  - intros [[? _]|[_ H]]; [done|]. intros [k v] Hin. by apply String.eqb_neq, (H (k, v)).
Qed.

(** [Complete] gives the compartment its documented value: an explicit [compartment]
    wins, the deprecated [auth.compartment] is the fallback, nothing else changes, and
    completing twice is completing once. *)
Theorem Complete_spec c :
  CompartmentOCID (Complete c) =
    (if is_empty (CompartmentOCID c) then auth_CompartmentOCID (Auth c) else CompartmentOCID c)
  /\ Auth (Complete c) = Auth c
  /\ UseInstancePrincipals (Complete c) = UseInstancePrincipals c
  /\ Validate (Complete c) = Validate c
  /\ Complete (Complete c) = Complete c.
Proof.
  destruct c as [[t u ac k f r p] uip comp]. unfold Complete; simpl.
  destruct (is_empty comp) eqn:Hc, (is_empty ac) eqn:Ha; simpl; rewrite ?Hc, ?Ha; try done.
  apply is_empty_true in Hc, Ha. by subst.
Qed.
