(* ===== verification/Effects.v ===== *)
(** * The effect monad

    A procedure of the program is a computation [M W A]: it threads the clock, the state [W]
    of everything outside the process and the one shared mutable object of the program (the
    [*Config], into which the client caches the compartment), it may panic, exit the process
    or exceed the fuel of an unbounded loop, and it yields the list of the calls it made to
    the outside, each with the time, the context deadline, the request and the reply.

    What is outside the process (the OCI services, the API server, the instance metadata
    endpoint, the random source, the choice a [select] makes between ready channels) is a
    [Backend]: operations on an abstract [W], about which nothing is assumed except that
    time does not run backwards. *)

From S2P Require Import Prelude GoStrings Errors Quantity Objects Config.

(** ** Contexts: [context.Background] and [context.WithTimeout]

    Only the deadline of a context matters to the program: the [cancel] functions run when
    the function that made the context returns, after its last use. *)

Definition ctx : Type := option Z.
Definition Background : ctx := None.

Definition with_deadline (parent : ctx) (d : Z) : ctx :=
  match parent with Some p => Some (Z.min p d) | None => Some d end.

Definition expired (c : ctx) (now : Z) : bool :=
  match c with Some d => (d <=? now)%Z | None => false end.

(** Durations are nanoseconds. *)
Definition Second : Z := 1000000000.
Definition Minute : Z := 60 * Second.

(** ** Calls to the outside and their replies *)

Inductive call : Type :=
| CCreateVolume (req : CreateVolumeDetails) (resp : api Volume)
| CGetVolume (VolumeId : option string) (resp : api Volume)
| CDeleteVolume (VolumeId : option string) (resp : DeleteVolumeReply)
| CListAvailabilityDomains (CompartmentId : option string) (resp : api (list AvailabilityDomain))
| CCreateFileSystem (req : CreateFileSystemDetails) (resp : api FileSystem)
| CGetFileSystem (FileSystemId : option string) (resp : api FileSystem)
| CListFileSystems (req : ListFileSystemsRequest) (resp : api ListFileSystemsResponse)
| CDeleteFileSystem (FileSystemId : option string) (resp : api unit)
| CCreateExport (req : CreateExportDetails) (resp : api Export)
| CListExports (req : ListExportsRequest) (resp : api ListExportsResponse)
| CGetExport (ExportId : option string) (resp : api Export)
| CDeleteExport (ExportId : option string) (resp : api unit)
| CGetMountTarget (MountTargetId : option string) (resp : api MountTarget)
| CGetPrivateIp (PrivateIpId : option string) (resp : api PrivateIp)
| CListNodes (resp : result (list Node))
| CHttpGet (url : string) (resp : result (Z * string))
| CGetPV (name : string) (resp : result (option PersistentVolume))
| CCreatePV (pv : PersistentVolume) (resp : result unit)
| CDeletePV (name : string) (resp : result unit)
| CEvent (eventtype reason message : string).

Record event : Type := Event { ev_at : Z; ev_ctx : ctx; ev_call : call }.

(** ** The outside *)

(** An operation sees the time and the state; it answers after some time. *)
Definition Op (W A : Type) : Type := Z -> W -> A * N * W.

(** client.go: the interfaces to the OCI sub-clients. *)
Class BlockStorage (W : Type) := {
  bs_CreateVolume : ctx -> CreateVolumeDetails -> Op W (api Volume);
  bs_DeleteVolume : ctx -> option string -> Op W DeleteVolumeReply;
  bs_GetVolume : ctx -> option string -> Op W (api Volume)
}.

Class Identity (W : Type) := {
  id_ListAvailabilityDomains : ctx -> option string -> Op W (api (list AvailabilityDomain))
}.

Class FSS (W : Type) := {
  fss_CreateFileSystem : ctx -> CreateFileSystemDetails -> Op W (api FileSystem);
  fss_GetFileSystem : ctx -> option string -> Op W (api FileSystem);
  fss_ListFileSystems : ctx -> ListFileSystemsRequest -> Op W (api ListFileSystemsResponse);
  fss_DeleteFileSystem : ctx -> option string -> Op W (api unit);
  fss_CreateExport : ctx -> CreateExportDetails -> Op W (api Export);
  fss_ListExports : ctx -> ListExportsRequest -> Op W (api ListExportsResponse);
  fss_GetExport : ctx -> option string -> Op W (api Export);
  fss_DeleteExport : ctx -> option string -> Op W (api unit);
  fss_GetMountTarget : ctx -> option string -> Op W (api MountTarget)
}.

Class VCN (W : Type) := {
  vcn_GetPrivateIp : ctx -> option string -> Op W (api PrivateIp)
}.

(** The node lister of the API server, the HTTP client, and the Go runtime: the process
    environment, the random source ([uint64] values of [rand.Int63]) and the choice of
    [select] between two ready channels, which takes no time. *)
Class Host (W : Type) := {
  host_ListNodes : Op W (result (list Node));
  host_HttpGet : string -> Op W (result (Z * string));
  host_environ : gmap string string;
  host_rand : Op W N;
  host_select : W -> bool * W
}.

Class Backend (W : Type) := {
  #[global] backend_BlockStorage :: BlockStorage W;
  #[global] backend_Identity :: Identity W;
  #[global] backend_FSS :: FSS W;
  #[global] backend_VCN :: VCN W;
  #[global] backend_Host :: Host W
}.

(** Library functions whose code is outside the model: the parsers and the file system.
    [yaml_Unmarshal b c] decodes into a variable that holds [Some c]; a YAML null leaves the
    nil pointer.  [os_Open] gives the open file as what reading all of it yields. *)
Class GoLib := {
  url_Parse : string -> result string;
  json_Decode : string -> result InstanceMetadata;
  yaml_Unmarshal : string -> Config -> result (option Config);
  ReadFile : string -> result string;
  os_Open : string -> result (result string);
  AppendCertsFromPEM : string -> option string
}.

(** ** The monad *)

Inductive panic : Set :=
| NilDereference
| IndexOutOfRange
| NilMapWrite
| NonPositiveTicker
| TypeAssertion
| DivideByZero
| ErrorValue.

Inductive outcome (A : Type) : Type :=
| Val (a : A)
| Panicked (p : panic)
| Exited (code : Z)
| OutOfFuel.
Arguments Val {A} _.
Arguments Panicked {A} _.
Arguments Exited {A} _.
Arguments OutOfFuel {A}.

Record state (W : Type) : Type := State { st_now : Z; st_world : W; st_cfg : option Config }.
Arguments State {W} _ _ _.
Arguments st_now {W} _.
Arguments st_world {W} _.
Arguments st_cfg {W} _.

Definition M (W A : Type) : Type := state W -> outcome A * state W * list event.

Section Monad.
Context {W : Type}.

Definition ret {A} (a : A) : M W A := fun s => (Val a, s, []).

Definition bind {A B} (m : M W A) (k : A -> M W B) : M W B := fun s =>
  match m s with
  | (Val a, s1, l1) => let '(o, s2, l2) := k a s1 in (o, s2, l1 ++ l2)
  | (Panicked p, s1, l1) => (Panicked p, s1, l1)
  | (Exited c, s1, l1) => (Exited c, s1, l1)
  | (OutOfFuel, s1, l1) => (OutOfFuel, s1, l1)
  end.

(** [x, err := m; if err != nil { return ..., err }]. *)
Definition bind_ok {A B} (m : M W (result A)) (k : A -> M W (result B)) : M W (result B) :=
  bind m (fun r => match r with Ok a => k a | Err e => ret (Err e) end).

Definition panic_ {A} (p : panic) : M W A := fun s => (Panicked p, s, []).
(** [logger.Fatal] *)
Definition fatal {A} : M W A := fun s => (Exited 1, s, []).
Definition out_of_fuel {A} : M W A := fun s => (OutOfFuel, s, []).

(** [*p] *)
Definition deref {A} (p : option A) : M W A :=
  match p with Some a => ret a | None => panic_ NilDereference end.

(** [l\[i\]] *)
Definition index {A} (l : list A) (i : Z) : M W A :=
  if (0 <=? i)%Z then match l !! Z.to_nat i with Some a => ret a | None => panic_ IndexOutOfRange end
  else panic_ IndexOutOfRange.

(** [m\[k\] = v] *)
Definition map_write {A} (m : gomap A) (k : string) (v : A) : M W (gomap A) :=
  match m with Some g => ret (Some (<[k := v]> g)) | None => panic_ NilMapWrite end.

Definition now : M W Z := fun s => (Val (st_now s), s, []).
Definition get_cfg : M W (option Config) := fun s => (Val (st_cfg s), s, []).
Definition put_cfg (c : option Config) : M W unit := fun s =>
  (Val tt, State (st_now s) (st_world s) c, []).

(** Run an operation of the outside, without and with a record in the log. *)
Definition silent {A} (op : Op W A) : M W A := fun s =>
  let '(a, d, w) := op (st_now s) (st_world s) in
  (Val a, State (st_now s + Z.of_N d) w (st_cfg s), []).

Definition choose {A} (pick : W -> A * W) : M W A := fun s =>
  let '(a, w) := pick (st_world s) in (Val a, State (st_now s) w (st_cfg s), []).

Definition invoke {A} (c : ctx) (op : Op W A) (mk : A -> call) : M W A := fun s =>
  let '(a, d, w) := op (st_now s) (st_world s) in
  (Val a, State (st_now s + Z.of_N d) w (st_cfg s), [Event (st_now s) c (mk a)]).

(** [time.Sleep]: a duration that is not positive returns at once. *)
Definition sleep (d : Z) : M W unit := fun s =>
  (Val tt, State (st_now s + Z.max d 0) (st_world s) (st_cfg s), []).

Definition WithTimeout (parent : ctx) (d : Z) : M W ctx :=
  bind now (fun t => ret (with_deadline parent (t + d))).

Fixpoint mapM {A B} (f : A -> M W B) (l : list A) : M W (list B) :=
  match l with
  | [] => ret []
  | x :: r => bind (f x) (fun y => bind (mapM f r) (fun ys => ret (y :: ys)))
  end.
End Monad.

Declare Scope go_scope.
Delimit Scope go_scope with go.
Notation "'let*' x := m 'in' k" := (bind m (fun x => k))
  (at level 10, x pattern, k at level 200) : go_scope.
Notation "'let!' x := m 'in' k" := (bind_ok m (fun x => k))
  (at level 10, x pattern, k at level 200) : go_scope.
Open Scope go_scope.

(** ** The API methods, as the code calls them *)

Section Api.
Context {W : Type} `{Backend W}.

Definition CreateVolume (c : ctx) (r : CreateVolumeDetails) : M W (result Volume) :=
  let* a := invoke c (bs_CreateVolume c r) (CCreateVolume r) in ret (from_api a).
Definition GetVolume (c : ctx) (id : option string) : M W (result Volume) :=
  let* a := invoke c (bs_GetVolume c id) (CGetVolume id) in ret (from_api a).
Definition DeleteVolume (c : ctx) (id : option string) : M W DeleteVolumeReply :=
  invoke c (bs_DeleteVolume c id) (CDeleteVolume id).
Definition ListAvailabilityDomains (c : ctx) (comp : option string) :
  M W (result (list AvailabilityDomain)) :=
  let* a := invoke c (id_ListAvailabilityDomains c comp) (CListAvailabilityDomains comp) in
  ret (from_api a).
Definition CreateFileSystem (c : ctx) (r : CreateFileSystemDetails) : M W (result FileSystem) :=
  let* a := invoke c (fss_CreateFileSystem c r) (CCreateFileSystem r) in ret (from_api a).
Definition GetFileSystem (c : ctx) (id : option string) : M W (result FileSystem) :=
  let* a := invoke c (fss_GetFileSystem c id) (CGetFileSystem id) in ret (from_api a).
Definition ListFileSystems (c : ctx) (r : ListFileSystemsRequest) :
  M W (result ListFileSystemsResponse) :=
  let* a := invoke c (fss_ListFileSystems c r) (CListFileSystems r) in ret (from_api a).
Definition DeleteFileSystem (c : ctx) (id : option string) : M W (result unit) :=
  let* a := invoke c (fss_DeleteFileSystem c id) (CDeleteFileSystem id) in ret (from_api a).
Definition CreateExport (c : ctx) (r : CreateExportDetails) : M W (result Export) :=
  let* a := invoke c (fss_CreateExport c r) (CCreateExport r) in ret (from_api a).
Definition ListExports (c : ctx) (r : ListExportsRequest) : M W (result ListExportsResponse) :=
  let* a := invoke c (fss_ListExports c r) (CListExports r) in ret (from_api a).
Definition GetExport (c : ctx) (id : option string) : M W (result Export) :=
  let* a := invoke c (fss_GetExport c id) (CGetExport id) in ret (from_api a).
Definition DeleteExport (c : ctx) (id : option string) : M W (result unit) :=
  let* a := invoke c (fss_DeleteExport c id) (CDeleteExport id) in ret (from_api a).
Definition GetMountTarget (c : ctx) (id : option string) : M W (result MountTarget) :=
  let* a := invoke c (fss_GetMountTarget c id) (CGetMountTarget id) in ret (from_api a).
Definition GetPrivateIp (c : ctx) (id : option string) : M W (result PrivateIp) :=
  let* a := invoke c (vcn_GetPrivateIp c id) (CGetPrivateIp id) in ret (from_api a).
Definition ListNodes : M W (result (list Node)) :=
  invoke Background host_ListNodes CListNodes.
Definition HttpGet (url : string) : M W (result (Z * string)) :=
  invoke Background (host_HttpGet url) (CHttpGet url).

(** [os.LookupEnv] and [os.Getenv] *)
Definition LookupEnv (k : string) : option string := host_environ !! k.
Definition Getenv (k : string) : string := read_or_empty host_environ k.

(** [rand.Int]: the sign bit of the random word is cleared. *)
Definition rand_Int : M W Z :=
  let* u := silent host_rand in ret (Z.of_N (N.land u 9223372036854775807)).
End Api.
