(* ===== verification/Logic.v ===== *)
(** * Reasoning about computations

    [post m s Q]: running [m] from [s] ends in an outcome, a state and a list of calls that
    satisfy [Q].  The rules below run a computation symbolically; [go] applies them.

    [upholds m R]: every run of [m], from any state, relates the state before, the state
    after and the calls made by [R].  For an [R] that composes (a [TraceRel]) this is proved
    by structure alone, with the hint database [upholds]. *)

From S2P Require Import Prelude GoStrings Errors Quantity Objects Config Effects.

Section Logic.
Context {W : Type}.
Implicit Types s : state W.

Definition post {A} (m : M W A) s (Q : outcome A -> state W -> list event -> Prop) : Prop :=
  let '(o, s', l) := m s in Q o s' l.

Lemma post_mono {A} (m : M W A) s (Q Q' : outcome A -> state W -> list event -> Prop) :
  post m s Q -> (forall o s' l, Q o s' l -> Q' o s' l) -> post m s Q'.
Proof. unfold post. destruct (m s) as [[o s'] l]. auto. Qed.

Lemma post_and {A} (m : M W A) s (Q Q' : outcome A -> state W -> list event -> Prop) :
  post m s Q -> post m s Q' -> post m s (fun o s' l => Q o s' l /\ Q' o s' l).
Proof. unfold post. destruct (m s) as [[o s'] l]. auto. Qed.

Lemma post_run {A} (m : M W A) s Q o s' l : post m s Q -> m s = (o, s', l) -> Q o s' l.
Proof. unfold post. intros H Hr. by rewrite Hr in H. Qed.

Lemma post_of_run {A} (m : M W A) s (Q : outcome A -> state W -> list event -> Prop) :
  (forall o s' l, m s = (o, s', l) -> Q o s' l) -> post m s Q.
Proof. unfold post. destruct (m s) as [[o s'] l]. auto. Qed.

Lemma post_ret {A} (a : A) s (Q : outcome A -> state W -> list event -> Prop) :
  Q (Val a) s [] -> post (ret a) s Q.
Proof. done. Qed.

(** The continuation of a bind sees the calls made so far in front of its own. *)
Definition then_ {A B} (k : A -> M W B) (Q : outcome B -> state W -> list event -> Prop)
    (o : outcome A) s (l : list event) : Prop :=
  match o with
  | Val a => post (k a) s (fun o' s' l' => Q o' s' (l ++ l'))
  | Panicked p => Q (Panicked p) s l
  | Exited c => Q (Exited c) s l
  | OutOfFuel => Q OutOfFuel s l
  end.

Lemma post_bind {A B} (m : M W A) (k : A -> M W B) s
    (Q : outcome B -> state W -> list event -> Prop) :
  post m s (then_ k Q) -> post (bind m k) s Q.
Proof.
  unfold post, bind, then_. destruct (m s) as [[[a|p|c|] s'] l]; try done.
  unfold post. by destruct (k a s') as [[o s''] l'].
Qed.

Lemma post_bind_inv {A B} (m : M W A) (k : A -> M W B) s
    (Q : outcome B -> state W -> list event -> Prop) :
  post (bind m k) s Q -> post m s (then_ k Q).
Proof.
  unfold post, bind, then_. destruct (m s) as [[[a|p|c|] s'] l]; try done.
  unfold post. by destruct (k a s') as [[o s''] l'].
Qed.

(** A bind that yields a value: its two halves. *)
Lemma bind_Val {A B} (m : M W A) (k : A -> M W B) s b s' l :
  bind m k s = (Val b, s', l) ->
  exists a s1 l1 l2, m s = (Val a, s1, l1) /\ k a s1 = (Val b, s', l2) /\ l = l1 ++ l2.
Proof.
  unfold bind. destruct (m s) as [[[a|p|c|] s1] l1]; try done.
  destruct (k a s1) as [[o s2] l2] eqn:Hk. intros [= -> -> <-]. eauto 10.
Qed.

Lemma bind_ok_Ok {A B} (m : M W (result A)) (k : A -> M W (result B)) s b s' l :
  bind_ok m k s = (Val (Ok b), s', l) ->
  exists a s1 l1 l2, m s = (Val (Ok a), s1, l1) /\ k a s1 = (Val (Ok b), s', l2)
    /\ l = l1 ++ l2.
Proof. intros ([a|e] & s1 & l1 & l2 & Hm & Hk & ->)%bind_Val; [eauto 10|done]. Qed.

Lemma bind_ok_Err {A B} (m : M W (result A)) (k : A -> M W (result B)) s e s' l :
  bind_ok m k s = (Val (Err e), s', l) ->
  m s = (Val (Err e), s', l)
  \/ exists a s1 l1 l2, m s = (Val (Ok a), s1, l1) /\ k a s1 = (Val (Err e), s', l2)
       /\ l = l1 ++ l2.
Proof.
  intros ([a|e'] & s1 & l1 & l2 & Hm & Hk & ->)%bind_Val; [eauto 10|].
  injection Hk as <- <- <-. left. by rewrite app_nil_r.
Qed.

Lemma deref_Val {A} (p : option A) s a s' l :
  deref p s = (Val a, s', l) -> p = Some a /\ s' = s /\ l = [].
Proof. destruct p; [|done]. by intros [= <- <- <-]. Qed.

Lemma map_write_Val {A} (m : gomap A) k v s m' s' l :
  map_write m k v s = (Val m', s', l) ->
  exists g, m = Some g /\ m' = Some (<[k := v]> g) /\ s' = s /\ l = [].
Proof. destruct m as [g|]; [|done]. intros [= <- <- <-]. eauto. Qed.

(** The three monad laws, pointwise. *)
Lemma bind_ret_l {A B} (a : A) (k : A -> M W B) s : bind (ret a) k s = k a s.
Proof. unfold bind, ret. by destruct (k a s) as [[o s'] l]. Qed.

Lemma bind_ret_r {A} (m : M W A) s : bind m ret s = m s.
Proof.
  unfold bind, ret. destruct (m s) as [[[a|p|c|] s'] l]; try done. by rewrite app_nil_r.
Qed.

Lemma bind_assoc {A B C} (m : M W A) (f : A -> M W B) (g : B -> M W C) s :
  bind (bind m f) g s = bind m (fun x => bind (f x) g) s.
Proof.
  unfold bind. destruct (m s) as [[[a|p|c|] s1] l1]; try done.
  destruct (f a s1) as [[[b|p|c|] s2] l2]; try done.
  destruct (g b s2) as [[o s3] l3]. by rewrite app_assoc.
Qed.

Lemma post_invoke {A} (c : ctx) (op : Op W A) (mk : A -> call) s
    (Q : outcome A -> state W -> list event -> Prop) :
  (forall a d w, op (st_now s) (st_world s) = (a, d, w) ->
     Q (Val a) (State (st_now s + Z.of_N d) w (st_cfg s)) [Event (st_now s) c (mk a)]) ->
  post (invoke c op mk) s Q.
Proof.
  unfold post, invoke. destruct (op (st_now s) (st_world s)) as [[a d] w]. auto.
Qed.

Lemma post_silent {A} (op : Op W A) s (Q : outcome A -> state W -> list event -> Prop) :
  (forall a d w, op (st_now s) (st_world s) = (a, d, w) ->
     Q (Val a) (State (st_now s + Z.of_N d) w (st_cfg s)) []) ->
  post (silent op) s Q.
Proof.
  unfold post, silent. destruct (op (st_now s) (st_world s)) as [[a d] w]. auto.
Qed.

Lemma post_choose {A} (pick : W -> A * W) s (Q : outcome A -> state W -> list event -> Prop) :
  (forall a w, pick (st_world s) = (a, w) -> Q (Val a) (State (st_now s) w (st_cfg s)) []) ->
  post (choose pick) s Q.
Proof. unfold post, choose. destruct (pick (st_world s)) as [a w]. auto. Qed.

Lemma post_sleep d s (Q : outcome unit -> state W -> list event -> Prop) :
  Q (Val tt) (State (st_now s + Z.max d 0) (st_world s) (st_cfg s)) [] -> post (sleep d) s Q.
Proof. done. Qed.

(** ** Properties of all runs *)

Definition trel : Type := state W -> state W -> list event -> Prop.

Class TraceRel (R : trel) : Prop := {
  tr_nil : forall s, R s s [];
  tr_app : forall s1 s2 s3 l1 l2, R s1 s2 l1 -> R s2 s3 l2 -> R s1 s3 (l1 ++ l2)
}.

(** [R] holds of a call that takes time and changes only the outside. *)
Class CallRel (R : trel) (P : call -> Prop) : Prop := {
  cr_call : forall s c k d w, P k ->
    R s (State (st_now s + Z.of_N d) w (st_cfg s)) [Event (st_now s) c k];
  cr_silent : forall s d w, R s (State (st_now s + Z.of_N d) w (st_cfg s)) []
}.

Definition upholds {A} (m : M W A) (R : trel) : Prop := forall s, post m s (fun _ s' l => R s s' l).

Lemma upholds_ret {A} (R : trel) `{!TraceRel R} (a : A) : upholds (ret a) R.
Proof. intros s. apply tr_nil. Qed.

Lemma upholds_panic {A} (R : trel) `{!TraceRel R} p : upholds (@panic_ W A p) R.
Proof. intros s. apply tr_nil. Qed.

Lemma upholds_fatal {A} (R : trel) `{!TraceRel R} : upholds (@fatal W A) R.
Proof. intros s. apply tr_nil. Qed.

Lemma upholds_out_of_fuel {A} (R : trel) `{!TraceRel R} : upholds (@out_of_fuel W A) R.
Proof. intros s. apply tr_nil. Qed.

Lemma upholds_now (R : trel) `{!TraceRel R} : upholds (@now W) R.
Proof. intros s. apply tr_nil. Qed.

Lemma upholds_get_cfg (R : trel) `{!TraceRel R} : upholds (@get_cfg W) R.
Proof. intros s. apply tr_nil. Qed.

Lemma upholds_bind {A B} (R : trel) `{!TraceRel R} (m : M W A) (k : A -> M W B) :
  upholds m R -> (forall a, upholds (k a) R) -> upholds (bind m k) R.
Proof.
  intros Hm Hk s. apply post_bind. eapply post_mono; [apply Hm|].
  intros [a|p|c|] s1 l1 H1; simpl; try done.
  eapply post_mono; [apply Hk|]. intros o s2 l2 H2. by eapply tr_app.
Qed.

Lemma upholds_bind_ok {A B} (R : trel) `{!TraceRel R}
    (m : M W (result A)) (k : A -> M W (result B)) :
  upholds m R -> (forall a, upholds (k a) R) -> upholds (bind_ok m k) R.
Proof.
  intros Hm Hk. apply upholds_bind; [done|done|]. intros [a|e]; [done|].
  by apply upholds_ret.
Qed.

Lemma upholds_deref {A} (R : trel) `{!TraceRel R} (p : option A) : upholds (@deref W A p) R.
Proof. destruct p; [by apply upholds_ret|by apply upholds_panic]. Qed.

Lemma upholds_index {A} (R : trel) `{!TraceRel R} (l : list A) i : upholds (@index W A l i) R.
Proof.
  unfold index. destruct (0 <=? i)%Z; [|by apply upholds_panic].
  destruct (l !! _); [by apply upholds_ret|by apply upholds_panic].
Qed.

Lemma upholds_map_write {A} (R : trel) `{!TraceRel R} (m : gomap A) k v :
  upholds (@map_write W A m k v) R.
Proof. destruct m; [by apply upholds_ret|by apply upholds_panic]. Qed.

Lemma upholds_WithTimeout (R : trel) `{!TraceRel R} c d : upholds (@WithTimeout W c d) R.
Proof. apply upholds_bind; [done|by apply upholds_now|]. intros. by apply upholds_ret. Qed.

Lemma upholds_invoke {A} (R : trel) (P : call -> Prop) `{!CallRel R P} c (op : Op W A) mk :
  (forall a, P (mk a)) -> upholds (invoke c op mk) R.
Proof. intros HP s. apply post_invoke. intros a d w _. by apply cr_call. Qed.

Lemma upholds_silent {A} (R : trel) (P : call -> Prop) `{!CallRel R P} (op : Op W A) :
  upholds (silent op) R.
Proof. intros s. apply post_silent. intros a d w _. by eapply cr_silent. Qed.

Lemma upholds_choose {A} (R : trel) (P : call -> Prop) `{!CallRel R P} (pick : W -> A * W) :
  upholds (choose pick) R.
Proof.
  intros s. apply post_choose. intros a w _. pose proof (cr_silent s 0 w) as Hs.
  by rewrite Z.add_0_r in Hs.
Qed.

(** ** Time

    [timed]: the clock does not run backwards, and the calls are made in order, between
    the time before and the time after. *)
Definition in_window (t1 t2 : Z) (e : event) : Prop := (t1 <= ev_at e <= t2)%Z.

Definition timed : trel := fun s s' l =>
  (st_now s <= st_now s')%Z /\ Forall (in_window (st_now s) (st_now s')) l.

#[export] Instance timed_TraceRel : TraceRel timed.
Proof.
  unfold timed, in_window. split.
  - intros s. split; [lia|constructor].
  - intros s1 s2 s3 l1 l2 [H1 F1] [H2 F2]. split; [lia|]. apply Forall_app. split.
    + eapply Forall_impl; [exact F1|]. simpl. lia.
    + eapply Forall_impl; [exact F2|]. simpl. lia.
Qed.

#[export] Instance timed_CallRel : CallRel timed (fun _ => True).
Proof.
  unfold timed, in_window. split.
  - intros s c k d w _. simpl. split; [lia|]. constructor; [simpl; lia|constructor].
  - intros s d w. simpl. split; [lia|constructor].
Qed.

Lemma upholds_sleep_timed d : upholds (sleep d) timed.
Proof. intros s. apply post_sleep. unfold timed; simpl. split; [lia|constructor]. Qed.

(** [only P]: every call made satisfies [P]. *)
Definition only (P : call -> Prop) : trel := fun _ _ l => Forall (fun e => P (ev_call e)) l.

#[export] Instance only_TraceRel P : TraceRel (only P).
Proof.
  unfold only. split; [intros; constructor|]. intros. by apply Forall_app.
Qed.

#[export] Instance only_CallRel P : CallRel (only P) P.
Proof. unfold only. split; [|intros; constructor]. intros. by constructor; [|constructor]. Qed.

Lemma upholds_sleep_only d P : upholds (sleep d) (only P).
Proof. intros s. apply post_sleep. constructor. Qed.

(** ** Computations that return

    A computation [returns] when no run of it exceeds its fuel. *)
Definition returns {A} (m : M W A) : Prop := forall s, post m s (fun o _ _ => o <> OutOfFuel).

Lemma returns_ret {A} (a : A) : returns (ret a).
Proof. done. Qed.
Lemma returns_panic {A} p : returns (@panic_ W A p).
Proof. done. Qed.
Lemma returns_fatal {A} : returns (@fatal W A).
Proof. done. Qed.
Lemma returns_now : returns (@now W).
Proof. done. Qed.
Lemma returns_get_cfg : returns (@get_cfg W).
Proof. done. Qed.
Lemma returns_put_cfg c : returns (@put_cfg W c).
Proof. done. Qed.

Lemma returns_bind {A B} (m : M W A) (k : A -> M W B) :
  returns m -> (forall a, returns (k a)) -> returns (bind m k).
Proof.
  intros Hm Hk s. apply post_bind. eapply post_mono; [apply Hm|].
  intros [a|p|c|] s1 l1 H1; simpl; try done. eapply post_mono; [apply Hk|]. auto.
Qed.

Lemma returns_bind_ok {A B} (m : M W (result A)) (k : A -> M W (result B)) :
  returns m -> (forall a, returns (k a)) -> returns (bind_ok m k).
Proof. intros Hm Hk. apply returns_bind; [done|]. by intros [a|e]. Qed.

Lemma returns_deref {A} (p : option A) : returns (@deref W A p).
Proof. by destruct p. Qed.
Lemma returns_index {A} (l : list A) i : returns (@index W A l i).
Proof. unfold index. destruct (0 <=? i)%Z; [by destruct (l !! _)|done]. Qed.
Lemma returns_map_write {A} (m : gomap A) k v : returns (@map_write W A m k v).
Proof. by destruct m. Qed.
Lemma returns_WithTimeout c d : returns (@WithTimeout W c d).
Proof. done. Qed.
Lemma returns_sleep d : returns (@sleep W d).
Proof. done. Qed.
Lemma returns_invoke {A} c (op : Op W A) mk : returns (invoke c op mk).
Proof. intros s. by apply post_invoke. Qed.
Lemma returns_silent {A} (op : Op W A) : returns (silent op).
Proof. intros s. by apply post_silent. Qed.
End Logic.

(** Every call has an effect on some view of the services; a log takes the view from one state
    to another. *)
Fixpoint along {S} (effect : S -> call -> S -> Prop) (x : S) (l : list event) (x' : S) : Prop :=
  match l with
  | [] => x' = x
  | e :: l => exists x1, effect x (ev_call e) x1 /\ along effect x1 l x'
  end.

Lemma along_app {S} (effect : S -> call -> S -> Prop) x x1 x2 l1 l2 :
  along effect x l1 x1 -> along effect x1 l2 x2 -> along effect x (l1 ++ l2) x2.
Proof.
  revert x. induction l1 as [|e l1 IH]; intros x; simpl; [by intros ->|].
  intros (x' & He & Hl) H2. eauto.
Qed.

Lemma along_app_inv {S} (effect : S -> call -> S -> Prop) x x2 l1 l2 :
  along effect x (l1 ++ l2) x2 -> exists x1, along effect x l1 x1 /\ along effect x1 l2 x2.
Proof.
  revert x. induction l1 as [|e l1 IH]; intros x; simpl; [by exists x|].
  intros (x' & He & (x1 & Hl & H2)%IH). exists x1. eauto.
Qed.

(** Calls without an effect. *)
Lemma along_inert {S} (effect : S -> call -> S -> Prop) (x x' : S) l :
  Forall (fun e => forall y y', effect y (ev_call e) y' -> y' = y) l -> along effect x l x' -> x' = x.
Proof.
  intros Hl. revert x. induction Hl as [|e l He _ IH]; intros x; simpl; [done|].
  by intros (x1 & ->%He & ->%IH).
Qed.

Create HintDb returns.
#[export] Hint Resolve returns_ret returns_panic returns_fatal returns_now returns_get_cfg
  returns_put_cfg returns_deref returns_index returns_map_write returns_WithTimeout
  returns_sleep returns_invoke returns_silent : returns.

Create HintDb upholds.
#[export] Hint Resolve upholds_ret upholds_panic upholds_fatal upholds_out_of_fuel upholds_now
  upholds_get_cfg upholds_bind upholds_bind_ok upholds_deref upholds_index upholds_map_write
  upholds_WithTimeout upholds_sleep_timed upholds_sleep_only : upholds.

(** ** Symbolic execution *)

Ltac api_unfold :=
  unfold CreateVolume, GetVolume, ListAvailabilityDomains, CreateFileSystem,
    GetFileSystem, ListFileSystems, DeleteFileSystem, CreateExport, ListExports, GetExport,
    DeleteExport, GetMountTarget, GetPrivateIp, ListNodes, HttpGet, DeleteVolume in *.

Ltac go_step :=
  match goal with
  | |- post (ret _) _ _ => apply post_ret
  | |- post (bind _ _) _ _ => apply post_bind
  | |- post (bind_ok _ _) _ _ => unfold bind_ok; apply post_bind
  | |- post (invoke _ _ _) _ _ => apply post_invoke; intros ?a ?d ?w ?Hop
  | |- post (silent _) _ _ => apply post_silent; intros ?a ?d ?w ?Hop
  | |- post (choose _) _ _ => apply post_choose; intros ?a ?w ?Hop
  | |- post now ?s ?Q => change (Q (Val (st_now s)) s [])
  | |- post get_cfg ?s ?Q => change (Q (Val (st_cfg s)) s [])
  | |- post (put_cfg ?c) ?s ?Q =>
      change (Q (Val tt) (State (st_now s) (st_world s) c) [])
  | |- post (panic_ ?p) ?s ?Q => change (Q (Panicked p) s [])
  | |- post fatal ?s ?Q => change (Q (Exited 1) s [])
  | |- post (sleep _) _ _ => apply post_sleep
  | |- post (WithTimeout ?c ?d) ?s ?Q =>
      change (Q (Val (with_deadline c (st_now s + d))) s [])
  | |- post (CreateVolume _ _) _ _ => unfold CreateVolume
  | |- post (GetVolume _ _) _ _ => unfold GetVolume
  | |- post (DeleteVolume _ _) _ _ => unfold DeleteVolume
  | |- post (ListAvailabilityDomains _ _) _ _ => unfold ListAvailabilityDomains
  | |- post (CreateFileSystem _ _) _ _ => unfold CreateFileSystem
  | |- post (GetFileSystem _ _) _ _ => unfold GetFileSystem
  | |- post (ListFileSystems _ _) _ _ => unfold ListFileSystems
  | |- post (DeleteFileSystem _ _) _ _ => unfold DeleteFileSystem
  | |- post (CreateExport _ _) _ _ => unfold CreateExport
  | |- post (ListExports _ _) _ _ => unfold ListExports
  | |- post (GetExport _ _) _ _ => unfold GetExport
  | |- post (DeleteExport _ _) _ _ => unfold DeleteExport
  | |- post (GetMountTarget _ _) _ _ => unfold GetMountTarget
  | |- post (GetPrivateIp _ _) _ _ => unfold GetPrivateIp
  | |- post ListNodes _ _ => unfold ListNodes
  | |- post (HttpGet _) _ _ => unfold HttpGet
  | |- post rand_Int _ _ => unfold rand_Int
  | |- post (deref (Some _)) _ _ => unfold deref
  | |- post (deref None) _ _ => unfold deref
  | |- then_ _ _ (Val _) _ _ => unfold then_
  | |- then_ _ _ (Panicked _) _ _ => unfold then_
  | |- then_ _ _ (Exited _) _ _ => unfold then_
  | |- then_ _ _ OutOfFuel _ _ => unfold then_
  end; cbn [st_now st_world st_cfg from_api].

Ltac go := cbn [st_now st_world st_cfg from_api]; repeat go_step.

(** Prove that a computation upholds a relation by structure. *)
Ltac upholds_step :=
  match goal with
  | |- upholds (invoke _ _ _) (only ?P) =>
      apply (upholds_invoke _ P); intros; first [exact I | simpl; auto]
  | |- upholds (invoke _ _ _) timed => apply (upholds_invoke _ (fun _ => True)); intros; exact I
  | |- upholds (silent _) (only ?P) => apply (upholds_silent _ P)
  | |- upholds (silent _) timed => apply (upholds_silent _ (fun _ => True))
  | |- upholds (choose _) (only ?P) => apply (upholds_choose _ P)
  | |- upholds (choose _) timed => apply (upholds_choose _ (fun _ => True))
  | |- upholds (match ?x with _ => _ end) _ => destruct x
  | |- upholds _ _ => progress api_unfold
  | |- upholds rand_Int _ => unfold rand_Int
  | |- upholds _ _ => solve [auto with upholds typeclass_instances nocore]
  | |- upholds (bind _ _) _ => apply upholds_bind; [apply _| |intros]
  | |- upholds (bind_ok _ _) _ => apply upholds_bind_ok; [apply _| |intros]
  end.
Ltac upholds_tac := repeat upholds_step.

(** Prove that a computation returns by structure. *)
Ltac returns_step :=
  match goal with
  | |- returns (match ?x with _ => _ end) => destruct x
  | |- returns _ => progress api_unfold
  | |- returns rand_Int => unfold rand_Int
  | |- returns _ => solve [auto with returns nocore]
  | |- returns (bind _ _) => apply returns_bind; [|intros]
  | |- returns (bind_ok _ _) => apply returns_bind_ok; [|intros]
  end.
Ltac returns_tac := repeat returns_step.
