(* ===== verification/Wait.v ===== *)
(** * Polling: k8s.io/apimachinery/pkg/util/wait (vendored)

    [PollImmediate] checks a condition at once and then on every tick of a ticker until a
    timer fires, and once more after that.  The poller goroutine and its two timers are
    modelled by the time at which the consumer's receive completes: a tick is delivered only
    to a waiting consumer (the ticks it misses are dropped, one due at the very instant at
    which it starts to wait included), and when a tick and the timer are due at the same
    instant the [select] may take either.  Goroutine scheduling itself takes no time.  A timeout of 0 never fires, so the loop needs fuel; for a positive
    timeout [fuel > timeout / interval] is always enough. *)

From S2P Require Import Prelude GoStrings Errors Quantity Objects Config Effects Logic.

Open Scope Z_scope.

Section Poll.
Context {W : Type} `{Backend W} {X : Type}.

Definition advance_to (t : Z) : M W unit := fun s =>
  (Val tt, State (Z.max (st_now s) t) (st_world s) (st_cfg s), []).

(** [_, open := <-c] on the channel of [poller(interval, timeout)] started at [t0]. *)
Definition receive (t0 interval timeout : Z) : M W bool :=
  let* t := now in
  let next := t0 + ((t - t0) / interval + 1) * interval in
  let close := t0 + timeout in
  if timeout =? 0 then let* _ := advance_to next in ret true
  else if close <=? t then ret false
  else if next <? close then let* _ := advance_to next in ret true
  else if next =? close then
    let* tick_first := choose host_select in
    let* _ := advance_to close in ret tick_first
  else let* _ := advance_to close in ret false.

(** The condition closes over the caller's local variables, of type [X]. *)
Definition condition : Type := X -> M W (X * result bool).

Fixpoint WaitFor (fuel : nat) (t0 interval timeout : Z) (fn : condition) (x : X) :
  M W (X * result unit) :=
  match fuel with
  | O => out_of_fuel
  | S fuel =>
      let* open := receive t0 interval timeout in
      let* r := fn x in
      match r with
      | (x, Err e) => ret (x, Err e)
      | (x, Ok true) => ret (x, Ok tt)
      | (x, Ok false) =>
          if open then WaitFor fuel t0 interval timeout fn x
          else ret (x, Err (ErrSentinel wait_ErrWaitTimeout))
      end
  end.

Definition PollImmediate (fuel : nat) (interval timeout : Z) (fn : condition) (x : X) :
  M W (X * result unit) :=
  let* r := fn x in
  match r with
  | (x, Err e) => ret (x, Err e)
  | (x, Ok true) => ret (x, Ok tt)
  | (x, Ok false) =>
      if interval <=? 0 then panic_ NonPositiveTicker
      else let* t0 := now in WaitFor fuel t0 interval timeout fn x
  end.

(** Enough fuel for a positive timeout. *)
Definition enough_fuel (fuel : nat) (interval timeout : Z) : Prop :=
  0 < interval /\ 0 < timeout /\ (Z.to_nat (timeout / interval) < fuel)%nat.

(** ** The proof rule *)

Lemma post_advance_to t (s : state W) (Q : outcome unit -> state W -> list event -> Prop) :
  Q (Val tt) (State (Z.max (st_now s) t) (st_world s) (st_cfg s)) [] ->
  post (advance_to t) s Q.
Proof. done. Qed.

(** The outside changes in a wait at most by one choice of [select]. *)
Definition picked (w w' : W) : Prop := w' = w \/ w' = snd (host_select w).

(** The number of ticks that can still be delivered at time [t]. *)
Definition ticks_left (t0 interval timeout t : Z) : nat :=
  Z.to_nat (timeout / interval - (t - t0) / interval).

Definition received (t0 interval timeout : Z) (s : state W)
    (o : outcome bool) (s' : state W) (l : list event) : Prop :=
  l = [] /\ st_cfg s' = st_cfg s /\ picked (st_world s) (st_world s')
  /\ st_now s <= st_now s' <= st_now s + interval /\
  exists b, o = Val b
    /\ (b = false -> t0 + timeout <= st_now s')
    /\ (b = true -> (ticks_left t0 interval timeout (st_now s')
                     < ticks_left t0 interval timeout (st_now s))%nat).

Lemma next_tick t0 i t : 0 < i -> t < t0 + ((t - t0) / i + 1) * i <= t + i.
Proof.
  intros Hi. pose proof (Z.div_mod (t - t0) i ltac:(lia)).
  pose proof (Z.mod_pos_bound (t - t0) i Hi). nia.
Qed.

Lemma tick_decreases t0 i T t t' :
  0 < i -> (t - t0) / i < T / i -> t0 + ((t - t0) / i + 1) * i <= t' ->
  (ticks_left t0 i T t' < ticks_left t0 i T t)%nat.
Proof.
  intros Hi Hlt Hle. unfold ticks_left.
  assert ((t - t0) / i + 1 <= (t' - t0) / i) by (apply Z.div_le_lower_bound; lia). lia.
Qed.

Lemma post_receive t0 i T (s : state W) :
  0 < i -> 0 < T -> t0 <= st_now s -> post (receive t0 i T) s (received t0 i T s).
Proof.
  intros Hi HT Ht. unfold receive. go. pose proof (next_tick t0 i (st_now s) Hi) as Hn.
  assert (forall t', t0 + ((st_now s - t0) / i + 1) * i <= t0 + T -> 
            t0 + ((st_now s - t0) / i + 1) * i <= t' ->
            (ticks_left t0 i T t' < ticks_left t0 i T (st_now s))%nat) as Hdec.
  { intros t' Hle Ht'. apply tick_decreases; [done| |done].
    assert ((st_now s - t0) / i + 1 <= T / i) by (apply Z.div_le_lower_bound; lia). lia. }
  rewrite (proj2 (Z.eqb_neq T 0)) by lia.
  destruct (Z.leb_spec (t0 + T) (st_now s)).
  { go. unfold received; simpl. split; [done|]. split; [done|]. split; [unfold picked; try rewrite Hop; by auto|]. split; [lia|]. exists false. split; [done|]. split; [lia|done]. }
  destruct (Z.ltb_spec (t0 + ((st_now s - t0) / i + 1) * i) (t0 + T)).
  { go. apply post_advance_to. go. unfold received; simpl. split; [done|]. split; [done|]. split; [unfold picked; try rewrite Hop; by auto|]. split; [lia|].
    exists true. split; [done|]. split; [done|]. intros _. apply Hdec; lia. }
  destruct (Z.eqb_spec (t0 + ((st_now s - t0) / i + 1) * i) (t0 + T)).
  { go. apply post_advance_to. go. unfold received; simpl. split; [done|]. split; [done|]. split; [unfold picked; try rewrite Hop; by auto|]. split; [lia|].
    exists a. split; [done|]. split; [lia|]. intros _. apply Hdec; lia. }
  go. apply post_advance_to. go. unfold received; simpl. split; [done|]. split; [done|]. split; [unfold picked; try rewrite Hop; by auto|]. split; [lia|].
  exists false. split; [done|]. split; [lia|done].
Qed.

(** [I k x s l] describes the state before a check of the condition that at most [k]
    further checks follow, [x] being the local variables and [l] the calls made since the
    poll began at time [start]; [Q] is the postcondition of the poll.  The next check comes
    within the interval [i] after the end of this one, and the timeout case only when this
    check began at or after [start + T]. *)
Definition check_ok (fn : condition) (start i T : Z)
    (I : nat -> X -> state W -> list event -> Prop)
    (Q : outcome (X * result unit) -> state W -> list event -> Prop) : Prop :=
  forall k x s l, I k x s l -> post (fn x) s (fun o s' l' =>
    match o with
    | Val (x', Err e) => Q (Val (x', Err e)) s' (l ++ l')
    | Val (x', Ok true) => Q (Val (x', Ok tt)) s' (l ++ l')
    | Val (x', Ok false) =>
        (forall k' t w, (k' < k)%nat -> st_now s' <= t <= st_now s' + i ->
           picked (st_world s') w -> I k' x' (State t w (st_cfg s')) (l ++ l'))
        /\ (start + T <= st_now s ->
              Q (Val (x', Err (ErrSentinel wait_ErrWaitTimeout))) s' (l ++ l'))
    | Panicked p => Q (Panicked p) s' (l ++ l')
    | Exited c => Q (Exited c) s' (l ++ l')
    | OutOfFuel => Q OutOfFuel s' (l ++ l')
    end).

Context (fn : condition) (i T : Z) (Hi : 0 < i) (HT : 0 < T).
Context (Hfn : forall x, upholds (fn x) timed).

Lemma post_WaitFor fuel start t0 I Q x s l0 :
  check_ok fn start i T I Q -> start <= t0 <= st_now s ->
  (ticks_left t0 i T (st_now s) < fuel)%nat ->
  (forall k t w, (k <= ticks_left t0 i T (st_now s))%nat -> st_now s <= t <= st_now s + i ->
     picked (st_world s) w -> I k x (State t w (st_cfg s)) l0) ->
  post (WaitFor fuel t0 i T fn x) s (fun o s' l => Q o s' (l0 ++ l)).
Proof.
  intros Hok. revert x s l0. induction fuel as [|fuel IH]; intros x s l0 Ht Hf HI; [lia|].
  simpl WaitFor. apply post_bind.
  eapply post_mono; [apply post_receive; lia|].
  intros o s1 l1 (-> & Hcfg & Hpick & Hnow & b & -> & Hclosed & Hopen). go.
  set (k := if b then S (ticks_left t0 i T (st_now s1)) else O).
  assert (I k x s1 l0) as Hx.
  { specialize (HI k (st_now s1) (st_world s1)). rewrite <- Hcfg in HI. destruct s1.
    apply HI; [|done|done]. unfold k. destruct b; [by apply Hopen|lia]. }
  eapply post_mono; [apply post_and; [apply (Hok _ _ _ _ Hx)|apply (Hfn x)]|].
  intros o s2 l2 [HQ [Hnow2 _]]; destruct o as [[x' [[|]|e]]|p|c|]; go; simpl;
    rewrite ?app_nil_r; try done.
  destruct HQ as [HI2 HQ]. destruct b.
  - specialize (Hopen eq_refl).
    assert (ticks_left t0 i T (st_now s2) <= ticks_left t0 i T (st_now s1))%nat as Hle.
    { unfold ticks_left.
      pose proof (Z.div_le_mono (st_now s1 - t0) (st_now s2 - t0) i). lia. }
    eapply post_mono; [apply (IH x' s2 (l0 ++ l2)); [lia|lia|]|].
    + intros k' t w Hk' Ht' Hw. apply HI2; [unfold k; lia|done|done].
    + intros o s3 l3. simpl. by rewrite app_assoc.
  - go. rewrite !app_nil_r. apply HQ. specialize (Hclosed eq_refl). lia.
Qed.

Lemma post_PollImmediate fuel I Q x s :
  check_ok fn (st_now s) i T I Q -> enough_fuel fuel i T ->
  I (S (Z.to_nat (T / i))) x s [] -> post (PollImmediate fuel i T fn x) s Q.
Proof.
  intros Hok (_ & _ & Hfuel) HI. unfold PollImmediate. go.
  eapply post_mono; [apply post_and; [apply (Hok _ _ _ _ HI)|apply (Hfn x)]|].
  intros o s1 l1 [HQ [Hnow _]]; destruct o as [[x' [[|]|e]]|p|c|]; go; simpl in *;
    rewrite ?app_nil_r; try done.
  destruct HQ as [HI2 _]. rewrite (proj2 (Z.leb_gt i 0)) by lia. go.
  apply (post_WaitFor fuel (st_now s) _ I Q x' s1 l1 Hok); [lia| |].
  - unfold ticks_left. rewrite Z.sub_diag, Z.div_0_l by lia. by rewrite Z.sub_0_r.
  - intros k t w Hk. apply HI2. revert Hk. unfold ticks_left.
    rewrite Z.sub_diag, Z.div_0_l by lia. rewrite Z.sub_0_r. lia.
Qed.
End Poll.

Lemma upholds_advance_to {W} t : upholds (@advance_to W t) timed.
Proof. intros s. apply post_advance_to. unfold timed; simpl. split; [lia|constructor]. Qed.

Lemma upholds_advance_to_only {W} t P : upholds (@advance_to W t) (only P).
Proof. intros s. apply post_advance_to. constructor. Qed.

Section PollUpholds.
Context {W : Type} `{Backend W} {X : Type} (R : @trel W) `{!TraceRel R}.
Context (Hadv : forall t, upholds (advance_to t) R) (Hsel : upholds (choose host_select) R).

Lemma upholds_receive t0 i T : upholds (receive t0 i T) R.
Proof using All. unfold receive. upholds_tac; auto with upholds. Qed.

Lemma upholds_WaitFor fuel t0 i T (fn : @condition W X) x :
  (forall x, upholds (fn x) R) -> upholds (WaitFor fuel t0 i T fn x) R.
Proof using All.
  intros Hfn. revert x. induction fuel as [|fuel IH]; intros x; simpl; [upholds_tac|].
  apply upholds_bind; [done|apply upholds_receive|]. intros b.
  apply upholds_bind; [done|done|]. intros [x' [[|]|e]]; upholds_tac; apply IH.
Qed.

Lemma upholds_PollImmediate fuel i T (fn : @condition W X) x :
  (forall x, upholds (fn x) R) -> upholds (PollImmediate fuel i T fn x) R.
Proof using All.
  intros Hfn. unfold PollImmediate. apply upholds_bind; [done|done|].
  intros [x' [[|]|e]]; upholds_tac; by apply upholds_WaitFor.
Qed.
End PollUpholds.

(** ** Properties *)

(** A condition instrumented with the number of times it was checked. *)
Definition counted {W X} (fn : @condition W X) : @condition W (X * nat) := fun xn =>
  let* r := fn (fst xn) in ret ((fst r, S (snd xn)), snd r).

Lemma counted_timed {W X} (fn : @condition W X) xn :
  (forall x, upholds (fn x) timed) -> upholds (counted fn xn) timed.
Proof. intros Hfn. unfold counted. upholds_tac; auto. Qed.

(** C32: [PollImmediate] returns. For a positive interval and timeout and enough fuel, a
    poll whose condition itself returns never runs out of fuel; it checks the condition at
    least once and at most [timeout / interval + 2] times, and it reports a timeout only if
    the condition said so itself or the timeout has really elapsed. *)
Theorem PollImmediate_total {W X} `{Backend W} (fn : @condition W X) fuel interval timeout x s :
  enough_fuel fuel interval timeout ->
  (forall x, upholds (fn x) timed) ->
  (forall x s, post (fn x) s (fun o _ _ => o <> OutOfFuel)) ->
  post (PollImmediate fuel interval timeout (counted fn) (x, O)) s (fun o s' _ =>
    o <> OutOfFuel /\
    forall x' n r, o = Val ((x', n), r) ->
      1 <= Z.of_nat n <= timeout / interval + 2
      /\ (r = Err (ErrSentinel wait_ErrWaitTimeout) ->
            st_now s + timeout <= st_now s'
            \/ exists x1 x2 s1 s2 l2,
                 fn x1 s1 = (Val (x2, Err (ErrSentinel wait_ErrWaitTimeout)), s2, l2))).
Proof.
  intros Hf Htimed Hret. destruct Hf as (Hi & HT & Hf).
  assert (0 <= timeout / interval) by (apply Z.div_pos; lia).
  apply (post_PollImmediate _ interval timeout Hi HT) with
    (I := fun k xn s _ => Z.of_nat k + Z.of_nat (snd xn) <= timeout / interval + 1);
    [intros; by apply counted_timed| |by split|simpl; lia].
  intros k [x1 n] s1 l Hk. unfold counted. simpl in *. apply post_bind.
  apply post_of_run. intros o s2 l2 Hrun.
  pose proof (Hret x1 s1) as Hr. unfold post in Hr. rewrite Hrun in Hr.
  pose proof (post_run _ _ _ _ _ _ (Htimed x1 s1) Hrun) as [Hnow _].
  destruct o as [[x2 [[|]|e]]|p|c|]; simpl; go; simpl; try (split; [done|]); try done.
  - intros x' n' r [= <- <- <-]. split; [lia|done].
  - split; [intros; lia|]. intros Hel. split; [done|].
    intros x' n' r [= <- <- <-]. split; [lia|]. left. lia.
  - intros x' n' r [= <- <- <-]. split; [lia|]. intros [= ->]. right. by eauto 6.
Qed.
