(* ===== verification/Plugin.v ===== *)
(** * What the provisioners share

    pkg/provisioner/plugin/plugin.go: the label and driver names and the [ProvisionerPlugin]
    interface, here with the contract that pkg/provisioner/core relies on;
    pkg/provisioner/utils.go: the display-name prefix; and the parts of the client and
    metadata interfaces that the provisioners call. *)

From Stdlib Require Import Ascii.
From S2P Require Import Prelude GoStrings Errors Quantity Objects Config Effects Logic.

Definition OCIProvisionerName : string := "oracle/oci".
Definition LabelZoneFailureDomain : string := "failure-domain.beta.kubernetes.io/zone".
Definition LabelZoneRegion : string := "failure-domain.beta.kubernetes.io/region".

(** ** The client interface (client.go, [ProvisionerClient])

    The sub-clients are the [Backend]; what remains are the timeout and the two OCIDs.
    Finding the compartment may consult and update the shared configuration. *)
Class ProvisionerClient := {
  client_Timeout : Z;
  client_compartment : option Config -> outcome string * option Config;
  client_TenancyOCID : string
}.

Definition CompartmentOCID_ {W} `{ProvisionerClient} : M W string := fun s =>
  let '(o, c) := client_compartment (st_cfg s) in
  (o, State (st_now s) (st_world s) c, []).

(** What the provisioners may assume of a client: asking for the compartment returns or
    ends the process, and asking again gives the same answer and changes nothing more. *)
Class ProvisionerClientOk `{ProvisionerClient} : Prop := {
  compartment_returns : forall c, fst (client_compartment c) <> OutOfFuel;
  compartment_stable : forall c o c',
    client_compartment c = (o, c') -> client_compartment c' = (o, c')
}.

(** instancemeta.Interface *)
Class InstanceMeta (W : Type) := { meta_Get : M W (result InstanceMetadata) }.

Class InstanceMetaOk (W : Type) `{InstanceMeta W} : Prop := {
  meta_timed : upholds meta_Get timed;
  meta_only_http : upholds meta_Get (only (fun c => exists u r, c = CHttpGet u r));
  meta_returns : forall s, post meta_Get s (fun o _ _ => exists r, o = Val r)
}.

(** ** GetPrefix (utils.go) *)

Section Prefix.
Context {W : Type} `{Backend W}.

(** [GetPrefix] for a given value of the environment variable. *)
Definition prefix_of (env : string) : string :=
  let prefix := TrimSpace env in
  if negb (is_empty prefix) && negb (HasSuffix prefix "-")
  then Sprintf "%s%s" [FStr prefix; FStr "-"] else prefix.

Definition GetPrefix : string := prefix_of (Getenv (W := W) "OCI_VOLUME_NAME_PREFIX").
End Prefix.

(** ** The plugin interface *)

Class ProvisionerPlugin (W : Type) := {
  plugin_Provision : VolumeOptions -> AvailabilityDomain -> M W (result PersistentVolume);
  plugin_Delete : PersistentVolume -> M W (result unit)
}.

(** Annotation keys that [core] adds to the volumes of a plugin. *)
Definition ociProvisionerIdentity : string := "ociProvisionerIdentity".
Definition ociAvailabilityDomain : string := "ociAvailabilityDomain".
Definition ociCompartment : string := "ociCompartment".
Definition core_keys : list string :=
  [ociProvisionerIdentity; ociAvailabilityDomain; ociCompartment].

Definition same_annotation (k : string) (pv pv' : PersistentVolume) : Prop :=
  gomap_lookup (pv_Annotations pv) k = gomap_lookup (pv_Annotations pv') k.

(** The contract: time moves forward; both operations return; a provisioned volume has
    annotation and label maps that can be written; and deletion looks only at annotations that
    [core] does not overwrite. *)
Class PluginContract (W : Type) `{ProvisionerPlugin W} : Prop := {
  plugin_Provision_timed : forall o ad, upholds (plugin_Provision o ad) timed;
  plugin_Delete_timed : forall pv, upholds (plugin_Delete pv) timed;
  plugin_Provision_maps : forall opts ad s,
    post (plugin_Provision opts ad) s (fun o _ _ => forall pv, o = Val (Ok pv) ->
      is_Some (pv_Annotations pv) /\ is_Some (pv_Labels pv));
  plugin_Provision_returns : forall opts ad s,
    post (plugin_Provision opts ad) s (fun o _ _ => o <> OutOfFuel);
  plugin_Delete_returns : forall pv s,
    post (plugin_Delete pv) s (fun o _ _ => exists r, o = Val r);
  plugin_Delete_annotations : forall pv pv' s,
    (forall k, k ∉ core_keys -> same_annotation k pv pv') ->
    plugin_Delete pv s = plugin_Delete pv' s
}.

(** ** Lemmas *)

Section ClientLemmas.
Context {W : Type} `{ProvisionerClient}.

Lemma post_CompartmentOCID (s : state W) (Q : outcome string -> state W -> list event -> Prop) :
  (forall o c, client_compartment (st_cfg s) = (o, c) ->
     Q o (State (st_now s) (st_world s) c) []) ->
  post CompartmentOCID_ s Q.
Proof.
  intros HQ. unfold post, CompartmentOCID_.
  destruct (client_compartment (st_cfg s)) as [o c]. auto.
Qed.

Lemma upholds_CompartmentOCID_timed : upholds (@CompartmentOCID_ W _) timed.
Proof.
  intros s. apply post_CompartmentOCID. intros o c _. unfold timed; simpl.
  split; [lia|constructor].
Qed.

Lemma upholds_CompartmentOCID_only P : upholds (@CompartmentOCID_ W _) (only P).
Proof. intros s. apply post_CompartmentOCID. intros o c _. constructor. Qed.
End ClientLemmas.

#[export] Hint Resolve upholds_CompartmentOCID_timed upholds_CompartmentOCID_only : upholds.

Lemma Sprintf_concat a b : Sprintf "%s%s" [FStr a; FStr b] = a +:+ b.
Proof. simpl. by rewrite append_nil_r. Qed.

(** ** Properties *)

(** A display-name prefix is empty or ends in a hyphen: a variable that is unset, empty
    or blank gives no prefix, a value that ends in a hyphen is kept as it is (less the
    surrounding space), and any other value gets exactly one hyphen appended. *)
Theorem prefix_of_spec env :
  let value := TrimSpace env in
  (value = EmptyString -> prefix_of env = EmptyString)
  /\ (HasSuffix value "-" = true -> prefix_of env = value)
  /\ (value <> EmptyString -> HasSuffix value "-" = false -> prefix_of env = value +:+ "-")
  /\ (prefix_of env = EmptyString \/ HasSuffix (prefix_of env) "-" = true).
Proof.
  intros value. unfold prefix_of. fold value. rewrite Sprintf_concat.
  destruct (is_empty value) eqn:He; simpl.
  - apply is_empty_true in He. rewrite He. repeat split; auto; by intros ?.
  - assert (value <> EmptyString) as Hne by (intros Heq; by rewrite Heq in He).
    destruct (HasSuffix value "-") eqn:Hs; simpl; repeat split; auto; try done.
    right. apply HasSuffix_spec. eauto.
Qed.
