(* ===== verification/Cloud.v ===== *)
(** * A small cloud

    A concrete, executable [Backend] at which the properties of the development are
    instantiated: volumes, file systems and exports in maps, lifecycle states that advance
    with every look, one fixed latency per call, and the effect of a context: a call whose
    deadline has passed fails and changes nothing.  Nothing is proved about the program with
    it that is not proved for every backend; it shows that the hypotheses can hold. *)

From S2P Require Import Prelude GoStrings Errors Quantity Objects Config Effects.

Record cloud : Type := Cloud {
  c_vols : gmap string (list string);
  c_boot : list string;
  c_next : nat;
  c_ads : list AvailabilityDomain;
  c_fs : gmap string (option string * list string);
  c_exports : gmap string (option string * option string * list string);
  c_mts : gmap string MountTarget;
  c_ips : gmap string string;
  c_nodes : list Node;
  c_http : result (Z * string)
}.

Definition set_vols (c : cloud) v := Cloud v (c_boot c) (S (c_next c)) (c_ads c) (c_fs c)
  (c_exports c) (c_mts c) (c_ips c) (c_nodes c) (c_http c).
Definition set_fs (c : cloud) v := Cloud (c_vols c) (c_boot c) (S (c_next c)) (c_ads c) v
  (c_exports c) (c_mts c) (c_ips c) (c_nodes c) (c_http c).
Definition set_exports (c : cloud) v := Cloud (c_vols c) (c_boot c) (S (c_next c)) (c_ads c) (c_fs c)
  v (c_mts c) (c_ips c) (c_nodes c) (c_http c).

Fixpoint ticks (n : nat) : string := match n with O => EmptyString | S n => "i" +:+ ticks n end.
Definition fresh (kind : string) (c : cloud) : string := kind +:+ ticks (c_next c).

(** The state shown now and those still to come: the last one stays. *)
Definition look (l : list string) : string * list string :=
  match l with
  | [] => (EmptyString, [])
  | [x] => (x, [x])
  | x :: r => (x, r)
  end.

Definition late : sdk_error := OtherSDKError "context deadline exceeded".
Definition missing : sdk_error := ServiceFailure 404 "NotAuthorizedOrNotFound" "not found".

Section Cloud.
Context (env : gmap string string) (latency : N).

(** An operation under a context. *)
Definition served {A} (c : ctx) (op : cloud -> api A * cloud) : Op cloud (api A) := fun t w =>
  if expired c t then (inr late, 0%N, w)
  else let '(r, w') := op w in (r, latency, w').

Definition cloud_CreateVolume (c : ctx) (r : CreateVolumeDetails) : Op cloud (api Volume) :=
  served c (fun w =>
    let id := fresh "ocid1.volume.oc1.phx." w in
    (inl {| vol_Id := Some id; vol_LifecycleState := VolumeProvisioning |},
     set_vols w (<[id := c_boot w]> (c_vols w)))).

Definition with_id {A} (id : option string) (f : string -> api A * cloud) (w : cloud) :
  api A * cloud := match id with Some i => f i | None => (inr missing, w) end.

Definition cloud_GetVolume (c : ctx) (id : option string) : Op cloud (api Volume) :=
  served c (fun w => with_id id (fun i =>
    match c_vols w !! i with
    | None => (inr missing, w)
    | Some l => let '(st, l') := look l in
        (inl {| vol_Id := Some i; vol_LifecycleState := st |},
         set_vols w (<[i := l']> (c_vols w)))
    end) w).

Definition cloud_DeleteVolume (c : ctx) (id : option string) : Op cloud DeleteVolumeReply :=
  fun t w =>
    if expired c t then ({| dv_RawStatus := None; dv_err := Some late |}, 0%N, w)
    else match id ≫= fun i => c_vols w !! i with
         | None => ({| dv_RawStatus := Some 404%Z; dv_err := Some missing |}, latency, w)
         | Some _ => ({| dv_RawStatus := Some 204%Z; dv_err := None |}, latency,
                      set_vols w (delete (default EmptyString id) (c_vols w)))
         end.

Definition cloud_CreateFileSystem (c : ctx) (r : CreateFileSystemDetails) :
  Op cloud (api FileSystem) :=
  served c (fun w =>
    let id := fresh "ocid1.filesystem.oc1.phx." w in
    (inl {| fs_Id := Some id; fs_LifecycleState := FssCreating |},
     set_fs w (<[id := (cf_DisplayName r, [FssCreating; FssActive])]> (c_fs w)))).

Definition cloud_GetFileSystem (c : ctx) (id : option string) : Op cloud (api FileSystem) :=
  served c (fun w => with_id id (fun i =>
    match c_fs w !! i with
    | None => (inr missing, w)
    | Some (n, l) => let '(st, l') := look l in
        (inl {| fs_Id := Some i; fs_LifecycleState := st |}, set_fs w (<[i := (n, l')]> (c_fs w)))
    end) w).

Definition cloud_ListFileSystems (c : ctx) (r : ListFileSystemsRequest) :
  Op cloud (api ListFileSystemsResponse) :=
  served c (fun w =>
    (inl {| lfs_Items := omap (fun '(i, (n, _)) =>
              if bool_decide (n = lf_DisplayName r)
              then Some {| fss_Id := Some i; fss_DisplayName := n |} else None)
              (map_to_list (c_fs w));
            lfs_OpcNextPage := None |}, w)).

Definition cloud_DeleteFileSystem (c : ctx) (id : option string) : Op cloud (api unit) :=
  served c (fun w => with_id id (fun i =>
    match c_fs w !! i with
    | None => (inr missing, w)
    | Some _ => (inl tt, set_fs w (delete i (c_fs w)))
    end) w).

Definition cloud_CreateExport (c : ctx) (r : CreateExportDetails) : Op cloud (api Export) :=
  served c (fun w =>
    let id := fresh "ocid1.export.oc1.phx." w in
    (inl {| ex_Id := Some id; ex_LifecycleState := FssCreating; ex_Path := ce_Path r |},
     set_exports w (<[id := (ce_FileSystemId r, ce_Path r, [FssCreating; FssActive])]> (c_exports w)))).

Definition cloud_ListExports (c : ctx) (r : ListExportsRequest) :
  Op cloud (api ListExportsResponse) :=
  served c (fun w =>
    (inl {| le_Items := omap (fun '(i, (f, _, l)) =>
              if bool_decide (f = le_FileSystemId r)
              then Some {| es_Id := Some i; es_LifecycleState := fst (look l) |} else None)
              (map_to_list (c_exports w));
            le_OpcNextPage := None |}, w)).

Definition cloud_GetExport (c : ctx) (id : option string) : Op cloud (api Export) :=
  served c (fun w => with_id id (fun i =>
    match c_exports w !! i with
    | None => (inr missing, w)
    | Some (f, p, l) => let '(st, l') := look l in
        (inl {| ex_Id := Some i; ex_LifecycleState := st; ex_Path := p |},
         set_exports w (<[i := (f, p, l')]> (c_exports w)))
    end) w).

Definition cloud_DeleteExport (c : ctx) (id : option string) : Op cloud (api unit) :=
  served c (fun w => with_id id (fun i =>
    match c_exports w !! i with
    | None => (inr missing, w)
    | Some _ => (inl tt, set_exports w (delete i (c_exports w)))
    end) w).

Definition find {A} (m : cloud -> gmap string A) (id : option string) (w : cloud) : api A * cloud :=
  match id ≫= fun i => m w !! i with Some a => (inl a, w) | None => (inr missing, w) end.

#[local] Instance cloud_BlockStorage : BlockStorage cloud :=
  {| bs_CreateVolume := cloud_CreateVolume;
     bs_DeleteVolume := cloud_DeleteVolume;
     bs_GetVolume := cloud_GetVolume |}.

#[local] Instance cloud_Identity : Identity cloud :=
  {| id_ListAvailabilityDomains := fun c _ => served c (fun w => (inl (c_ads w), w)) |}.

#[local] Instance cloud_FSS : FSS cloud :=
  {| fss_CreateFileSystem := cloud_CreateFileSystem;
     fss_GetFileSystem := cloud_GetFileSystem;
     fss_ListFileSystems := cloud_ListFileSystems;
     fss_DeleteFileSystem := cloud_DeleteFileSystem;
     fss_CreateExport := cloud_CreateExport;
     fss_ListExports := cloud_ListExports;
     fss_GetExport := cloud_GetExport;
     fss_DeleteExport := cloud_DeleteExport;
     fss_GetMountTarget := fun c id => served c (find c_mts id) |}.

#[local] Instance cloud_VCN : VCN cloud :=
  {| vcn_GetPrivateIp := fun c id => served c (fun w =>
       let '(r, w') := find c_ips id w in
       (match r with inl ip => inl {| ip_IpAddress := Some ip |} | inr e => inr e end, w')) |}.

#[local] Instance cloud_Host : Host cloud :=
  {| host_ListNodes := fun _ w => (Ok (c_nodes w), latency, w);
     host_HttpGet := fun _ _ w => (c_http w, latency, w);
     host_environ := env;
     host_rand := fun _ w => (N.of_nat (c_next w), 0%N, w);
     host_select := fun w => (true, w) |}.

Definition cloud_Backend : Backend cloud :=
  {| backend_BlockStorage := cloud_BlockStorage;
     backend_Identity := cloud_Identity;
     backend_FSS := cloud_FSS;
     backend_VCN := cloud_VCN;
     backend_Host := cloud_Host |}.
End Cloud.
