(* ===== verification/InstanceMeta.v ===== *)
(** * Instance metadata: pkg/oci/instancemeta/instance_metadata.go

    One HTTP GET to the metadata endpoint of the host, decoded into the two fields that the
    program uses. *)

From S2P Require Import Prelude GoStrings Errors Quantity Objects Config Effects Logic Plugin.

Definition baseURL : string := "http://169.254.169.254".
Definition metadataEndpoint : string := "/opc/v1/instance/".

Record metadataGetter : Type := { mg_baseURL : string }.

Definition New : metadataGetter := {| mg_baseURL := baseURL |}.

Section Metadata.
Context {W : Type} `{Backend W} `{GoLib}.

Definition Get (m : metadataGetter) : M W (result InstanceMetadata) :=
  let url := mg_baseURL m +:+ metadataEndpoint in
  match url_Parse url with
  | Err err => ret (Err err)
  | Ok _ =>
      let* resp := HttpGet url in
      match resp with
      | Err err => ret (Err (Errorf "failed to get instance metadata: %v" [FStr (Error err)]))
      | Ok (StatusCode, Body) =>
          if negb (StatusCode =? StatusOK)%Z then
            ret (Err (Errorf "metadata endpoint returned status %d; expected 200 OK"
                        [FInt StatusCode]))
          else ret (json_Decode Body)
      end
  end.

#[export] Instance metadataGetter_Interface : InstanceMeta W := {| meta_Get := Get New |}.

(** The result as a function of the reply. *)
Definition metadata_of (resp : result (Z * string)) : result InstanceMetadata :=
  match resp with
  | Err err => Err (Errorf "failed to get instance metadata: %v" [FStr (Error err)])
  | Ok (StatusCode, Body) =>
      if (StatusCode =? StatusOK)%Z then json_Decode Body
      else Err (Errorf "metadata endpoint returned status %d; expected 200 OK"
                  [FInt StatusCode])
  end.

Lemma post_Get m (s : state W) :
  post (Get m) s (fun o s' l =>
    st_cfg s' = st_cfg s /\
    match url_Parse (mg_baseURL m +:+ metadataEndpoint) with
    | Err err => o = Val (Err err) /\ l = [] /\ s' = s
    | Ok _ => exists resp,
        l = [Event (st_now s) Background (CHttpGet (mg_baseURL m +:+ metadataEndpoint) resp)]
        /\ o = Val (metadata_of resp)
    end).
Proof.
  unfold Get. destruct (url_Parse _) as [u|err]; go; [|done].
  destruct a as [[st body]|err]; go; [|eauto].
  unfold metadata_of. destruct (st =? StatusOK)%Z eqn:Hst; go; split; try done; exists (Ok (st, body));
    by rewrite Hst.
Qed.

Lemma Get_timed m : upholds (Get m) timed.
Proof. unfold Get. upholds_tac. Qed.

#[export] Instance metadataGetter_Ok : InstanceMetaOk W.
Proof.
  split; simpl.
  - apply Get_timed.
  - intros s. eapply post_mono; [apply post_Get|]. intros o s' l [_ Hl].
    destruct (url_Parse _); [|destruct Hl as (_ & -> & _); constructor].
    destruct Hl as (resp & -> & _). constructor; [simpl; eauto|constructor].
  - intros s. eapply post_mono; [apply post_Get|]. intros o s' l [_ Hl].
    destruct (url_Parse _); [|destruct Hl as (-> & _); eauto].
    destruct Hl as (resp & _ & ->). eauto.
Qed.
End Metadata.

(** ** Properties *)

(** The metadata is fetched anew on every call: whatever the first [Get] answered, a
    second one sends its own request (its documentation promises a cache), and the answer of
    each is a function of its own reply alone: the decoded body for status 200, an error
    that shows the status or the transport error otherwise. *)
Theorem Get_never_cached {W} `{Backend W} `{GoLib} u (s : state W) :
  url_Parse (baseURL +:+ metadataEndpoint) = Ok u ->
  post (let* a := Get New in let* b := Get New in ret (a, b)) s (fun o _ l =>
    exists t r1 r2,
      l = [Event (st_now s) Background (CHttpGet (baseURL +:+ metadataEndpoint) r1);
           Event t Background (CHttpGet (baseURL +:+ metadataEndpoint) r2)]
      /\ o = Val (metadata_of r1, metadata_of r2)).
Proof.
  intros Hu. go. eapply post_mono; [apply post_Get|]. simpl. rewrite Hu.
  intros o s1 l (_ & r1 & -> & ->). go.
  eapply post_mono; [apply post_Get|]. simpl. rewrite Hu.
  intros o s2 l (_ & r2 & -> & ->). go. simpl. eauto.
Qed.
