(* ===== verification/Client.v ===== *)
(** * The OCI client: pkg/oci/client/client.go and the loading half of config.go

    [FromConfig] validates the configuration, makes the four sub-clients, and reads the
    instance metadata once, from which the compartment is taken when the configuration has
    none.  The sub-clients of the SDK are opaque but for the HTTP client whose transport
    [configureCustomTransport] rewrites. *)

From S2P Require Import Prelude GoStrings Errors Quantity Objects Config Effects Logic Plugin InstanceMeta.

(** ** LoadConfig *)

Section Load.
Context {W : Type} `{GoLib}.

Definition empty_AuthConfig : AuthConfig :=
  {| TenancyOCID := EmptyString; UserOCID := EmptyString; auth_CompartmentOCID := EmptyString;
     PrivateKey := EmptyString; Fingerprint := EmptyString; Region := EmptyString;
     PrivateKeyPassphrase := EmptyString |}.
Definition empty_Config : Config :=
  {| Auth := empty_AuthConfig; UseInstancePrincipals := false; CompartmentOCID := EmptyString |}.

(** The reader is nil, or yields its content or an error. *)
Definition LoadConfig (r : option (result string)) : M W (result Config) :=
  match r with
  | None => ret (Err (errors_New "no configuration file given"))
  | Some (Err err) => ret (Err err)
  | Some (Ok b) =>
      match yaml_Unmarshal b empty_Config with
      | Err err => ret (Err err)
      | Ok cfg => let* cfg := deref cfg in ret (Ok (Complete cfg))
      end
  end.
End Load.

(** ** Transports *)

(** http.Transport: the fields the program sets. *)
Record Transport : Type := {
  tr_DialTimeout : Z;
  tr_KeepAlive : Z;
  tr_DualStack : bool;
  tr_MaxIdleConns : Z;
  tr_IdleConnTimeout : Z;
  tr_TLSHandshakeTimeout : Z;
  tr_ExpectContinueTimeout : Z;
  tr_Proxy : option string;
  tr_RootCAs : option string
}.

Definition set_Proxy (t : Transport) (p : string) : Transport :=
  {| tr_DialTimeout := tr_DialTimeout t; tr_KeepAlive := tr_KeepAlive t;
     tr_DualStack := tr_DualStack t; tr_MaxIdleConns := tr_MaxIdleConns t;
     tr_IdleConnTimeout := tr_IdleConnTimeout t;
     tr_TLSHandshakeTimeout := tr_TLSHandshakeTimeout t;
     tr_ExpectContinueTimeout := tr_ExpectContinueTimeout t;
     tr_Proxy := Some p; tr_RootCAs := tr_RootCAs t |}.

Definition set_RootCAs (t : Transport) (c : string) : Transport :=
  {| tr_DialTimeout := tr_DialTimeout t; tr_KeepAlive := tr_KeepAlive t;
     tr_DualStack := tr_DualStack t; tr_MaxIdleConns := tr_MaxIdleConns t;
     tr_IdleConnTimeout := tr_IdleConnTimeout t;
     tr_TLSHandshakeTimeout := tr_TLSHandshakeTimeout t;
     tr_ExpectContinueTimeout := tr_ExpectContinueTimeout t;
     tr_Proxy := tr_Proxy t; tr_RootCAs := Some c |}.

Definition default_Transport : Transport :=
  {| tr_DialTimeout := 30 * Second; tr_KeepAlive := 30 * Second; tr_DualStack := true;
     tr_MaxIdleConns := 100; tr_IdleConnTimeout := 90 * Second;
     tr_TLSHandshakeTimeout := 10 * Second; tr_ExpectContinueTimeout := 1 * Second;
     tr_Proxy := None; tr_RootCAs := None |}.

(** The dynamic types behind the two interfaces that are asserted. *)
Inductive RoundTripper : Type :=
| NilTransport
| HttpTransport (t : Transport)
| OtherTransport.

Inductive BaseClient : Type :=
| HttpClient (Transport : RoundTripper)
| OtherDispatcher.

(** ** Configuration providers (oci-go-sdk) *)

Inductive ConfigurationProvider : Type :=
| RawProvider (tenancy user region fingerprint privateKey privateKeyPassphrase : string)
| DefaultConfigProvider
| InstancePrincipalProvider.

Inductive Service : Type := SBlockstorage | SFileStorage | SVirtualNetwork | SIdentity.

(** The SDK's constructors, and the tenancy of the two providers that the SDK fills in. *)
Class SDK (W : Type) := {
  sdk_InstancePrincipal : Op W (option error);
  sdk_NewClient : Service -> ConfigurationProvider -> result BaseClient;
  sdk_tenancy : ConfigurationProvider -> result string
}.

Record provisionerClient : Type := {
  pc_tenancyID : string;
  pc_blockStorage : BaseClient;
  pc_identity : BaseClient;
  pc_fileStorage : BaseClient;
  pc_virtualNetwork : BaseClient;
  pc_timeout : Z;
  pc_metadata : option InstanceMetadata
}.

(** [CompartmentOCID]: [p.cfg] is the shared configuration. *)
Definition provisionerClient_CompartmentOCID (p : provisionerClient) (cfg : option Config) :
  outcome string * option Config :=
  match cfg with
  | None => (Panicked NilDereference, None)
  | Some c =>
      if is_empty (CompartmentOCID c) then
        match pc_metadata p with
        | None => (Exited 1, Some c)
        | Some metadata =>
            let c := set_CompartmentOCID c (md_CompartmentOCID metadata) in
            (Val (CompartmentOCID c), Some c)
        end
      else (Val (CompartmentOCID c), Some c)
  end.

Definition client_of (p : provisionerClient) : ProvisionerClient :=
  {| client_Timeout := pc_timeout p;
     client_compartment := provisionerClient_CompartmentOCID p;
     client_TenancyOCID := pc_tenancyID p |}.

#[export] Instance client_of_Ok p : @ProvisionerClientOk (client_of p).
Proof.
  split; simpl; unfold provisionerClient_CompartmentOCID.
  - intros [c|]; [|done]. destruct (is_empty _); [|done]. by destruct (pc_metadata p).
  - intros [c|] o c'; [|by intros [= <- <-]].
    destruct (is_empty (CompartmentOCID c)) eqn:He.
    + destruct (pc_metadata p) as [md|] eqn:Hmd; intros [= <- <-]; rewrite ?He, ?Hmd; [|done].
      simpl. destruct (is_empty (md_CompartmentOCID md)); reflexivity.
    + intros [= <- <-]. by rewrite He.
Qed.

Section Client.
Context {W : Type} `{Backend W} `{GoLib} `{SDK W}.

Definition tenancy_of (p : ConfigurationProvider) : result string :=
  match p with
  | RawProvider tenancy _ _ _ _ _ => Ok tenancy
  | p => sdk_tenancy p
  end.

Definition newConfigurationProvider (cfg : option Config) : M W (result ConfigurationProvider) :=
  match cfg with
  | Some cfg =>
      match Validate cfg with
      | Some err => ret (Err (Wrap err "invalid client config"))
      | None =>
          if UseInstancePrincipals cfg then
            let* err := silent sdk_InstancePrincipal in
            match err with
            | Some err => ret (Err (Wrap err "InstancePrincipalConfigurationProvider"))
            | None => ret (Ok InstancePrincipalProvider)
            end
          else
            ret (Ok (RawProvider (TenancyOCID (Auth cfg)) (UserOCID (Auth cfg))
                       (Region (Auth cfg)) (Fingerprint (Auth cfg)) (PrivateKey (Auth cfg))
                       (PrivateKeyPassphrase (Auth cfg))))
      end
  | None => ret (Ok DefaultConfigProvider)
  end.

(** The proxy and the certificate pool, applied to a transport. *)
Definition configure_proxy (transport : Transport) : result Transport :=
  let ociProxy := Getenv (W := W) "OCI_PROXY" in
  if negb (is_empty ociProxy) then
    match url_Parse ociProxy with
    | Err err => Err (Errorf "failed to parse OCI proxy url: %s, err: %v"
                        [FStr ociProxy; FStr (Error err)])
    | Ok proxyURL => Ok (set_Proxy transport proxyURL)
    end
  else Ok transport.

Definition configure_cert (transport : Transport) : result Transport :=
  let trustedCACertPath := Getenv (W := W) "TRUSTED_CA_CERT_PATH" in
  if negb (is_empty trustedCACertPath) then
    match ReadFile trustedCACertPath with
    | Err err => Err (Errorf "failed to read root certificate: %s, err: %v"
                        [FStr trustedCACertPath; FStr (Error err)])
    | Ok trustedCACert =>
        match AppendCertsFromPEM trustedCACert with
        | None => Err (Errorf "failed to parse root certificate: %s" [FStr trustedCACertPath])
        | Some caCertPool => Ok (set_RootCAs transport caCertPool)
        end
    end
  else Ok transport.

Definition configureCustomTransport (baseClient : BaseClient) : M W (result BaseClient) :=
  match baseClient with
  | OtherDispatcher => panic_ TypeAssertion
  | HttpClient OtherTransport => panic_ TypeAssertion
  | HttpClient t =>
      let transport := match t with HttpTransport t => t | _ => default_Transport end in
      let! transport := ret (configure_proxy transport) in
      let! transport := ret (configure_cert transport) in
      ret (Ok (HttpClient (HttpTransport transport)))
  end.

(** [FromConfig] from the configuration provider on. *)
Definition client_with (config : ConfigurationProvider) : M W (result provisionerClient) :=
  let! tenancyID := ret (tenancy_of config) in
  let! blockStorage := ret (sdk_NewClient SBlockstorage config) in
  let! blockStorage := configureCustomTransport blockStorage in
  let! fileStorage := ret (sdk_NewClient SFileStorage config) in
  let! virtualNetwork := ret (sdk_NewClient SVirtualNetwork config) in
  let! identity := ret (sdk_NewClient SIdentity config) in
  let! identity := configureCustomTransport identity in
  let* metadata := Get New in
  ret (Ok {| pc_tenancyID := tenancyID;
             pc_blockStorage := blockStorage;
             pc_identity := identity;
             pc_fileStorage := fileStorage;
             pc_virtualNetwork := virtualNetwork;
             pc_timeout := 3 * Minute;
             pc_metadata := match metadata with Ok md => Some md | Err _ => None end |}).

Definition FromConfig : M W (result provisionerClient) :=
  let* cfg := get_cfg in
  let! config := newConfigurationProvider cfg in
  client_with config.
End Client.

(** ** Properties *)

Section Properties.
Context {W : Type} `{Backend W} `{GoLib} `{SDK W}.

(** The two environment variables have been applied to a transport. *)
Definition env_applied (t : Transport) : Prop :=
  (Getenv (W := W) "OCI_PROXY" <> EmptyString ->
     exists u, url_Parse (Getenv (W := W) "OCI_PROXY") = Ok u /\ tr_Proxy t = Some u)
  /\ (Getenv (W := W) "TRUSTED_CA_CERT_PATH" <> EmptyString ->
     exists pem pool, ReadFile (Getenv (W := W) "TRUSTED_CA_CERT_PATH") = Ok pem
       /\ AppendCertsFromPEM pem = Some pool /\ tr_RootCAs t = Some pool).

Definition env_client (c : BaseClient) : Prop :=
  exists t, c = HttpClient (HttpTransport t) /\ env_applied t.

Lemma configure_env t t1 t2 :
  configure_proxy (W := W) t = Ok t1 -> configure_cert (W := W) t1 = Ok t2 -> env_applied t2.
Proof.
  unfold configure_proxy, configure_cert, env_applied. intros Hp Hc. split; intros Hne.
  - destruct (is_empty (Getenv "OCI_PROXY")) eqn:He; [by apply is_empty_true in He|].
    simpl in Hp. destruct (url_Parse _) as [u|]; [|done]. injection Hp as <-.
    exists u. split; [done|]. destruct (negb _); [|by injection Hc as <-].
    destruct (ReadFile _) as [pem|]; [|done].
    destruct (AppendCertsFromPEM _); [by injection Hc as <-|done].
  - destruct (is_empty (Getenv "TRUSTED_CA_CERT_PATH")) eqn:He; [by apply is_empty_true in He|].
    simpl in Hc. destruct (ReadFile _) as [pem|]; [|done].
    destruct (AppendCertsFromPEM _) as [pool|] eqn:Hpool; [|done]. injection Hc as <-. eauto.
Qed.

Lemma post_configureCustomTransport b (s : state W) :
  post (configureCustomTransport b) s (fun o s' l => s' = s /\ l = [] /\
    match o with
    | Val (Ok c) => env_client c
    | Val (Err _) => True
    | Panicked p => p = TypeAssertion
    | _ => False
    end).
Proof.
  unfold configureCustomTransport.
  assert (forall t, post (let! t1 := ret (configure_proxy t) in
      let! t2 := ret (configure_cert t1) in ret (Ok (HttpClient (HttpTransport t2)))) s
    (fun o s' l => s' = s /\ l = [] /\ match o with
      | Val (Ok c) => env_client c | Val (Err _) => True
      | Panicked p => p = TypeAssertion | _ => False end)) as Ht.
  { intros t. go. destruct (configure_proxy t) as [t1|] eqn:E1; go; [|done].
    destruct (configure_cert t1) as [t2|] eqn:E2; go; [|done].
    split; [done|]. split; [done|]. exists t2. split; [done|]. by eapply configure_env. }
  destruct b as [[|t|]|]; [apply Ht|apply Ht|by go|by go].
Qed.

(** The client that [FromConfig] makes. *)
Definition client_made (s : state W) (p : provisionerClient) (l : list event) : Prop :=
  (forall c, st_cfg s = Some c -> Validate c = None)
  /\ pc_timeout p = 180000000000%Z
  /\ env_client (pc_blockStorage p) /\ env_client (pc_identity p)
  /\ (exists config, sdk_NewClient SFileStorage config = Ok (pc_fileStorage p)
                  /\ sdk_NewClient SVirtualNetwork config = Ok (pc_virtualNetwork p)
                  /\ tenancy_of (W := W) config = Ok (pc_tenancyID p))
  /\ (length l <= 1)%nat
  /\ (pc_metadata p = None \/ exists e u st body,
        l = [e] /\ ev_call e = CHttpGet u (Ok (st, body)) /\ st = StatusOK
        /\ (exists md, json_Decode body = Ok md /\ pc_metadata p = Some md)).

Lemma post_client_with config (s s1 : state W) :
  st_cfg s1 = st_cfg s -> (forall c, st_cfg s = Some c -> Validate c = None) ->
  post (client_with config) s1 (fun o s' l => st_cfg s' = st_cfg s /\
    forall p, o = Val (Ok p) -> client_made s p l).
Proof.
  intros Hs1 Hv. unfold client_with. go.
    destruct (tenancy_of config) as [t|] eqn:Ht; go; [|done].
    destruct (sdk_NewClient SBlockstorage config) as [b|]; go; [|done].
    eapply post_mono; [apply post_configureCustomTransport|].
    intros [[b'|]|p|c|] s2 l2 (-> & -> & Hb); go; try done.
    destruct (sdk_NewClient SFileStorage config) as [f|] eqn:Hf; go; [|done].
    destruct (sdk_NewClient SVirtualNetwork config) as [v|] eqn:Hvn; go; [|done].
    destruct (sdk_NewClient SIdentity config) as [i|]; go; [|done].
    eapply post_mono; [apply post_configureCustomTransport|].
    intros [[i'|]|p|c|] s2 l2 (-> & -> & Hi); go; try done.
    eapply post_mono; [apply post_Get|]. intros o s2 l2 [Hcfg Ho].
    destruct (url_Parse _).
    - destruct Ho as (resp & -> & ->). go. split; [congruence|].
      intros p [= <-]. unfold client_made; simpl. do 5 (split; [by eauto|]).
      split; [simpl; lia|]. destruct resp as [[st body]|]; [|by left]. simpl.
      destruct (Z.eqb_spec st StatusOK); [|by left].
      destruct (json_Decode body) as [md|] eqn:Hmd; [|by left]. right. subst.
      do 4 eexists. split; [done|]. split; [done|]. split; [done|]. eauto.
    - destruct Ho as (-> & -> & ->). go. split; [done|]. intros p [= <-].
      unfold client_made; simpl. do 5 (split; [by eauto|]). split; [simpl; lia|]. by left.
Qed.

Lemma FromConfig_made (s : state W) :
  post FromConfig s (fun o s' l =>
    st_cfg s' = st_cfg s /\ forall p, o = Val (Ok p) -> client_made s p l).
Proof.
  unfold FromConfig. go. unfold newConfigurationProvider.
  destruct (st_cfg s) as [cfg|] eqn:Hcfg;
    [|go; eapply post_mono; [by apply (post_client_with _ s); [simpl|rewrite Hcfg]|];
      intros o s' l [? ?]; split; [congruence|done]].
  destruct (Validate cfg) as [err|] eqn:Hval; [by go|].
  assert (forall config s1, st_cfg s1 = st_cfg s ->
    post (client_with config) s1 (fun o s' l => st_cfg s' = Some cfg /\
      forall p, o = Val (Ok p) -> client_made s p l)) as Hmake.
  { intros config s1 Hs1. eapply post_mono; [apply (post_client_with _ s); [done|]|].
    - rewrite Hcfg. by intros c [= <-].
    - intros o s' l [? ?]. split; [congruence|done]. }
  destruct (UseInstancePrincipals cfg); go; [|by apply Hmake].
  destruct a as [e|]; go; [done|]. apply Hmake. simpl. done.
Qed.

(** C34: [FromConfig] refuses an invalid configuration before it contacts anything. A client
    it does return has a three-minute timeout, carries the tenancy of its configuration
    provider, has the metadata only if the endpoint answered 200 with a readable body (a
    failure there is tolerated), and uses the proxy and the trusted certificate of the
    environment for block storage and identity; the file-storage and network clients are
    exactly as the SDK made them. *)
Theorem FromConfig_spec (s : state W) :
  post FromConfig s (fun o s' l =>
    st_cfg s' = st_cfg s
    /\ (forall c err, st_cfg s = Some c -> Validate c = Some err ->
          o = Val (Err (Wrap err "invalid client config")) /\ l = [] /\ s' = s)
    /\ (forall p, o = Val (Ok p) -> client_made s p l)).
Proof.
  eapply post_mono; [apply post_and; [apply FromConfig_made|]|].
  - instantiate (1 := fun o s' l => forall c err, st_cfg s = Some c -> Validate c = Some err ->
      o = Val (Err (Wrap err "invalid client config")) /\ l = [] /\ s' = s).
    apply post_of_run. intros o s' l Hrun c err Hcfg Hval. revert Hrun.
    unfold FromConfig, newConfigurationProvider, bind_ok, bind, get_cfg. rewrite Hcfg, Hval.
    by intros [= <- <- <-].
  - intros o s' l [[? ?] ?]. auto.
Qed.
End Properties.

(** Where the compartment comes from: an explicit setting is used as it is; without one
    the compartment of the instance metadata is used and written into the shared
    configuration, so that later questions have the same answer even from a client without
    metadata; with neither, the process exits; a nil configuration is dereferenced. *)
Theorem CompartmentOCID_source p cfg :
  match cfg with
  | None => provisionerClient_CompartmentOCID p None = (Panicked NilDereference, None)
  | Some c =>
      (CompartmentOCID c <> EmptyString ->
         provisionerClient_CompartmentOCID p cfg = (Val (CompartmentOCID c), Some c))
      /\ (CompartmentOCID c = EmptyString -> pc_metadata p = None ->
         provisionerClient_CompartmentOCID p cfg = (Exited 1, Some c))
      /\ (forall md q, CompartmentOCID c = EmptyString -> pc_metadata p = Some md ->
         md_CompartmentOCID md <> EmptyString ->
         exists c', provisionerClient_CompartmentOCID p cfg = (Val (md_CompartmentOCID md), Some c')
           /\ Auth c' = Auth c
           /\ provisionerClient_CompartmentOCID q (Some c')
              = (Val (md_CompartmentOCID md), Some c'))
  end.
Proof.
  unfold provisionerClient_CompartmentOCID. destruct cfg as [c|]; [|done]. repeat split.
  - intros Hne. destruct (is_empty _) eqn:He; [by apply is_empty_true in He|done].
  - intros He Hmd. by rewrite He, Hmd.
  - intros md q He Hmd Hne. rewrite He, Hmd. simpl. eexists. split; [done|]. split; [done|].
    simpl. destruct (is_empty (md_CompartmentOCID md)) eqn:E; [by apply is_empty_true in E|done].
Qed.

(** [LoadConfig] reports a nil reader, a read error and a decoding error as they are, and
    otherwise returns the decoded configuration with the deprecated compartment setting
    resolved; a document that decodes to null crashes it. *)
Theorem LoadConfig_spec {W} `{GoLib} r (s : state W) :
  LoadConfig r s =
  (match r with
   | None => Val (Err (errors_New "no configuration file given"))
   | Some (Err e) => Val (Err e)
   | Some (Ok b) =>
       match yaml_Unmarshal b empty_Config with
       | Err e => Val (Err e)
       | Ok None => Panicked NilDereference
       | Ok (Some c) => Val (Ok (Complete c))
       end
   end, s, []).
Proof.
  unfold LoadConfig. destruct r as [[b|]|]; [|done|done].
  by destruct (yaml_Unmarshal b empty_Config) as [[c|]|].
Qed.
