(* ===== verification/Block.v ===== *)
(** * The block-volume provisioner: pkg/provisioner/block/block.go

    [Provision] validates the claim, computes the size, creates a volume, polls it until it
    is available, deletes it again if that fails, and builds the persistent volume;
    [Delete] deletes the volume named by the annotation. *)

From Stdlib Require Import Ascii.
From S2P Require Import Prelude GoStrings Errors Quantity Objects Config Effects Logic Wait Plugin.

(** ** Constants *)

Definition OCIVolumeID : string := "ociVolumeID".
Definition OCIVolumeBackupID : string := "volume.beta.kubernetes.io/oci-volume-source".
Definition FSType : string := "fsType".
Definition volumeRoundingUpEnabled : string := "volumeRoundingUpEnabled".

(** ** Data *)

(** The fields of the struct besides the client, the metadata getter and the logger. *)
Record blockProvisioner : Type := {
  bp_volumeRoundingEnabled : bool;
  bp_minVolumeSize : Quantity;
  bp_timeout : Z
}.

(** ** Pure helpers *)

Definition resolveFSType (options : VolumeOptions) : string :=
  match vo_Parameters options !! FSType with
  | Some fsType => fsType
  | None => "ext4"
  end.

(** int64 arithmetic. *)
Definition roundUpSize (volumeSizeBytes allocationUnitBytes : Z) : Z :=
  div64 (sub64 (add64 volumeSizeBytes allocationUnitBytes) 1) allocationUnitBytes.

Definition volumeRoundingEnabled (param : gmap string string) : bool :=
  match param !! volumeRoundingUpEnabled with
  | Some volumeRoundingUpParam =>
      match ParseBool volumeRoundingUpParam with
      | Some enabled => if negb enabled then false else true
      | None => true
      end
  | None => true
  end.

(** [volSizeMB] and [capacity] after the rounding block of [Provision]. *)
Definition MiB : Z := 1024 * 1024.

Definition size_and_capacity (block : blockProvisioner) (param : gmap string string)
    (capacity : Quantity) : Z * Quantity :=
  let volSizeMB := roundUpSize (Value capacity) MiB in
  if volumeRoundingEnabled param then
    if bp_volumeRoundingEnabled block then
      let '(c, minVolumeSize) := Cmp (bp_minVolumeSize block) capacity in
      if (c =? 1)%Z then (roundUpSize (Value minVolumeSize) MiB, minVolumeSize)
      else (volSizeMB, capacity)
    else (volSizeMB, capacity)
  else (volSizeMB, capacity).

Section Block.
Context {W : Type} `{Backend W} `{ProvisionerClient} `{InstanceMeta W}.
Context (fuel : nat).

(** The logger asks for the compartment once, at construction. *)
Definition NewBlockProvisioner (volumeRoundingEnabled : bool) (minVolumeSize : Quantity)
    (timeout : Z) : M W blockProvisioner :=
  let* _ := CompartmentOCID_ in
  ret {| bp_volumeRoundingEnabled := volumeRoundingEnabled;
         bp_minVolumeSize := minVolumeSize;
         bp_timeout := timeout |}.

Definition mapVolumeIDToName (volumeID : string) : M W string :=
  index (Split volumeID "."%char) 4.

(** The [switch] of [isVolumeReady]. *)
Definition volume_state (state : string) : result bool :=
  if String.eqb state VolumeAvailable then Ok true
  else if bool_decide (state ∈ [VolumeFaulty; VolumeTerminated; VolumeTerminating])
  then Err (Errorf "volume has lifecycle state %q" [FStr state])
  else Ok false.

Definition isVolumeReady (c : ctx) (volumeID : option string) : M W (result bool) :=
  let* c := WithTimeout c client_Timeout in
  let! v := GetVolume c volumeID in
  ret (volume_state (vol_LifecycleState v)).

Definition volume_condition (c : ctx) (volumeID : option string) (u : unit) :
  M W (unit * result bool) :=
  let* ready := isVolumeReady c volumeID in
  match ready with
  | Err err =>
      let* id := deref volumeID in
      ret (u, Err (Errorf "failed to provision volume %q: %v" [FStr id; FStr (Error err)]))
  | Ok ready => ret (u, Ok ready)
  end.

Definition waitForVolumeAvailable (c : ctx) (volumeID : option string) (timeout : Z) :
  M W (result unit) :=
  let* r := PollImmediate fuel (5 * Second) timeout (volume_condition c volumeID) tt in
  ret (snd r).

(** The region of the volume's label. *)
Definition block_region : M W (result string) :=
  match LookupEnv (W := W) "OCI_SHORT_REGION" with
  | Some region => ret (Ok region)
  | None => let! metadata := meta_Get in ret (Ok (md_Region metadata))
  end.

Definition volume_pv (options : VolumeOptions) (pvc : PersistentVolumeClaim)
    (id region adName filesystemType : string) (capacity : Quantity) : PersistentVolume :=
  {| pv_Name := id;
     pv_Annotations := Some {[OCIVolumeID := id]};
     pv_Labels := Some (<[LabelZoneRegion := region]> {[LabelZoneFailureDomain := adName]});
     pv_ReclaimPolicy := vo_ReclaimPolicy options;
     pv_AccessModes := pvc_AccessModes pvc;
     pv_Capacity := {[ResourceStorage := capacity]};
     pv_FlexVolume := Some {| flex_Driver := OCIProvisionerName; flex_FSType := filesystemType |};
     pv_NFS := None;
     pv_MountOptions := vo_MountOptions options;
     pv_ClaimRef := None;
     pv_StorageClassName := EmptyString;
     pv_Phase := EmptyString |}.

Definition invalid_access_mode (mode : string) : bool := negb (String.eqb mode ReadWriteOnce).

Definition Provision (block : blockProvisioner) (options : VolumeOptions)
    (ad : AvailabilityDomain) : M W (result PersistentVolume) :=
  let c := Background in
  let* pvc := deref (vo_PVC options) in
  match first_such invalid_access_mode (pvc_AccessModes pvc) with
  | Some accessMode =>
      ret (Err (Errorf "invalid access mode %v specified. Only %v is supported"
                  [FStr accessMode; FStr ReadWriteOnce]))
  | None =>
  match pvc_Requests pvc !! ResourceStorage with
  | None => ret (Err (Errorf "could not determine volume size for PVC" []))
  | Some capacity =>
      let* adName := deref (ad_Name ad) in
      let '(volSizeMB, capacity) := size_and_capacity block (vo_Parameters options) capacity in
      let* compartment := CompartmentOCID_ in
      let volumeDetails :=
        {| cv_AvailabilityDomain := ad_Name ad;
           cv_CompartmentId := Some compartment;
           cv_DisplayName := Some (Sprintf "%s%s" [FStr (GetPrefix (W := W)); FStr (pvc_Name pvc)]);
           cv_SizeInMBs := Some volSizeMB;
           cv_SourceBackupId := pvc_Annotations pvc !! OCIVolumeBackupID |} in
      let* c := WithTimeout c client_Timeout in
      let! newVolume := CreateVolume c volumeDetails in
      let* id := deref (vol_Id newVolume) in
      let* err := waitForVolumeAvailable c (vol_Id newVolume) (bp_timeout block) in
      match err with
      | Err err =>
          let* c := WithTimeout c client_Timeout in
          let* _ := DeleteVolume c (vol_Id newVolume) in
          ret (Err err)
      | Ok _ =>
          let filesystemType := resolveFSType options in
          let! region := block_region in
          ret (Ok (volume_pv options pvc id region adName filesystemType capacity))
      end
  end
  end.

Definition Delete (volume : PersistentVolume) : M W (result unit) :=
  let c := Background in
  match gomap_lookup (pv_Annotations volume) OCIVolumeID with
  | None => ret (Err (errors_New "volumeid annotation not found on PV"))
  | Some volID =>
      let* c := WithTimeout c client_Timeout in
      let* response := DeleteVolume c (Some volID) in
      let err := ErrSDK <$> dv_err response in
      if bool_decide (dv_RawStatus response = Some StatusNotFound) then ret (Ok tt)
      else if IsNotFound err then ret (Ok tt)
      else match err with None => ret (Ok tt) | Some e => ret (Err e) end
  end.
End Block.

(** ** Sizes *)

Lemma roundUpSize_wrap v a : roundUpSize v a = div64 (wrap64 (v + a - 1)) a.
Proof. unfold roundUpSize, sub64, add64. by rewrite <- Z.add_opp_r, wrap64_add_l. Qed.

Lemma roundUpSize_exact v a :
  (0 <= v)%Z -> (1 <= a)%Z -> (v + a - 1 <= MaxInt64)%Z -> roundUpSize v a = ceil_div v a.
Proof.
  intros Hv Ha Hr. rewrite roundUpSize_wrap, wrap64_id by (unfold_int; lia).
  rewrite div64_pos by (done || (unfold_int; lia)).
  by rewrite Z.quot_div_nonneg by lia.
Qed.

(** The capacity the code ends up with: the larger of the request and the minimum, when
    both switches are on. *)
Definition rounding_applies (block : blockProvisioner) (param : gmap string string)
    (capacity : Quantity) : bool :=
  volumeRoundingEnabled param && bp_volumeRoundingEnabled block
  && (fst (Cmp (bp_minVolumeSize block) capacity) =? 1)%Z.

Definition sizes_fit (q : Quantity) : Prop :=
  quantity_ok q /\ (exact_ceil q + MiB - 1 <= MaxInt64)%Z.

Lemma size_and_capacity_spec block param capacity :
  sizes_fit capacity -> sizes_fit (bp_minVolumeSize block) ->
  let '(mb, cap) := size_and_capacity block param capacity in
  mb = ceil_div (exact_ceil cap) MiB
  /\ (if rounding_applies block param capacity
      then exact_ceil cap = exact_ceil (bp_minVolumeSize block)
      else cap = capacity)
  /\ sizes_fit cap.
Proof.
  intros [Hc Hcf] [Hm Hmf]. unfold size_and_capacity, rounding_applies.
  assert (roundUpSize (Value capacity) MiB = ceil_div (exact_ceil capacity) MiB) as Hsz.
  { rewrite Value_exact by done. apply roundUpSize_exact; [|unfold MiB; lia|done].
    auto with quantity. }
  destruct (volumeRoundingEnabled param); simpl; [|done].
  destruct (bp_volumeRoundingEnabled block); simpl; [|done].
  pose proof (Cmp_receiver (bp_minVolumeSize block) capacity Hm) as [He Hok].
  destruct (Cmp (bp_minVolumeSize block) capacity) as [c m]. simpl in *.
  destruct (c =? 1)%Z; [|done]. split; [|split; [done|split; [done|lia]]].
  rewrite Value_exact by done. rewrite roundUpSize_exact; [done| |unfold MiB; lia|lia].
  auto with quantity.
Qed.

(** ** The wait *)

Section BlockWait.
Context {W : Type} `{Backend W} `{ProvisionerClient} `{InstanceMeta W}.

(** The event of one poll: a GetVolume of [id] that answered [r]. *)
Definition polled (id : string) (r : api Volume) (e : event) : Prop :=
  ev_call e = CGetVolume (Some id) r.

(** A poll after which the wait goes on. *)
Definition pending (id : string) (e : event) : Prop :=
  exists v, polled id (inl v) e /\ volume_state (vol_LifecycleState v) = Ok false.

Definition provision_error (id : string) (err : error) : error :=
  Errorf "failed to provision volume %q: %v" [FStr id; FStr (Error err)].

(** How a wait ends: with the error it returns, given its last poll. *)
Inductive wait_end (id : string) : result unit -> event -> Prop :=
| wait_available e v :
    polled id (inl v) e -> vol_LifecycleState v = VolumeAvailable -> wait_end id (Ok tt) e
| wait_bad_state e v err :
    polled id (inl v) e -> volume_state (vol_LifecycleState v) = Err err ->
    wait_end id (Err (provision_error id err)) e
| wait_api_error e x :
    polled id (inr x) e -> wait_end id (Err (provision_error id (ErrSDK x))) e
| wait_timeout e :
    pending id e -> wait_end id (Err (ErrSentinel wait_ErrWaitTimeout)) e.

Lemma volume_state_ready st : volume_state st = Ok true <-> st = VolumeAvailable.
Proof.
  unfold volume_state. destruct (String.eqb_spec st VolumeAvailable); [done|].
  by case_bool.
Qed.

Lemma post_volume_condition c id (s : state W) :
  post (volume_condition c (Some id) tt) s (fun o s' l =>
    st_cfg s' = st_cfg s /\ st_now s <= st_now s' /\
    exists e r, l = [e] /\ polled id r e
      /\ ev_ctx e = with_deadline c (st_now s + client_Timeout)
      /\ o = Val (tt, match r with
                      | inl v => match volume_state (vol_LifecycleState v) with
                                 | Ok b => Ok b
                                 | Err err => Err (provision_error id err)
                                 end
                      | inr x => Err (provision_error id (ErrSDK x))
                      end))%Z.
Proof.
  unfold volume_condition, isVolumeReady. go.
  destruct a as [v|x]; go; [destruct (volume_state (vol_LifecycleState v)) as [b|err] eqn:E|];
    go; rewrite ?E; go; simpl; (split; [done|]); (split; [lia|]); eexists.
  - exists (inl v). by rewrite E.
  - exists (inl v). by rewrite E.
  - by exists (inr x).
Qed.

Lemma volume_condition_timed c id x : upholds (volume_condition c id x) timed.
Proof. unfold volume_condition, isVolumeReady. upholds_tac. Qed.

Definition wait_shape (id : string) (start T : Z) (o : outcome (result unit)) (s' : state W)
    (l : list event) : Prop :=
  exists r polls e, o = Val r /\ l = polls ++ [e] /\ Forall (pending id) polls
    /\ wait_end id r e /\ (length polls <= S (Z.to_nat (T / (5 * Second))))%nat
    /\ (r = Err (ErrSentinel wait_ErrWaitTimeout) -> start + T <= st_now s')%Z.

Lemma post_wait fuel c id T (s : state W) :
  enough_fuel fuel (5 * Second) T ->
  post (waitForVolumeAvailable fuel c (Some id) T) s (fun o s' l =>
    st_cfg s' = st_cfg s /\ wait_shape id (st_now s) T o s' l).
Proof.
  intros Hf. pose proof Hf as (_ & HT & _). unfold waitForVolumeAvailable. go.
  eapply post_mono; [apply (post_PollImmediate (volume_condition c (Some id)) (5 * Second) T)
    with (I := fun k _ s1 l => st_cfg s1 = st_cfg s /\ Forall (pending id) l
                 /\ (length l + k <= S (Z.to_nat (T / (5 * Second))))%nat)
         (Q := fun o s' l => exists r, o = Val (tt, r) /\ st_cfg s' = st_cfg s
                 /\ wait_shape id (st_now s) T (Val r) s' l)|].
  - unfold Second. lia.
  - done.
  - intros. apply volume_condition_timed.
  - intros k [] s1 l (Hcfg & Hl & Hk). eapply post_mono; [apply post_volume_condition|].
    intros o s2 l2 (Hcfg2 & Hnow & e & r & -> & He & _ & ->).
    assert (forall r0, wait_end id r0 e ->
      (r0 = Err (ErrSentinel wait_ErrWaitTimeout) -> st_now s + T <= st_now s2)%Z ->
      exists r1, Val (tt, r0) = Val (tt, r1) /\ st_cfg s2 = st_cfg s
        /\ wait_shape id (st_now s) T (Val r1) s2 (l ++ [e])) as Hdone.
    { intros r0 Hend Hto. exists r0. split; [done|]. split; [congruence|].
      exists r0, l, e. repeat (split; [by auto with lia|]). done. }
    destruct r as [v|x]; [destruct (volume_state (vol_LifecycleState v)) as [[|]|err] eqn:E|].
    + apply Hdone; [|done]. eapply wait_available; [done|]. by apply volume_state_ready.
    + assert (pending id e) as Hp by (exists v; auto). split.
      * intros k' t w Hk' _ _. simpl. split; [congruence|]. split; [apply Forall_app; auto|].
        rewrite length_app. simpl. lia.
      * intros Hel. apply Hdone; [by apply wait_timeout|intros _; lia].
    + apply Hdone; [by eapply wait_bad_state|done].
    + apply Hdone; [by apply wait_api_error|done].
  - done.
  - split; [done|]. split; [constructor|]. simpl. lia.
  - intros o s' l (r & -> & Hcfg & Hs). go. rewrite app_nil_r. auto.
Qed.

Lemma wait_timed fuel c id T : upholds (waitForVolumeAvailable fuel c id T) timed.
Proof.
  unfold waitForVolumeAvailable. apply upholds_bind; [apply _| |intros; upholds_tac].
  apply upholds_PollImmediate; [apply _|apply upholds_advance_to| |].
  - intros. upholds_tac.
  - intros. apply volume_condition_timed.
Qed.
End BlockWait.
