(* ===== verification/BlockSpec.v ===== *)
(** * What the block-volume provisioner promises

    [provision_run] lists every way a call of [Block.Provision] can go, with its calls in
    order; [Provision_runs] proves the list complete, and the properties read off it. *)

From S2P Require Import Prelude GoStrings Errors Quantity Objects Config Effects Logic Wait Plugin Block.

Open Scope Z_scope.

Section Runs.
Context {W : Type} `{Backend W} `{!ProvisionerClient} `{!ProvisionerClientOk}.
Context `{!InstanceMeta W} `{!InstanceMetaOk W}.

(** ** The runs of Provision *)

Definition valid_claim (options : VolumeOptions) (pvc : PersistentVolumeClaim)
    (capacity : Quantity) : Prop :=
  vo_PVC options = Some pvc
  /\ first_such invalid_access_mode (pvc_AccessModes pvc) = None
  /\ pvc_Requests pvc !! ResourceStorage = Some capacity.

(** What the code asks the volume service for. *)
Definition volume_request (block : blockProvisioner) (options : VolumeOptions)
    (pvc : PersistentVolumeClaim) (capacity : Quantity) (adName comp : string) :
  CreateVolumeDetails :=
  {| cv_AvailabilityDomain := Some adName;
     cv_CompartmentId := Some comp;
     cv_DisplayName := Some (GetPrefix (W := W) +:+ pvc_Name pvc);
     cv_SizeInMBs := Some (fst (size_and_capacity block (vo_Parameters options) capacity));
     cv_SourceBackupId := pvc_Annotations pvc !! OCIVolumeBackupID |}.

(** The context of the creation, from which those of the waits and the cleanup derive. *)
Definition create_ctx (s : state W) : ctx := Some (st_now s + client_Timeout).

Definition access_error (mode : string) : error :=
  Errorf "invalid access mode %v specified. Only %v is supported"
    [FStr mode; FStr ReadWriteOnce].
Definition size_error : error := Errorf "could not determine volume size for PVC" [].

(** The run gets as far as the call that creates the volume, event [e], with reply [r]. *)
Inductive creates (block : blockProvisioner) (options : VolumeOptions)
    (ad : AvailabilityDomain) (s : state W) (r : api Volume) : event -> Prop :=
| creates_intro pvc capacity adName comp c :
    valid_claim options pvc capacity -> ad_Name ad = Some adName ->
    client_compartment (st_cfg s) = (Val comp, c) ->
    creates block options ad s r
      (Event (st_now s) (create_ctx s)
         (CCreateVolume (volume_request block options pvc capacity adName comp) r)).

Definition poll_bound (block : blockProvisioner) (polls : list event) : Prop :=
  (length polls <= S (Z.to_nat (bp_timeout block / (5 * Second))))%nat.

Inductive provision_run (block : blockProvisioner) (options : VolumeOptions)
    (ad : AvailabilityDomain) (s : state W) :
  outcome (result PersistentVolume) -> state W -> list event -> Prop :=
| run_nil_claim :
    vo_PVC options = None ->
    provision_run block options ad s (Panicked NilDereference) s []
| run_access_mode pvc mode :
    vo_PVC options = Some pvc ->
    first_such invalid_access_mode (pvc_AccessModes pvc) = Some mode ->
    provision_run block options ad s (Val (Err (access_error mode))) s []
| run_no_size pvc :
    vo_PVC options = Some pvc ->
    first_such invalid_access_mode (pvc_AccessModes pvc) = None ->
    pvc_Requests pvc !! ResourceStorage = None ->
    provision_run block options ad s (Val (Err size_error)) s []
| run_nil_ad pvc capacity :
    valid_claim options pvc capacity -> ad_Name ad = None ->
    provision_run block options ad s (Panicked NilDereference) s []
| run_no_compartment pvc capacity o s' :
    valid_claim options pvc capacity ->
    ((exists p, o = Panicked p) \/ (exists code, o = Exited code)) ->
    provision_run block options ad s o s' []
| run_create_failed x e s' :
    creates block options ad s (inr x) e ->
    provision_run block options ad s (Val (Err (ErrSDK x))) s' [e]
| run_nil_id v e s' :
    creates block options ad s (inl v) e -> vol_Id v = None ->
    provision_run block options ad s (Panicked NilDereference) s' [e]
| run_wait_failed v id err e polls last del reply s' :
    creates block options ad s (inl v) e -> vol_Id v = Some id ->
    Forall (pending id) polls -> poll_bound block polls -> wait_end id (Err err) last ->
    (err = ErrSentinel wait_ErrWaitTimeout -> st_now s + bp_timeout block <= ev_at del) ->
    ev_ctx del = with_deadline (create_ctx s) (ev_at del + client_Timeout) ->
    ev_call del = CDeleteVolume (Some id) reply ->
    provision_run block options ad s (Val (Err err)) s' (e :: polls ++ [last; del])
| run_region_failed v id err e polls last https s' :
    creates block options ad s (inl v) e -> vol_Id v = Some id ->
    Forall (pending id) polls -> poll_bound block polls -> wait_end id (Ok tt) last ->
    LookupEnv (W := W) "OCI_SHORT_REGION" = None ->
    Forall (fun e => exists u r, ev_call e = CHttpGet u r) https ->
    provision_run block options ad s (Val (Err err)) s' (e :: polls ++ last :: https)
| run_provisioned v id pvc capacity adName region e polls last https s' :
    creates block options ad s (inl v) e -> vol_Id v = Some id ->
    valid_claim options pvc capacity -> ad_Name ad = Some adName ->
    Forall (pending id) polls -> poll_bound block polls -> wait_end id (Ok tt) last ->
    (forall r, LookupEnv (W := W) "OCI_SHORT_REGION" = Some r -> region = r /\ https = []) ->
    Forall (fun e => exists u r, ev_call e = CHttpGet u r) https ->
    provision_run block options ad s
      (Val (Ok (volume_pv options pvc id region adName (resolveFSType options)
                  (snd (size_and_capacity block (vo_Parameters options) capacity)))))
      s' (e :: polls ++ last :: https).

Lemma post_block_region (s : state W) :
  post (@block_region W _ _) s (fun o s' l =>
    Forall (fun e => exists u r, ev_call e = CHttpGet u r) l /\
    match LookupEnv (W := W) "OCI_SHORT_REGION" with
    | Some r => o = Val (Ok r) /\ l = [] /\ s' = s
    | None => exists r, o = Val r
    end).
Proof using All.
  unfold block_region. destruct (LookupEnv _) as [r|]; go; [split; [constructor|done]|].
  eapply post_mono; [apply post_and; [apply meta_returns|apply meta_only_http]|].
  intros o s' l [[r ->] Hl]. destruct r; go; rewrite app_nil_r; eauto.
Qed.

Lemma Provision_runs fuel block options ad (s : state W) :
  enough_fuel fuel (5 * Second) (bp_timeout block) ->
  post (Provision fuel block options ad) s (provision_run block options ad s).
Proof using All.
  intros Hf. unfold Provision. go.
  destruct (vo_PVC options) as [pvc|] eqn:Hpvc; go; [|by apply run_nil_claim].
  destruct (first_such _ _) as [mode|] eqn:Hmode; go; [by eapply run_access_mode|].
  destruct (pvc_Requests pvc !! ResourceStorage) as [capacity|] eqn:Hcap; go;
    [|by eapply run_no_size].
  assert (valid_claim options pvc capacity) as Hvalid by done.
  destruct (ad_Name ad) as [adName|] eqn:Had; go; [|by eapply run_nil_ad].
  destruct (size_and_capacity _ _ _) as [mb cap] eqn:Hsize. go.
  apply post_CompartmentOCID. intros o c Hcomp.
  destruct o as [comp|p|code|]; go; [|eapply run_no_compartment; eauto..|].
  2: { pose proof (compartment_returns (st_cfg s)) as Hr. by rewrite Hcomp in Hr. }
  rewrite Sprintf_concat.
  assert (forall r, creates block options ad s r (Event (st_now s) (create_ctx s)
            (CCreateVolume {| cv_AvailabilityDomain := Some adName;
               cv_CompartmentId := Some comp;
               cv_DisplayName := Some (GetPrefix (W := W) +:+ pvc_Name pvc);
               cv_SizeInMBs := Some mb;
               cv_SourceBackupId := pvc_Annotations pvc !! OCIVolumeBackupID |} r))) as Hcr.
  { intros r. replace mb with (fst (size_and_capacity block (vo_Parameters options) capacity))
      by by rewrite Hsize.
    by eapply creates_intro. }
  destruct a as [v|x]; go; [|apply run_create_failed, Hcr].
  destruct (vol_Id v) as [id|] eqn:Hid; go; [|eapply run_nil_id; [apply Hcr|done]].
  eapply post_mono; [apply post_and; [apply post_wait, Hf|apply wait_timed]|].
  intros o s1 l [(_ & r & polls & last & -> & -> & Hp & Hend & Hlen & Hto) [Hnow _]]. simpl in *.
  destruct r as [[]|err]; go.
  - eapply post_mono; [apply post_block_region|]. intros o s2 l2 [Hl2 Henv].
    destruct (LookupEnv _) as [r|] eqn:He.
    + destruct Henv as (-> & -> & ->). go.
      replace cap with (snd (size_and_capacity block (vo_Parameters options) capacity))
        by by rewrite Hsize.
      rewrite <- app_assoc. simpl. eapply run_provisioned; eauto; intros r' Hr'; rewrite He in Hr'; by simplify_eq.
    + destruct Henv as [[region|err] ->]; go; rewrite <- !app_assoc; simpl; rewrite app_nil_r.
      * replace cap with (snd (size_and_capacity block (vo_Parameters options) capacity))
          by by rewrite Hsize.
        eapply run_provisioned; eauto; intros r' Hr'; rewrite He in Hr'; by simplify_eq.
      * eapply run_region_failed; eauto.
  - rewrite <- !app_assoc. simpl. eapply run_wait_failed; eauto; simpl; try done.
    intros ->. specialize (Hto eq_refl). lia.
Qed.

(** ** The protocol as a state machine

    The abstract view of [Provision]: a phase, driven by the calls it makes. *)

Inductive phase : Type :=
| Idle
| Refused (e : error)
| Nameless
| Waiting (id : string)
| Ready (id : string)
| Doomed (id : string) (e : error)
| Cleaned (id : string) (e : error).

Inductive pstep : phase -> call -> phase -> Prop :=
| p_create req v id :
    vol_Id v = Some id -> pstep Idle (CCreateVolume req (inl v)) (Waiting id)
| p_nameless req v : vol_Id v = None -> pstep Idle (CCreateVolume req (inl v)) Nameless
| p_refused req x : pstep Idle (CCreateVolume req (inr x)) (Refused (ErrSDK x))
| p_pending id v :
    volume_state (vol_LifecycleState v) = Ok false ->
    pstep (Waiting id) (CGetVolume (Some id) (inl v)) (Waiting id)
| p_available id v :
    vol_LifecycleState v = VolumeAvailable ->
    pstep (Waiting id) (CGetVolume (Some id) (inl v)) (Ready id)
| p_bad_state id v err :
    volume_state (vol_LifecycleState v) = Err err ->
    pstep (Waiting id) (CGetVolume (Some id) (inl v)) (Doomed id (provision_error id err))
| p_api_error id x :
    pstep (Waiting id) (CGetVolume (Some id) (inr x)) (Doomed id (provision_error id (ErrSDK x)))
| p_timeout id reply :
    pstep (Waiting id) (CDeleteVolume (Some id) reply)
      (Cleaned id (ErrSentinel wait_ErrWaitTimeout))
| p_cleanup id e reply : pstep (Doomed id e) (CDeleteVolume (Some id) reply) (Cleaned id e)
| p_metadata id u r : pstep (Ready id) (CHttpGet u r) (Ready id).

Inductive psteps : phase -> list event -> phase -> Prop :=
| psteps_nil p : psteps p [] p
| psteps_cons p e q l r : pstep p (ev_call e) q -> psteps q l r -> psteps p (e :: l) r.

Lemma psteps_app p l1 q l2 r : psteps p l1 q -> psteps q l2 r -> psteps p (l1 ++ l2) r.
Proof. induction 1; [done|]. intros. econstructor; eauto. Qed.

Lemma psteps_stay p (P : event -> Prop) l :
  (forall e, P e -> pstep p (ev_call e) p) -> Forall P l -> psteps p l p.
Proof. intros HP. induction 1; econstructor; eauto. Qed.

(** The phases a finished call may be in. *)
Definition finished (ph : phase) (o : outcome (result PersistentVolume)) : Prop :=
  match ph, o with
  | Idle, (Val (Err _) | Panicked _ | Exited _) => True
  | Refused e, Val (Err e') => e' = e
  | Nameless, Panicked p => p = NilDereference
  | Cleaned _ e, Val (Err e') => e' = e
  | Ready id, Val (Ok pv) => pv_Name pv = id
  | Ready id, Val (Err _) => LookupEnv (W := W) "OCI_SHORT_REGION" = None
  | _, _ => False
  end.

Lemma pending_step id e : pending id e -> pstep (Waiting id) (ev_call e) (Waiting id).
Proof. intros (v & Hp & Hv). rewrite Hp. by constructor. Qed.

Lemma available_step id e : wait_end id (Ok tt) e -> pstep (Waiting id) (ev_call e) (Ready id).
Proof. inversion 1 as [? v Hp Hv| | |]; subst. rewrite Hp. by constructor. Qed.

Lemma failure_steps id err last del reply :
  wait_end id (Err err) last -> ev_call del = CDeleteVolume (Some id) reply ->
  psteps (Waiting id) [last; del] (Cleaned id err).
Proof.
  intros Hend Hdel. inversion Hend as [|? v ? Hp Hv|? x Hp|? Hp]; subst.
  - econstructor; [rewrite Hp; by constructor|].
    econstructor; [rewrite Hdel; constructor|constructor].
  - econstructor; [rewrite Hp; by constructor|].
    econstructor; [rewrite Hdel; constructor|constructor].
  - econstructor; [by apply pending_step|].
    econstructor; [rewrite Hdel; constructor|constructor].
Qed.

Lemma creates_step block options ad (s : state W) v e id :
  creates block options ad s (inl v) e -> vol_Id v = Some id ->
  pstep Idle (ev_call e) (Waiting id).
Proof. inversion 1; subst. by constructor. Qed.

Lemma run_psteps block options ad (s s' : state W) o l :
  provision_run block options ad s o s' l ->
  exists ph, psteps Idle l ph /\ finished ph o.
Proof.
  intros Hrun. destruct Hrun as
    [| | | |? ? ? ? ? Ho|? ? ? Hc|? ? ? Hc ?
    |? id err ? ? ? ? ? ? Hc Hid Hp _ Hend _ _ Hdel
    |? id ? ? ? ? ? ? Hc Hid Hp _ Hend Henv Hh
    |? id ? ? ? ? ? ? ? ? ? Hc Hid ? ? Hp _ Hend Hr Hh].
  1-4: exists Idle; by split; [constructor|].
  - exists Idle. split; [constructor|]. by destruct Ho as [[? ->]|[? ->]].
  - inversion Hc; subst. eexists. split; [econstructor; [by constructor|constructor]|done].
  - inversion Hc; subst. exists Nameless. split; [|done].
    econstructor; [by constructor|constructor].
  - exists (Cleaned id err). split; [|done]. econstructor; [by eapply creates_step|].
    eapply psteps_app; [|by eapply failure_steps].
    eapply psteps_stay; [|exact Hp]. intros. by apply pending_step.
  - exists (Ready id). split; [|done]. econstructor; [by eapply creates_step|].
    eapply psteps_app; [eapply psteps_stay; [|exact Hp]; intros; by apply pending_step|].
    econstructor; [by apply available_step|]. eapply psteps_stay; [|exact Hh].
    intros e0 (u & r & ->). constructor.
  - exists (Ready id). split; [|done]. econstructor; [by eapply creates_step|].
    eapply psteps_app; [eapply psteps_stay; [|exact Hp]; intros; by apply pending_step|].
    econstructor; [by apply available_step|]. eapply psteps_stay; [|exact Hh].
    intros e0 (u & r & ->). constructor.
Qed.

(** Invariants of the machine, by rule induction. *)
Definition is_create (k : call) : bool := match k with CCreateVolume _ _ => true | _ => false end.
Definition is_delete (k : call) : bool := match k with CDeleteVolume _ _ => true | _ => false end.

(** The phase's own volume. *)
Definition phase_id (p : phase) : option string :=
  match p with
  | Waiting id | Ready id | Doomed id _ | Cleaned id _ => Some id
  | _ => None
  end.

Lemma step_to_cleaned p k id e : pstep p k (Cleaned id e) -> is_delete k = true.
Proof. by inversion 1. Qed.

Lemma psteps_id p l q id : psteps p l q -> phase_id p = Some id ->
  phase_id q = Some id
  /\ Forall (fun e => is_create (ev_call e) = false
               /\ forall x r, ev_call e = CDeleteVolume x r -> x = Some id) l
  /\ (forall l1 e l2, l = l1 ++ e :: l2 -> is_delete (ev_call e) = true -> l2 = [])
  /\ (forall e, q = Cleaned id e -> p = q \/ exists l1 d r, l = l1 ++ [d] /\ ev_call d = CDeleteVolume (Some id) r)
  /\ (forall i, q = Ready i -> Forall (fun e => is_delete (ev_call e) = false) l).
Proof.
  intros Hs. revert id. induction Hs as [p|p e q l r Hstep Hs IH]; intros id Hid.
  - split; [done|]. split; [constructor|]. split; [intros [|] ? ? ?; simplify_list_eq|].
    split; [eauto|constructor].
  - assert (phase_id q = Some id /\ is_create (ev_call e) = false
      /\ (forall x r, ev_call e = CDeleteVolume x r -> x = Some id)
      /\ (is_delete (ev_call e) = true -> exists err, q = Cleaned id err)) as (Hq & Hc & Hd & Hcl).
    { inversion Hstep; subst; simplify_eq/=; (split; [done|]); (split; [done|]);
        (split; [by intros ?? [=]|]); intros; try done; eauto. }
    assert (is_delete (ev_call e) = true -> l = [] /\ r = q) as Hlast.
    { intros [err ->]%Hcl. inversion Hs as [|? ? ? ? ? Hstep']; subst; [done|inversion Hstep']. }
    destruct (IH id Hq) as (Hr & Hall & Hend & Hcleaned & Hready).
    split; [done|]. split; [by constructor|]. split; [|split].
    + intros [|e1 l1] e2 l2 Heq Hdel; simplify_list_eq; [by apply Hlast|by eapply Hend].
    + intros err ->. right. destruct (is_delete (ev_call e)) eqn:Hdel.
      * destruct (Hlast eq_refl) as [-> _]. destruct (ev_call e) as [| |x rr| | | | | | | | | | | | | | | | |] eqn:Hcall; try done.
        exists [], e, rr. rewrite Hcall. split; [done|]. by rewrite (Hd x rr).
      * destruct (Hcleaned err eq_refl) as [->|(l1 & d & rr & -> & Hcd)].
        -- apply step_to_cleaned in Hstep. congruence.
        -- exists (e :: l1), d, rr. done.
    + intros i ->. constructor; [|by eapply Hready].
      destruct (is_delete (ev_call e)) eqn:Hdel; [|done]. destruct (Hlast eq_refl) as [_ <-].
      destruct (Hcl eq_refl) as [err Hx]. done.
Qed.

(** ** Properties of the runs *)

Definition created (id : string) (l : list event) : Prop :=
  exists e l' req v,
    l = e :: l' /\ ev_call e = CCreateVolume req (inl v) /\ vol_Id v = Some id.

(** The last call deletes the volume [id]. *)
Definition ends_in_delete (id : string) (l : list event) : Prop :=
  exists l' d r, l = l' ++ [d] /\ ev_call d = CDeleteVolume (Some id) r.

Definition never_deletes (l : list event) : Prop :=
  Forall (fun e => is_delete (ev_call e) = false) l.

Lemma creates_created block options ad (s : state W) v e id l :
  creates block options ad s (inl v) e -> vol_Id v = Some id -> created id (e :: l).
Proof. inversion 1; subst. intros. by repeat eexists. Qed.

Lemma wait_end_poll id r e :
  wait_end id r e -> is_delete (ev_call e) = false.
Proof.
  inversion 1 as [? ? Hp|? ? ? Hp|? ? Hp|? (? & Hp & _)]; subst; by rewrite Hp.
Qed.

Lemma available_never_deletes block options ad (s : state W) v e id polls last https :
  creates block options ad s (inl v) e -> Forall (pending id) polls ->
  wait_end id (Ok tt) last ->
  Forall (fun e => exists u r, ev_call e = CHttpGet u r) https ->
  never_deletes (e :: polls ++ last :: https).
Proof.
  intros Hc Hp Hend Hh. unfold never_deletes. constructor; [by inversion Hc|].
  apply Forall_app; split; [|constructor].
  - eapply Forall_impl; [exact Hp|]. by intros ? (? & -> & _).
  - simpl. by eapply wait_end_poll.
  - eapply Forall_impl; [exact Hh|]. by intros ? (? & ? & ->).
Qed.

Context (fuel : nat) (block : blockProvisioner) (options : VolumeOptions)
  (ad : AvailabilityDomain) (s : state W).
Context (Hfuel : enough_fuel fuel (5 * Second) (bp_timeout block)).

(** C1: [Provision] always returns and follows its protocol: it makes at most one create
    call, then only polls the created volume until that is available, fails or the timeout
    elapses, then either deletes that very volume or reads the metadata, and the outcome
    agrees with the phase reached: a persistent volume is returned only for a volume that
    was seen available, and the error returned is the one that ended the protocol. *)
Theorem Provision_protocol :
  post (Provision fuel block options ad) s (fun o s' l =>
    exists ph, psteps Idle l ph /\ finished ph o).
Proof using All.
  eapply post_mono; [by apply Provision_runs|]. intros o s' l. apply run_psteps.
Qed.

Lemma psteps_idle l ph :
  psteps Idle l ph ->
  (l = [] /\ ph = Idle) \/ exists e l' q, l = e :: l' /\ pstep Idle (ev_call e) q /\ psteps q l' ph.
Proof. inversion 1; subst; eauto 10. Qed.

(** C2: [Provision] deletes only what it made: every delete call is the last call of the run
    and names the volume that the first call of the same run created; no second volume is
    ever created. *)
Theorem Provision_deletes_own :
  post (Provision fuel block options ad) s (fun o s' l =>
    (forall l1 e l2, l = l1 ++ e :: l2 -> is_create (ev_call e) = true -> l1 = [])
    /\ (forall l1 e l2 x r, l = l1 ++ e :: l2 -> ev_call e = CDeleteVolume x r ->
          l2 = [] /\ exists id, x = Some id /\ created id l)).
Proof using All.
  eapply post_mono; [by apply Provision_runs|]. intros o s' l (ph & Hs & _)%run_psteps.
  destruct (psteps_idle _ _ Hs) as [[-> ->]|(e & l' & q & -> & Hstep & Hs')].
  { split; [intros [|] ? ? ?|intros [|] ? ? ? ? ?]; simplify_list_eq. }
  destruct (phase_id q) as [id|] eqn:Hq.
  - destruct (psteps_id _ _ _ _ Hs' Hq) as (_ & Hall & Hend & _).
    assert (created id (e :: l')) as Hcr.
    { inversion Hstep; subst; simplify_eq/=. by repeat eexists. }
    split.
    + intros [|e1 l1] e2 l2 Heq Hc; [done|]. simplify_list_eq.
      apply Forall_app in Hall as [_ [[Hn _] _]%Forall_cons]. congruence.
    + intros [|e1 l1] e2 l2 x r Heq Hc; simplify_list_eq; [inversion Hstep; congruence|].
      split; [eapply Hend; [done|by rewrite Hc]|]. exists id. split; [|done].
      apply Forall_app in Hall as [_ [[_ Hx] _]%Forall_cons]. by eapply Hx.
  - assert (l' = []) as ->.
    { inversion Hs' as [|? ? ? ? ? Hst]; subst; [done|].
      inversion Hstep; subst; simplify_eq/=; inversion Hst. }
    split.
    + intros [|e1 [|]] e2 l2 Heq; simplify_list_eq; done.
    + intros [|e1 [|]] e2 l2 x r Heq Hc; simplify_list_eq. inversion Hstep; congruence.
Qed.

(** C3: what a failed [Provision] leaves behind: nothing when no volume was created; when
    one was, the last call deletes it, unless the volume was available already and only the
    region lookup failed, in which case it is not deleted although the claim gets an error.
    *)
Theorem Provision_failure :
  post (Provision fuel block options ad) s (fun o s' l => forall e, o = Val (Err e) ->
    (l = [] /\ s' = s)
    \/ (exists ev req x, l = [ev] /\ ev_call ev = CCreateVolume req (inr x) /\ e = ErrSDK x)
    \/ (exists id, created id l /\ ends_in_delete id l)
    \/ (exists id, created id l /\ never_deletes l
          /\ LookupEnv (W := W) "OCI_SHORT_REGION" = None
          /\ exists v, vol_LifecycleState v = VolumeAvailable
               /\ Exists (fun ev => ev_call ev = CGetVolume (Some id) (inl v)) l)).
Proof using All.
  eapply post_mono; [by apply Provision_runs|]. intros o s' l Hrun e ->.
  inversion Hrun as [| | | |? ? ? ? ? Ho|? ? ? Hc| |? id ? e0 polls last del reply ? Hc Hid
    |? id ? e0 polls last https ? Hc Hid Hp Hb Hend Henv Hh|]; subst.
  - by left.
  - by left.
  - by destruct Ho as [[? ?]|[? ?]].
  - inversion Hc; subst. right. left. by repeat eexists.
  - right. right. left. exists id. split; [by eapply creates_created|].
    exists (e0 :: polls ++ [last]), del, reply. by simplify_list_eq.
  - right. right. right. exists id. split; [by eapply creates_created|].
    split; [by eapply available_never_deletes|]. split; [done|].
    inversion Hend as [? v' Hpl Hv| | |]; subst. exists v'. split; [done|].
    apply Exists_cons_tl, Exists_app. right. by apply Exists_cons_hd.
Qed.

Definition seen_available (id : string) (l : list event) : Prop :=
  exists v, vol_LifecycleState v = VolumeAvailable
    /\ Exists (fun e => ev_call e = CGetVolume (Some id) (inl v)) l.

(** C4: a successful [Provision] has checked the claim (every access mode is ReadWriteOnce,
    and there is a storage request), has asked for one volume in the chosen availability
    domain and in the compartment of the client, named by the prefix and the claim, of the
    computed size and from the backup that the claim names, has seen that volume available,
    and describes it: its OCID as name and annotation, its domain and region as labels, the
    capacity that belongs to the size, the flexvolume driver with the file system of the
    class, and the policy, modes and mount options asked for. *)
Theorem Provision_success :
  post (Provision fuel block options ad) s (fun o s' l => forall pv, o = Val (Ok pv) ->
    exists pvc capacity adName comp c region id v l',
      vo_PVC options = Some pvc
      /\ Forall (fun m => m = ReadWriteOnce) (pvc_AccessModes pvc)
      /\ pvc_Requests pvc !! ResourceStorage = Some capacity
      /\ ad_Name ad = Some adName
      /\ client_compartment (st_cfg s) = (Val comp, c)
      /\ l = Event (st_now s) (Some (st_now s + client_Timeout))
               (CCreateVolume
                  {| cv_AvailabilityDomain := Some adName;
                     cv_CompartmentId := Some comp;
                     cv_DisplayName := Some (GetPrefix (W := W) +:+ pvc_Name pvc);
                     cv_SizeInMBs :=
                       Some (fst (size_and_capacity block (vo_Parameters options) capacity));
                     cv_SourceBackupId :=
                       pvc_Annotations pvc !! "volume.beta.kubernetes.io/oci-volume-source" |}
                  (inl v)) :: l'
      /\ vol_Id v = Some id /\ seen_available id l'
      /\ (forall r, LookupEnv (W := W) "OCI_SHORT_REGION" = Some r -> region = r)
      /\ pv_Name pv = id
      /\ pv_Annotations pv = Some {["ociVolumeID" := id]}
      /\ gomap_lookup (pv_Labels pv) "failure-domain.beta.kubernetes.io/zone" = Some adName
      /\ gomap_lookup (pv_Labels pv) "failure-domain.beta.kubernetes.io/region" = Some region
      /\ pv_Capacity pv !! ResourceStorage
         = Some (snd (size_and_capacity block (vo_Parameters options) capacity))
      /\ pv_FlexVolume pv
         = Some {| flex_Driver := "oracle/oci";
                   flex_FSType := default "ext4" (vo_Parameters options !! "fsType") |}
      /\ pv_NFS pv = None
      /\ pv_ReclaimPolicy pv = vo_ReclaimPolicy options
      /\ pv_AccessModes pv = pvc_AccessModes pvc
      /\ pv_MountOptions pv = vo_MountOptions options).
Proof using All.
  eapply post_mono; [by apply Provision_runs|]. intros o s' l Hrun pv ->.
  inversion Hrun as [| | | |? ? ? ? ? Ho| | | |
    |v id pvc capacity adName region ? polls last https ? Hc Hid Hvalid Had Hp _ Hend Hr _]; subst.
  { by destruct Ho as [[? ?]|[? ?]]. }
  destruct Hvalid as (Hpvc & Hmodes & Hcap).
  inversion Hc as [pvc' cap' ad' comp c (Hpvc' & _ & Hcap') Had' Hcomp]; subst. simplify_eq.
  exists pvc, capacity, adName, comp, c, region, id, v, (polls ++ last :: https).
  do 2 (split; [done || (apply first_such_None in Hmodes; eapply Forall_impl;
    [exact Hmodes|intros m Hm; by apply negb_false_iff, String.eqb_eq in Hm])|]).
  do 5 (split; [done|]). split.
  { inversion Hend as [? v' Hpl Hv| | |]; subst. exists v'. split; [done|].
    apply Exists_app. right. by apply Exists_cons_hd. }
  split; [intros r Hlr; by apply Hr|]. do 2 (split; [done|]).
  simpl. rewrite lookup_insert_ne, lookup_singleton_eq by done.
  rewrite lookup_insert_eq, lookup_singleton_eq. do 3 (split; [done|]). split; [|done].
  unfold resolveFSType, FSType. by destruct (vo_Parameters options !! _).
Qed.

(** An unusable claim costs nothing: with an access mode other than ReadWriteOnce or
    without a storage request, [Provision] returns an error, makes no call and changes no
    state; the error names the first offending mode. *)
Theorem Provision_validates :
  post (Provision fuel block options ad) s (fun o s' l => forall pvc, vo_PVC options = Some pvc ->
    (forall modes m modes', pvc_AccessModes pvc = modes ++ m :: modes' ->
       Forall (fun x => x = ReadWriteOnce) modes -> m <> ReadWriteOnce ->
       l = [] /\ s' = s
       /\ o = Val (Err (Errorf "invalid access mode %v specified. Only %v is supported"
                          [FStr m; FStr "ReadWriteOnce"])))
    /\ (Forall (fun x => x = ReadWriteOnce) (pvc_AccessModes pvc) ->
        pvc_Requests pvc !! ResourceStorage = None ->
        l = [] /\ s' = s
        /\ o = Val (Err (errors_New "could not determine volume size for PVC")))).
Proof using All.
  assert (forall l, Forall (fun x => x = ReadWriteOnce) l ->
            Forall (fun y => invalid_access_mode y = false) l) as Hmodes.
  { intros l Hl. eapply Forall_impl; [exact Hl|]. by intros ? ->. }
  apply post_of_run. intros o s' l Hrun pvc Hpvc. unfold Provision in Hrun.
  rewrite Hpvc in Hrun. split.
  - intros modes m modes' Heq Hall Hne.
    assert (first_such invalid_access_mode (pvc_AccessModes pvc) = Some m) as Hf.
    { apply first_such_Some. exists modes, modes'. split; [done|]. split; [|by apply Hmodes].
      unfold invalid_access_mode. by apply negb_true_iff, String.eqb_neq. }
    cbn in Hrun. rewrite Hf in Hrun. by injection Hrun as <- <- <-.
  - intros Hall Hreq.
    assert (first_such invalid_access_mode (pvc_AccessModes pvc) = None) as Hf
      by (apply first_such_None; auto).
    cbn in Hrun. rewrite Hf, Hreq in Hrun. by injection Hrun as <- <- <-.
Qed.

(** The number of calls of one [Provision] is bounded by the timeout: at most [timeout
    / 5s + 2] polls, plus the creation, plus one deletion or the calls of the region lookup.
    *)
Theorem Provision_bounded :
  post (Provision fuel block options ad) s (fun o s' l =>
    exists polls rest, l = polls ++ rest
      /\ Z.of_nat (length polls) <= bp_timeout block / (5 * Second) + 3
      /\ ((length rest <= 1)%nat
          \/ Forall (fun e => exists u r, ev_call e = CHttpGet u r) rest)).
Proof using All.
  assert (0 <= bp_timeout block / (5 * Second)) as Hpos
    by (apply Z.div_pos; destruct Hfuel as (? & ? & ?); lia).
  eapply post_mono; [by apply Provision_runs|]. intros o s' l Hrun.
  inversion Hrun as [| | | | |x e ?|v e ?|v id err e polls last del reply ? Hc ? ? Hb
    |v id err e polls last https ? ? ? ? Hb ? ? Hh
    |v id pvc cap adn region e polls last https ? ? ? ? ? ? Hb ? ? Hh]; subst;
    [(exists [], []; split; [done|]; split; [simpl; lia|]; left; simpl; lia)..| | | | |].
  1-2: exists [], [e]; split; [done|]; split; [simpl; lia|]; left; simpl; lia.
  - exists (e :: polls ++ [last]), [del]. split; [by simplify_list_eq|].
    unfold poll_bound in Hb. simpl. rewrite length_app. simpl. split; [lia|]. left. lia.
  - exists (e :: polls ++ [last]), https. split; [by simplify_list_eq|].
    unfold poll_bound in Hb. simpl. rewrite length_app. simpl. split; [lia|]. by right.
  - exists (e :: polls ++ [last]), https. split; [by simplify_list_eq|].
    unfold poll_bound in Hb. simpl. rewrite length_app. simpl. split; [lia|]. by right.
Qed.

(** C33: the cleanup has no time of its own: its context derives from the one started before
    the creation, so that a delete call that is sent once the client's timeout has passed
    since then carries an expired deadline. This is every delete call that follows a
    timed-out wait when the provisioner's timeout is not shorter than the client's (both are
    three minutes). *)
Theorem cleanup_deadline :
  post (Provision fuel block options ad) s (fun o s' l =>
    Forall (fun e => is_delete (ev_call e) = true ->
      (exists d, ev_ctx e = Some d /\ d <= st_now s + client_Timeout)
      /\ (st_now s + client_Timeout <= ev_at e
          \/ o = Val (Err (ErrSentinel wait_ErrWaitTimeout)) /\ client_Timeout <= bp_timeout block ->
          expired (ev_ctx e) (ev_at e) = true)) l).
Proof using All.
  eapply post_mono; [by apply Provision_runs|]. intros o s' l Hrun.
  inversion Hrun as [| | | |? ? ? ? ? Ho|x e ? Hc|v e ? Hc
    |v id err e polls last del reply ? Hc ? Hp Hb Hend Hto Hctx Hdel
    |v id err e polls last https ? Hc ? Hp Hb Hend Henv Hh
    |v id pvc cap adn region e polls last https ? Hc ? ? ? Hp Hb Hend Hr Hh]; subst; try by constructor.
  1-2: constructor; [by inversion Hc|constructor].
  2-3: eapply Forall_impl; [by eapply available_never_deletes|]; simpl; congruence.
  constructor; [by inversion Hc|]. apply Forall_app. split.
  { eapply Forall_impl; [exact Hp|]. by intros ? (? & -> & _). }
  constructor; [by rewrite (wait_end_poll _ _ _ Hend)|].
  constructor; [|constructor]. intros _. rewrite Hctx. unfold create_ctx, with_deadline, expired.
  split; [eexists; split; [done|lia]|]. intros Hlate. apply Z.leb_le.
  destruct Hlate as [?|[[= ->] ?]]; [lia|]. specialize (Hto eq_refl). lia.
Qed.
End Runs.

(** ** Delete *)

Section DeleteRuns.
Context {W : Type} `{Backend W} `{!ProvisionerClient}.

(** The service reports that the volume does not exist. *)
Definition gone (reply : DeleteVolumeReply) : Prop :=
  dv_RawStatus reply = Some 404
  \/ exists c m, dv_err reply = Some (ServiceFailure 404 c m).

Definition delete_run (volume : PersistentVolume) (s : state W)
    (o : outcome (result unit)) (s' : state W) (l : list event) : Prop :=
  match gomap_lookup (pv_Annotations volume) OCIVolumeID with
  | None => o = Val (Err (errors_New "volumeid annotation not found on PV")) /\ l = [] /\ s' = s
  | Some id => exists reply,
      l = [Event (st_now s) (Some (st_now s + client_Timeout)) (CDeleteVolume (Some id) reply)]
      /\ ((o = Val (Ok tt) /\ (dv_err reply = None \/ gone reply))
          \/ (exists x, o = Val (Err (ErrSDK x)) /\ dv_err reply = Some x /\ ~ gone reply))
  end.

Lemma Delete_runs (volume : PersistentVolume) (s : state W) :
  post (Delete volume) s (delete_run volume s).
Proof.
  unfold Delete, delete_run. destruct (gomap_lookup _ _) as [id|]; go; [|done].
  destruct a as [raw err]; simpl.
  destruct (bool_decide_reflect (raw = Some StatusNotFound)) as [->|Hraw]; go.
  { eexists. split; [done|]. left. split; [done|]. right. by left. }
  destruct err as [[st c m|msg]|]; simpl.
  - destruct (Z.eqb_spec st StatusNotFound) as [->|Hst]; go; eexists; (split; [done|]).
    + left. split; [done|]. right. right. by eauto.
    + right. exists (ServiceFailure st c m). split; [done|]. split; [done|].
      unfold gone; simpl. by intros [?|(c' & m' & [=])].
  - go. eexists. split; [done|]. right.
    exists (OtherSDKError msg). split; [done|]. split; [done|].
    unfold gone; simpl. by intros [?|(c' & m' & [=])].
  - go. eexists. split; [done|]. left. auto.
Qed.

Lemma Delete_calls volume id (s : state W) :
  gomap_lookup (pv_Annotations volume) OCIVolumeID = Some id ->
  post (Delete volume) s (fun _ _ l => exists reply,
    l = [Event (st_now s) (Some (st_now s + client_Timeout)) (CDeleteVolume (Some id) reply)]).
Proof.
  intros Hid. eapply post_mono; [apply Delete_runs|]. intros o s' l. unfold delete_run.
  rewrite Hid. intros (reply & -> & _). eauto.
Qed.

(** C29: [Delete] of a volume without the OCID annotation is an error without any call;
    otherwise it is one delete request for the annotated OCID, within the client's timeout.
    It succeeds exactly when the request did or the volume is already gone, and any other
    failure is returned as it is. *)
Theorem Delete_spec (volume : PersistentVolume) (s : state W) :
  post (Delete volume) s (fun o s' l =>
    match gomap_lookup (pv_Annotations volume) "ociVolumeID" with
    | None => o = Val (Err (errors_New "volumeid annotation not found on PV")) /\ l = [] /\ s' = s
    | Some id => exists reply,
        l = [Event (st_now s) (Some (st_now s + client_Timeout)) (CDeleteVolume (Some id) reply)]
        /\ ((o = Val (Ok tt) /\ (dv_err reply = None \/ gone reply))
            \/ (exists x, o = Val (Err (ErrSDK x)) /\ dv_err reply = Some x /\ ~ gone reply))
    end).
Proof. exact (Delete_runs volume s). Qed.
End DeleteRuns.

(** ** Sizes *)

(** C28: the size asked for covers the claim: with a non-negative request and minimum that,
    in bytes and rounded up to whole MiB in int64 arithmetic, stay within an int64 (at most
    the largest int64 less 1 MiB and plus one byte; beyond it the addition wraps around, the
    finding at block.go:100), the requested number of MiB is the smallest that holds the
    recorded capacity, that capacity is at least the request and, when neither the class nor
    the provisioner has switched rounding off, at least the minimum; it is never more than
    the larger of the two, and exactly the request when rounding is off. *)
Theorem size_covers block param capacity :
  sizes_fit capacity -> sizes_fit (bp_minVolumeSize block) ->
  let '(mb, cap) := size_and_capacity block param capacity in
  (mb - 1) * 1048576 < exact_ceil cap <= mb * 1048576
  /\ exact_ceil capacity <= exact_ceil cap
  /\ (volumeRoundingEnabled param = true -> bp_volumeRoundingEnabled block = true ->
        exact_ceil cap = Z.max (exact_ceil capacity) (exact_ceil (bp_minVolumeSize block)))
  /\ (volumeRoundingEnabled param = false \/ bp_volumeRoundingEnabled block = false ->
        cap = capacity).
Proof.
  intros Hc Hm. pose proof (size_and_capacity_spec block param capacity Hc Hm) as Hs.
  destruct (size_and_capacity block param capacity) as [mb cap].
  destruct Hs as (-> & Hcap & Hfit).
  assert (0 <= exact_ceil cap) as Hpos by (destruct Hfit; auto with quantity).
  pose proof (Cmp_exact _ _ (proj1 Hm) (proj1 Hc)) as Hcmp.
  pose proof (dec_Cmp_ceil (quantity_AsDec (bp_minVolumeSize block)) (quantity_AsDec capacity))
    as [Hge Hle].
  rewrite <- Hcmp in Hge, Hle. unfold rounding_applies in Hcap. fold (exact_ceil capacity) in *.
  fold (exact_ceil (bp_minVolumeSize block)) in *.
  split; [|split; [|split]].
  - rewrite ceil_div_spec by done. change MiB with 1048576.
    pose proof (Z.div_mod (exact_ceil cap) 1048576 ltac:(lia)).
    pose proof (Z.mod_pos_bound (exact_ceil cap) 1048576 ltac:(lia)).
    destruct (Z.eqb_spec (exact_ceil cap mod 1048576) 0); lia.
  - revert Hcap. destruct (volumeRoundingEnabled param && bp_volumeRoundingEnabled block),
      (Z.eqb_spec (fst (Cmp (bp_minVolumeSize block) capacity)) 1);
      simpl; [intros ->; auto|intros ->; lia..].
  - intros Hv Hb. revert Hcap. rewrite Hv, Hb.
    destruct (Z.eqb_spec (fst (Cmp (bp_minVolumeSize block) capacity)) 1) as [e|n]; simpl;
      intros ->; [specialize (Hge e)|specialize (Hle n)]; lia.
  - by intros [Hv|Hb]; revert Hcap; rewrite ?Hv, ?Hb, ?andb_false_r.
Qed.

(** [roundUpSize] on int64: for a non-negative number of bytes and a MiB unit it is
    exactly the ceiling of the quotient as long as the intermediate sum fits an int64, and
    for the largest MiB - 1 values, where the sum wraps around, it is negative. *)
Theorem roundUpSize_int64 v :
  0 <= v <= MaxInt64 ->
  if v <=? MaxInt64 - 1048575
  then roundUpSize v 1048576 = ceil_div v 1048576
  else roundUpSize v 1048576 < 0.
Proof.
  intros Hv. destruct (Z.leb_spec v (MaxInt64 - 1048575)).
  - apply roundUpSize_exact; lia.
  - rewrite roundUpSize_wrap, wrap64_above by (unfold_int; lia).
    rewrite div64_pos by (unfold_int; lia).
    replace (v + 1048576 - 1 - two64) with (- (two64 - v - 1048575)) by lia.
    rewrite Z.quot_opp_l by lia. rewrite Z.quot_div_nonneg by (unfold_int; lia).
    assert (1 <= (two64 - v - 1048575) / 1048576); [|lia].
    apply Z.div_le_lower_bound; unfold_int; lia.
Qed.

(** Rounding up is on unless the storage class switches it off with one of the six
    spellings of false; a value that is not a boolean is ignored. *)
Theorem volumeRoundingEnabled_spec param :
  volumeRoundingEnabled param = false <->
  exists v, param !! "volumeRoundingUpEnabled" = Some v
    /\ v ∈ ["0"; "f"; "F"; "false"; "FALSE"; "False"].
Proof.
  unfold volumeRoundingEnabled. change "volumeRoundingUpEnabled"%string with volumeRoundingUpEnabled.
  destruct (param !! volumeRoundingUpEnabled) as [v|]; [|split; [done|by intros (? & ? & _)]].
  unfold ParseBool. case_bool.
  - split; [done|]. intros (v' & [= <-] & Hin).
    assert (Forall (fun v => v ∉ ["1"; "t"; "T"; "true"; "TRUE"; "True"])
              ["0"; "f"; "F"; "false"; "FALSE"; "False"]) as Hdisj
      by (eapply bool_decide_unpack; by vm_compute).
    rewrite Forall_forall in Hdisj. by destruct (Hdisj v Hin).
  - case_bool; simpl; [split; eauto|]. split; [done|]. by intros (v' & [= <-] & Hin).
Qed.

(** ** The contract with core *)

Section Contract.
Context {W : Type} `{Backend W} `{!ProvisionerClient} `{!ProvisionerClientOk}.
Context `{!InstanceMeta W} `{!InstanceMetaOk W}.
Context (fuel : nat) (block : blockProvisioner).

Context (Hfuel : enough_fuel fuel (5 * Second) (bp_timeout block)).

#[local] Instance block_Plugin : ProvisionerPlugin W :=
  {| plugin_Provision := Provision fuel block; plugin_Delete := Delete |}.

Lemma block_Provision_timed options ad : upholds (Provision fuel block options ad) timed.
Proof using All.
  unfold Provision, block_region. upholds_tac; auto using meta_timed, wait_timed with upholds.
Qed.

(** The block provisioner keeps what core relies on. *)
#[local] Instance block_contract : PluginContract W.
Proof using All.
  split; simpl.
  - apply block_Provision_timed.
  - intros pv. unfold Delete. upholds_tac.
  - intros opts ad s. eapply post_mono; [by apply Provision_runs|].
    intros o s' l Hrun pv ->. inversion Hrun as [| | | |? ? ? ? ? Ho| | | | |]; subst; [|eauto].
    by destruct Ho as [[? ?]|[? ?]].
  - intros opts ad s. eapply post_mono; [by apply Provision_runs|].
    intros o s' l (ph & _ & Hfin)%run_psteps ->. by destruct ph.
  - intros pv s. unfold Delete. destruct (gomap_lookup _ _); go; [|eauto].
    destruct a as [raw err]; simpl. case_bool; go; [eauto|].
    destruct (IsNotFound _); go; [eauto|]. destruct err; simpl; go; eauto.
  - intros pv pv' s Hsame. unfold Delete.
    assert (same_annotation OCIVolumeID pv pv') as -> by (apply Hsame; eapply bool_decide_unpack; by vm_compute).
    done.
Qed.
End Contract.
