(* ===== verification/BlockLive.v ===== *)
(** * When the block-volume provisioner succeeds

    The other half of its contract: if the volume service keeps its promise, a valid claim
    gets its volume.  The promise is the class [PromptVolumes]: calls within their deadline
    are answered within [latency], creation gives a volume, and that volume is available at
    the latest [boot] after it was created. *)

From S2P Require Import Prelude GoStrings Errors Quantity Objects Config Effects Logic Wait Plugin Block.
From S2P Require BlockSpec.

Open Scope Z_scope.

(** [prompt w]: the service is in order; [available_by w id T]: the volume [id] exists and is
    available from [T] on, if not before. *)
Class PromptVolumes (W : Type) `{Backend W} (boot latency : Z) := {
  prompt : W -> Prop;
  available_by : W -> string -> Z -> Prop;
  prompt_create : forall c r t w a d w',
    prompt w -> expired c t = false -> bs_CreateVolume c r t w = (a, d, w') ->
    Z.of_N d <= latency
    /\ exists v id, a = inl v /\ vol_Id v = Some id /\ available_by w' id (t + Z.of_N d + boot);
  prompt_get : forall c id T t w a d w',
    available_by w id T -> expired c t = false -> bs_GetVolume c (Some id) t w = (a, d, w') ->
    Z.of_N d <= latency /\ available_by w' id T
    /\ exists v, a = inl v
         /\ (vol_LifecycleState v = VolumeAvailable
             \/ volume_state (vol_LifecycleState v) = Ok false /\ t < T);
  prompt_select : forall w id T, available_by w id T -> available_by (snd (host_select w)) id T
}.

Section Live.
Context {W : Type} `{Backend W} `{!ProvisionerClient} `{!ProvisionerClientOk}.
Context `{!InstanceMeta W} `{!InstanceMetaOk W} (boot latency : Z) `{!PromptVolumes W boot latency}.

Lemma prompt_picked w w' id T : picked w w' -> available_by w id T -> available_by w' id T.
Proof. intros [->| ->]; [done|apply prompt_select]. Qed.

(** The run of the wait so far: only looks, no later than [limit]. *)
Definition waiting_well (id : string) (T limit : Z) (k : nat) (u : unit) (s : state W)
    (l : list event) : Prop :=
  available_by (st_world s) id T /\ st_now s <= limit /\ BlockSpec.never_deletes l.

Definition waited_well (limit : Z) (cfg : option Config) (o : outcome (unit * result unit))
    (s : state W) (l : list event) : Prop :=
  o = Val (tt, Ok tt) /\ st_now s <= limit + latency /\ BlockSpec.never_deletes l.

Lemma expired_before c t d : c = Some d -> t < d -> expired c t = false.
Proof. intros -> Ht. simpl. by apply Z.leb_gt. Qed.

Lemma live_wait fuel c deadline id T timeout limit (s : state W) :
  enough_fuel fuel (5 * Second) timeout -> c = Some deadline ->
  available_by (st_world s) id T -> st_now s <= limit ->
  T + latency + 5 * Second <= limit -> limit < deadline -> 0 < client_Timeout ->
  T <= st_now s + timeout ->
  post (waitForVolumeAvailable fuel c (Some id) timeout) s (fun o s' l =>
    o = Val (Ok tt) /\ st_now s' <= limit + latency /\ BlockSpec.never_deletes l).
Proof.
  intros Hf Hc Hav Hnow Hlimit Hdl Hct HT. unfold waitForVolumeAvailable. go.
  pose proof Hf as (_ & Hpos & _).
  eapply post_mono; [apply (post_PollImmediate (volume_condition c (Some id)) (5 * Second) timeout)
    with (I := waiting_well id T limit) (Q := waited_well limit (st_cfg s))|].
  - unfold Second. lia.
  - done.
  - intros. apply volume_condition_timed.
  - intros k [] s1 l (Hav1 & Hnow1 & Hl). unfold volume_condition, isVolumeReady. go.
    assert (expired (with_deadline c (st_now s1 + client_Timeout)) (st_now s1) = false) as Hexp.
    { subst c. simpl. apply Z.leb_gt. lia. }
    destruct (prompt_get _ _ _ _ _ _ _ _ Hav1 Hexp Hop) as (Hd & Hav2 & v & -> & Hv). go.
    assert (BlockSpec.never_deletes (l ++ [Event (st_now s1) (with_deadline c (st_now s1 + client_Timeout))
      (CGetVolume (Some id) (inl v))])) as Hl'.
    { apply Forall_app. split; [done|]. by repeat constructor. }
    destruct Hv as [Hv|[Hv Hlt]].
    + rewrite (proj2 (volume_state_ready _) Hv). go. simpl.
      split; [done|]. split; [simpl; lia|done].
    + rewrite Hv. go. simpl. split.
      * intros k' t w' _ Ht Hw. split; [by eapply prompt_picked|]. split; [simpl in *; lia|done].
      * intros Hel. lia.
  - done.
  - split; [done|]. split; [done|constructor].
  - intros o s' l (-> & Hs' & Hl). go. simpl. rewrite app_nil_r. auto.
Qed.

(** The region is set in the environment, or the metadata service gives it in time. *)
Definition region_known (region : string) : Prop :=
  match LookupEnv (W := W) "OCI_SHORT_REGION" with
  | Some r => r = region
  | None => forall s : state W, post meta_Get s (fun o s' _ =>
      (exists md, o = Val (Ok md) /\ md_Region md = region) /\ st_now s' <= st_now s + latency)
  end.

Lemma live_region region (s : state W) :
  0 <= latency -> region_known region ->
  post block_region s (fun o s' l => o = Val (Ok region) /\ st_now s' <= st_now s + latency
    /\ BlockSpec.never_deletes l).
Proof using All.
  unfold region_known, block_region, BlockSpec.never_deletes. intros Hlat Hreg.
  destruct (LookupEnv _) as [r|]; [subst; go; split; [done|split; [lia|constructor]]|]. go.
  eapply post_mono; [apply post_and; [apply meta_only_http|apply Hreg]|].
  intros o s' l (Hl & (md & -> & <-) & Ht). go. split; [done|]. split; [lia|]. rewrite app_nil_r.
  eapply Forall_impl; [exact Hl|]. by intros e (u & r & ->).
Qed.

(** C8: liveness: a claim that is valid gets its volume, if the services keep their promises
    and are fast enough: when a volume is available by [boot] after its creation, every call
    of the volume service takes at most [latency], these fit into the timeouts of the
    provisioner and the client, the compartment is known, and the region is set in
    OCI_SHORT_REGION or else the metadata service gives it within [latency], then
    [Provision] returns the volume, deletes nothing, and is back at the latest five seconds
    and four calls after the volume is available. (If the region is not set and the metadata
    service fails, [Provision] fails: [BlockSpec.Provision_failure].) *)
Theorem Provision_succeeds fuel block options ad pvc capacity adName comp cfg region (s : state W) :
  enough_fuel fuel (5 * Second) (bp_timeout block) ->
  vo_PVC options = Some pvc -> Forall (fun m => m = ReadWriteOnce) (pvc_AccessModes pvc) ->
  pvc_Requests pvc !! ResourceStorage = Some capacity -> ad_Name ad = Some adName ->
  client_compartment (st_cfg s) = (Val comp, cfg) ->
  region_known region ->
  0 <= boot -> 0 <= latency -> prompt (st_world s) ->
  boot + latency <= bp_timeout block -> boot + 2 * latency + 5 * Second < client_Timeout ->
  post (Provision fuel block options ad) s (fun o s' l => exists id,
    o = Val (Ok (volume_pv options pvc id region adName (resolveFSType options)
                   (snd (size_and_capacity block (vo_Parameters options) capacity))))
    /\ BlockSpec.created id l /\ BlockSpec.never_deletes l
    /\ st_now s' <= st_now s + boot + 4 * latency + 5 * Second).
Proof using All.
  intros Hf Hpvc Hmodes Hcap Had Hcomp Henv Hb Hlat Hprompt Hwait Hctx.
  assert (0 < 5 * Second) as Hsec by done.
  unfold Provision. rewrite Hpvc. go.
  assert (first_such invalid_access_mode (pvc_AccessModes pvc) = None) as ->.
  { apply first_such_None. eapply Forall_impl; [exact Hmodes|]. by intros ? ->. }
  rewrite Hcap, Had. go. destruct (size_and_capacity _ _ _) as [mb cap]. go.
  apply post_CompartmentOCID. intros o c' Hc. rewrite Hcomp in Hc. injection Hc as <- <-. go.
  assert (expired (with_deadline Background (st_now s + client_Timeout)) (st_now s) = false) as Hexp
    by (apply Z.leb_gt; lia).
  destruct (prompt_create _ _ _ _ _ _ _ Hprompt Hexp Hop) as (Hd & v & id & -> & Hid & Hav). go.
  rewrite Hid. go.
  eapply post_mono; [eapply (live_wait _ _ (st_now s + client_Timeout) _ _ _
    (st_now s + boot + 2 * latency + 5 * Second)); [done|done|exact Hav|cbn [st_now]; lia..]|].
  intros o s1 l1 (-> & Hs1 & Hl1). go. eapply post_mono; [by apply live_region|].
  intros o s2 l2 (-> & Hs2 & Hl2). go. simpl.
  exists id. split; [done|]. split; [by do 4 eexists|]. split; [|lia].
  constructor; [done|]. rewrite app_nil_r. by apply Forall_app.
Qed.
End Live.
