(* ===== verification/Store.v ===== *)
(** * The block provisioner as an abstract store of volumes

    What the controller may think the provisioner is: a set of OCIDs, to which a successful
    [Provision] adds a new one, from which a successful [Delete] removes one, and which no
    failed operation changes, except where the provisioner cannot keep that promise: a
    volume may stay behind when its creation or its deletion was answered by an error, or
    when only the lookup of the region failed, and a deletion that was answered with a 404 is
    reported as a success, whatever the 404 meant.

    The link to the services is the class [VolumeStore], which says what the calls of the
    volume service do to the set of volumes. A request that is answered by an error may have
    been executed (the comment of [OpcRetryToken] in the SDK); a 404 says nothing about the
    volume (the comment at block.go:270).  The set after a run is the set before it, changed
    by the calls of its log in a way that these laws allow. *)

From S2P Require Import Prelude GoStrings Errors Quantity Objects Config Effects Logic Wait Plugin Block.
From S2P Require BlockSpec.

Open Scope Z_scope.

(** ** The services *)

(** What a request may have done when its reply does not say so. *)
Definition may_make (S S' : gset string) : Prop :=
  S' = S \/ exists id, (id ∉ S) /\ S' = {[id]} ∪ S.
Definition may_delete (id : string) (S S' : gset string) : Prop := S' = S \/ S' = S ∖ {[id]}.

(** What a call does to the set, and what its reply says about it. *)
Definition effect (S : gset string) (k : call) (S' : gset string) : Prop :=
  match k with
  | CCreateVolume _ (inl {| vol_Id := Some id |}) => (id ∉ S) /\ S' = {[id]} ∪ S
  | CCreateVolume _ _ => may_make S S'
  | CDeleteVolume (Some id) reply =>
      match dv_err reply with None => S' = S ∖ {[id]} | Some _ => may_delete id S S' end
  | _ => S' = S
  end.
Abbreviation effects := (along effect).

Class VolumeStore (W : Type) `{Backend W} := {
  vols : W -> gset string;
  store_create : forall c r t w a d w',
    bs_CreateVolume c r t w = (a, d, w') -> effect (vols w) (CCreateVolume r a) (vols w');
  store_get : forall c id t w a d w', bs_GetVolume c id t w = (a, d, w') -> vols w' = vols w;
  store_delete : forall c id t w a d w',
    bs_DeleteVolume c id t w = (a, d, w') -> effect (vols w) (CDeleteVolume id a) (vols w');
  store_select : forall w, vols (snd (host_select w)) = vols w;
  store_http : forall u t w a d w', host_HttpGet u t w = (a, d, w') -> vols w' = vols w
}.

(** Calls that leave the set alone. *)
Definition inert (e : event) : Prop := forall S S', effect S (ev_call e) S' -> S' = S.

Section Store.
Context {W : Type} `{Backend W} `{!ProvisionerClient} `{!ProvisionerClientOk}.
Context `{!InstanceMeta W} `{!InstanceMetaOk W} `{!VolumeStore W}.

(** The set of volumes follows the log. *)
Definition follows : trel := fun s s' l =>
  effects (vols (st_world s)) l (vols (st_world s')).

#[local] Instance follows_TraceRel : TraceRel follows.
Proof.
  split; [done|]. intros s1 s2 s3 l1 l2. apply along_app.
Qed.

Context (meta_follows : upholds meta_Get follows).

Lemma follows_advance t : upholds (advance_to t) follows.
Proof. intros s. by apply post_advance_to. Qed.

Lemma follows_select : upholds (choose host_select) follows.
Proof using All.
  intros s. apply post_choose. intros b w Hw. unfold follows; simpl.
  pose proof (store_select (st_world s)) as Hs. by rewrite Hw in Hs.
Qed.

Lemma follows_CreateVolume c r : upholds (CreateVolume c r) follows.
Proof using All.
  intros s. go. apply store_create in Hop. unfold follows; simpl. eauto.
Qed.

Lemma follows_GetVolume c id : upholds (GetVolume c id) follows.
Proof using All. intros s. go. apply store_get in Hop. unfold follows; simpl. eauto. Qed.

Lemma follows_DeleteVolume c id : upholds (DeleteVolume c id) follows.
Proof using All. intros s. go. apply store_delete in Hop. unfold follows; simpl. eauto. Qed.

Lemma follows_CompartmentOCID : upholds CompartmentOCID_ follows.
Proof. intros s. by apply post_CompartmentOCID. Qed.
#[local] Hint Resolve follows_advance follows_select follows_CreateVolume follows_GetVolume
  follows_DeleteVolume follows_CompartmentOCID : upholds.

(** The calls of a computation, by structure. *)
Ltac follow := repeat
  match goal with
  | |- upholds (match ?x with _ => _ end) _ => destruct x
  | |- upholds _ _ => solve [auto with upholds typeclass_instances nocore]
  | |- upholds (bind _ _) _ => apply upholds_bind; [apply _| |intros]
  | |- upholds (bind_ok _ _) _ => apply upholds_bind_ok; [apply _| |intros]
  end.

Lemma follows_wait fuel c id T : upholds (waitForVolumeAvailable fuel c id T) follows.
Proof using All.
  unfold waitForVolumeAvailable. apply upholds_bind; [apply _| |intros; follow].
  apply upholds_PollImmediate; [apply _|apply follows_advance|apply follows_select|].
  intros x. unfold volume_condition, isVolumeReady. follow.
Qed.

Lemma follows_Provision fuel block options ad : upholds (Provision fuel block options ad) follows.
Proof using All.
  unfold Provision, block_region. follow. all: try apply follows_wait. all: follow.
Qed.

Lemma follows_Delete volume : upholds (Delete volume) follows.
Proof using All. unfold Delete. follow. Qed.

Lemma not_found_gone a : IsNotFound (ErrSDK <$> dv_err a) = true ->
  exists c m, dv_err a = Some (ServiceFailure 404 c m).
Proof.
  destruct (dv_err a) as [[st c m|msg]|]; simpl; [|done|done].
  intros ->%Z.eqb_eq. by exists c, m.
Qed.

(** ** The abstract store *)

(** Why a volume [id] may stay behind: its deletion was answered by an error, or the creation
    was, or the region had to be looked up. *)
Definition leaks (l : list event) (id : string) : Prop :=
  Exists (fun d => exists reply, ev_call d = CDeleteVolume (Some id) reply /\ dv_err reply <> None) l
  \/ Exists (fun e => exists req x, ev_call e = CCreateVolume req (inr x)) l
  \/ LookupEnv (W := W) "OCI_SHORT_REGION" = None.

(** Why it may be there after a deletion that was reported as a success: for a 404. *)
Definition denied (l : list event) (id : string) : Prop :=
  Exists (fun d => exists reply, ev_call d = CDeleteVolume (Some id) reply /\ BlockSpec.gone reply) l.

(** [l] are the calls of the operation. *)
Inductive provision_spec (l : list event) (S : gset string) :
  result PersistentVolume -> gset string -> Prop :=
| spec_provisioned pv :
    (pv_Name pv ∉ S) -> gomap_lookup (pv_Annotations pv) "ociVolumeID" = Some (pv_Name pv) ->
    provision_spec l S (Ok pv) ({[pv_Name pv]} ∪ S)
| spec_failed e : provision_spec l S (Err e) S
| spec_leaked e id :
    (id ∉ S) -> leaks l id -> provision_spec l S (Err e) ({[id]} ∪ S).

Inductive delete_spec (l : list event) (S : gset string) (pv : PersistentVolume) :
  result unit -> gset string -> Prop :=
| spec_deleted id :
    gomap_lookup (pv_Annotations pv) "ociVolumeID" = Some id ->
    delete_spec l S pv (Ok tt) (S ∖ {[id]})
| spec_denied id :
    gomap_lookup (pv_Annotations pv) "ociVolumeID" = Some id -> denied l id ->
    delete_spec l S pv (Ok tt) S
| spec_delete_failed id e S' :
    gomap_lookup (pv_Annotations pv) "ociVolumeID" = Some id -> may_delete id S S' ->
    delete_spec l S pv (Err e) S'
| spec_no_volume e : delete_spec l S pv (Err e) S.

Lemma pending_inert id l : Forall (pending id) l -> Forall inert l.
Proof. intros Hl. eapply Forall_impl; [exact Hl|]. intros e (v & He & _) S S'. by rewrite He. Qed.

Lemma wait_end_inert id r e : wait_end id r e -> inert e.
Proof.
  intros Hend S S'.
  inversion Hend as [? ? Hp|? ? ? Hp|? ? Hp|? (? & Hp & _)]; subst; by rewrite Hp.
Qed.

Lemma http_inert l : Forall (fun e => exists u r, ev_call e = CHttpGet u r) l -> Forall inert l.
Proof. intros Hl. eapply Forall_impl; [exact Hl|]. intros e (u & r & He) S S'. by rewrite He. Qed.

(** A run that creates the volume [id] and then only looks at it. *)
Lemma effects_created block options ad (s : state W) v id e polls last r tail S S' :
  BlockSpec.creates block options ad s (inl v) e -> vol_Id v = Some id ->
  Forall (pending id) polls -> wait_end id r last ->
  effects S (e :: polls ++ last :: tail) S' ->
  (id ∉ S) /\ effects ({[id]} ∪ S) tail S'.
Proof.
  intros Hc Hid Hp Hend. replace (polls ++ last :: tail) with ((polls ++ [last]) ++ tail)
    by by simplify_list_eq.
  intros (S1 & He & (S2 & Hl & Htail)%along_app_inv).
  assert (Forall inert (polls ++ [last])) as Hin.
  { apply Forall_app. split; [by eapply pending_inert|]. constructor; [by eapply wait_end_inert|constructor]. }
  apply (along_inert _ _ _ _ Hin) in Hl as ->.
  inversion Hc; subst. simpl in He. destruct v as [? ?]. simpl in Hid. subst. destruct He as [Hnew ->]. done.
Qed.

(** What the deletion after a failure leaves. *)
Lemma cleaned_up id l d reply e S S' :
  (id ∉ S) -> d ∈ l -> ev_call d = CDeleteVolume (Some id) reply ->
  effect ({[id]} ∪ S) (ev_call d) S' -> provision_spec l S (Err e) S'.
Proof.
  intros Hnew Hd Hdel Heff. rewrite Hdel in Heff. simpl in Heff.
  assert (({[id]} ∪ S) ∖ {[id]} = S) as Hback by set_solver.
  destruct (dv_err reply) as [x|] eqn:Herr; [|subst; rewrite Hback; constructor].
  destruct Heff as [->| ->]; [|rewrite Hback; constructor].
  apply spec_leaked; [done|]. left. apply Exists_exists. exists d. split; [done|].
  exists reply. by rewrite Herr.
Qed.

Lemma run_refines fuel block options ad (s s' : state W) r l :
  enough_fuel fuel (5 * Second) (bp_timeout block) ->
  Provision fuel block options ad s = (Val r, s', l) ->
  provision_spec l (vols (st_world s)) r (vols (st_world s')).
Proof using All.
  intros Hf Hrun. pose proof (post_run _ _ _ _ _ _ (follows_Provision fuel block options ad s) Hrun) as Heff.
  pose proof (post_run _ _ _ _ _ _ (BlockSpec.Provision_runs fuel block options ad s Hf) Hrun) as Hr.
  unfold follows in Heff. remember (vols (st_world s')) as S' eqn:HS'.
  inversion Hr as [| | | |? ? ? ? ? Ho|x e ? Hc| |v id err e polls last del reply ? Hc Hid Hp _ Hend _ _ Hdel
    |v id err e polls last https ? Hc Hid Hp _ Hend Henv Hh
    |v id pvc cap adn region e polls last https ? Hc Hid ? ? Hp _ Hend Hreg Hh]; subst;
    try solve [simpl in Heff; subst; constructor]; try (by destruct Ho as [[? ?]|[? ?]]).
  - inversion Hc; subst. destruct Heff as (S1 & [->|(id & Hnew & ->)] & ->); [constructor|].
    apply spec_leaked; [done|]. right. left. apply Exists_cons_hd. by do 2 eexists.
  - destruct (effects_created _ _ _ _ _ _ _ _ _ _ _ _ _ Hc Hid Hp Hend Heff) as (Hnew & S1 & Htail & ->).
    eapply cleaned_up; [done| |done..]. set_solver.
  - destruct (effects_created _ _ _ _ _ _ _ _ _ _ _ _ _ Hc Hid Hp Hend Heff) as [Hnew Htail].
    apply (along_inert _ _ _ _ (http_inert _ Hh)) in Htail as ->.
    apply spec_leaked; [done|by right; right].
  - destruct (effects_created _ _ _ _ _ _ _ _ _ _ _ _ _ Hc Hid Hp Hend Heff) as [Hnew Htail].
    apply (along_inert _ _ _ _ (http_inert _ Hh)) in Htail as ->.
    apply (spec_provisioned _ _ (volume_pv _ _ id _ _ _ _)); [done|]. by simpl.
Qed.

Lemma delete_refines volume (s : state W) :
  post (Delete volume) s (fun o s' l => forall r, o = Val r ->
    delete_spec l (vols (st_world s)) volume r (vols (st_world s'))).
Proof using All.
  unfold Delete. destruct (gomap_lookup _ _) as [id|] eqn:Hid; go.
  2: { intros r [= <-]. by apply spec_no_volume. }
  pose proof (store_delete _ _ _ _ _ _ _ Hop) as Hdel. simpl in Hdel.
  assert (forall l e, e ∈ l -> ev_call e = CDeleteVolume (Some id) a -> BlockSpec.gone a ->
    delete_spec l (vols (st_world s)) volume (Ok tt) (vols w)) as Hg.
  { intros l e He Hc Hg. destruct (dv_err a); [destruct Hdel as [->| ->]|rewrite Hdel]; [|by constructor..].
    apply (spec_denied _ _ _ id); [done|]. apply Exists_exists. exists e. split; [done|].
    by exists a. }
  case_bool_decide as Hraw; go; [intros r [= <-]; eapply Hg; [by left|done|by left]|].
  destruct (IsNotFound _) eqn:Hnf; go.
  { intros r [= <-]. eapply Hg; [by left|done|right; by apply not_found_gone]. }
  destruct (dv_err a) as [x|]; simpl; go; intros r [= <-]; [by eapply spec_delete_failed|].
  rewrite Hdel. by constructor.
Qed.

(** ** Sequences of operations *)

Inductive command : Type :=
| CmdProvision (options : VolumeOptions) (ad : AvailabilityDomain)
| CmdDelete (volume : PersistentVolume).

Inductive response : Type :=
| RProvision (r : result PersistentVolume)
| RDelete (r : result unit).

Context (fuel : nat) (block : blockProvisioner).
Context (Hfuel : enough_fuel fuel (5 * Second) (bp_timeout block)).

Definition do_command (c : command) : M W response :=
  match c with
  | CmdProvision options ad => let* r := Provision fuel block options ad in ret (RProvision r)
  | CmdDelete volume => let* r := Delete volume in ret (RDelete r)
  end.

Inductive store_step (l : list event) (S : gset string) :
  command -> response -> gset string -> Prop :=
| step_provision options ad r S' :
    provision_spec l S r S' -> store_step l S (CmdProvision options ad) (RProvision r) S'
| step_delete volume r S' :
    delete_spec l S volume r S' -> store_step l S (CmdDelete volume) (RDelete r) S'.

(** The steps of a sequence of operations, each with the part of the log that is its own. *)
Inductive store_run : gset string -> list command -> list response -> list event -> gset string -> Prop :=
| run_done S : store_run S [] [] [] S
| run_next S c r l S' cs rs l' S'' :
    store_step l S c r S' -> store_run S' cs rs l' S'' ->
    store_run S (c :: cs) (r :: rs) (l ++ l') S''.

Lemma command_refines c (s s' : state W) r l :
  do_command c s = (Val r, s', l) ->
  store_step l (vols (st_world s)) c r (vols (st_world s')).
Proof using All.
  destruct c as [options ad|volume]; simpl; intros (r0 & s1 & l1 & l2 & Hrun & [= <- <- <-] & ->)%bind_Val;
    rewrite app_nil_r; constructor.
  - by eapply run_refines.
  - by eapply (post_run _ _ _ _ _ _ (delete_refines volume s)).
Qed.

Lemma commands_refine cmds (s : state W) :
  post (mapM do_command cmds) s (fun o s' l => forall rs, o = Val rs ->
    store_run (vols (st_world s)) cmds rs l (vols (st_world s'))).
Proof using All.
  apply post_of_run. intros o s' l Hrun rs ->. revert s l rs Hrun.
  induction cmds as [|c cmds IH]; intros s l rs; simpl; [intros [= <- <- <-]; constructor|].
  intros (r & s1 & l1 & l2 & Hc & (rs' & s2 & l3 & l4 & Hcs & [= <- <- <-] & ->)%bind_Val & ->)%bind_Val.
  rewrite app_nil_r. econstructor; [by apply command_refines|by apply IH].
Qed.

(** C7: the block provisioner refines the abstract store: over any sequence of operations,
    against a volume service of which a request that is answered by an error may have been
    executed and a 404 says nothing, the set of volumes in the cloud goes through the steps
    of the store: a provisioned volume is new and is added; a [Provision] that fails changes
    nothing, or leaves one new volume behind if the creation or the deletion after the
    failure was answered by an error or the region had to be looked up; a [Delete] that
    succeeds removes the volume that the PV names, which may stay only if the answer was a
    404; and one that fails removes at most that volume. *)
Theorem store_refinement cmds (s : state W) :
  post (mapM do_command cmds) s (fun o s' l => forall rs, o = Val rs ->
    store_run (vols (st_world s)) cmds rs l (vols (st_world s'))).
Proof using All. apply commands_refine. Qed.










End Store.
