(* ===== verification/Fss.v ===== *)
(** * The file-storage provisioner: pkg/provisioner/fss/fss.go

    [Provision] needs an active mount target, then finds or creates the file system and the
    export of the claim and waits for each; [Delete] deletes the export and then the file
    system, either of which may already be gone.  All its calls use the background context,
    so nothing but the five-minute polls bounds it; the paging of [findExport] is unbounded
    and takes fuel. *)

From S2P Require Import Prelude GoStrings Errors Quantity Objects Config Effects Logic Wait Plugin.

(** ** Constants *)

Definition ociVolumeID : string := "volume.beta.kubernetes.io/oci-volume-id".
Definition ociExportID : string := "volume.beta.kubernetes.io/oci-export-id".
Definition AnnotationMountTargetID : string := "volume.beta.kubernetes.io/oci-mount-target-id".
Definition MntTargetID : string := "mntTargetId".

Definition defaultTimeout : Z := 5 * Minute.
Definition defaultInterval : Z := 5 * Second.

(** 61 exceeds the 60 intervals of the timeout. *)
Definition poll_fuel : nat := 61.

Record filesystemProvisioner : Type := { fsp_region : string }.

(** ** Pure helpers *)

Definition getMountTargetID (opts : VolumeOptions) : string :=
  let mtID := match vo_PVC opts with
              | Some pvc => read_or_empty (pvc_Annotations pvc) AnnotationMountTargetID
              | None => EmptyString
              end in
  if negb (is_empty mtID) then mtID else read_or_empty (vo_Parameters opts) MntTargetID.

Fixpoint isReadOnly (modes : list string) : bool :=
  match modes with
  | [] => true
  | mode :: modes =>
      if String.eqb mode ReadWriteMany || String.eqb mode ReadWriteOnce then false
      else isReadOnly modes
  end.

(** The exports that [findExport] accepts. *)
Definition live_export (export : ExportSummary) : bool :=
  String.eqb (es_LifecycleState export) FssCreating
  || String.eqb (es_LifecycleState export) FssActive.

Section Fss.
Context {W : Type} `{Backend W} `{ProvisionerClient}.

Definition NewFilesystemProvisioner (region : string) : M W filesystemProvisioner :=
  let* _ := CompartmentOCID_ in ret {| fsp_region := region |}.

(** ** Waiting

    The three waits have one shape: poll [get] into a local variable until [ready]. *)

Definition await_condition {A} (get : M W (result A)) (ready : A -> M W (result bool))
    (x : option A) : M W (option A * result bool) :=
  let* resp := get in
  match resp with
  | Err err => ret (x, Err err)
  | Ok a => let* b := ready a in ret (Some a, b)
  end.

Definition await {A} (get : M W (result A)) (ready : A -> M W (result bool)) :
  M W (result A) :=
  let* r := PollImmediate poll_fuel defaultInterval defaultTimeout
              (await_condition get ready) None in
  match r with
  | (_, Err err) => ret (Err err)
  | (x, Ok _) => let* a := deref x in ret (Ok a)
  end.

Definition file_system_ready (fs : FileSystem) : M W (result bool) :=
  let state := fs_LifecycleState fs in
  if String.eqb state FssActive then ret (Ok true)
  else if bool_decide (state ∈ [FssDeleting; FssDeleted]) then
    let* id := deref (fs_Id fs) in
    ret (Err (Errorf "file system %q is in lifecycle state %q" [FStr id; FStr state]))
  else ret (Ok false).

Definition awaitFileSystem (c : ctx) (id : string) : M W (result FileSystem) :=
  await (GetFileSystem c (Some id)) file_system_ready.

Definition mount_target_ready (mt : MountTarget) : M W (result bool) :=
  let state := mt_LifecycleState mt in
  if String.eqb state FssActive then ret (Ok true)
  else if bool_decide (state ∈ [FssFailed; FssDeleting; FssDeleted]) then
    let* id := deref (mt_Id mt) in
    ret (Err (Errorf "mount target %q is in lifecycle state %q and will not become ACTIVE"
                [FStr id; FStr state]))
  else ret (Ok false).

Definition awaitMountTarget (c : ctx) (id : string) : M W (result MountTarget) :=
  await (GetMountTarget c (Some id)) mount_target_ready.

Definition export_ready (export : Export) : M W (result bool) :=
  let state := ex_LifecycleState export in
  if String.eqb state FssActive then ret (Ok true)
  else if bool_decide (state ∈ [FssDeleting; FssDeleted]) then
    let* id := deref (ex_Id export) in
    ret (Err (Errorf "export %q is in lifecycle state %q" [FStr id; FStr state]))
  else ret (Ok false).

Definition awaitExport (c : ctx) (id : string) : M W (result Export) :=
  await (GetExport c (Some id)) export_ready.

(** ** File systems *)

Definition getFileSystemByDisplayName (c : ctx) (ad displayName : string) :
  M W (result FileSystemSummary) :=
  let* comp := CompartmentOCID_ in
  let! resp := ListFileSystems c {| lf_CompartmentId := Some comp;
                                    lf_AvailabilityDomain := Some ad;
                                    lf_DisplayName := Some displayName |} in
  match lfs_Items resp with
  | [fs] => ret (Ok fs)
  | _ :: _ :: _ =>
      ret (Err (Errorf "found more than one file system with display name %q"
                  [FStr displayName]))
  | [] => ret (Err (ErrSentinel fss_errNotFound))
  end.

Definition getOrCreateFileSystem (c : ctx) (ad displayName : string) : M W (result FileSystem) :=
  let* fs := getFileSystemByDisplayName c ad displayName in
  match fs with
  | Ok fs => let* id := deref (fss_Id fs) in awaitFileSystem c id
  | Err err =>
      if bool_decide (err <> ErrSentinel fss_errNotFound) then ret (Err err)
      else
        let* comp := CompartmentOCID_ in
        let! fs := CreateFileSystem c {| cf_CompartmentId := Some comp;
                                         cf_AvailabilityDomain := Some ad;
                                         cf_DisplayName := Some displayName |} in
        let* id := deref (fs_Id fs) in
        awaitFileSystem c id
  end.

(** ** Exports *)

Fixpoint findExport_from (fuel : nat) (c : ctx) (fsID exportSetID : string)
    (page : option string) : M W (result ExportSummary) :=
  match fuel with
  | O => out_of_fuel
  | S fuel =>
      let* comp := CompartmentOCID_ in
      let! resp := ListExports c {| le_CompartmentId := Some comp;
                                    le_FileSystemId := Some fsID;
                                    le_ExportSetId := Some exportSetID;
                                    le_Page := page |} in
      match first_such live_export (le_Items resp) with
      | Some export => ret (Ok export)
      | None =>
          match le_OpcNextPage resp with
          | None => ret (Err (ErrSentinel fss_errNotFound))
          | Some page => findExport_from fuel c fsID exportSetID (Some page)
          end
      end
  end.

Definition findExport (fuel : nat) (c : ctx) (fsID exportSetID : string) :
  M W (result ExportSummary) := findExport_from fuel c fsID exportSetID None.

Definition getOrCreateExport (fuel : nat) (c : ctx) (fsID exportSetID : string) :
  M W (result Export) :=
  let* export := findExport fuel c fsID exportSetID in
  match export with
  | Ok export => let* id := deref (es_Id export) in awaitExport c id
  | Err err =>
      if bool_decide (err <> ErrSentinel fss_errNotFound) then ret (Err err)
      else
        let path := "/" +:+ fsID in
        let! export := CreateExport c {| ce_ExportSetId := Some exportSetID;
                                         ce_FileSystemId := Some fsID;
                                         ce_Path := Some path |} in
        let* id := deref (ex_Id export) in
        awaitExport c id
  end.

(** ** Provision and Delete *)

Definition filesystem_pv (fsp : filesystemProvisioner) (options : VolumeOptions)
    (pvc : PersistentVolumeClaim) (fsID exportID ip path : string) : PersistentVolume :=
  {| pv_Name := fsID;
     pv_Annotations := Some (<[ociExportID := exportID]> {[ociVolumeID := fsID]});
     pv_Labels := Some {[LabelZoneRegion := fsp_region fsp]};
     pv_ReclaimPolicy := vo_ReclaimPolicy options;
     pv_AccessModes := pvc_AccessModes pvc;
     pv_Capacity := {[ResourceStorage := default (NewQuantity 0)
                                           (pvc_Requests pvc !! ResourceStorage)]};
     pv_FlexVolume := None;
     pv_NFS := Some {| nfs_Server := ip; nfs_Path := path;
                       nfs_ReadOnly := isReadOnly (pvc_AccessModes pvc) |};
     pv_MountOptions := vo_MountOptions options;
     pv_ClaimRef := None;
     pv_StorageClassName := EmptyString;
     pv_Phase := EmptyString |}.

Definition Provision (fuel : nat) (fsp : filesystemProvisioner) (options : VolumeOptions)
    (ad : AvailabilityDomain) : M W (result PersistentVolume) :=
  let c := Background in
  let* pvc := deref (vo_PVC options) in
  let fsDisplayName := Sprintf "%s%s" [FStr (GetPrefix (W := W)); FStr (pvc_UID pvc)] in
  let mtID := getMountTargetID options in
  if is_empty mtID then
    ret (Err (errors_New "no mount target ID provided (via PVC annotation nor StorageClass option)"))
  else
  let! target := awaitMountTarget c mtID in
  if (length (mt_PrivateIpIds target) =? 0)%nat then
    ret (Err (Errorf "mount target has no associated private IPs" []))
  else
  match mt_ExportSetId target with
  | None => ret (Err (Errorf "mount target has no export set associated with it" []))
  | Some exportSetID =>
      let* r := rand_Int in
      let* id := index (mt_PrivateIpIds target)
                   (rem64 r (Z.of_nat (length (mt_PrivateIpIds target)))) in
      let! resp := GetPrivateIp c (Some id) in
      match ip_IpAddress resp with
      | None =>
          ret (Err (Errorf "PrivateIp %q associated with MountTarget %q has no IpAddress"
                      [FStr id; FStr mtID]))
      | Some ip =>
          let* adName := deref (ad_Name ad) in
          let! fs := getOrCreateFileSystem c adName fsDisplayName in
          let* fsID := deref (fs_Id fs) in
          let! export := getOrCreateExport fuel c fsID exportSetID in
          let* exportID := deref (ex_Id export) in
          let* path := deref (ex_Path export) in
          ret (Ok (filesystem_pv fsp options pvc fsID exportID ip path))
      end
  end.

(** An error that is not "not found" is returned. *)
Definition unless_not_found (r : result unit) : M W (result unit) :=
  match r with
  | Err err => if negb (IsNotFound (Some err)) then ret (Err err) else ret (Ok tt)
  | Ok _ => ret (Ok tt)
  end.

Definition Delete (volume : PersistentVolume) : M W (result unit) :=
  let c := Background in
  let exportID := default EmptyString (gomap_lookup (pv_Annotations volume) ociExportID) in
  if is_empty exportID then
    ret (Err (Errorf "%q annotation not found on PV" [FStr ociExportID]))
  else
  let filesystemID := default EmptyString (gomap_lookup (pv_Annotations volume) ociVolumeID) in
  if is_empty filesystemID then
    ret (Err (Errorf "%q annotation not found on PV" [FStr ociVolumeID]))
  else
  let* r := DeleteExport c (Some exportID) in
  let! _ := unless_not_found r in
  let* r := DeleteFileSystem c (Some filesystemID) in
  unless_not_found r.
End Fss.
