(* ===== verification/FssSpec.v ===== *)
(** * What the file-storage provisioner promises

    The calls of [Fss.Provision] drive a small automaton, [fstep]; [Provision_protocol]
    proves that every run does, and the ordering properties are invariants of the
    automaton. *)

From Stdlib Require Import Ascii.
From S2P Require Import Prelude GoStrings Errors Quantity Objects Config Effects Logic Wait Plugin Fss.

Open Scope Z_scope.

(** ** The rule for [await] *)

Section Await.
Context {W : Type} `{Backend W} `{!ProvisionerClient}.

(** What one look at a resource says. *)
Inductive verdict : Type := Good | Pending | Bad (e : error) | Broken.

Definition verdict_outcome (v : verdict) : outcome (result bool) :=
  match v with
  | Good => Val (Ok true)
  | Pending => Val (Ok false)
  | Bad e => Val (Err e)
  | Broken => Panicked NilDereference
  end.

Definition one_call {A} (get : M W (result A)) (mk : api A -> call) : Prop :=
  forall s, post get s (fun o s' l =>
    st_cfg s' = st_cfg s /\ st_now s <= st_now s' /\
    exists r e, l = [e] /\ ev_call e = mk r /\ o = Val (from_api r)).

Definition judged {A} (ready : A -> M W (result bool)) (v : A -> verdict) : Prop :=
  forall a s, ready a s = (verdict_outcome (v a), s, []).

Section Shape.
Context {A : Type} (mk : api A -> call) (v : A -> verdict).

Definition await_pending (e : event) : Prop := exists a, ev_call e = mk (inl a) /\ v a = Pending.

Inductive await_end : outcome (result A) -> event -> Prop :=
| await_good a e : ev_call e = mk (inl a) -> v a = Good -> await_end (Val (Ok a)) e
| await_bad a err e : ev_call e = mk (inl a) -> v a = Bad err -> await_end (Val (Err err)) e
| await_broken a e :
    ev_call e = mk (inl a) -> v a = Broken -> await_end (Panicked NilDereference) e
| await_error x e : ev_call e = mk (inr x) -> await_end (Val (Err (ErrSDK x))) e
| await_timeout e :
    await_pending e -> await_end (Val (Err (ErrSentinel wait_ErrWaitTimeout))) e.

Definition await_shape (o : outcome (result A)) (l : list event) : Prop :=
  exists polls e, l = polls ++ [e] /\ Forall await_pending polls /\ await_end o e
    /\ (length polls <= 61)%nat.
End Shape.

Lemma poll_fuel_enough : enough_fuel poll_fuel defaultInterval defaultTimeout.
Proof. by vm_compute. Qed.

Lemma post_await {A} (get : M W (result A)) ready mk v (s : state W) :
  one_call get mk -> upholds get timed -> judged ready v ->
  post (await get ready) s (fun o s' l => st_cfg s' = st_cfg s /\ await_shape mk v o l).
Proof using All.
  intros Hget Htimed Hready. unfold await. go.
  eapply post_mono; [apply (post_PollImmediate (await_condition get ready) defaultInterval
      defaultTimeout) with
    (I := fun k (x : option A) s1 l => st_cfg s1 = st_cfg s
            /\ Forall (await_pending mk v) l /\ (length l + k <= 61)%nat)
    (Q := fun o s' l => st_cfg s' = st_cfg s /\
            match o with
            | Val (x, Err e) => await_shape mk v (Val (Err e)) l
            | Val (x, Ok _) => exists a, x = Some a /\ await_shape mk v (Val (Ok a)) l
            | Panicked p => await_shape mk v (Panicked p) l
            | _ => False
            end)|].
  - done.
  - done.
  - intros x. unfold await_condition. apply upholds_bind; [apply _|done|].
    intros [a|e]; [|by apply upholds_ret, _]. apply upholds_bind; [apply _| |].
    + intros s1. unfold post. rewrite Hready. apply tr_nil.
    + intros b. apply upholds_ret, _.
  - intros k x s1 l (Hcfg & Hl & Hk). unfold await_condition. go.
    eapply post_mono; [apply Hget|]. intros o s2 l2 (Hcfg2 & _ & r & e & -> & He & ->).
    assert (forall o, await_end mk v o e -> await_shape mk v o (l ++ [e])) as Hend.
    { intros o Ho. exists l, e. repeat (split; [done|]). lia. }
    destruct r as [a|x']; go.
    + unfold post. rewrite Hready. destruct (v a) eqn:Hv; simpl; go; rewrite ?app_nil_r.
      * split; [congruence|]. exists a. split; [done|]. apply Hend. by constructor.
      * split.
        -- intros k' t w Hk' _ _. simpl. split; [congruence|]. split.
           ++ apply Forall_app. split; [done|]. constructor; [by exists a|constructor].
           ++ rewrite length_app. simpl. lia.
        -- intros _. split; [congruence|]. apply Hend. constructor. by exists a.
      * split; [congruence|]. apply Hend. by econstructor.
      * split; [congruence|]. apply Hend. by econstructor.
    + rewrite ?app_nil_r. split; [congruence|]. apply Hend. by constructor.
  - apply poll_fuel_enough.
  - split; [done|]. split; [constructor|]. simpl. vm_compute. lia.
  - intros [[x [u|e]]|p|c|] s1 l [Hcfg Ho]; go; rewrite ?app_nil_r; try done.
    destruct Ho as (a & -> & Ho). go. by rewrite app_nil_r.
Qed.
End Await.

(** ** The verdicts *)

Definition named_verdict (id : option string) (mk : string -> error) : verdict :=
  match id with Some i => Bad (mk i) | None => Broken end.

Definition file_system_verdict (fs : FileSystem) : verdict :=
  let state := fs_LifecycleState fs in
  if String.eqb state FssActive then Good
  else if bool_decide (state ∈ [FssDeleting; FssDeleted]) then
    named_verdict (fs_Id fs) (fun id =>
      Errorf "file system %q is in lifecycle state %q" [FStr id; FStr state])
  else Pending.

Definition mount_target_verdict (mt : MountTarget) : verdict :=
  let state := mt_LifecycleState mt in
  if String.eqb state FssActive then Good
  else if bool_decide (state ∈ [FssFailed; FssDeleting; FssDeleted]) then
    named_verdict (mt_Id mt) (fun id =>
      Errorf "mount target %q is in lifecycle state %q and will not become ACTIVE"
        [FStr id; FStr state])
  else Pending.

Definition export_verdict (ex : Export) : verdict :=
  let state := ex_LifecycleState ex in
  if String.eqb state FssActive then Good
  else if bool_decide (state ∈ [FssDeleting; FssDeleted]) then
    named_verdict (ex_Id ex) (fun id =>
      Errorf "export %q is in lifecycle state %q" [FStr id; FStr state])
  else Pending.

Section Verdicts.
Context {W : Type} `{Backend W}.

Lemma judged_file_system : judged (W := W) file_system_ready file_system_verdict.
Proof.
  intros fs s. unfold file_system_ready, file_system_verdict.
  destruct (String.eqb _ _); [done|]. case_bool; [|done]. by destruct (fs_Id fs).
Qed.
Lemma judged_mount_target : judged (W := W) mount_target_ready mount_target_verdict.
Proof.
  intros mt s. unfold mount_target_ready, mount_target_verdict.
  destruct (String.eqb _ _); [done|]. case_bool; [|done]. by destruct (mt_Id mt).
Qed.
Lemma judged_export : judged (W := W) export_ready export_verdict.
Proof.
  intros ex s. unfold export_ready, export_verdict.
  destruct (String.eqb _ _); [done|]. case_bool; [|done]. by destruct (ex_Id ex).
Qed.

Ltac one_call_tac :=
  intros s; go; (split; [done|]); (split; [lia|]); do 2 eexists; (split; [done|]);
  (split; [|done]); done.

Lemma one_call_GetFileSystem c id :
  one_call (W := W) (GetFileSystem c (Some id)) (CGetFileSystem (Some id)).
Proof. one_call_tac. Qed.
Lemma one_call_GetMountTarget c id :
  one_call (W := W) (GetMountTarget c (Some id)) (CGetMountTarget (Some id)).
Proof. one_call_tac. Qed.
Lemma one_call_GetExport c id :
  one_call (W := W) (GetExport c (Some id)) (CGetExport (Some id)).
Proof. one_call_tac. Qed.
End Verdicts.

(** ** The automaton *)

Inductive fphase : Type :=
| FTarget
| FAddress (mt : MountTarget) (es : string)
| FLookup (ip es : string)
| FCreate (ip es : string)
| FAwaitFs (ip es id : string)
| FPages (ip es fs : string) (page : option string)
| FCreateExport (ip es fs : string)
| FAwaitExport (ip es fs id : string)
| FDone (ip es fs ex path : string)
| FFailed (e : error)
| FBroken.

Definition no_ips : error := Errorf "mount target has no associated private IPs" [].
Definition no_export_set : error := Errorf "mount target has no export set associated with it" [].
Definition no_address (id mtID : string) : error :=
  Errorf "PrivateIp %q associated with MountTarget %q has no IpAddress" [FStr id; FStr mtID].
Definition ambiguous (name : string) : error :=
  Errorf "found more than one file system with display name %q" [FStr name].

(** The phase after a look at an awaited resource, and after a reply that may carry no id. *)
Definition looked (v : verdict) (stay good : fphase) : fphase :=
  match v with Good => good | Pending => stay | Bad e => FFailed e | Broken => FBroken end.
Definition with_id (id : option string) (next : string -> fphase) : fphase :=
  match id with Some i => next i | None => FBroken end.

Definition target_phase (mt : MountTarget) : fphase :=
  if (length (mt_PrivateIpIds mt) =? 0)%nat then FFailed no_ips
  else match mt_ExportSetId mt with None => FFailed no_export_set | Some es => FAddress mt es end.

Definition export_phase (ip es fs : string) (ex : Export) : fphase :=
  with_id (ex_Id ex) (fun i => with_id (ex_Path ex) (fun path => FDone ip es fs i path)).

Section Automaton.
Context (mtID : string) (adName : option string) (displayName : string).

Definition fstep (p : fphase) (k : call) : option fphase :=
  match p, k with
  | FTarget, CGetMountTarget id r =>
      if negb (bool_decide (id = Some mtID)) then None else
      Some match r with
           | inr x => FFailed (ErrSDK x)
           | inl mt => looked (mount_target_verdict mt) FTarget (target_phase mt)
           end
  | FAddress mt es, CGetPrivateIp (Some id) r =>
      if negb (bool_decide (id ∈ mt_PrivateIpIds mt)) then None else
      Some match r with
           | inr x => FFailed (ErrSDK x)
           | inl ip => match ip_IpAddress ip with
                       | None => FFailed (no_address id mtID)
                       | Some a => FLookup a es
                       end
           end
  | FLookup ip es, CListFileSystems req r =>
      if negb (bool_decide (lf_AvailabilityDomain req = adName
                            /\ lf_DisplayName req = Some displayName)) then None else
      Some match r with
           | inr x => FFailed (ErrSDK x)
           | inl resp =>
               match lfs_Items resp with
               | [] => FCreate ip es
               | [fs] => with_id (fss_Id fs) (FAwaitFs ip es)
               | _ => FFailed (ambiguous displayName)
               end
           end
  | FCreate ip es, CCreateFileSystem req r =>
      if negb (bool_decide (cf_AvailabilityDomain req = adName
                            /\ cf_DisplayName req = Some displayName)) then None else
      Some match r with
           | inr x => FFailed (ErrSDK x)
           | inl fs => with_id (fs_Id fs) (FAwaitFs ip es)
           end
  | FAwaitFs ip es id, CGetFileSystem i r =>
      if negb (bool_decide (i = Some id)) then None else
      Some match r with
           | inr x => FFailed (ErrSDK x)
           | inl fs => looked (file_system_verdict fs) p
                         (with_id (fs_Id fs) (fun f => FPages ip es f None))
           end
  | FPages ip es fs page, CListExports req r =>
      if negb (bool_decide (le_FileSystemId req = Some fs /\ le_ExportSetId req = Some es
                            /\ le_Page req = page)) then None else
      Some match r with
           | inr x => FFailed (ErrSDK x)
           | inl resp =>
               match first_such live_export (le_Items resp) with
               | Some e => with_id (es_Id e) (FAwaitExport ip es fs)
               | None => match le_OpcNextPage resp with
                         | Some q => FPages ip es fs (Some q)
                         | None => FCreateExport ip es fs
                         end
               end
           end
  | FCreateExport ip es fs, CCreateExport req r =>
      if negb (bool_decide (ce_ExportSetId req = Some es /\ ce_FileSystemId req = Some fs
                            /\ ce_Path req = Some ("/" +:+ fs))) then None else
      Some match r with
           | inr x => FFailed (ErrSDK x)
           | inl ex => with_id (ex_Id ex) (FAwaitExport ip es fs)
           end
  | FAwaitExport ip es fs id, CGetExport i r =>
      if negb (bool_decide (i = Some id)) then None else
      Some match r with
           | inr x => FFailed (ErrSDK x)
           | inl ex => looked (export_verdict ex) p (export_phase ip es fs ex)
           end
  | _, _ => None
  end.

Fixpoint frun (p : fphase) (l : list event) : option fphase :=
  match l with
  | [] => Some p
  | e :: l => match fstep p (ev_call e) with Some q => frun q l | None => None end
  end.

Lemma frun_app p l1 l2 : frun p (l1 ++ l2) = frun p l1 ≫= fun q => frun q l2.
Proof. revert p. induction l1 as [|e l1 IH]; intros p; simpl; [done|]. by destruct (fstep _ _). Qed.
End Automaton.

(** Which unfinished phases a call may end in. *)
Definition can_fail (q : fphase) (e : error) : Prop :=
  match q with
  | FFailed e' => e = e'
  | FTarget | FAwaitFs _ _ _ | FAwaitExport _ _ _ _ => e = ErrSentinel wait_ErrWaitTimeout
  | _ => False
  end.

Definition can_panic (q : fphase) (p : panic) : Prop :=
  match q with
  | FBroken => p = NilDereference
  | FLookup _ _ | FCreate _ _ | FPages _ _ _ _ => True
  | _ => False
  end.

Definition can_exit (q : fphase) : Prop :=
  match q with FLookup _ _ | FCreate _ _ | FPages _ _ _ _ => True | _ => False end.

Definition paging (q : fphase) : Prop := match q with FPages _ _ _ _ => True | _ => False end.

(** Where a computation may end: with a value in a phase allowed by [P], or stopped. *)
Definition ends {A} (P : A -> fphase -> Prop) (o : outcome (result A)) (q : fphase) : Prop :=
  match o with
  | Val (Ok a) => P a q
  | Val (Err e) => can_fail q e
  | Panicked p => can_panic q p
  | Exited _ => can_exit q
  | OutOfFuel => paging q
  end.

(** ** A logic of phases *)

Section Drives.
Context {W : Type} `{Backend W} `{!ProvisionerClient} `{!ProvisionerClientOk}.
Context (mtID : string) (adName : option string) (displayName : string).
Abbreviation step := (fstep mtID adName displayName).
Abbreviation run := (frun mtID adName displayName).

Definition drives {A} (m : M W A) (p : fphase) (Q : outcome A -> fphase -> Prop) : Prop :=
  forall s, post m s (fun o _ l => exists q, run p l = Some q /\ Q o q).

Lemma drives_bind {A B} (m : M W A) (k : A -> M W B) p Q :
  drives m p (fun o q => match o with
                         | Val a => drives (k a) q Q
                         | Panicked x => Q (Panicked x) q
                         | Exited c => Q (Exited c) q
                         | OutOfFuel => Q OutOfFuel q
                         end) ->
  drives (bind m k) p Q.
Proof.
  intros Hm s. apply post_bind. eapply post_mono; [apply Hm|].
  intros [a|x|c|] s1 l1 (q & Hq & HQ); simpl; eauto.
  eapply post_mono; [apply HQ|]. intros o s2 l2 (q2 & Hq2 & HQ2).
  exists q2. split; [|done]. by rewrite frun_app, Hq.
Qed.

Lemma drives_ret {A} (a : A) p (Q : outcome A -> fphase -> Prop) : Q (Val a) p -> drives (ret a) p Q.
Proof. intros HQ s. exists p. by split. Qed.

Lemma drives_panic {A} x p (Q : outcome A -> fphase -> Prop) :
  Q (Panicked x) p -> drives (panic_ x) p Q.
Proof. intros HQ s. exists p. by split. Qed.

Lemma drives_out_of_fuel {A} p (Q : outcome A -> fphase -> Prop) :
  Q OutOfFuel p -> drives out_of_fuel p Q.
Proof. intros HQ s. exists p. by split. Qed.

Lemma drives_silent {A} (op : Op W A) p Q : (forall a, Q (Val a) p) -> drives (silent op) p Q.
Proof. intros HQ s. apply post_silent. intros a d w _. exists p. by split. Qed.

(** A call and the code that turns its reply into a result. *)
Lemma drives_call {A} c (op : Op W (api A)) mk p Q :
  (forall a, exists q, step p (mk a) = Some q /\ Q (Val (from_api a)) q) ->
  drives (let* a := invoke c op mk in ret (from_api a)) p Q.
Proof.
  intros HQ s. go. destruct (HQ a) as (q & Hq & Hp). exists q. simpl. by rewrite Hq.
Qed.

Lemma drives_compartment p (Q : outcome string -> fphase -> Prop) :
  (forall c, Q (Val c) p) -> (forall x, Q (Panicked x) p) -> (forall n, Q (Exited n) p) ->
  drives CompartmentOCID_ p Q.
Proof using All.
  intros HV HP HE s. apply post_CompartmentOCID. intros o c Hc. exists p. split; [done|].
  pose proof (compartment_returns (st_cfg s)) as Hr. rewrite Hc in Hr. by destruct o.
Qed.

Lemma drives_mono {A} (m : M W A) p (Q Q' : outcome A -> fphase -> Prop) :
  drives m p Q -> (forall o q, Q o q -> Q' o q) -> drives m p Q'.
Proof. intros Hm HQ s. eapply post_mono; [apply Hm|]. intros o s' l (q & ? & ?). eauto. Qed.

Lemma drives_seq {A B} (m : M W (result A)) (k : A -> M W (result B)) p P P' :
  drives m p (ends P) -> (forall a q, P a q -> drives (k a) q (ends P')) ->
  drives (bind_ok m k) p (ends P').
Proof.
  intros Hm Hk. apply drives_bind. eapply drives_mono; [exact Hm|].
  intros [[a|e]|x|c|] q HQ; simpl in *; auto. by apply drives_ret.
Qed.

Lemma drives_id {A} (id : option string) next (k : string -> M W (result A)) P :
  (forall i, drives (k i) (next i) (ends P)) ->
  drives (bind (deref id) k) (with_id id next) (ends P).
Proof.
  intros Hk. apply drives_bind. destruct id as [i|]; [apply drives_ret, Hk|by apply drives_panic].
Qed.

Lemma drives_await {A} (get : M W (result A)) ready mk v p (good : A -> fphase) :
  one_call get mk -> upholds get timed -> judged ready v ->
  (forall a, step p (mk (inl a)) = Some (looked (v a) p (good a))) ->
  (forall x, step p (mk (inr x)) = Some (FFailed (ErrSDK x))) ->
  can_fail p (ErrSentinel wait_ErrWaitTimeout) ->
  drives (await get ready) p (ends (fun a q => q = good a)).
Proof using All.
  intros Hget Htimed Hready Hgood Herr Hwait s.
  eapply post_mono; [by apply post_await|].
  intros o s' l (_ & polls & e & -> & Hpolls & Hend & _).
  assert (run p polls = Some p) as Hrun.
  { induction Hpolls as [|e' polls (a & He & Hv) _ IH]; [done|]. simpl.
    by rewrite He, Hgood, Hv. }
  rewrite frun_app, Hrun. simpl.
  inversion Hend as [a ? He Hv|a err ? He Hv|a ? He Hv|x ? He|? (a & He & Hv)]; subst;
    rewrite He, ?Hgood, ?Herr, ?Hv; by eexists.
Qed.

Ltac pass := rewrite bool_decide_eq_true_2 by done; simpl.

Lemma GetFileSystem_timed c id : upholds (W := W) (GetFileSystem c id) timed.
Proof. upholds_tac. Qed.
Lemma GetMountTarget_timed c id : upholds (W := W) (GetMountTarget c id) timed.
Proof. upholds_tac. Qed.
Lemma GetExport_timed c id : upholds (W := W) (GetExport c id) timed.
Proof. upholds_tac. Qed.

Lemma drives_awaitMountTarget c :
  drives (awaitMountTarget c mtID) FTarget (ends (fun mt q => q = target_phase mt)).
Proof using All.
  apply (drives_await _ _ (CGetMountTarget (Some mtID)) mount_target_verdict);
    auto using one_call_GetMountTarget, GetMountTarget_timed, judged_mount_target;
    intros; simpl; by try pass.
Qed.

Definition after_file_system (ip es : string) (fs : FileSystem) : fphase :=
  with_id (fs_Id fs) (fun f => FPages ip es f None).

Lemma drives_awaitFileSystem c ip es id :
  drives (awaitFileSystem c id) (FAwaitFs ip es id)
    (ends (fun fs q => q = after_file_system ip es fs)).
Proof using All.
  apply (drives_await _ _ (CGetFileSystem (Some id)) file_system_verdict);
    auto using one_call_GetFileSystem, GetFileSystem_timed, judged_file_system;
    intros; simpl; by try pass.
Qed.

Lemma drives_awaitExport c ip es fs id :
  drives (awaitExport c id) (FAwaitExport ip es fs id)
    (ends (fun ex q => q = export_phase ip es fs ex)).
Proof using All.
  apply (drives_await _ _ (CGetExport (Some id)) export_verdict);
    auto using one_call_GetExport, GetExport_timed, judged_export;
    intros; simpl; by try pass.
Qed.

(** A lookup that may report "not found": the sentinel leads to the creation. *)
Definition found_or {A} (P : A -> fphase -> Prop) (create : fphase)
    (o : outcome (result A)) (q : fphase) : Prop :=
  match o with
  | Val (Err e) => if bool_decide (e = ErrSentinel fss_errNotFound) then q = create else can_fail q e
  | o => ends P o q
  end.

Lemma found_or_fail {A} P create (e : error) :
  e <> ErrSentinel fss_errNotFound -> @found_or A P create (Val (Err e)) (FFailed e).
Proof. intros He. simpl. by rewrite bool_decide_eq_false_2. Qed.

(** The common tail of the two get-or-create functions. *)
Lemma drives_get_or_create {A B} (find : M W (result A)) (found : A -> M W (result B))
    (make : M W (result B)) p create Pf P :
  drives find p (found_or Pf create) ->
  (forall a q, Pf a q -> drives (found a) q (ends P)) ->
  drives make create (ends P) ->
  drives (let* r := find in
          match r with
          | Ok a => found a
          | Err err => if bool_decide (err <> ErrSentinel fss_errNotFound) then ret (Err err) else make
          end) p (ends P).
Proof.
  intros Hfind Hfound Hmake. apply drives_bind. eapply drives_mono; [exact Hfind|].
  intros [[a|e]|x|c|] q HQ; simpl in *; auto.
  destruct (bool_decide_reflect (e = ErrSentinel fss_errNotFound)) as [->|He].
  - rewrite bool_decide_eq_false_2 by auto. by subst.
  - rewrite bool_decide_eq_true_2 by done. by apply drives_ret.
Qed.

Context (adn : string) (Had : adName = Some adn).

Lemma drives_lookup ip es :
  drives (getFileSystemByDisplayName Background adn displayName) (FLookup ip es)
    (found_or (fun fs q => q = with_id (fss_Id fs) (FAwaitFs ip es)) (FCreate ip es)).
Proof using All.
  unfold getFileSystemByDisplayName. apply drives_bind, drives_compartment; try done. intros comp.
  unfold bind_ok, ListFileSystems. apply drives_bind, drives_call. intros a. simpl.
  rewrite bool_decide_eq_true_2 by (by rewrite Had). simpl.
  destruct a as [[[|fs [|]] np]|x]; eexists; (split; [done|]); apply drives_ret;
    by (done || apply found_or_fail).
Qed.

Lemma drives_getOrCreateFileSystem ip es :
  drives (getOrCreateFileSystem Background adn displayName) (FLookup ip es)
    (ends (fun fs q => q = after_file_system ip es fs)).
Proof using All.
  eapply drives_get_or_create; [apply drives_lookup| |].
  - intros fs q ->. apply drives_id. intros i. apply drives_awaitFileSystem.
  - apply drives_bind, drives_compartment; try done. intros comp.
    eapply (drives_seq _ _ _ (fun fs q => q = with_id (fs_Id fs) (FAwaitFs ip es))).
    + apply drives_call. intros a. simpl. rewrite bool_decide_eq_true_2 by (by rewrite Had). simpl.
      destruct a; by eexists.
    + intros fs q ->. apply drives_id. intros i. apply drives_awaitFileSystem.
Qed.

Lemma drives_findExport fuel ip es fs page :
  drives (findExport_from fuel Background fs es page) (FPages ip es fs page)
    (found_or (fun e q => q = with_id (es_Id e) (FAwaitExport ip es fs)) (FCreateExport ip es fs)).
Proof using All.
  revert page. induction fuel as [|fuel IH]; intros page; simpl.
  { by apply drives_out_of_fuel. }
  apply drives_bind, drives_compartment; try done. intros comp.
  unfold bind_ok, ListExports. apply drives_bind, drives_call. intros a. simpl. pass.
  destruct a as [resp|x]; eexists; (split; [done|]); [|by apply drives_ret, found_or_fail].
  simpl. destruct (first_such live_export (le_Items resp)) as [e|]; [by apply drives_ret|].
  destruct (le_OpcNextPage resp) as [q|]; [apply IH|by apply drives_ret].
Qed.

Lemma drives_getOrCreateExport fuel ip es fs :
  drives (getOrCreateExport fuel Background fs es) (FPages ip es fs None)
    (ends (fun ex q => q = export_phase ip es fs ex)).
Proof using All.
  eapply drives_get_or_create; [apply drives_findExport| |].
  - intros e q ->. apply drives_id. intros i. apply drives_awaitExport.
  - eapply (drives_seq _ _ _ (fun ex q => q = with_id (ex_Id ex) (FAwaitExport ip es fs))).
    + apply drives_call. intros a. simpl. pass. destruct a; by eexists.
    + intros ex q ->. apply drives_id. intros i. apply drives_awaitExport.
Qed.
End Drives.

Section Provision.
Context {W : Type} `{Backend W} `{!ProvisionerClient} `{!ProvisionerClientOk}.

Lemma rand_range (u : N) : 0 <= Z.of_N (N.land u 9223372036854775807) < two63.
Proof.
  split; [lia|]. change 9223372036854775807%N with (N.ones 63). rewrite N.land_ones.
  pose proof (N.mod_upper_bound u (2 ^ 63)%N ltac:(done)) as Hb.
  apply N2Z.inj_lt in Hb. exact Hb.
Qed.

(** The random choice is always an element of the list. *)
Lemma index_rand (ips : list string) (u : N) :
  (length ips =? 0)%nat = false ->
  exists id, id ∈ ips /\ index (W := W) ips
    (rem64 (Z.of_N (N.land u 9223372036854775807)) (Z.of_nat (length ips))) = ret id.
Proof.
  intros Hne%Nat.eqb_neq. pose proof (rand_range u) as Hu.
  set (r := Z.of_N _) in *. unfold index, rem64.
  pose proof (Z.rem_bound_pos r (Z.of_nat (length ips)) ltac:(lia) ltac:(lia)) as Hr.
  rewrite (proj2 (Z.leb_le 0 _)) by lia.
  destruct (lookup_lt_is_Some_2 ips (Z.to_nat (Z.rem r (Z.of_nat (length ips))))) as [id Hid]; [lia|].
  exists id. rewrite Hid. split; [by eapply list_elem_of_lookup_2|done].
Qed.

Lemma drives_pick {A} mtID adName displayName (ips : list string) (k : string -> M W A) p Q :
  (length ips =? 0)%nat = false ->
  (forall id, id ∈ ips -> drives mtID adName displayName (k id) p Q) ->
  drives mtID adName displayName
    (let* r := rand_Int in let* id := index ips (rem64 r (Z.of_nat (length ips))) in k id) p Q.
Proof using All.
  intros Hne Hk. apply drives_bind. unfold rand_Int. apply drives_bind, drives_silent.
  intros u. apply drives_ret. destruct (index_rand ips u Hne) as (id & Hid & ->).
  apply drives_bind, drives_ret. by apply Hk.
Qed.

Definition provisioned (fsp : filesystemProvisioner) (options : VolumeOptions)
    (pvc : PersistentVolumeClaim) (pv : PersistentVolume) (q : fphase) : Prop :=
  exists ip es fs ex path, q = FDone ip es fs ex path
    /\ pv = filesystem_pv fsp options pvc fs ex ip path.

Lemma drives_Provision fuel fsp options ad pvc :
  vo_PVC options = Some pvc -> is_empty (getMountTargetID options) = false ->
  drives (getMountTargetID options) (ad_Name ad) (GetPrefix (W := W) +:+ pvc_UID pvc)
    (Provision fuel fsp options ad) FTarget (ends (provisioned fsp options pvc)).
Proof using All.
  intros Hpvc Hmt. unfold Provision. rewrite Hpvc. apply drives_bind, drives_ret.
  rewrite Sprintf_concat, Hmt.
  eapply drives_seq; [apply drives_awaitMountTarget|]. intros mt q ->. unfold target_phase.
  destruct (length (mt_PrivateIpIds mt) =? 0)%nat eqn:Hips; [by apply drives_ret|].
  destruct (mt_ExportSetId mt) as [es|]; [|by apply drives_ret].
  apply drives_pick; [done|]. intros id Hid.
  eapply (drives_seq _ _ _ _ _ _ (fun ip q => q = match ip_IpAddress ip with
      | None => FFailed (no_address id (getMountTargetID options))
      | Some a => FLookup a es end)).
  { apply drives_call. intros a. simpl. rewrite bool_decide_eq_true_2 by done. simpl.
    destruct a; by eexists. }
  intros ip q ->. destruct (ip_IpAddress ip) as [a|]; [|by apply drives_ret].
  apply drives_bind. destruct (ad_Name ad) as [adn|]; [|by apply drives_panic]. apply drives_ret.
  eapply drives_seq; [by apply drives_getOrCreateFileSystem|]. intros fs q ->.
  apply drives_id. intros f.
  eapply drives_seq; [by eapply drives_getOrCreateExport|]. intros ex q ->.
  apply drives_id. intros i. apply drives_id. intros path. apply drives_ret. simpl.
  by repeat eexists.
Qed.

(** C11: [Provision] of a file system follows its protocol. Without a mount target in the
    claim or the class it fails before any call. Otherwise its calls are, in this order:
    looks at that mount target until it is active, one address lookup for an address of that
    target, one listing of the file systems named by the prefix and the UID of the claim, a
    creation only if that listing was empty, looks at the file system, pages of the exports
    of that file system in the export set of the target, a creation only if no page has a
    live one, and looks at the export; the volume returned describes exactly the resources
    that the calls ended with, and an error is the one that ended them. *)
Theorem fss_Provision_protocol fuel fsp options ad (s : state W) :
  post (Provision fuel fsp options ad) s (fun o s' l =>
    match vo_PVC options with
    | None => o = Panicked NilDereference /\ l = []
    | Some pvc =>
        if is_empty (getMountTargetID options) then l = [] /\ s' = s /\ exists e, o = Val (Err e)
        else exists q,
          frun (getMountTargetID options) (ad_Name ad) (GetPrefix (W := W) +:+ pvc_UID pvc)
            FTarget l = Some q
          /\ ends (provisioned fsp options pvc) o q
    end).
Proof using All.
  destruct (vo_PVC options) as [pvc|] eqn:Hpvc.
  - destruct (is_empty _) eqn:He; [|by apply drives_Provision].
    unfold Provision. rewrite Hpvc, He. go. eauto.
  - unfold Provision. rewrite Hpvc. by go.
Qed.

(** ** Invariants of the automaton *)

Definition target_seen (mtID : string) (mt : MountTarget) (es : string) (l : list event) : Prop :=
  Exists (fun e => ev_call e = CGetMountTarget (Some mtID) (inl mt)) l
  /\ mt_LifecycleState mt = FssActive /\ mt_PrivateIpIds mt <> []
  /\ mt_ExportSetId mt = Some es.

Definition address_seen (mt : MountTarget) (ip : string) (l : list event) : Prop :=
  exists id r, id ∈ mt_PrivateIpIds mt /\ ip_IpAddress r = Some ip
    /\ Exists (fun e => ev_call e = CGetPrivateIp (Some id) (inl r)) l.

Definition validated (mtID ip es : string) (l : list event) : Prop :=
  exists mt, target_seen mtID mt es l /\ address_seen mt ip l.

Definition file_system_seen (fs : string) (l : list event) : Prop :=
  exists id r, fs_Id r = Some fs /\ fs_LifecycleState r = FssActive
    /\ Exists (fun e => ev_call e = CGetFileSystem (Some id) (inl r)) l.

Definition export_seen (ex path : string) (l : list event) : Prop :=
  exists id r, ex_Id r = Some ex /\ ex_Path r = Some path /\ ex_LifecycleState r = FssActive
    /\ Exists (fun e => ev_call e = CGetExport (Some id) (inl r)) l.

(** The last call looked for a file system and found none. *)
Definition listed_none (comp ad name : option string) (l : list event) : Prop :=
  exists l' e resp, l = l' ++ [e]
    /\ ev_call e = CListFileSystems {| lf_CompartmentId := comp; lf_AvailabilityDomain := ad;
                                       lf_DisplayName := name |} (inl resp)
    /\ lfs_Items resp = [].

Definition no_live_export (fs es : string) (l : list event) : Prop :=
  exists l' e req resp, l = l' ++ [e] /\ ev_call e = CListExports req (inl resp)
    /\ le_FileSystemId req = Some fs /\ le_ExportSetId req = Some es
    /\ Forall (fun x => live_export x = false) (le_Items resp) /\ le_OpcNextPage resp = None.

(** What the calls so far have established in each phase. *)
Definition evidence (mtID : string) (adName : option string) (displayName : string) (q : fphase) (l : list event) : Prop :=
  match q with
  | FTarget | FFailed _ | FBroken => True
  | FAddress mt es => target_seen mtID mt es l
  | FLookup ip es | FAwaitFs ip es _ => validated mtID ip es l
  | FCreate ip es => validated mtID ip es l /\ exists comp, listed_none comp adName (Some displayName) l
  | FPages ip es fs _ => validated mtID ip es l /\ file_system_seen fs l
  | FCreateExport ip es fs =>
      validated mtID ip es l /\ file_system_seen fs l /\ no_live_export fs es l
  | FAwaitExport ip es fs _ => validated mtID ip es l /\ file_system_seen fs l
  | FDone ip es fs ex path =>
      validated mtID ip es l /\ file_system_seen fs l /\ export_seen ex path l
  end.
End Provision.

Create HintDb evidence.

Section Evidence.
Context (mtID : string) (adName : option string) (displayName : string).
Abbreviation step := (fstep mtID adName displayName).
Abbreviation run := (frun mtID adName displayName).

Lemma target_seen_app mt es l k : target_seen mtID mt es l -> target_seen mtID mt es (l ++ k).
Proof. intros (? & ?). split; [|done]. apply Exists_app. by left. Qed.
Lemma validated_app ip es l k : validated mtID ip es l -> validated mtID ip es (l ++ k).
Proof.
  intros (mt & Ht & id & r & ? & ? & ?). exists mt. split; [by apply target_seen_app|].
  exists id, r. rewrite Exists_app. auto.
Qed.
Lemma file_system_seen_app fs l k : file_system_seen fs l -> file_system_seen fs (l ++ k).
Proof. intros (id & r & ? & ? & ?). exists id, r. rewrite Exists_app. auto. Qed.
Lemma Exists_last (P : event -> Prop) l e : P e -> Exists P (l ++ [e]).
Proof. intros. apply Exists_app. right. by constructor. Qed.

Hint Resolve target_seen_app validated_app file_system_seen_app Exists_last : evidence.

Lemma good_active (state : string) (bad : bool) (b : verdict) :
  (if String.eqb state FssActive then Good else if bad then b else Pending) = Good ->
  state = FssActive \/ b = Good.
Proof. destruct (String.eqb_spec state FssActive); [auto|]. destruct bad; [auto|done]. Qed.

Lemma named_not_good id mk : named_verdict id mk <> Good.
Proof. by destruct id. Qed.

Lemma evidence_looked v stay good l :
  evidence mtID adName displayName stay l -> (v = Good -> evidence mtID adName displayName good l) ->
  evidence mtID adName displayName (looked v stay good) l.
Proof. destruct v; simpl; auto. Qed.

Lemma evidence_with_id id next l :
  (forall i, id = Some i -> evidence mtID adName displayName (next i) l) -> evidence mtID adName displayName (with_id id next) l.
Proof. destruct id; simpl; auto. Qed.

Ltac active H := apply good_active in H as [H|H]; [|by apply named_not_good in H].

Lemma evidence_step q e q' l :
  evidence mtID adName displayName q l -> step q (ev_call e) = Some q' -> evidence mtID adName displayName q' (l ++ [e]).
Proof.
  intros Hev Hstep. destruct q; destruct (ev_call e) eqn:Hcall; simpl in Hstep; try done;
    try (destruct PrivateIpId as [id|]; [|done]);
    match type of Hstep with context [bool_decide ?P] =>
      destruct (bool_decide_reflect P) as [Hb|]; try done end; simpl in Hstep;
    injection Hstep as <-; destruct resp as [a|x]; try exact I; simpl in Hev.
  - subst. apply evidence_looked; [done|]. intros Hv. unfold mount_target_verdict in Hv. active Hv.
    unfold target_phase. destruct (mt_PrivateIpIds a) as [|i ips] eqn:Hips; simpl; [done|].
    destruct (mt_ExportSetId a) as [es|] eqn:Hes; simpl; [|done].
    split; [by apply Exists_last|]. by rewrite Hips.
  - destruct (ip_IpAddress a) as [ip|] eqn:Hip; simpl; [|done].
    exists mt. split; [by auto with evidence|]. exists id, a. auto with evidence.
  - destruct a as [[|fs [|]] np] eqn:Ha; simpl; [|apply evidence_with_id; simpl|done]; eauto with evidence.
    split; [auto with evidence|]. destruct Hb as [Had Hname]. destruct req as [comp ad name]. simpl in *. subst.
    by exists comp, l, e, {| lfs_Items := []; lfs_OpcNextPage := np |}.
  - destruct Hev. apply evidence_with_id. simpl. auto with evidence.
  - subst. apply evidence_looked; [simpl; auto with evidence|]. intros Hv.
    unfold file_system_verdict in Hv. active Hv. apply evidence_with_id. intros f Hf. simpl.
    split; [auto with evidence|]. exists id, a. auto with evidence.
  - destruct Hev, Hb as (? & ? & _).
    destruct (first_such live_export (le_Items a)) as [x|] eqn:Hx.
    { apply evidence_with_id. simpl. auto with evidence. }
    destruct (le_OpcNextPage a) eqn:Hn; simpl; [auto with evidence|].
    split; [auto with evidence|]. split; [auto with evidence|].
    exists l, e, req, a. apply first_such_None in Hx. by repeat (split; [done|]).
  - destruct Hev as (? & ? & _). apply evidence_with_id. simpl. auto with evidence.
  - destruct Hev. subst. apply evidence_looked; [simpl; auto with evidence|]. intros Hv.
    unfold export_verdict in Hv. active Hv. unfold export_phase.
    apply evidence_with_id. intros i Hi. apply evidence_with_id. intros path Hpath. simpl.
    split; [auto with evidence|]. split; [auto with evidence|]. exists id, a. auto with evidence.
Qed.

Lemma evidence_run l q : run FTarget l = Some q -> evidence mtID adName displayName q l.
Proof.
  revert q. induction l as [|e l IH] using rev_ind; intros q.
  - by intros [= <-].
  - rewrite frun_app. destruct (run FTarget l) as [p|] eqn:Hp; simpl; [|done].
    destruct (step p (ev_call e)) as [p'|] eqn:Hstep; [|done]. intros [= <-].
    eapply evidence_step; [by apply IH|done].
Qed.

(** The phase just before a call of an accepted sequence. *)
Lemma run_split l1 e l2 q :
  run FTarget (l1 ++ e :: l2) = Some q ->
  exists p p', run FTarget l1 = Some p /\ step p (ev_call e) = Some p' /\ run p' l2 = Some q
    /\ evidence mtID adName displayName p l1.
Proof.
  rewrite frun_app. destruct (run FTarget l1) as [p|] eqn:Hp; simpl; [|done].
  destruct (step p (ev_call e)) as [p'|] eqn:Hs; [|done]. intros Hq.
  exists p, p'. repeat (split; [done|]). by apply evidence_run.
Qed.
End Evidence.

Lemma pv_export fsp options pvc fs ex ip path :
  gomap_lookup (pv_Annotations (filesystem_pv fsp options pvc fs ex ip path)) ociExportID = Some ex.
Proof. simpl. by rewrite lookup_insert_eq. Qed.

Lemma pv_file_system fsp options pvc fs ex ip path :
  gomap_lookup (pv_Annotations (filesystem_pv fsp options pvc fs ex ip path)) ociVolumeID = Some fs.
Proof. simpl. by rewrite lookup_insert_ne, lookup_singleton_eq. Qed.

(** ** The compartment of the requests *)

Section Compartment.
Context {W : Type} `{Backend W} `{!ProvisionerClient} `{!ProvisionerClientOk}.

(** The compartment that a request names, where it names one. *)
Definition call_compartment (k : call) : option (option string) :=
  match k with
  | CListFileSystems req _ => Some (lf_CompartmentId req)
  | CCreateFileSystem req _ => Some (cf_CompartmentId req)
  | CListExports req _ => Some (le_CompartmentId req)
  | _ => None
  end.

Definition compartment (s : state W) : outcome string := fst (client_compartment (st_cfg s)).

(** All requests name the compartment of the client, which stays the same. *)
Definition one_compartment : trel := fun s s' l =>
  compartment s' = compartment s
  /\ Forall (fun e => forall c, call_compartment (ev_call e) = Some c ->
       exists comp, c = Some comp /\ compartment s = Val comp) l.

#[local] Instance one_compartment_TraceRel : TraceRel one_compartment.
Proof.
  unfold one_compartment. split; [by split; [|constructor]|].
  intros s1 s2 s3 l1 l2 [H12 Hl1] [H23 Hl2]. rewrite H23. split; [done|].
  apply Forall_app. split; [done|]. by rewrite H12 in Hl2.
Qed.

#[local] Instance one_compartment_CallRel : CallRel one_compartment (fun k => call_compartment k = None).
Proof.
  unfold one_compartment, compartment. split; [|by split; [|constructor]].
  intros s c k d w Hk. split; [done|]. constructor; [|constructor]. intros x. simpl. by rewrite Hk.
Qed.

Lemma oc_advance t : upholds (advance_to t) one_compartment.
Proof. intros s. by apply post_advance_to. Qed.

(** The compartment is asked for, and the next request names it. *)
Lemma oc_ask {B} (k : string -> M W B) :
  (forall comp s, compartment s = Val comp -> post (k comp) s (fun _ s' l => one_compartment s s' l)) ->
  upholds (bind CompartmentOCID_ k) one_compartment.
Proof using All.
  intros Hk s. go. apply post_CompartmentOCID. intros o cfg Hc.
  assert (compartment (State (st_now s) (st_world s) cfg) = compartment s) as Hsame.
  { unfold compartment. simpl. by rewrite Hc, (compartment_stable _ _ _ Hc). }
  destruct o as [comp|p|x|]; go; try (by split; [|constructor]).
  eapply post_mono; [apply Hk; rewrite Hsame; unfold compartment; by rewrite Hc|].
  intros o s' l. unfold one_compartment. by rewrite Hsame.
Qed.

Lemma oc_named {A B} comp (op : Op W (api A)) mk (k : A -> M W (result B)) (s : state W) :
  compartment s = Val comp ->
  (forall a c, call_compartment (mk a) = Some c -> c = Some comp) ->
  (forall a, upholds (k a) one_compartment) ->
  post (bind_ok (let* a := invoke Background op mk in ret (from_api a)) k) s
    (fun _ s' l => one_compartment s s' l).
Proof using All.
  intros Hs Hmk Hk. go.
  assert (forall s' l, one_compartment (State (st_now s + Z.of_N d) w (st_cfg s)) s' l ->
    one_compartment s s' (Event (st_now s) Background (mk a) :: l)) as Hfirst.
  { intros s' l [Hs' Hl]. split; [done|]. constructor; [|done].
    intros c Hc. exists comp. split; [by eapply Hmk|done]. }
  destruct a as [a|x]; go; [|apply Hfirst, tr_nil].
  eapply post_mono; [apply Hk|]. intros o s' l. apply Hfirst.
Qed.

Ltac one_comp := repeat
  match goal with
  | |- upholds (match ?x with _ => _ end) _ => destruct x
  | |- upholds (choose _) _ => apply (upholds_choose _ (fun k => call_compartment k = None))
  | |- upholds rand_Int _ => unfold rand_Int
  | |- upholds (silent _) _ => apply (upholds_silent _ (fun k => call_compartment k = None))
  | |- upholds (invoke _ _ _) _ =>
      apply (upholds_invoke _ (fun k => call_compartment k = None)); by intros
  | |- upholds (bind _ _) _ => apply upholds_bind; [apply _| |intros]
  | |- upholds (bind_ok _ _) _ => apply upholds_bind_ok; [apply _| |intros]
  | |- upholds _ _ => progress api_unfold
  | |- upholds _ _ => solve [auto with upholds typeclass_instances nocore]
  end.

Lemma oc_await {A} (get : M W (result A)) ready :
  upholds get one_compartment -> (forall a, upholds (ready a) one_compartment) ->
  upholds (await get ready) one_compartment.
Proof using All.
  intros Hget Hready. unfold await. apply upholds_bind; [apply _| |intros; one_comp].
  apply upholds_PollImmediate; [apply _|apply oc_advance|one_comp|].
  intros x. unfold await_condition. one_comp; auto.
Qed.

Lemma oc_awaits c id :
  upholds (awaitMountTarget c id) one_compartment /\ upholds (awaitFileSystem c id) one_compartment
  /\ upholds (awaitExport c id) one_compartment.
Proof using All.
  unfold awaitMountTarget, awaitFileSystem, awaitExport, mount_target_ready, file_system_ready,
    export_ready.
  split; [|split]; apply oc_await; intros; one_comp.
Qed.

Lemma oc_findExport n fs es page : upholds (findExport_from n Background fs es page) one_compartment.
Proof using All.
  revert page. induction n as [|n IH]; intros page; simpl; [one_comp|].
  apply oc_ask. intros comp s Hs. unfold ListExports. apply (oc_named comp); [done|by intros ? ? [= <-]|].
  intros a. one_comp; auto.
Qed.

Lemma oc_lookup ad name : upholds (getFileSystemByDisplayName Background ad name) one_compartment.
Proof using All.
  apply oc_ask. intros comp s Hs. unfold ListFileSystems. apply (oc_named comp); [done|by intros ? ? [= <-]|].
  intros a. one_comp.
Qed.

Lemma oc_getOrCreateFileSystem ad name :
  upholds (getOrCreateFileSystem Background ad name) one_compartment.
Proof using All.
  apply upholds_bind; [apply _|apply oc_lookup|]. intros [fs|err].
  - one_comp. apply oc_awaits.
  - destruct (bool_decide _); [one_comp|]. apply oc_ask. intros comp s Hs. unfold CreateFileSystem.
    apply (oc_named comp); [done|by intros ? ? [= <-]|]. intros a. one_comp. apply oc_awaits.
Qed.

Lemma oc_Provision fuel fsp options ad : upholds (Provision fuel fsp options ad) one_compartment.
Proof using All.
  unfold Provision, getOrCreateExport, findExport.
  one_comp; auto using oc_findExport, oc_getOrCreateFileSystem; apply oc_awaits.
Qed.
End Compartment.

Section FssProperties.
Context {W : Type} `{Backend W} `{!ProvisionerClient} `{!ProvisionerClientOk}.
Context (fuel : nat) (fsp : filesystemProvisioner) (options : VolumeOptions)
  (ad : AvailabilityDomain) (s : state W).

(** The two cases of the protocol, with the automaton's run as an equation. *)
Lemma post_runs (Q : outcome (result PersistentVolume) -> list event -> Prop) :
  (forall o, match o with Val (Ok _) | OutOfFuel => False | _ => True end -> Q o []) ->
  (forall o l pvc q, vo_PVC options = Some pvc ->
     frun (getMountTargetID options) (ad_Name ad) (GetPrefix (W := W) +:+ pvc_UID pvc)
       FTarget l = Some q ->
     ends (provisioned fsp options pvc) o q -> Q o l) ->
  post (Provision fuel fsp options ad) s (fun o _ l => Q o l).
Proof using All.
  intros Hnone Hrun. destruct (vo_PVC options) as [pvc|] eqn:Hpvc.
  - destruct (is_empty (getMountTargetID options)) eqn:He.
    + unfold Provision. rewrite Hpvc, He. go. by apply Hnone.
    + eapply post_mono; [by apply drives_Provision|]. intros o s' l (q & ? & ?). eauto.
  - unfold Provision. rewrite Hpvc. go. by apply Hnone.
Qed.

(** What is known about a volume that was returned. *)
Lemma Provision_evidence :
  post (Provision fuel fsp options ad) s (fun o _ l => forall pv, o = Val (Ok pv) ->
    exists pvc ip es fs ex path,
      vo_PVC options = Some pvc /\ pv = filesystem_pv fsp options pvc fs ex ip path
      /\ validated (getMountTargetID options) ip es l
      /\ file_system_seen fs l /\ export_seen ex path l).
Proof using All.
  apply post_runs; [by intros o Ho pv ->|].
  intros o l pvc q Hpvc Hrun Hends pv ->. simpl in Hends.
  destruct Hends as (ip & es & fs & ex & path & -> & ->).
  apply evidence_run in Hrun as (Hval & Hfs & Hex).
  by exists pvc, ip, es, fs, ex, path.
Qed.

Definition is_fss_delete (k : call) : bool :=
  match k with CDeleteFileSystem _ _ | CDeleteExport _ _ | CDeleteVolume _ _ => true | _ => false end.

(** What comes before each creation. *)
Lemma creation_checked :
  post (Provision fuel fsp options ad) s (fun o _ l => forall l1 e l2, l = l1 ++ e :: l2 ->
    is_fss_delete (ev_call e) = false
    /\ (forall req r, ev_call e = CCreateFileSystem req r ->
          cf_AvailabilityDomain req = ad_Name ad
          /\ (exists pvc, vo_PVC options = Some pvc
                /\ cf_DisplayName req = Some (GetPrefix (W := W) +:+ pvc_UID pvc))
          /\ exists ip es, validated (getMountTargetID options) ip es l1
               /\ exists comp, listed_none comp (cf_AvailabilityDomain req) (cf_DisplayName req) l1)
    /\ (forall req r, ev_call e = CCreateExport req r -> exists ip es fs,
          req = {| ce_ExportSetId := Some es; ce_FileSystemId := Some fs;
                   ce_Path := Some ("/" +:+ fs) |}
          /\ validated (getMountTargetID options) ip es l1
          /\ file_system_seen fs l1 /\ no_live_export fs es l1)).
Proof using All.
  apply post_runs; [intros o _ [|] ? ? ?; simplify_list_eq|].
  intros o l pvc q Hpvc Hrun _ l1 e l2 ->.
  apply run_split in Hrun as (p & p' & _ & Hstep & _ & Hev). split; [|split].
  - destruct (ev_call e) eqn:Hk; try done; by destruct p.
  - intros req r Hk. rewrite Hk in Hstep. destruct p; try done. simpl in Hstep.
    destruct (bool_decide_reflect (cf_AvailabilityDomain req = ad_Name ad
      /\ cf_DisplayName req = Some (GetPrefix (W := W) +:+ pvc_UID pvc))) as [[Had Hname]|]; [|done].
    rewrite Had, Hname. destruct Hev. eauto 10.
  - intros req r Hk. rewrite Hk in Hstep. destruct p; try done. simpl in Hstep.
    destruct (bool_decide_reflect (ce_ExportSetId req = Some es
      /\ ce_FileSystemId req = Some fs /\ ce_Path req = Some ("/" +:+ fs))) as [(? & ? & ?)|]; [|done].
    exists ip, es, fs. split; [|done]. destruct req; simpl in *; by subst.
Qed.

(** The listing before a creation names the compartment of the creation. *)
Lemma listed_here (s' : state W) l1 e l2 req r comp ad' name :
  one_compartment s s' (l1 ++ e :: l2) -> ev_call e = CCreateFileSystem req r ->
  listed_none comp ad' name l1 -> comp = cf_CompartmentId req.
Proof.
  intros [_ Hl] He (l' & e' & resp & -> & He' & _). rewrite Forall_forall in Hl.
  destruct (Hl e ltac:(set_solver) (cf_CompartmentId req)) as (x & -> & Hx); [by rewrite He|].
  destruct (Hl e' ltac:(set_solver) comp) as (y & -> & Hy); [by rewrite He'|]. congruence.
Qed.

(** C12: nothing is created before everything it needs has been checked. A file system is
    created only after the mount target was seen active with an address and an export set
    and the address was resolved, and only directly after a listing, of which one page is
    read, for its own compartment, availability domain and name came back empty; an export
    only for a file system that was seen active, in the export set of that mount target,
    directly after the last page of exports showed no live one; and [Provision] itself never
    deletes anything. *)
Theorem fss_creates_checked :
  post (Provision fuel fsp options ad) s (fun o _ l => forall l1 e l2, l = l1 ++ e :: l2 ->
    is_fss_delete (ev_call e) = false
    /\ (forall req r, ev_call e = CCreateFileSystem req r ->
          cf_AvailabilityDomain req = ad_Name ad
          /\ (exists pvc, vo_PVC options = Some pvc
                /\ cf_DisplayName req = Some (GetPrefix (W := W) +:+ pvc_UID pvc))
          /\ exists ip es, validated (getMountTargetID options) ip es l1
               /\ listed_none (cf_CompartmentId req) (cf_AvailabilityDomain req) (cf_DisplayName req) l1)
    /\ (forall req r, ev_call e = CCreateExport req r -> exists ip es fs,
          req = {| ce_ExportSetId := Some es; ce_FileSystemId := Some fs;
                   ce_Path := Some ("/" +:+ fs) |}
          /\ validated (getMountTargetID options) ip es l1
          /\ file_system_seen fs l1 /\ no_live_export fs es l1)).
Proof using All.
  eapply post_mono; [apply post_and; [apply (oc_Provision fuel fsp options ad)|apply creation_checked]|].
  intros o s' l [Hcomp Hl] l1 e l2 ->. destruct (Hl l1 e l2 eq_refl) as (Hd & Hf & He).
  split; [done|]. split; [|done]. intros req r Hk.
  destruct (Hf req r Hk) as (Had & Hname & ip & es & Hval & comp & Hlist).
  split; [done|]. split; [done|]. exists ip, es. split; [done|].
  by rewrite <- (listed_here _ _ _ _ _ _ _ _ _ Hcomp Hk Hlist).
Qed.

(** C13: a file-system volume that [Provision] returns is backed by what it says: its file
    system and its export were both seen active in this run, its server is an address of an
    active mount target and its path the path of that export; the name and the two
    annotations carry their OCIDs, the label the region, and it is read-only exactly when
    the claim asks for no writable mode. *)
Theorem fss_Provision_success :
  post (Provision fuel fsp options ad) s (fun o _ l => forall pv, o = Val (Ok pv) ->
    exists pvc ip es fs ex path,
      vo_PVC options = Some pvc
      /\ validated (getMountTargetID options) ip es l
      /\ file_system_seen fs l /\ export_seen ex path l
      /\ pv_Name pv = fs
      /\ gomap_lookup (pv_Annotations pv) "volume.beta.kubernetes.io/oci-volume-id" = Some fs
      /\ gomap_lookup (pv_Annotations pv) "volume.beta.kubernetes.io/oci-export-id" = Some ex
      /\ pv_Labels pv = Some {["failure-domain.beta.kubernetes.io/region" := fsp_region fsp]}
      /\ pv_AccessModes pv = pvc_AccessModes pvc
      /\ pv_FlexVolume pv = None
      /\ exists ro, pv_NFS pv = Some {| nfs_Server := ip; nfs_Path := path; nfs_ReadOnly := ro |}
           /\ (ro = true <-> ("ReadWriteMany" ∉ pvc_AccessModes pvc)
                            /\ ("ReadWriteOnce" ∉ pvc_AccessModes pvc))).
Proof using All.
  eapply post_mono; [apply Provision_evidence|]. intros o s' l Hev pv Ho.
  destruct (Hev pv Ho) as (pvc & ip & es & fs & ex & path & Hpvc & -> & Hval & Hfs & Hex).
  exists pvc, ip, es, fs, ex, path. simpl.
  rewrite lookup_insert_ne, lookup_singleton_eq, lookup_insert_eq by done.
  do 10 (split; [done|]). eexists. split; [done|].
  induction (pvc_AccessModes pvc) as [|m modes IH]; simpl; [set_solver|].
  unfold ReadWriteMany, ReadWriteOnce. rewrite !not_elem_of_cons.
  destruct (String.eqb_spec m "ReadWriteMany"), (String.eqb_spec m "ReadWriteOnce"); simpl;
    try (split; [done|]; intros [[? _] [? _]]; congruence).
  rewrite IH. intuition congruence.
Qed.
End FssProperties.

(** ** Paging *)

Section Paging.
Context {W : Type} `{Backend W} `{!ProvisionerClient} `{!ProvisionerClientOk}.

(** [pages req0 l items]: the calls [l] read consecutive pages of one listing, starting at
    the page token [page], and [items] are the exports of the pages read. *)
Inductive pages (fs es : string) : option string -> list event -> list ExportSummary ->
  option string -> Prop :=
| pages_nil p : pages fs es p [] [] p
| pages_cons p e comp resp q l items r :
    ev_call e = CListExports {| le_CompartmentId := Some comp; le_FileSystemId := Some fs;
                                le_ExportSetId := Some es; le_Page := p |} (inl resp) ->
    Forall (fun x => live_export x = false) (le_Items resp) ->
    le_OpcNextPage resp = Some q ->
    pages fs es (Some q) l items r ->
    pages fs es p (e :: l) (le_Items resp ++ items) r.

(** What [findExport] did, and with which result. *)
Inductive found (fs es : string) (page : option string) :
  outcome (result ExportSummary) -> list event -> Prop :=
| found_fuel l items r : pages fs es page l items r -> found fs es page OutOfFuel l
| found_stop l items r o :
    pages fs es page l items r ->
    ((exists x, o = Panicked x) \/ (exists c, o = Exited c)) -> found fs es page o l
| found_error l items r e req x :
    pages fs es page l items r -> ev_call e = CListExports req (inr x) ->
    found fs es page (Val (Err (ErrSDK x))) (l ++ [e])
| found_live l items r e req resp x :
    pages fs es page l items r -> ev_call e = CListExports req (inl resp) -> le_Page req = r ->
    first_such live_export (items ++ le_Items resp) = Some x ->
    found fs es page (Val (Ok x)) (l ++ [e])
| found_none l items r e req resp :
    pages fs es page l items r -> ev_call e = CListExports req (inl resp) -> le_Page req = r ->
    le_OpcNextPage resp = None ->
    first_such live_export (items ++ le_Items resp) = None ->
    found fs es page (Val (Err (ErrSentinel fss_errNotFound))) (l ++ [e]).

Lemma found_cons fs es p e comp resp q o l :
  ev_call e = CListExports {| le_CompartmentId := Some comp; le_FileSystemId := Some fs;
                              le_ExportSetId := Some es; le_Page := p |} (inl resp) ->
  first_such live_export (le_Items resp) = None ->
  le_OpcNextPage resp = Some q -> found fs es (Some q) o l -> found fs es p o (e :: l).
Proof.
  intros He Hn Hq. pose proof Hn as Hdead. apply first_such_None in Hdead.
  assert (forall items, first_such live_export ((le_Items resp ++ items)) =
            first_such live_export items) as Happ by (intros; by rewrite first_such_app, Hn).
  destruct 1 as [l items r Hp|l items r o Hp Ho|l items r e' req x Hp He'
    |l items r e' req resp' x Hp He' Hr Hx|l items r e' req resp' Hp He' Hr Hnp Hx].
  - eapply found_fuel. by econstructor.
  - eapply found_stop; [by econstructor|done].
  - apply (found_error _ _ _ (e :: l) (le_Items resp ++ items) r e' req); [by econstructor|done].
  - apply (found_live _ _ _ (e :: l) (le_Items resp ++ items) r e' req resp'); try done;
      [by econstructor|]. by rewrite <- app_assoc, Happ.
  - apply (found_none _ _ _ (e :: l) (le_Items resp ++ items) r e' req resp'); try done;
      [by econstructor|]. by rewrite <- app_assoc, Happ.
Qed.

Lemma post_findExport fuel fs es page (s : state W) :
  post (findExport_from fuel Background fs es page) s (fun o _ l =>
    found fs es page o l /\ (o = OutOfFuel -> length l = fuel)).
Proof using All.
  revert page s. induction fuel as [|fuel IH]; intros page s; simpl.
  { go. split; [|done]. eapply found_fuel. constructor. }
  go. apply post_CompartmentOCID. intros o c Hc.
  pose proof (compartment_returns (st_cfg s)) as Hr. rewrite Hc in Hr.
  destruct o as [comp|x|code|]; go; [|split; [|done]; eapply found_stop; [constructor|eauto]..|done].
  destruct a as [resp|x]; go.
  2: { split; [|done]. by eapply (found_error _ _ _ [] [] page); [apply pages_nil|]. }
  destruct (first_such live_export (le_Items resp)) as [x|] eqn:Hx; go.
  { split; [|done]. by eapply (found_live _ _ _ [] [] page _ _ resp); [apply pages_nil|done..]. }
  destruct (le_OpcNextPage resp) as [q|] eqn:Hq; go.
  2: { split; [|done]. by eapply (found_none _ _ _ [] [] page _ _ resp); [apply pages_nil|done..]. }
  eapply post_mono; [apply IH|]. intros o s2 l2 [Hf Hl]. simpl. split.
  - by eapply found_cons.
  - intros ->. by rewrite Hl.
Qed.

(** [findExport] walks the pages of one listing in order, each request carrying the
    token of the page before. It returns the first export, in listing order over all pages
    read, that is being created or active; it reports "not found" only after the last page
    and only if no page had one; a service error ends it at once; and it can only go on for
    as many pages as the service really continues. *)
Theorem findExport_spec fuel fs es (s : state W) :
  post (findExport fuel Background fs es) s (fun o _ l =>
    found fs es None o l /\ (o = OutOfFuel -> length l = fuel)).
Proof using All. apply post_findExport. Qed.

Lemma findExport_from_returns (rank : string -> nat) (bound : nat) fs es :
  (forall t w req c resp d w' q,
     fss_ListExports c req t w = (inl resp, d, w') -> le_OpcNextPage resp = Some q ->
     (rank q < match le_Page req with Some p => rank p | None => bound end)%nat) ->
  forall n page, (match page with Some p => rank p | None => bound end < n)%nat ->
  returns (findExport_from n Background fs es page).
Proof using All.
  intros Hrank. induction n as [|n IH]; intros page Hlt s; [lia|]. simpl. go.
  apply post_CompartmentOCID. intros o c Hc.
  pose proof (compartment_returns (st_cfg s)) as Hr. rewrite Hc in Hr.
  destruct o as [comp|x|code|]; go; try done.
  destruct a as [resp|x]; go; [|done].
  destruct (first_such live_export (le_Items resp)); go; [done|].
  destruct (le_OpcNextPage resp) as [q|] eqn:Hq; go; [|done].
  pose proof (Hrank _ _ _ _ _ _ _ _ Hop Hq) as Hlt'. simpl in Hlt'.
  eapply post_mono; [apply IH; lia|]. done.
Qed.

(** [findExport] terminates against a service whose paging does: if the page tokens
    decrease in some measure, one more page than the measure of the first token is always
    enough. *)
Theorem findExport_terminates (rank : string -> nat) (bound : nat) fs es (s : state W) :
  (forall t w req c resp d w' q,
     fss_ListExports c req t w = (inl resp, d, w') -> le_OpcNextPage resp = Some q ->
     (rank q < match le_Page req with Some p => rank p | None => bound end)%nat) ->
  post (findExport (S bound) Background fs es) s (fun o _ _ => o <> OutOfFuel).
Proof using All.
  intros Hrank. eapply findExport_from_returns; [exact Hrank|]. simpl. lia.
Qed.
End Paging.

(** ** Delete and the mount target *)

Section FssDelete.
Context {W : Type} `{Backend W}.

(** A delete request that needs no further attempt: it succeeded or there was nothing. *)
Definition settled (r : api unit) : bool :=
  match r with
  | inl _ => true
  | inr (ServiceFailure st _ _) => (st =? 404)%Z
  | inr (OtherSDKError _) => false
  end.

Lemma post_unless_not_found (r : api unit) (s : state W)
    (Q : outcome (result unit) -> state W -> list event -> Prop) :
  (settled r = true -> Q (Val (Ok tt)) s []) ->
  (forall x, r = inr x -> settled r = false -> Q (Val (Err (ErrSDK x))) s []) ->
  post (unless_not_found (from_api r)) s Q.
Proof.
  intros Hok Herr. destruct r as [u|[st c m|m]]; [by apply Hok| |by apply Herr].
  unfold unless_not_found, from_api. simpl in *. change StatusNotFound with 404.
  destruct (st =? 404); [by apply Hok|by apply Herr].
Qed.

Lemma fss_Delete_calls volume ex fs (s : state W) :
  gomap_lookup (pv_Annotations volume) ociExportID = Some ex ->
  gomap_lookup (pv_Annotations volume) ociVolumeID = Some fs ->
  post (Delete volume) s (fun o _ l => o = Val (Ok tt) -> exists r t r',
    l = [Event (st_now s) Background (CDeleteExport (Some ex) r);
         Event t Background (CDeleteFileSystem (Some fs) r')]).
Proof.
  intros Hex Hfs. unfold Delete. rewrite Hex, Hfs. simpl.
  destruct (is_empty ex); [by go|]. destruct (is_empty fs); [by go|].
  go. apply post_unless_not_found; [intros _|by intros x -> _; go]; go.
  apply post_unless_not_found; [intros _|by intros x -> _]; intros _; exists a; by do 2 eexists.
Qed.

(** C30: [Delete] of a file-system volume needs both annotations, or fails without a call.
    It deletes the export first and the file system only once the export is gone; either may
    be gone already; any other failure is returned as it is and stops it, so a retry starts
    over safely; it succeeds exactly when both are gone. *)
Theorem fss_Delete_spec volume (s : state W) :
  let annotation k := default EmptyString (gomap_lookup (pv_Annotations volume) k) in
  let ex := annotation "volume.beta.kubernetes.io/oci-export-id" in
  let fs := annotation "volume.beta.kubernetes.io/oci-volume-id" in
  post (Delete volume) s (fun o s' l =>
    if is_empty ex || is_empty fs
    then l = [] /\ s' = s /\ exists e, o = Val (Err e)
    else exists r t, let del := Event (st_now s) Background (CDeleteExport (Some ex) r) in
      if settled r
      then exists r', l = [del; Event t Background (CDeleteFileSystem (Some fs) r')]
             /\ (o = Val (Ok tt) <-> settled r' = true)
             /\ (forall x, r' = inr x -> settled r' = false -> o = Val (Err (ErrSDK x)))
      else l = [del] /\ exists x, r = inr x /\ o = Val (Err (ErrSDK x))).
Proof.
  intros annotation ex fs. unfold Delete. fold ociExportID ociVolumeID in ex, fs.
  change (default EmptyString (gomap_lookup (pv_Annotations volume) ociExportID)) with ex.
  change (default EmptyString (gomap_lookup (pv_Annotations volume) ociVolumeID)) with fs.
  destruct (is_empty ex); [go; simpl; by eauto|].
  destruct (is_empty fs); [go; simpl; by eauto|]. cbn [orb].
  go. apply post_unless_not_found; [intros Ha|intros x -> Hx]; go.
  - apply post_unless_not_found; [intros Hb|intros x -> Hx]; exists a; eexists; cbv zeta; rewrite Ha;
      eexists; (split; [done|]).
    + split; [done|]. intros. congruence.
    + rewrite Hx. split; [done|]. by intros ? [= <-].
  - exists (inr x), 0. cbv zeta. rewrite Hx. eauto.
Qed.
End FssDelete.

(** The mount target of a claim is its annotation when that is not empty, otherwise the
    parameter of its class. *)
Theorem getMountTargetID_spec opts :
  getMountTargetID opts =
  match vo_PVC opts ≫= fun pvc => pvc_Annotations pvc !! "volume.beta.kubernetes.io/oci-mount-target-id" with
  | Some id => if is_empty id then read_or_empty (vo_Parameters opts) "mntTargetId" else id
  | None => read_or_empty (vo_Parameters opts) "mntTargetId"
  end.
Proof.
  unfold getMountTargetID, read_or_empty. fold AnnotationMountTargetID MntTargetID.
  destruct (vo_PVC opts) as [pvc|]; simpl; [|done].
  destruct (pvc_Annotations pvc !! _) as [id|]; simpl; [|done]. by destruct (is_empty id).
Qed.

(** ** The contract with core *)

Section FssContract.
Context {W : Type} `{Backend W} `{!ProvisionerClient} `{!ProvisionerClientOk}.
Context (fsp : filesystemProvisioner).
(** A service whose paging ends: the page tokens decrease in some measure. *)
Context (rank : string -> nat) (bound : nat).
Context (Hrank : forall t w req c resp d w' q,
  fss_ListExports c req t w = (inl resp, d, w') -> le_OpcNextPage resp = Some q ->
  (rank q < match le_Page req with Some p => rank p | None => bound end)%nat).

#[local] Instance fss_Plugin : ProvisionerPlugin W :=
  {| plugin_Provision := Provision (S bound) fsp; plugin_Delete := Delete |}.

Lemma compartment_returns_m : returns (@CompartmentOCID_ W _).
Proof using All.
  intros s. apply post_CompartmentOCID. intros o c Hc.
  pose proof (compartment_returns (st_cfg s)) as Hr. by rewrite Hc in Hr.
Qed.

Lemma await_returns {A} (get : M W (result A)) ready mk v :
  one_call get mk -> upholds get timed -> judged ready v -> returns (await get ready).
Proof using All.
  intros Hget Htimed Hready s. eapply post_mono; [by apply post_await|].
  intros o s' l (_ & polls & e & _ & _ & Hend & _). by inversion Hend.
Qed.

Lemma await_timed {A} (get : M W (result A)) ready :
  upholds get timed -> (forall a, upholds (ready a) timed) -> upholds (await get ready) timed.
Proof using All.
  intros Hget Hready. unfold await. apply upholds_bind; [apply _| |].
  - apply upholds_PollImmediate; [apply _|apply upholds_advance_to|intros; upholds_tac|].
    intros x. unfold await_condition. apply upholds_bind; [apply _|done|].
    intros [a|e]; [|upholds_tac]. apply upholds_bind; [apply _|done|]. intros. upholds_tac.
  - intros [x [u|e]]; upholds_tac.
Qed.

Lemma awaits_timed c id :
  upholds (W := W) (awaitMountTarget c id) timed /\ upholds (W := W) (awaitFileSystem c id) timed
  /\ upholds (W := W) (awaitExport c id) timed.
Proof using All.
  unfold awaitMountTarget, awaitFileSystem, awaitExport, mount_target_ready, file_system_ready,
    export_ready.
  split; [|split]; apply await_timed; intros; upholds_tac.
Qed.

Lemma awaits_return c id :
  returns (W := W) (awaitMountTarget c id) /\ returns (W := W) (awaitFileSystem c id)
  /\ returns (W := W) (awaitExport c id).
Proof using All.
  split; [|split].
  - eapply await_returns; [apply one_call_GetMountTarget|apply GetMountTarget_timed|
      apply judged_mount_target].
  - eapply await_returns; [apply one_call_GetFileSystem|apply GetFileSystem_timed|
      apply judged_file_system].
  - eapply await_returns; [apply one_call_GetExport|apply GetExport_timed|apply judged_export].
Qed.

Lemma findExport_timed n fs es page :
  upholds (W := W) (findExport_from n Background fs es page) timed.
Proof.
  revert page. induction n as [|n IH]; intros page; simpl; upholds_tac.
Qed.

Lemma fss_Provision_timed n options ad : upholds (W := W) (Provision n fsp options ad) timed.
Proof using All.
  unfold Provision, getOrCreateFileSystem, getFileSystemByDisplayName, getOrCreateExport, findExport.
  upholds_tac; auto using findExport_timed; apply awaits_timed.
Qed.

Lemma fss_Provision_returns options ad : returns (W := W) (Provision (S bound) fsp options ad).
Proof using All.
  unfold Provision, getOrCreateFileSystem, getFileSystemByDisplayName, getOrCreateExport, findExport.
  returns_tac; auto using compartment_returns_m; try apply awaits_return.
  eapply findExport_from_returns; [exact Hrank|]. simpl. lia.
Qed.

(** The file-storage provisioner keeps what core relies on. *)
#[local] Instance fss_contract : PluginContract W.
Proof using All.
  split; simpl.
  - apply fss_Provision_timed.
  - intros pv. unfold Delete, unless_not_found. upholds_tac.
  - intros opts ad s. apply post_runs; [by intros o Ho pv ->|].
    intros o l pvc q _ _ Hends pv ->. destruct Hends as (ip & es & fs & ex & path & _ & ->).
    simpl. eauto.
  - intros opts ad. apply fss_Provision_returns.
  - intros pv s. unfold Delete. destruct (is_empty _); [go; eauto|].
    destruct (is_empty _); go; [eauto|].
    apply post_unless_not_found; intros; go; [|by eauto].
    apply post_unless_not_found; intros; by eauto.
  - intros pv pv' s Hsame. unfold Delete.
    assert (same_annotation ociExportID pv pv') as ->
      by (apply Hsame; eapply bool_decide_unpack; by vm_compute).
    by assert (same_annotation ociVolumeID pv pv') as ->
      by (apply Hsame; eapply bool_decide_unpack; by vm_compute).
Qed.
End FssContract.
