(* ===== verification/FssStore.v ===== *)
(** * The file-storage provisioner over retries

    [Provision] leaves its file system behind when a later step fails and finds it again by
    its display name when the controller tries again.  The class [FileStore] says what the
    calls of the file-storage service do to its file systems: a deleted one may go on being
    listed, a listing with a token for a next page may be partial, and a request that is
    answered by an error may have been executed all the same.  The invariant [holds] relates
    the file systems to the phases of the automaton of FssSpec.v.  Over any number of attempts
    one claim gets at most one file system, unless a listing was cut short. *)

From S2P Require Import Prelude GoStrings Errors Quantity Objects Config Effects Logic Wait Plugin Fss FssSpec.

Open Scope Z_scope.

(** ** The service *)

(** The availability domain and the display name of a file system. *)
Definition fs_key : Type := option string * option string.
Abbreviation file_map := (gmap string fs_key).

(** The file systems with a key. *)
Definition named (F : file_map) (k : fs_key) : gset string := dom (filter (fun kv => kv.2 = k) F).

(** A listing shows file systems of the domain and the name asked for, and perhaps some that
    are deleted; it shows all of them if it comes without a token for a next page. *)
Definition lists (F : file_map) (req : ListFileSystemsRequest) (resp : ListFileSystemsResponse) : Prop :=
  let k := (lf_AvailabilityDomain req, lf_DisplayName req) in
  let ids := fss_Id <$> lfs_Items resp in
  (lfs_OpcNextPage resp = None -> forall id, F !! id = Some k -> Some id ∈ ids)
  /\ (forall id k', Some id ∈ ids -> F !! id = Some k' -> k' = k).

(** What a request to create or to delete may have done when its reply does not say so. *)
Definition may_make (k : fs_key) (F F' : file_map) : Prop :=
  F' = F \/ exists id, F !! id = None /\ F' = <[id := k]> F.
Definition may_delete (id : string) (F F' : file_map) : Prop := F' = F \/ F' = delete id F.

(** What a call does to the file systems that are not deleted, and what its reply says about
    them. *)
Definition file_effect (F : file_map) (k : call) (F' : file_map) : Prop :=
  match k with
  | CCreateFileSystem req r =>
      let k := (cf_AvailabilityDomain req, cf_DisplayName req) in
      match r with
      | inl {| fs_Id := Some id |} => F !! id = None /\ F' = <[id := k]> F
      | _ => may_make k F F'
      end
  | CListFileSystems req (inl resp) => lists F req resp /\ F' = F
  | CGetFileSystem id (inl fs) =>
      fs_Id fs = id /\ F' = F
      /\ (fs_LifecycleState fs = FssActive -> forall i, id = Some i -> is_Some (F !! i))
  | CDeleteFileSystem (Some id) (inl _) => F' = delete id F
  | CDeleteFileSystem (Some id) (inr _) => may_delete id F F'
  | _ => F' = F
  end.

(** A log takes the file systems from one state to another. *)
Abbreviation file_effects := (along file_effect).

(** A call and its reply are those of the service: from [w] at time [t] it takes [d] and
    leads to [w']. *)
Definition ran {W : Type} `{Backend W} (k : call) (c : ctx) (t : Z) (d : N) (w w' : W) : Prop :=
  match k with
  | CCreateFileSystem req a => fss_CreateFileSystem c req t w = (a, d, w')
  | CGetFileSystem id a => fss_GetFileSystem c id t w = (a, d, w')
  | CListFileSystems req a => fss_ListFileSystems c req t w = (a, d, w')
  | CDeleteFileSystem id a => fss_DeleteFileSystem c id t w = (a, d, w')
  | CDeleteExport id a => fss_DeleteExport c id t w = (a, d, w')
  | CCreateExport req a => fss_CreateExport c req t w = (a, d, w')
  | CListExports req a => fss_ListExports c req t w = (a, d, w')
  | CGetExport id a => fss_GetExport c id t w = (a, d, w')
  | CGetMountTarget id a => fss_GetMountTarget c id t w = (a, d, w')
  | CGetPrivateIp id a => vcn_GetPrivateIp c id t w = (a, d, w')
  | _ => False
  end.

(** The promise of the service: every operation has its effect. *)
Class FileStore (W : Type) `{Backend W} := {
  files : W -> file_map;
  fs_effect : forall k c t d w w', ran k c t d w w' -> file_effect (files w) k (files w');
  fs_rand : forall t w a d w', host_rand t w = (a, d, w') -> files w' = files w;
  fs_select : forall w, files (snd (host_select w)) = files w
}.

(** ** The calls of [Provision] follow every view of the service *)

Section Follows.
Context {W : Type} `{Backend W} `{!ProvisionerClient} `{!ProvisionerClientOk}.
Context {S : Type} (view : W -> S) (effect : S -> call -> S -> Prop).
Context (Hcall : forall k c t d w w', ran k c t d w w' -> effect (view w) k (view w')).
Context (Hrand : forall t w a d w', host_rand t w = (a, d, w') -> view w' = view w).
Context (Hselect : forall w, view (snd (host_select w)) = view w).

Definition follows_view : trel := fun s s' l => along effect (view (st_world s)) l (view (st_world s')).

#[local] Instance follows_view_TraceRel : TraceRel follows_view.
Proof. split; [done|]. intros s1 s2 s3 l1 l2. apply along_app. Qed.

Lemma fv_invoke {A} c (op : Op W A) (mk : A -> call) :
  (forall t w a d w', op t w = (a, d, w') -> effect (view w) (mk a) (view w')) ->
  upholds (invoke c op mk) follows_view.
Proof.
  intros Hop s. apply post_invoke. intros a d w Hrun. unfold follows_view; simpl. eauto.
Qed.

Lemma fv_advance t : upholds (advance_to t) follows_view.
Proof. intros s. by apply post_advance_to. Qed.
Lemma fv_select : upholds (choose host_select) follows_view.
Proof using All.
  intros s. apply post_choose. intros b w Hw. unfold follows_view; simpl.
  pose proof (Hselect (st_world s)) as Hs. by rewrite Hw in Hs.
Qed.
Lemma fv_rand : upholds rand_Int follows_view.
Proof using All. intros s. go. unfold follows_view; simpl. by eapply Hrand. Qed.
Lemma fv_CompartmentOCID : upholds CompartmentOCID_ follows_view.
Proof. intros s. by apply post_CompartmentOCID. Qed.
#[local] Hint Resolve fv_advance fv_select fv_rand fv_CompartmentOCID : upholds.

Ltac follow := repeat
  match goal with
  | |- upholds (match ?x with _ => _ end) _ => destruct x
  | |- upholds _ _ => solve [auto with upholds typeclass_instances nocore]
  | |- upholds (bind _ _) _ => apply upholds_bind; [apply _| |intros]
  | |- upholds (bind_ok _ _) _ => apply upholds_bind_ok; [apply _| |intros]
  | |- upholds _ _ => progress api_unfold
  | |- upholds (invoke _ _ ?mk) _ => apply fv_invoke; intros; by eapply (Hcall (mk _))
  end.

Lemma fv_await {A} (get : M W (result A)) ready :
  upholds get follows_view -> (forall a, upholds (ready a) follows_view) ->
  upholds (await get ready) follows_view.
Proof using All.
  intros Hget Hready. unfold await. apply upholds_bind; [apply _| |intros; follow].
  apply upholds_PollImmediate; [apply _|apply fv_advance|apply fv_select|].
  intros x. unfold await_condition. follow; auto.
Qed.

Lemma fv_awaits c id :
  upholds (awaitMountTarget c id) follows_view /\ upholds (awaitFileSystem c id) follows_view
  /\ upholds (awaitExport c id) follows_view.
Proof using All.
  unfold awaitMountTarget, awaitFileSystem, awaitExport, mount_target_ready, file_system_ready,
    export_ready.
  split; [|split]; apply fv_await; intros; follow.
Qed.

Lemma fv_findExport n fs es page :
  upholds (findExport_from n Background fs es page) follows_view.
Proof using All.
  revert page. induction n as [|n IH]; intros page; simpl; follow.
Qed.

Lemma fv_Provision fuel fsp options ad : upholds (Provision fuel fsp options ad) follows_view.
Proof using All.
  unfold Provision, getOrCreateFileSystem, getFileSystemByDisplayName, getOrCreateExport, findExport.
  follow; auto using fv_findExport; apply fv_awaits.
Qed.
End Follows.

(** ** The file systems in the phases of the protocol *)

Lemma elem_named F k id : id ∈ named F k <-> F !! id = Some k.
Proof.
  unfold named. etrans; [apply elem_of_dom|]. unfold is_Some.
  setoid_rewrite map_lookup_filter_Some. simpl. naive_solver.
Qed.

Lemma named_insert F k j id :
  F !! id = None -> named (<[id := k]> F) j = if decide (j = k) then {[id]} ∪ named F j else named F j.
Proof.
  intros Hnew. apply set_eq. intros i. rewrite elem_named.
  destruct (decide (i = id)) as [->|Hi].
  - rewrite lookup_insert_eq. case_decide as Hk.
    + subst. set_solver.
    + rewrite elem_named, Hnew. naive_solver.
  - rewrite lookup_insert_ne by done. case_decide.
    + rewrite elem_of_union, elem_named, elem_of_singleton. naive_solver.
    + by rewrite elem_named.
Qed.

(** A listing with a token for a next page, which [getFileSystemByDisplayName] ignores. *)
Definition cuts (k : call) : Prop :=
  exists req resp, k = CListFileSystems req (inl resp) /\ lfs_OpcNextPage resp <> None.
Definition cut_short (l : list event) : Prop := Exists (fun e => cuts (ev_call e)) l.

Lemma cut_short_app l1 l2 : cut_short (l1 ++ l2) <-> cut_short l1 \/ cut_short l2.
Proof. apply Exists_app. Qed.

(** Over any number of attempts a key gets a file system only if it had none, and nothing
    is lost. *)
Definition evolves (F F' : file_map) : Prop :=
  F ⊆ F' /\ forall j, named F' j = named F j \/ (named F j = ∅ /\ exists id, named F' j = {[id]}).

#[export] Instance evolves_PreOrder : PreOrder evolves.
Proof.
  split; [by split; [|auto]|]. intros F1 F2 F3 [H12 K12] [H23 K23].
  split; [by etrans|]. intros j. specialize (K23 j).
  destruct (K12 j) as [<-|[? [id Hid]]]; [done|].
  right. split; [done|]. destruct K23 as [->|[He _]]; [by exists id|]. set_solver.
Qed.

(** A key with one file system keeps it. *)
Lemma evolves_only F F' k id : evolves F F' -> named F k = {[id]} -> named F' k = {[id]}.
Proof. intros [_ Hk] Hid. destruct (Hk k) as [->|[He _]]; [done|]. set_solver. Qed.

Section Grown.
(** Whether a listing was cut short. *)
Context (cut : Prop).

(** [id] is the only file system that the key can have: it was listed, or it was made. *)
Inductive awaited (k : fs_key) (F0 : file_map) (id : string) : file_map -> Prop :=
| awaited_found :
    cut \/ named F0 k ⊆ {[id]} -> (forall k', F0 !! id = Some k' -> k' = k) -> awaited k F0 id F0
| awaited_made : cut \/ named F0 k = ∅ -> F0 !! id = None -> awaited k F0 id (<[id := k]> F0).

(** [id] is a file system of the key, and the only one: it was found, or it was made. *)
Inductive grown (k : fs_key) (F0 : file_map) (id : string) : file_map -> Prop :=
| grown_found : F0 !! id = Some k -> cut \/ named F0 k ⊆ {[id]} -> grown k F0 id F0
| grown_made : cut \/ named F0 k = ∅ -> F0 !! id = None -> grown k F0 id (<[id := k]> F0).

Lemma grown_key k F0 F id : grown k F0 id F -> F !! id = Some k.
Proof. intros [? ?|? ?]; [done|]. by rewrite lookup_insert_eq. Qed.

Context (Hwhole : ~ cut).

Lemma grown_named k F0 F id : grown k F0 id F -> named F k = {[id]}.
Proof using Hwhole.
  intros [Hid [?|Hn]|[?|Hn] ?]; try done.
  - apply elem_named in Hid. set_solver.
  - rewrite named_insert, decide_True by done. set_solver.
Qed.

Lemma grown_evolves k F0 F id : grown k F0 id F -> evolves F0 F.
Proof using Hwhole.
  intros [? ?|[?|Hn] Hnew]; try done. split; [by apply insert_subseteq|]. intros j.
  rewrite named_insert by done. case_decide as Hj; [|by left]. subst j. right.
  split; [done|]. exists id. set_solver.
Qed.
End Grown.

Section Phases.
Context (cut : Prop) (mtID : string) (adName : option string) (displayName : string).
Abbreviation key := (adName, Some displayName).
Abbreviation step := (fstep mtID adName displayName).
Abbreviation run := (frun mtID adName displayName).

Definition holds (F0 : file_map) (q : fphase) (F : file_map) : Prop :=
  match q with
  | FTarget | FAddress _ _ | FLookup _ _ => F = F0
  | FCreate _ _ => F = F0 /\ (cut \/ named F0 key = ∅)
  | FAwaitFs _ _ id => awaited cut key F0 id F
  | FPages _ _ id _ | FCreateExport _ _ id | FAwaitExport _ _ id _
  | FDone _ _ id _ _ => grown cut key F0 id F
  | FFailed _ | FBroken => F = F0 \/ exists id, grown cut key F0 id F
  end.

Lemma holds_looked F0 F v stay good :
  holds F0 FBroken F -> holds F0 stay F -> (v = Good -> holds F0 good F) ->
  holds F0 (looked v stay good) F.
Proof. destruct v; simpl; auto. Qed.

Lemma holds_with_id F0 F id next :
  holds F0 FBroken F -> (forall i, id = Some i -> holds F0 (next i) F) ->
  holds F0 (with_id id next) F.
Proof. destruct id; simpl; auto. Qed.

Lemma listed_one F req resp fs id :
  (lfs_OpcNextPage resp <> None -> cut) ->
  lf_AvailabilityDomain req = adName -> lf_DisplayName req = Some displayName ->
  lists F req resp -> lfs_Items resp = [fs] -> fss_Id fs = Some id -> awaited cut key F id F.
Proof.
  unfold lists. intros Hcut -> -> [Hall Hkey] Hitems Hid. rewrite Hitems in *. simpl in *. rewrite Hid in *.
  apply awaited_found.
  - destruct (lfs_OpcNextPage resp) eqn:Hn; [by left; apply Hcut|right].
    intros i Hi%elem_named%(Hall eq_refl)%list_elem_of_singleton. set_solver.
  - intros k Hk. by apply (Hkey id); [left|].
Qed.

Lemma listed_none_named F req resp :
  (lfs_OpcNextPage resp <> None -> cut) ->
  lists F req resp -> lfs_Items resp = [] ->
  cut \/ named F (lf_AvailabilityDomain req, lf_DisplayName req) = ∅.
Proof.
  intros Hcut [Hl _] Hitems. destruct (lfs_OpcNextPage resp) eqn:Hn; [by left; apply Hcut|right].
  rewrite Hitems in Hl. apply set_eq. intros i. rewrite elem_named. split; [|set_solver].
  intros Hi%(Hl eq_refl). by apply elem_of_nil in Hi.
Qed.

Lemma awaited_grown F0 F id : awaited cut key F0 id F -> is_Some (F !! id) -> grown cut key F0 id F.
Proof.
  intros [Hn Hk|Hn Hnew] [k Hid]; [|by apply grown_made]. apply grown_found; [|done].
  by rewrite <- (Hk k Hid).
Qed.

Lemma awaited_settled F0 F id : awaited cut key F0 id F -> F = F0 \/ exists i, grown cut key F0 i F.
Proof. intros [? ?|? ?]; [by left|right]. exists id. by apply grown_made. Qed.

(** A request to create that failed may have made a file system. *)
Lemma made_settled F0 F :
  cut \/ named F0 key = ∅ -> may_make key F0 F -> F = F0 \/ exists i, grown cut key F0 i F.
Proof. intros Hn [->|(id & Hnew & ->)]; [by left|right]. exists id. by apply grown_made. Qed.

Lemma holds_step F0 F F' q k q' :
  (cuts k -> cut) ->
  holds F0 q F -> step q k = Some q' -> file_effect F k F' -> holds F0 q' F'.
Proof.
  intros Hcut Hq Hstep Heff. destruct q; destruct k; simpl in Hstep; try done;
    try (destruct PrivateIpId as [i|]; [|done]);
    match type of Hstep with context [bool_decide ?P] =>
      destruct (bool_decide_reflect P) as [Hb|]; try done end; simpl in Hstep;
    injection Hstep as <-; destruct resp as [a|x]; simpl in Hq, Heff; subst; try (simpl; eauto; fail).
  - apply holds_looked; simpl; auto. intros _. unfold target_phase.
    destruct (_ =? _)%nat; simpl; auto. destruct (mt_ExportSetId a); simpl; auto.
  - destruct (ip_IpAddress a); simpl; auto.
  - destruct Hb as [Had Hname], Heff as [Hl ->].
    assert (lfs_OpcNextPage a <> None -> cut) as Hpage by (intros Hn; apply Hcut; by exists req, a).
    destruct (lfs_Items a) as [|fs [|fs' items]] eqn:Hitems;
      [split; [done|]|apply holds_with_id; [by left|]|by left].
    + rewrite <- Had, <- Hname. by eapply listed_none_named.
    + intros i Hi. simpl. by eapply listed_one.
  - destruct Hq as [-> Hnone], Hb as [Had Hname]. rewrite Had, Hname in Heff. destruct a as [[i|] st]; simpl.
    + destruct Heff as [Hnew ->]. by constructor.
    + by apply made_settled.
  - destruct Hq as [-> Hnone], Hb as [Had Hname]. rewrite Had, Hname in Heff. by apply made_settled.
  - destruct Heff as (Hid & -> & Hlive). apply holds_looked; simpl; [by eapply awaited_settled|done|].
    intros Hgood. apply good_active in Hgood as [Hgood|Hgood]; [|by apply named_not_good in Hgood].
    apply holds_with_id; simpl; [by eapply awaited_settled|]. intros i Hi.
    assert (i = id) as -> by congruence. apply awaited_grown; [done|]. by apply Hlive.
  - by eapply awaited_settled.
  - destruct (first_such _ _); [apply holds_with_id; simpl; eauto|].
    destruct (le_OpcNextPage a); simpl; auto.
  - apply holds_with_id; simpl; eauto.
  - apply holds_looked; simpl; eauto. intros _. unfold export_phase.
    apply holds_with_id; simpl; [eauto|]. intros i _. apply holds_with_id; simpl; eauto.
Qed.

Lemma holds_run F0 l q q' F F' :
  (cut_short l -> cut) ->
  holds F0 q F -> run q l = Some q' -> file_effects F l F' -> holds F0 q' F'.
Proof.
  revert q F. induction l as [|e l IH]; intros q F Hcut Hq; simpl; [by intros [= <-] ->|].
  destruct (step q (ev_call e)) as [q1|] eqn:Hs; [|done]. intros Hrun (F1 & He & Hl).
  eapply IH; [intros Hl'; apply Hcut; by right| |done..].
  eapply holds_step; [intros Hk; apply Hcut; by left|done..].
Qed.

Lemma holds_settled F0 q F : holds F0 q F -> F = F0 \/ exists id, grown cut key F0 id F.
Proof.
  destruct q; simpl; try (by left); try (by right; eexists); try (by intros [-> _]; left); [|done..].
  by apply awaited_settled.
Qed.
End Phases.

(** ** Retries *)

Section Retries.
Context {W : Type} `{Backend W} `{!ProvisionerClient} `{!ProvisionerClientOk} `{!FileStore W}.
Context (fuel : nat) (fsp : filesystemProvisioner).

(** The key under which a request looks for its file system. *)
Definition request_key (options : VolumeOptions) (ad : AvailabilityDomain) : fs_key :=
  (ad_Name ad, (fun pvc => GetPrefix (W := W) +:+ pvc_UID pvc) <$> vo_PVC options).

Lemma request_key_claim options ad pvc : vo_PVC options = Some pvc ->
  request_key options ad = (ad_Name ad, Some (GetPrefix (W := W) +:+ pvc_UID pvc)).
Proof. unfold request_key. by intros ->. Qed.

(** Whatever [Provision] answers, it changed nothing or the key has its file system. *)
Lemma Provision_settled options ad (s : state W) :
  post (Provision fuel fsp options ad) s (fun o s' l =>
    let F := files (st_world s) in
    let F' := files (st_world s') in
    (F' = F \/ exists id, grown (cut_short l) (request_key options ad) F id F')
    /\ forall pv, o = Val (Ok pv) -> grown (cut_short l) (request_key options ad) F (pv_Name pv) F').
Proof using All.
  eapply post_mono; [apply post_and; [apply (fv_Provision files file_effect fs_effect fs_rand fs_select)|apply post_runs with
    (Q := fun o l => forall F F', file_effects F l F' ->
      (F' = F \/ exists id, grown (cut_short l) (request_key options ad) F id F')
      /\ forall pv, o = Val (Ok pv) -> grown (cut_short l) (request_key options ad) F (pv_Name pv) F')]|].
  - intros o Ho F F' ->. split; [by left|]. by intros pv ->.
  - intros o l pvc q Hpvc Hrun Hends F F' Hl. rewrite (request_key_claim _ _ _ Hpvc).
    assert (holds (cut_short l) (ad_Name ad) (GetPrefix (W := W) +:+ pvc_UID pvc) F q F') as Hq
      by by eapply holds_run with (q := FTarget).
    split; [by eapply holds_settled|]. intros pv ->.
    by destruct Hends as (ip & es & fs & ex & path & -> & ->).
  - intros o s' l [Hl HQ]. by apply HQ.
Qed.

Lemma settled_evolves cut k F F' :
  ~ cut -> F' = F \/ (exists id, grown cut k F id F') -> evolves F F'.
Proof. intros Hcut [->|[id Hg]]; [done|]. by eapply grown_evolves. Qed.

Lemma Provision_evolves options ad (s : state W) :
  post (Provision fuel fsp options ad) s (fun o s' l => ~ cut_short l ->
    evolves (files (st_world s)) (files (st_world s'))
    /\ forall pv, o = Val (Ok pv) ->
         named (files (st_world s')) (request_key options ad) = {[pv_Name pv]}).
Proof using All.
  eapply post_mono; [apply Provision_settled|]. intros o s' l [Hs Hspec] Hcut.
  split; [by eapply settled_evolves|]. intros pv Ho. by eapply grown_named, Hspec.
Qed.

Definition attempts (reqs : list (VolumeOptions * AvailabilityDomain)) :
  M W (list (result PersistentVolume)) := mapM (fun '(o, ad) => Provision fuel fsp o ad) reqs.

Definition evolving : trel (W := W) := fun s s' l =>
  ~ cut_short l -> evolves (files (st_world s)) (files (st_world s')).

#[local] Instance evolving_TraceRel : TraceRel evolving.
Proof.
  unfold evolving. split; [done|]. intros s1 s2 s3 l1 l2 H12 H23. rewrite cut_short_app. intros Hcut.
  etrans; [apply H12|apply H23]; tauto.
Qed.

Lemma attempts_evolve reqs : upholds (attempts reqs) evolving.
Proof using All.
  induction reqs as [|[options ad] reqs IH]; [by apply upholds_ret, _|].
  apply upholds_bind; [apply _| |].
  - intros s. eapply post_mono; [apply Provision_evolves|]. intros o s' l He Hcut. by apply He.
  - intros r. apply upholds_bind; [apply _|done|]. intros rs. by apply upholds_ret, _.
Qed.

Lemma attempts_named reqs (s : state W) rs s' l :
  attempts reqs s = (Val rs, s', l) -> ~ cut_short l ->
  Forall2 (fun '(options, ad) r => forall pv, r = Ok pv ->
    named (files (st_world s')) (request_key options ad) = {[pv_Name pv]}) reqs rs.
Proof using All.
  revert s l rs. induction reqs as [|[options ad] reqs IH]; intros s l rs.
  { intros [= <- _ _] _. constructor. }
  intros (r & s1 & l1 & l2 & Hr & (rs' & s2 & l3 & l4 & Hrs & [= <- <- <-] & ->)%bind_Val & ->)%bind_Val.
  rewrite app_nil_r, cut_short_app. intros [Hc1 Hc3]%Decidable.not_or.
  constructor; [|by eapply IH]. intros pv ->.
  eapply evolves_only; [by apply (post_run _ _ _ _ _ _ (attempts_evolve reqs s1) Hrs)|].
  by apply (post_run _ _ _ _ _ _ (Provision_evolves options ad s) Hr Hc1).
Qed.

(** [Provision] of a file system can be repeated. Let any sequence of attempts, for any
    claims and in any order, be made against a service that keeps the laws of [FileStore], and
    let no listing be cut short.  However the attempts end, no file system is lost, and an availability domain and a
    display name that had a file system get no other; one that had none gets at most one.
    Every volume returned is the only file system of its claim, so all the attempts for one
    claim that succeed return the same one. *)
Theorem fss_Provision_retries reqs (s : state W) :
  post (attempts reqs) s (fun o s' l => ~ cut_short l ->
    evolves (files (st_world s)) (files (st_world s'))
    /\ forall rs, o = Val rs -> Forall2 (fun '(options, ad) r => forall pv, r = Ok pv ->
         named (files (st_world s')) (request_key options ad) = {[pv_Name pv]}) reqs rs).
Proof using All.
  apply post_of_run. intros o s' l Hrun Hcut. split.
  - by apply (post_run _ _ _ _ _ _ (attempts_evolve reqs s) Hrun).
  - intros rs ->. by eapply attempts_named.
Qed.
End Retries.
