(* ===== verification/FssAssets.v ===== *)
(** * The file-storage provisioner as a store of file systems and exports

    What the plugin keeps in the cloud: for a claim a file system, and for each export set
    through which it is mounted an export of it.  To the laws of FssStore.v the class
    [ExportStore] adds what the calls do to the exports, of which a listing comes in pages;
    a request that is answered by an error may have been executed.  The invariant [shares]
    relates the exports to the phases of the automaton of FssSpec.v.  Over any sequence of
    operations the provisioner refines the store that [store_step] describes: what the store
    cannot promise, because a listing was cut short or a deletion was answered with a 404,
    is said in terms of the log. *)

From S2P Require Import Prelude GoStrings Errors Quantity Objects Config Effects Logic Wait Plugin Fss FssSpec FssStore.

Open Scope Z_scope.

(** ** The service *)

(** The exports that are not deleted, each with its file system and its export set. *)
Definition ex_key : Type := option string * option string.
Abbreviation ex_map := file_map.

Definition list_key (req : ListExportsRequest) : ex_key := (le_FileSystemId req, le_ExportSetId req).

Section Effect.
(** The exports with a key that the pages from a token on are going to list; without a token
    that is from the first page. *)
Context (upcoming : ex_map -> ex_key -> option string -> gset string).

(** A page shows exports that are there, and nothing is lost between the pages. *)
Definition page_lists (E : ex_map) (req : ListExportsRequest) (resp : ListExportsResponse) : Prop :=
  (forall x id, x ∈ le_Items resp -> live_export x = true -> es_Id x = Some id ->
     E !! id = Some (list_key req))
  /\ (forall id, id ∈ upcoming E (list_key req) (le_Page req) ->
        (exists x, x ∈ le_Items resp /\ live_export x = true /\ es_Id x = Some id)
        \/ exists q, le_OpcNextPage resp = Some q /\ id ∈ upcoming E (list_key req) (Some q)).

Definition export_effect (E : ex_map) (k : call) (E' : ex_map) : Prop :=
  match k with
  | CCreateExport req r =>
      let k := (ce_FileSystemId req, ce_ExportSetId req) in
      match r with
      | inl {| ex_Id := Some id |} => E !! id = None /\ E' = <[id := k]> E
      | _ => may_make k E E'
      end
  | CListExports req (inl resp) => page_lists E req resp /\ E' = E
  | CGetExport id (inl ex) => ex_Id ex = id /\ E' = E
  | CDeleteExport (Some id) (inl _) => E' = delete id E
  | CDeleteExport (Some id) (inr _) => may_delete id E E'
  | _ => E' = E
  end.
End Effect.

Class ExportStore (W : Type) `{Backend W} := {
  exports : W -> ex_map;
  upcoming : ex_map -> ex_key -> option string -> gset string;
  ex_effect : forall k c t d w w', ran k c t d w w' -> export_effect upcoming (exports w) k (exports w');
  ex_rand : forall t w a d w', host_rand t w = (a, d, w') -> exports w' = exports w;
  ex_select : forall w, exports (snd (host_select w)) = exports w;
  ex_first : forall E k, upcoming E k None = named E k
}.

(** ** The exports in the phases of the protocol *)

(** [x] is an export with the key: it was found, or it was made where there was none. *)
Inductive shared (k : ex_key) (E : ex_map) (x : string) : ex_map -> Prop :=
| shared_found : E !! x = Some k -> shared k E x E
| shared_made : named E k = ∅ -> E !! x = None -> shared k E x (<[x := k]> E).

(** A request to create that failed may have made an export. *)
Lemma may_make_shared k E E' : named E k = ∅ -> may_make k E E' -> E' = E \/ exists x, shared k E x E'.
Proof. intros Hn [->|(x & Hnew & ->)]; [by left|right]. exists x. by apply shared_made. Qed.

Section Phases.
Context (cut : Prop) (upcoming : ex_map -> ex_key -> option string -> gset string).
Context (Hfirst : forall E k, upcoming E k None = named E k).
Context (mtID : string) (adName : option string) (displayName : string).
Abbreviation key := (adName, Some displayName).
Abbreviation step := (fstep mtID adName displayName).
Abbreviation run := (frun mtID adName displayName).

Definition shares (F0 : file_map) (E0 : ex_map) (q : fphase) (F : file_map) (E : ex_map) : Prop :=
  match q with
  | FPages _ es f page =>
      E = E0 /\ named E0 (Some f, Some es) ⊆ upcoming E0 (Some f, Some es) page
  | FCreateExport _ es f => E = E0 /\ named E0 (Some f, Some es) = ∅
  | FAwaitExport _ es f x | FDone _ es f x _ => shared (Some f, Some es) E0 x E
  | FFailed _ | FBroken =>
      E = E0 \/ exists f es x, grown cut key F0 f F /\ shared (Some f, Some es) E0 x E
  | _ => E = E0
  end.

Lemma shares_looked F0 E0 F E v stay good :
  shares F0 E0 FBroken F E -> shares F0 E0 stay F E -> (v = Good -> shares F0 E0 good F E) ->
  shares F0 E0 (looked v stay good) F E.
Proof. destruct v; simpl; auto. Qed.

Lemma shares_with_id F0 E0 F E id next :
  shares F0 E0 FBroken F E -> (forall i, id = Some i -> shares F0 E0 (next i) F E) ->
  shares F0 E0 (with_id id next) F E.
Proof. destruct id; simpl; auto. Qed.

(** A page without a live export leaves those of the next pages, or none. *)
Lemma page_passed E req resp :
  page_lists upcoming E req resp -> first_such live_export (le_Items resp) = None ->
  forall id, id ∈ upcoming E (list_key req) (le_Page req) ->
  exists q, le_OpcNextPage resp = Some q /\ id ∈ upcoming E (list_key req) (Some q).
Proof.
  intros [_ Hrest] Hnone id Hid. destruct (Hrest id Hid) as [(x & Hx & Hlive & _)|]; [|done].
  rewrite first_such_None, Forall_forall in Hnone. by rewrite (Hnone x Hx) in Hlive.
Qed.
Lemma shares_step F0 E0 F E F' E' q k q' :
  holds cut adName displayName F0 q F -> shares F0 E0 q F E -> step q k = Some q' ->
  file_effect F k F' -> export_effect upcoming E k E' -> shares F0 E0 q' F' E'.
Proof using All.
  intros Hh Hq Hstep Hf He. destruct q; destruct k; simpl in Hstep; try done;
    try (destruct PrivateIpId as [i|]; [|done]);
    match type of Hstep with context [bool_decide ?P] =>
      destruct (bool_decide_reflect P) as [Hb|]; try done end; simpl in Hstep;
    injection Hstep as <-; destruct resp as [a|x]; simpl in Hh, Hq, Hf, He; subst; try (simpl; eauto; fail).
  - apply shares_looked; simpl; auto. intros _. unfold target_phase.
    destruct (_ =? _)%nat; simpl; auto. destruct (mt_ExportSetId a); simpl; auto.
  - destruct (ip_IpAddress a); simpl; auto.
  - destruct (lfs_Items a) as [|fs [|fs' items]]; [done|apply shares_with_id; [by left|done]|by left].
  - apply shares_with_id; [by left|done].
  - apply shares_looked; [by left|done|]. intros _. apply shares_with_id; [by left|].
    intros i _. simpl. by rewrite Hfirst.
  - destruct Hq as [-> Hnamed], He as [Hpage ->], Hb as (Hfs & Hes & Hpg).
    assert (list_key req = (Some fs, Some es)) as Hkey by (unfold list_key; congruence).
    destruct (first_such _ _) as [x|] eqn:Hlive.
    + apply first_such_In in Hlive as [Hin Hlive]. apply shares_with_id; [by left|].
      intros i Hi. simpl. apply shared_found. rewrite <- Hkey. by eapply (proj1 Hpage).
    + pose proof (page_passed _ _ _ Hpage Hlive) as Hpass. rewrite Hkey, Hpg in Hpass.
      destruct (le_OpcNextPage a) as [p|]; simpl; (split; [done|]).
      * intros i Hi. by destruct (Hpass i (Hnamed i Hi)) as (? & [= <-] & ?).
      * apply set_eq. intros i. split; [|set_solver]. intros Hi.
        by destruct (Hpass i (Hnamed i Hi)) as (? & ? & _).
  - destruct Hq as [-> _]. by left.
  - destruct Hq as [-> Hnone], Hb as (Hes & Hfs & _). rewrite Hes, Hfs in He.
    destruct a as [[i|] st path]; simpl.
    + destruct He as [Hnew ->]. by apply shared_made.
    + destruct (may_make_shared _ _ _ Hnone He) as [->|[y Hy]]; [by left|right; eauto].
  - destruct Hq as [-> Hnone], Hb as (Hes & Hfs & _). rewrite Hes, Hfs in He.
    destruct (may_make_shared _ _ _ Hnone He) as [->|[y Hy]]; [by left|right; eauto].
  - destruct He as [Hid ->].
    assert (shares F0 E0 FBroken F E) as Hbroken by (right; eauto).
    apply shares_looked; [done|done|]. intros _. unfold export_phase.
    apply shares_with_id; [done|]. intros i Hi. apply shares_with_id; [done|]. intros path _.
    simpl. congruence.
  - right. eauto.
Qed.

Lemma shares_run F0 E0 l q q' F E F' E' :
  (cut_short l -> cut) ->
  holds cut adName displayName F0 q F -> shares F0 E0 q F E -> run q l = Some q' ->
  file_effects F l F' -> along (export_effect upcoming) E l E' -> shares F0 E0 q' F' E'.
Proof using All.
  revert q F E. induction l as [|e l IH]; intros q F E Hcut Hh Hq; simpl; [by intros [= <-] -> ->|].
  destruct (step q (ev_call e)) as [q1|] eqn:Hs; [|done]. intros Hrun (F1 & Hf & Hl) (E1 & He & Hm).
  eapply IH; [intros Hl'; apply Hcut; by right| |by eapply shares_step|done..].
  eapply holds_step; [intros Hk; apply Hcut; by left|done..].
Qed.

(** What a [Provision] that does not finish may leave for the next one. *)
Definition unfinished (k : fs_key) (F : file_map) (E : ex_map) (F' : file_map) (E' : ex_map) : Prop :=
  (F' = F /\ E' = E)
  \/ exists f, grown cut k F f F' /\ (E' = E \/ exists es x, shared (Some f, Some es) E x E').

Lemma shares_settled F0 E0 q F E :
  holds cut adName displayName F0 q F -> shares F0 E0 q F E -> unfinished key F0 E0 F E.
Proof.
  intros Hh Hq. pose proof (holds_settled _ _ _ _ _ _ Hh) as Hs. unfold unfinished.
  assert (E = E0 \/ exists f es x, grown cut key F0 f F /\ shared (Some f, Some es) E0 x E) as Hx.
  { destruct q; simpl in Hh, Hq; eauto; try (by destruct Hq; left); right; eauto 8. }
  destruct Hx as [->|(f & es & x & Hg & Hx)]; [|right; eauto 6].
  destruct Hs as [->|[f Hg]]; [by left|right; eauto].
Qed.
End Phases.

(** ** The store *)

(** No two share a key: each claim has at most one file system, each file system at most one
    export in an export set. *)
Definition tidy (E : ex_map) : Prop := forall x y k, E !! x = Some k -> E !! y = Some k -> x = y.

Lemma tidy_shared k E x E' : shared k E x E' -> tidy E -> tidy E'.
Proof.
  intros [?|Hnone Hnew]; [done|]. intros Htidy a b j.
  assert (forall y, E !! y = Some k -> False) as Hno.
  { intros y Hy%elem_named. rewrite Hnone in Hy. set_solver. }
  destruct (decide (a = x)) as [->|Ha], (decide (b = x)) as [->|Hb];
    rewrite ?lookup_insert_eq, ?lookup_insert_ne by done; intros Hx Hy; simplify_eq; try done.
  - by destruct (Hno b).
  - by destruct (Hno a).
  - by eapply Htidy.
Qed.

Lemma tidy_grown cut k F id F' : ~ cut -> grown cut k F id F' -> tidy F -> tidy F'.
Proof.
  intros Hcut [?|[?|Hnone] Hnew]; [done..|]. eapply tidy_shared. by apply shared_made.
Qed.

Lemma tidy_delete E x : tidy E -> tidy (delete x E).
Proof. intros Htidy a b j [_ Ha]%lookup_delete_Some [_ Hb]%lookup_delete_Some. by eapply Htidy. Qed.

Lemma tidy_may_delete E E' x : may_delete x E E' -> tidy E -> tidy E'.
Proof. intros [->| ->]; [done|apply tidy_delete]. Qed.

Record assets : Type := Assets { a_files : file_map; a_exports : ex_map }.

(** The deletion [k] was answered with a 404: there was nothing, or it was denied. *)
Definition denied (l : list event) (k : api unit -> call) : Prop :=
  Exists (fun e => exists c m, ev_call e = k (inr (ServiceFailure 404 c m))) l.

(** What a deletion that went well leaves. *)
Definition removed (unsure : Prop) (id : string) (F F' : file_map) : Prop :=
  F' = delete id F \/ (unsure /\ F' = F).

Lemma removed_may_delete unsure id F F' : removed unsure id F F' -> may_delete id F F'.
Proof. intros [->|[_ ->]]; [by right|by left]. Qed.

Lemma removed_by (reply : api unit) unsure id F F' :
  settled reply = true -> (forall c m, reply = inr (ServiceFailure 404 c m) -> unsure) ->
  match reply with inl _ => F' = delete id F | inr _ => may_delete id F F' end ->
  removed unsure id F F'.
Proof.
  destruct reply as [u|[st c m|m]]; simpl; [by left| |done].
  intros ->%Z.eqb_eq Hd [->| ->]; [right|by left]. split; [by eapply Hd|done].
Qed.

Inductive command : Type :=
| CmdProvision (options : VolumeOptions) (ad : AvailabilityDomain)
| CmdDelete (volume : PersistentVolume).

Inductive response : Type :=
| RProvision (r : result PersistentVolume)
| RDelete (r : result unit).

(** A volume is the file system of its claim with an export of it; a [Provision] that fails
    may leave either behind.  [l] are the calls of the operation. *)
Inductive provision_spec (l : list event) (k : fs_key) (a : assets) :
  result PersistentVolume -> assets -> Prop :=
| spec_provisioned pv es x F' E' :
    gomap_lookup (pv_Annotations pv) ociVolumeID = Some (pv_Name pv) ->
    gomap_lookup (pv_Annotations pv) ociExportID = Some x ->
    grown (cut_short l) k (a_files a) (pv_Name pv) F' ->
    shared (Some (pv_Name pv), Some es) (a_exports a) x E' ->
    provision_spec l k a (Ok pv) (Assets F' E')
| spec_failed e F' E' :
    unfinished (cut_short l) k (a_files a) (a_exports a) F' E' ->
    provision_spec l k a (Err e) (Assets F' E').

(** [Delete] takes away the export and then the file system that the volume names. *)
Inductive delete_spec (l : list event) (a : assets) (pv : PersistentVolume) :
  result unit -> assets -> Prop :=
| spec_deleted id x F' E' :
    gomap_lookup (pv_Annotations pv) ociVolumeID = Some id ->
    gomap_lookup (pv_Annotations pv) ociExportID = Some x ->
    removed (denied l (CDeleteExport (Some x))) x (a_exports a) E' ->
    removed (denied l (CDeleteFileSystem (Some id))) id (a_files a) F' ->
    delete_spec l a pv (Ok tt) (Assets F' E')
| spec_file_system_failed id x e F' E' :
    gomap_lookup (pv_Annotations pv) ociVolumeID = Some id ->
    gomap_lookup (pv_Annotations pv) ociExportID = Some x ->
    removed (denied l (CDeleteExport (Some x))) x (a_exports a) E' ->
    may_delete id (a_files a) F' ->
    delete_spec l a pv (Err e) (Assets F' E')
| spec_export_failed x e E' :
    gomap_lookup (pv_Annotations pv) ociExportID = Some x ->
    may_delete x (a_exports a) E' ->
    delete_spec l a pv (Err e) (Assets (a_files a) E')
| spec_not_deleted e : delete_spec l a pv (Err e) a.

Section Store.
Context {W : Type} `{Backend W} `{!ProvisionerClient} `{!ProvisionerClientOk}.
Context `{!FileStore W} `{!ExportStore W}.
Context (fuel : nat) (fsp : filesystemProvisioner).

Definition do_command (c : command) : M W response :=
  match c with
  | CmdProvision options ad => let* r := Provision fuel fsp options ad in ret (RProvision r)
  | CmdDelete volume => let* r := Delete volume in ret (RDelete r)
  end.

Definition assets_of (w : W) : assets := Assets (files w) (exports w).

Inductive store_step (l : list event) (a : assets) : command -> response -> assets -> Prop :=
| step_provision options ad r a' :
    provision_spec l (request_key options ad) a r a' ->
    store_step l a (CmdProvision options ad) (RProvision r) a'
| step_delete volume r a' :
    delete_spec l a volume r a' -> store_step l a (CmdDelete volume) (RDelete r) a'.

(** The steps of a sequence of operations, each with the part of the log that is its own. *)
Inductive store_run : assets -> list command -> list response -> list event -> assets -> Prop :=
| run_done a : store_run a [] [] [] a
| run_next a c r l a' cs rs l' a'' :
    store_step l a c r a' -> store_run a' cs rs l' a'' ->
    store_run a (c :: cs) (r :: rs) (l ++ l') a''.

Lemma provision_refines options ad (s : state W) :
  post (Provision fuel fsp options ad) s (fun o s' l => forall r, o = Val r ->
    provision_spec l (request_key options ad) (assets_of (st_world s)) r (assets_of (st_world s'))).
Proof using All.
  eapply post_mono; [apply post_and;
    [apply (fv_Provision files file_effect fs_effect fs_rand fs_select)|apply post_and;
    [apply (fv_Provision exports (export_effect upcoming) ex_effect ex_rand ex_select)|apply post_runs with
    (Q := fun o l => forall F F' E E', file_effects F l F' -> along (export_effect upcoming) E l E' ->
      forall r, o = Val r -> provision_spec l (request_key options ad) (Assets F E) r (Assets F' E'))]]|].
  - intros o Ho F F' E E' -> -> [pv|e] ->; [done|]. constructor. by left.
  - intros o l pvc q Hpvc Hrun Hends F F' E E' Hf He r ->. rewrite (request_key_claim _ _ _ Hpvc).
    assert (holds (cut_short l) (ad_Name ad) (GetPrefix (W := W) +:+ pvc_UID pvc) F q F') as Hh
      by by eapply holds_run with (q := FTarget).
    assert (shares (cut_short l) upcoming (ad_Name ad) (GetPrefix (W := W) +:+ pvc_UID pvc) F E q F' E') as Hs
      by by eapply (shares_run (cut_short l) upcoming ex_first) with (q := FTarget).
    destruct r as [pv|e]; [|constructor; by eapply shares_settled].
    destruct Hends as (ip & es & f & x & path & -> & ->).
    by apply spec_provisioned with es x; [apply pv_file_system|apply pv_export|..].
  - intros o s' l (Hf & He & HQ). by apply HQ.
Qed.

Lemma fss_delete_refines volume (s : state W) :
  post (Delete volume) s (fun o s' l => forall r, o = Val r ->
    delete_spec l (assets_of (st_world s)) volume r (assets_of (st_world s'))).
Proof using All.
  unfold Delete.
  destruct (gomap_lookup (pv_Annotations volume) ociExportID) as [x|] eqn:Hx; simpl;
    [|go; intros r [= <-]; constructor].
  destruct (is_empty x); [go; intros r [= <-]; constructor|].
  destruct (gomap_lookup (pv_Annotations volume) ociVolumeID) as [id|] eqn:Hid; simpl;
    [|go; intros r [= <-]; constructor].
  destruct (is_empty id); [go; intros r [= <-]; constructor|]. go.
  assert (files w = files (st_world s)) as Hf by by eapply (fs_effect (CDeleteExport (Some x) a)).
  assert (export_effect upcoming (exports (st_world s)) (CDeleteExport (Some x) a) (exports w)) as He
    by by eapply (ex_effect (CDeleteExport (Some x) a)).
  unfold assets_of. apply post_unless_not_found; [intros Hset|intros e -> _]; go.
  2: { rewrite Hf. intros r [= <-]. by eapply spec_export_failed. }
  assert (exports w0 = exports w) as Hx2 by by eapply (ex_effect (CDeleteFileSystem (Some id) a0)).
  assert (file_effect (files w) (CDeleteFileSystem (Some id) a0) (files w0)) as Hd
    by by eapply (fs_effect (CDeleteFileSystem (Some id) a0)).
  rewrite Hf in Hd.
  apply post_unless_not_found; [intros Hs2|intros e -> _]; intros r [= <-]; simpl; rewrite Hx2.
  - eapply spec_deleted; [done..| |].
    + apply (removed_by a); [done|intros c m ->|exact He]. apply Exists_cons_hd. by exists c, m.
    + apply (removed_by a0); [done|intros c m ->|exact Hd].
      apply Exists_cons_tl, Exists_cons_hd. by exists c, m.
  - eapply spec_file_system_failed; [done..| |exact Hd].
    apply (removed_by a); [done|intros c m ->|exact He]. apply Exists_cons_hd. by exists c, m.
Qed.

Lemma fss_command_refines c (s s' : state W) r l :
  do_command c s = (Val r, s', l) ->
  store_step l (assets_of (st_world s)) c r (assets_of (st_world s')).
Proof using All.
  destruct c as [options ad|volume]; simpl; intros (r0 & s1 & l1 & l2 & Hrun & [= <- <- <-] & ->)%bind_Val;
    rewrite app_nil_r; constructor.
  - by apply (post_run _ _ _ _ _ _ (provision_refines options ad s) Hrun).
  - by apply (post_run _ _ _ _ _ _ (fss_delete_refines volume s) Hrun).
Qed.

Lemma fss_commands_refine cmds (s s' : state W) rs l :
  mapM do_command cmds s = (Val rs, s', l) ->
  store_run (assets_of (st_world s)) cmds rs l (assets_of (st_world s')).
Proof using All.
  revert s l rs. induction cmds as [|c cmds IH]; intros s l rs; simpl; [intros [= <- <- <-]; constructor|].
  intros (r & s1 & l1 & l2 & Hc & (rs' & s2 & l3 & l4 & Hcs & [= <- <- <-] & ->)%bind_Val & ->)%bind_Val.
  rewrite app_nil_r. econstructor; [by eapply fss_command_refines|by eapply IH].
Qed.

(** Exports stay tidy whatever happens, file systems if no listing is cut short. *)
Lemma store_step_tidy l a c r a' : store_step l a c r a' ->
  (tidy (a_exports a) -> tidy (a_exports a'))
  /\ (~ cut_short l -> tidy (a_files a) -> tidy (a_files a')).
Proof.
  intros [options ad r1 a1 Hp|volume r1 a1 Hd].
  - destruct Hp as [pv es x F' E' _ _ Hf Hx|e F' E' [[-> ->]|(f & Hf & [->|(es & x & Hx)])]]; simpl;
      split; eauto using tidy_shared, tidy_grown.
  - destruct Hd; simpl; split; eauto using tidy_may_delete, removed_may_delete.
Qed.

Lemma store_run_tidy a cs rs l a' : store_run a cs rs l a' ->
  (tidy (a_exports a) -> tidy (a_exports a'))
  /\ (~ cut_short l -> tidy (a_files a) -> tidy (a_files a')).
Proof.
  induction 1 as [a|a c r l a' cs rs l' a'' Hstep _ [IHe IHf]]; [done|].
  apply store_step_tidy in Hstep as [He Hf]. rewrite cut_short_app. split; [auto|].
  intros [? ?]%Decidable.not_or. auto.
Qed.

(** C14: the file-storage provisioner refines a store of file systems and exports, over any
    sequence of operations and against a service of which a request that is answered by an
    error may have been executed: a successful [Provision] returns a file system of its
    claim and an export of it, each found, or made if a listing showed none; a failed one
    changes nothing or leaves that file system, and perhaps an export of it, for the next
    attempt; a successful [Delete] removes the export and then the file system that the
    volume names, of which one whose deletion was answered with a 404 may stay, and a failed
    one removes at most these, the file system only after the export. Exports in an export
    set stay at most one for each file system; file systems stay at most one for each
    availability domain and display name unless a listing came with a token for a next page,
    which the code does not ask for. *)
Theorem fss_store_refinement cmds (s : state W) :
  post (mapM do_command cmds) s (fun o s' l => forall rs, o = Val rs ->
    store_run (assets_of (st_world s)) cmds rs l (assets_of (st_world s'))
    /\ (tidy (exports (st_world s)) -> tidy (exports (st_world s')))
    /\ (~ cut_short l -> tidy (files (st_world s)) -> tidy (files (st_world s')))).
Proof using All.
  apply post_of_run. intros o s' l Hrun rs ->.
  pose proof (fss_commands_refine _ _ _ _ _ Hrun) as Hs.
  split; [exact Hs|]. by apply (store_run_tidy _ _ _ _ _ Hs).
Qed.
End Store.
