(* ===== verification/FssLive.v ===== *)
(** * When the file-storage provisioner succeeds

    The other half of its contract: if the services are in order, a claim with a mount target
    gets its volume.  The class [PromptFiles] says what "in order" means: facts about the
    services that calls do not undo, and what a call answers when they hold. *)

From S2P Require Import Prelude GoStrings Errors Quantity Objects Config Effects Logic Wait Plugin Fss FssSpec FssStore.

Open Scope Z_scope.

(** What may be known of the services; no call of [Provision] undoes it, except that the
    creation of a file system may make a name ambiguous. *)
Inductive fact : Type :=
| Healthy
| TargetUp (mt es : string)
| AddressUp (ip : string)
| Unambiguous (k : fs_key)
| FileBy (id : string) (T : Z)
| ExportBy (id : string) (T : Z).

Definition lasting (f : fact) : bool := match f with Unambiguous _ => false | _ => true end.

(** A resource is available, or will be at [T]. *)
Definition by_time (state : string) (t T : Z) : Prop :=
  state = FssActive \/ state = FssCreating /\ t < T.

(** [boot]: how long a resource takes to become active. *)
Class PromptFiles (W : Type) `{Backend W} (boot : Z) := {
  knows : W -> fact -> Prop;
  page_rank : string -> nat;
  page_bound : nat;
  pf_kept : forall k t d w w' f, ran k Background t d w w' -> is_fss_delete k = false ->
    (forall req a, k = CCreateFileSystem req a -> lasting f = true) -> knows w f -> knows w' f;
  pf_kept_rand : forall t w a d w' f, host_rand t w = (a, d, w') -> knows w f -> knows w' f;
  pf_kept_select : forall w f, knows w f -> knows (snd (host_select w)) f;
  pf_target : forall mt es a t d w w',
    ran (CGetMountTarget (Some mt) a) Background t d w w' -> knows w (TargetUp mt es) ->
    exists m, a = inl m /\ mt_LifecycleState m = FssActive /\ mt_PrivateIpIds m <> []
      /\ mt_ExportSetId m = Some es /\ forall ip, ip ∈ mt_PrivateIpIds m -> knows w' (AddressUp ip);
  pf_address : forall ip a t d w w',
    ran (CGetPrivateIp (Some ip) a) Background t d w w' -> knows w (AddressUp ip) ->
    exists x addr, a = inl x /\ ip_IpAddress x = Some addr;
  pf_list : forall req a t d w w',
    ran (CListFileSystems req a) Background t d w w' -> knows w Healthy ->
    knows w (Unambiguous (lf_AvailabilityDomain req, lf_DisplayName req)) ->
    exists resp, a = inl resp
      /\ (lfs_Items resp = []
          \/ exists x id, lfs_Items resp = [x] /\ fss_Id x = Some id
               /\ knows w' (FileBy id (t + Z.of_N d + boot)));
  pf_create : forall req a t d w w',
    ran (CCreateFileSystem req a) Background t d w w' -> knows w Healthy ->
    exists fs id, a = inl fs /\ fs_Id fs = Some id /\ knows w' (FileBy id (t + Z.of_N d + boot));
  pf_get : forall id T a t d w w',
    ran (CGetFileSystem (Some id) a) Background t d w w' -> knows w (FileBy id T) ->
    exists fs, a = inl fs /\ fs_Id fs = Some id /\ by_time (fs_LifecycleState fs) t T;
  pf_exports : forall req a t d w w',
    ran (CListExports req a) Background t d w w' -> knows w Healthy ->
    exists resp, a = inl resp
      /\ (forall x, x ∈ le_Items resp -> live_export x = true ->
            exists id, es_Id x = Some id /\ knows w' (ExportBy id (t + Z.of_N d + boot)))
      /\ (forall q, le_OpcNextPage resp = Some q ->
            (page_rank q < match le_Page req with Some p => page_rank p | None => page_bound end)%nat);
  pf_create_export : forall req a t d w w',
    ran (CCreateExport req a) Background t d w w' -> knows w Healthy ->
    exists ex id, a = inl ex /\ ex_Id ex = Some id /\ knows w' (ExportBy id (t + Z.of_N d + boot));
  pf_get_export : forall id T a t d w w',
    ran (CGetExport (Some id) a) Background t d w w' -> knows w (ExportBy id T) ->
    exists ex path, a = inl ex /\ ex_Id ex = Some id /\ ex_Path ex = Some path
      /\ by_time (ex_LifecycleState ex) t T
}.

Section Live.
Context {W : Type} `{Backend W} `{!ProvisionerClient} `{!ProvisionerClientOk}.
Context (boot : Z) `{!PromptFiles W boot}.

(** ** Computations that succeed *)

Definition keeps (all : bool) (w w' : W) : Prop :=
  forall f, all = true \/ lasting f = true -> knows w f -> knows w' f.

#[local] Instance keeps_PreOrder all : PreOrder (keeps all).
Proof. split; [by intros w f|]. intros w1 w2 w3 H12 H23 f Hf Hk. auto. Qed.

(** From [s] the computation yields a value, and facts are kept: all of them, or those that
    last. *)
Definition live {A} (all : bool) (m : M W (result A)) (s : state W) (Q : A -> state W -> Prop) : Prop :=
  post m s (fun o s' _ => keeps all (st_world s) (st_world s') /\ st_cfg s' = st_cfg s
    /\ exists a, o = Val (Ok a) /\ Q a s').

Lemma live_ret {A} all (a : A) s Q : Q a s -> live all (ret (Ok a)) s Q.
Proof. intros HQ. apply post_ret. split; [done|]. split; [done|]. by exists a. Qed.

Lemma live_mono {A} all (m : M W (result A)) s (Q Q' : A -> state W -> Prop) :
  live all m s Q -> (forall a s', keeps all (st_world s) (st_world s') -> st_cfg s' = st_cfg s ->
    Q a s' -> Q' a s') -> live all m s Q'.
Proof.
  intros Hm HQ. eapply post_mono; [exact Hm|]. intros o s' l (Hk & Hc & a & -> & Ha).
  split; [done|]. split; [done|]. exists a. auto.
Qed.

Lemma live_bind {A B} all (m : M W (result A)) (k : A -> M W (result B)) s Q :
  live all m s (fun a s1 => keeps all (st_world s) (st_world s1) -> st_cfg s1 = st_cfg s ->
    live all (k a) s1 Q) -> live all (bind_ok m k) s Q.
Proof.
  intros Hm. unfold live, bind_ok. apply post_bind. eapply post_mono; [exact Hm|].
  intros o s1 l1 (Hk & Hc & a & -> & Ha). simpl. eapply post_mono; [by apply Ha|].
  intros o2 s2 l2 (Hk2 & Hc2 & b & -> & Hb). split; [by etrans|]. split; [congruence|]. by exists b.
Qed.

(** A part that keeps more than the whole has to. *)
Lemma live_all {A} (m : M W (result A)) s Q :
  live true m s Q -> live false m s (fun a s1 => Q a s1 /\ keeps true (st_world s) (st_world s1)).
Proof.
  intros Hm. eapply post_mono; [exact Hm|]. intros o s' l (Hk & Hc & a & -> & Ha).
  split; [intros f _; apply Hk; by left|]. split; [done|]. by exists a.
Qed.

Lemma live_deref {A B} all (x : option A) a (k : A -> M W (result B)) s Q :
  x = Some a -> live all (k a) s Q -> live all (bind (deref x) k) s Q.
Proof. intros -> Hk. unfold live. go. eapply post_mono; [exact Hk|]. done. Qed.

Lemma live_compartment {B} all comp (k : string -> M W (result B)) s Q :
  client_compartment (st_cfg s) = (Val comp, st_cfg s) ->
  live all (k comp) s Q -> live all (bind CompartmentOCID_ k) s Q.
Proof.
  intros Hcomp Hk. unfold live. go. apply post_CompartmentOCID. intros o c Hc.
  rewrite Hcomp in Hc. injection Hc as <- <-. go. destruct s. exact Hk.
Qed.

(** A call, by the law of its operation. *)
Lemma live_call {A} all (mk : api A -> call) (op : Op W (api A)) s Q :
  (forall a t d w w', op t w = (a, d, w') -> ran (mk a) Background t d w w') ->
  (forall a, is_fss_delete (mk a) = false) ->
  (all = true -> forall a req r, mk a <> CCreateFileSystem req r) ->
  (forall a d w', ran (mk a) Background (st_now s) d (st_world s) w' ->
     exists x, a = inl x /\ Q x (State (st_now s + Z.of_N d) w' (st_cfg s))) ->
  live all (let* a := invoke Background op mk in ret (from_api a)) s Q.
Proof using All.
  intros Hop Hdel Hall HQ. unfold live. go. apply Hop in Hop0.
  destruct (HQ _ _ _ Hop0) as (x & -> & Hx). split; [|split; [done|by exists x]].
  intros f Hf Hk. eapply pf_kept; [exact Hop0|by apply Hdel| |exact Hk].
  intros req r Hmk. destruct Hf as [Hf|Hf]; [by destruct (Hall Hf _ _ _ Hmk)|done].
Qed.

Lemma keeps_picked all w w' : picked w w' -> keeps all w w'.
Proof using All. intros [->| ->]; [done|]. intros f _. apply pf_kept_select. Qed.

(** A wait for a resource that is good by the end of the timeout. *)
Lemma live_await {A} (get : M W (result A)) ready mk v K T (G : A -> state W -> Prop) s :
  one_call get mk -> upholds get timed -> judged ready v ->
  (forall s1, knows (st_world s1) K -> live true get s1 (fun a s2 =>
     v a = Good /\ G a s2 \/ v a = Pending /\ st_now s1 < T)) ->
  knows (st_world s) K -> T <= st_now s + defaultTimeout ->
  live true (await get ready) s G.
Proof using All.
  intros Hone Htimed Hready Hget HK HT. unfold live, await. go.
  eapply post_mono; [apply (post_PollImmediate (await_condition get ready) defaultInterval defaultTimeout)
    with (I := fun _ _ s1 _ => keeps true (st_world s) (st_world s1) /\ st_cfg s1 = st_cfg s)
         (Q := fun o s' _ => keeps true (st_world s) (st_world s') /\ st_cfg s' = st_cfg s
                 /\ exists a, o = Val (Some a, Ok tt) /\ G a s')|].
  - done.
  - done.
  - intros x. unfold await_condition. apply upholds_bind; [apply _|done|].
    intros [a|e]; [|by apply upholds_ret, _]. apply upholds_bind; [apply _| |].
    + intros s1. unfold post. rewrite Hready. apply tr_nil.
    + intros b. apply upholds_ret, _.
  - intros k x s1 l (Hk & Hc). unfold await_condition. go.
    eapply post_mono; [apply (Hget s1); by apply Hk; [left|]|].
    intros o s2 l2 (Hk2 & Hc2 & a & -> & Ha). go. unfold post. rewrite Hready.
    assert (keeps true (st_world s) (st_world s2)) as Hk' by by etrans.
    destruct Ha as [[-> Ha]|[-> Hlt]]; simpl; go.
    + split; [done|]. split; [congruence|]. by exists a.
    + split; [|intros; lia]. intros k' t w _ _ Hw. split; [|simpl; congruence].
      etrans; [exact Hk'|]. by apply keeps_picked.
  - apply poll_fuel_enough.
  - done.
  - intros o s' l (Hk & Hc & a & -> & Ha). go. split; [done|]. split; [done|]. by exists a.
Qed.

(** ** The parts of [Provision] *)

Lemma live_target mt es s :
  knows (st_world s) (TargetUp mt es) ->
  live true (awaitMountTarget Background mt) s (fun m s' =>
    mt_PrivateIpIds m <> [] /\ mt_ExportSetId m = Some es
    /\ forall ip, ip ∈ mt_PrivateIpIds m -> knows (st_world s') (AddressUp ip)).
Proof using All.
  intros Hup. eapply (live_await _ _ _ mount_target_verdict (TargetUp mt es) (st_now s));
    [apply one_call_GetMountTarget|apply GetMountTarget_timed|apply judged_mount_target| |done|].
  - intros s1 Hk. apply live_call; [done|done|done|]. intros a d w' Hran.
    destruct (pf_target _ _ _ _ _ _ _ Hran Hk) as (m & -> & Hst & Hips & Hes & Haddr).
    exists m. split; [done|]. left. unfold mount_target_verdict. by rewrite Hst.
  - assert (0 <= defaultTimeout) by done. lia.
Qed.

Lemma live_file_system id T s :
  knows (st_world s) (FileBy id T) -> T <= st_now s + defaultTimeout ->
  live true (awaitFileSystem Background id) s (fun fs _ => fs_Id fs = Some id).
Proof using All.
  intros Hk HT. eapply (live_await _ _ _ file_system_verdict (FileBy id T) T);
    [apply one_call_GetFileSystem|apply GetFileSystem_timed|apply judged_file_system| |done|done].
  intros s1 Hk1. apply live_call; [done|done|done|]. intros a d w' Hran.
  destruct (pf_get _ _ _ _ _ _ _ Hran Hk1) as (fs & -> & Hid & Hst).
  exists fs. split; [done|]. unfold file_system_verdict.
  destruct Hst as [->|[-> Hlt]]; [by left|by right].
Qed.

Lemma live_export_active id T s :
  knows (st_world s) (ExportBy id T) -> T <= st_now s + defaultTimeout ->
  live true (awaitExport Background id) s (fun ex _ =>
    ex_Id ex = Some id /\ exists path, ex_Path ex = Some path).
Proof using All.
  intros Hk HT. eapply (live_await _ _ _ export_verdict (ExportBy id T) T);
    [apply one_call_GetExport|apply GetExport_timed|apply judged_export| |done|done].
  intros s1 Hk1. apply live_call; [done|done|done|]. intros a d w' Hran.
  destruct (pf_get_export _ _ _ _ _ _ _ Hran Hk1) as (ex & path & -> & Hid & Hpath & Hst).
  exists ex. split; [done|]. unfold export_verdict.
  destruct Hst as [->|[-> Hlt]]; [left; by eauto|by right].
Qed.

Context (Hboot : boot <= defaultTimeout).

(** A state in which the compartment is known and the services are in order. *)
Definition ready (comp : string) (s : state W) : Prop :=
  client_compartment (st_cfg s) = (Val comp, st_cfg s) /\ knows (st_world s) Healthy.

Lemma ready_kept comp all s s' :
  ready comp s -> keeps all (st_world s) (st_world s') -> st_cfg s' = st_cfg s -> ready comp s'.
Proof. intros [Hc Hh] Hk Heq. split; [by rewrite Heq|]. apply Hk; [by right|done]. Qed.

Lemma live_getOrCreateFileSystem comp adn name s :
  ready comp s -> knows (st_world s) (Unambiguous (Some adn, Some name)) ->
  live false (getOrCreateFileSystem Background adn name) s (fun fs _ => exists id, fs_Id fs = Some id).
Proof using All.
  intros Hr Hone. pose proof Hr as [Hcomp Hh].
  assert (forall id T s1, knows (st_world s1) (FileBy id T) -> T <= st_now s1 + boot ->
    live false (awaitFileSystem Background id) s1 (fun fs _ => exists id, fs_Id fs = Some id)) as Hwait.
  { intros id T s1 Hk HT. eapply live_mono; [apply live_all, (live_file_system id T); [done|lia]|].
    intros fs s2 _ _ [Hfs _]. by eexists. }
  unfold getOrCreateFileSystem, getFileSystemByDisplayName. unfold live. go.
  apply post_CompartmentOCID. intros o c Hc. rewrite Hcomp in Hc. injection Hc as <- <-. go.
  set (req := {| lf_CompartmentId := _ |}) in *.
  destruct (pf_list req _ _ _ _ _ Hop Hh Hone) as (resp & -> & [Hnil|(x & id & Hx & Hid & Hk)]); go;
    [rewrite Hnil|rewrite Hx]; go.
  - assert (keeps true (st_world s) w) as Hkeep.
    { intros f _ Hf. by eapply (pf_kept (CListFileSystems req (inl resp))). }
    rewrite bool_decide_eq_false_2 by auto. go.
    apply post_CompartmentOCID. intros o c Hc. simpl in Hc. rewrite Hcomp in Hc. injection Hc as <- <-. go.
    set (creq := {| cf_CompartmentId := _ |}) in *.
    destruct (pf_create creq _ _ _ _ _ Hop0 (Hkeep Healthy (or_introl eq_refl) Hh)) as (fs & id & -> & Hid & Hk).
    go. rewrite Hid. go.
    eapply post_mono; [eapply (Hwait id _ (State _ w0 (st_cfg s))); [exact Hk|simpl; lia]|].
    intros o s' l (Hk' & Hc & Hres). split; [|done]. intros f Hf Hkn. apply Hk'; [done|].
    eapply (pf_kept (CCreateFileSystem creq (inl fs))); [exact Hop0|done| |].
    + intros r a _. by destruct Hf.
    + apply Hkeep; [by left|done].
  - rewrite Hid. go.
    eapply post_mono; [eapply (Hwait id _ (State _ w (st_cfg s))); [exact Hk|simpl; lia]|].
    intros o s' l (Hk' & Hc & Hres). split; [|done]. intros f Hf Hkn. apply Hk'; [done|].
    by eapply (pf_kept (CListFileSystems req (inl resp))).
Qed.

Definition rank_of (page : option string) : nat :=
  match page with Some p => page_rank p | None => page_bound end.

Definition promised (id : string) (s : state W) : Prop :=
  exists T, knows (st_world s) (ExportBy id T) /\ T <= st_now s + boot.

Lemma live_findExport comp n fs es page s :
  ready comp s -> (rank_of page < n)%nat ->
  post (findExport_from n Background fs es page) s (fun o s' _ =>
    keeps true (st_world s) (st_world s') /\ st_cfg s' = st_cfg s
    /\ ((exists x id, o = Val (Ok x) /\ es_Id x = Some id /\ promised id s')
        \/ o = Val (Err (ErrSentinel fss_errNotFound)))).
Proof using All.
  revert page s. induction n as [|n IH]; intros page s Hr Hn; [lia|]. pose proof Hr as [Hcomp Hh].
  simpl. go. apply post_CompartmentOCID. intros o c Hc. rewrite Hcomp in Hc. injection Hc as <- <-. go.
  set (req := {| le_CompartmentId := _ |}) in *.
  destruct (pf_exports req _ _ _ _ _ Hop Hh) as (resp & -> & Hlive & Hnext).
  assert (keeps true (st_world s) w) as Hkeep.
  { intros f _ Hf. by eapply (pf_kept (CListExports req (inl resp))). }
  go. destruct (first_such live_export (le_Items resp)) as [x|] eqn:Hx; go.
  - apply first_such_Some in Hx as (l1 & l2 & Hl & Hx & _).
    destruct (Hlive x) as (id & Hid & Hk); [rewrite Hl; set_solver|done|].
    split; [done|]. split; [done|]. left. exists x, id. split; [done|]. split; [done|].
    eexists. split; [exact Hk|]. simpl. lia.
  - destruct (le_OpcNextPage resp) as [q|] eqn:Hq; go; [|split; [done|]; split; [done|by right]].
    eapply post_mono; [apply IH; [split; [done|by apply Hkeep; [left|]]|]|].
    + specialize (Hnext q eq_refl). unfold rank_of in *. simpl in *. lia.
    + intros o s' l (Hk & Hc & Hres). split; [by etrans|]. by split.
Qed.

Lemma live_getOrCreateExport comp fs es s :
  ready comp s ->
  live true (getOrCreateExport (S page_bound) Background fs es) s (fun ex _ =>
    exists id path, ex_Id ex = Some id /\ ex_Path ex = Some path).
Proof using All.
  intros Hr.
  assert (forall id s1, promised id s1 -> live true (awaitExport Background id) s1 (fun ex _ =>
    exists id path, ex_Id ex = Some id /\ ex_Path ex = Some path)) as Hwait.
  { intros id s1 (T & Hk & HT). eapply live_mono; [apply (live_export_active id T); [done|lia]|].
    intros ex s2 _ _ (Hid & path & Hpath). eauto. }
  unfold getOrCreateExport, findExport. unfold live. apply post_bind.
  eapply post_mono; [apply (live_findExport comp); [exact Hr|simpl; lia]|].
  intros o s1 l (Hk & Hc & [(x & id & -> & Hid & Hp)| ->]); go.
  - rewrite Hid. go. eapply post_mono; [by apply Hwait|]. intros o s2 l2 (Hk2 & Hc2 & Hres).
    split; [by etrans|]. split; [congruence|done].
  - rewrite bool_decide_eq_false_2 by auto. go. set (req := {| ce_ExportSetId := _ |}) in *.
    destruct (ready_kept _ _ _ _ Hr Hk Hc) as [_ Hh].
    destruct (pf_create_export req _ _ _ _ _ Hop Hh) as (ex & id & -> & Hid & Hkx). go.
    rewrite Hid. go. eapply post_mono; [apply (Hwait id (State _ w (st_cfg s1)))|].
    + eexists. split; [exact Hkx|]. simpl. lia.
    + intros o s2 l2 (Hk2 & Hc2 & Hres). split; [|split; [simpl in Hc2; congruence|done]].
      intros f Hf Hkn. apply Hk2; [done|]. eapply (pf_kept (CCreateExport req (inl ex))); [exact Hop|done|done|].
      by apply Hk.
Qed.

Lemma live_pick {A} all (ips : list string) (k : string -> M W (result A)) s Q :
  (length ips =? 0)%nat = false ->
  (forall id s1, id ∈ ips -> keeps true (st_world s) (st_world s1) -> st_cfg s1 = st_cfg s ->
     live all (k id) s1 Q) ->
  live all (let* r := rand_Int in let* id := index ips (rem64 r (Z.of_nat (length ips))) in k id) s Q.
Proof using All.
  intros Hne Hk. unfold live. go.
  destruct (index_rand (W := W) ips a Hne) as (id & Hid & ->). go.
  assert (keeps true (st_world s) w) as Hkeep by (intros f _; by eapply pf_kept_rand).
  eapply post_mono; [by apply (Hk id)|]. intros o s' l (Hk' & Hc & Hres).
  split; [|done]. intros f Hf Hkn. apply Hk'; [done|]. apply Hkeep; [by left|done].
Qed.

(** C15: liveness: a claim gets its file system, if the services are in order: when its
    mount target is active with an address and an export set, no two file systems have its
    name, and every resource that is found or made is active within the five minutes of the
    waits, [Provision] returns a volume, whatever an earlier attempt left behind. *)
Theorem fss_Provision_succeeds fsp options ad pvc adName comp es (s : state W) :
  vo_PVC options = Some pvc -> is_empty (getMountTargetID options) = false ->
  ad_Name ad = Some adName -> client_compartment (st_cfg s) = (Val comp, st_cfg s) ->
  knows (st_world s) Healthy -> knows (st_world s) (TargetUp (getMountTargetID options) es) ->
  knows (st_world s) (Unambiguous (Some adName, Some (GetPrefix (W := W) +:+ pvc_UID pvc))) ->
  post (Provision (S page_bound) fsp options ad) s (fun o _ _ => exists ip fs ex path,
    o = Val (Ok (filesystem_pv fsp options pvc fs ex ip path))).
Proof using All.
  intros Hpvc Hmt Had Hcomp Hh Hup Hone.
  enough (live false (Provision (S page_bound) fsp options ad) s (fun pv _ => exists ip fs ex path,
    pv = filesystem_pv fsp options pvc fs ex ip path)) as Hlive.
  { eapply post_mono; [exact Hlive|]. intros o s' l (_ & _ & pv & -> & ip & fs & ex & path & ->).
    by exists ip, fs, ex, path. }
  assert (ready comp s) as Hr by by split.
  unfold Provision. rewrite Hpvc. apply (live_deref _ _ pvc); [done|]. rewrite Sprintf_concat, Hmt.
  apply live_bind. eapply live_mono; [by apply live_all, live_target|].
  intros m s1 _ Hc1 [(Hips & Hes & Haddr) Hk1] _ _. pose proof (ready_kept _ _ _ _ Hr Hk1 Hc1) as Hr1.
  assert ((length (mt_PrivateIpIds m) =? 0)%nat = false) as Hlen
    by (apply Nat.eqb_neq; by destruct (mt_PrivateIpIds m)).
  rewrite Hlen, Hes. apply live_pick; [done|]. intros id s2 Hid Hk2 Hc2.
  apply live_bind. eapply live_mono.
  { apply live_all, live_call with (Q := fun x _ => exists addr, ip_IpAddress x = Some addr); [done|done|done|].
    intros a d w' Hran. destruct (pf_address _ _ _ _ _ _ Hran (Hk2 _ (or_introl eq_refl) (Haddr _ Hid)))
      as (x & addr & -> & Haddr'). eauto. }
  intros x s3 _ Hc3 [[addr ->] Hk3] _ _.
  assert (keeps true (st_world s1) (st_world s3)) as Hk13 by by etrans.
  pose proof (ready_kept _ _ _ s3 Hr1 Hk13 ltac:(congruence)) as Hr3.
  apply (live_deref _ _ adName); [done|]. apply live_bind. eapply live_mono.
  { apply (live_getOrCreateFileSystem comp); [done|]. apply Hk13; [by left|]. apply Hk1; [by left|done]. }
  intros fs s4 Hk4 Hc4 [fsid Hfs] _ _. apply (live_deref _ _ fsid); [done|].
  apply live_bind. eapply live_mono.
  { apply live_all, (live_getOrCreateExport comp). by eapply ready_kept. }
  intros ex s5 _ _ [(exid & path & Hex & Hpath) _] _ _.
  apply (live_deref _ _ exid); [done|]. apply (live_deref _ _ path); [done|]. apply live_ret. eauto.
Qed.
End Live.
