(* ===== verification/Mocks.v ===== *)
(** * The mocks: pkg/provisioner/mock_interfaces.go and instance_metadata_mock.go

    The services and the client that the repository's unit tests use, as a [Backend] that
    takes no time, a [ProvisionerClient] and an [InstanceMeta]; and what the tests check
    (block_test.go, fss_test.go), proved of the model. *)

From S2P Require Import Prelude GoStrings Errors Quantity Objects Config Effects Logic Wait Plugin.
From S2P Require Block Fss.

Open Scope Z_scope.

(** ** mock_interfaces.go *)

Definition VolumeBackupID : string := "dummyVolumeBackupId".
Definition fileSystemID : string := "dummyFileSystemId".
Definition exportID : string := "dummyExportID".
Definition exportSetID : string := "dummyExportSetID".
Definition CreatedMountTargetID : string := "dummyCreatedMountTargetID".
Definition ServerIPs : list string := ["dummyServerIP"].
Definition privateIP : string := "127.0.0.1".

(** The client's [Storage] is not nil here: only [GetVolume] reads it, and the file-storage
    test, which has none, never gets there. *)
Record MockBlockStorageClient : Type := { VolumeState : string }.

(** An answer that takes no time and changes nothing. *)
Definition answer {A} (f : MockBlockStorageClient -> A) : Op MockBlockStorageClient A :=
  fun _ w => (f w, 0%N, w).

Definition mock_CreateVolume (request : CreateVolumeDetails) (c : MockBlockStorageClient) :
  api Volume :=
  inl {| vol_Id := Some VolumeBackupID; vol_LifecycleState := EmptyString |}.

Definition mock_DeleteVolume (id : option string) (c : MockBlockStorageClient) :
  DeleteVolumeReply := {| dv_RawStatus := None; dv_err := None |}.

Definition mock_GetVolume (id : option string) (c : MockBlockStorageClient) : api Volume :=
  inl {| vol_Id := None; vol_LifecycleState := VolumeState c |}.

Definition mock_CreateFileSystem (request : CreateFileSystemDetails) (c : MockBlockStorageClient) :
  api FileSystem := inl {| fs_Id := Some fileSystemID; fs_LifecycleState := EmptyString |}.

Definition mock_GetFileSystem (id : option string) (c : MockBlockStorageClient) : api FileSystem :=
  inl {| fs_Id := id; fs_LifecycleState := FssActive |}.

Definition mock_ListFileSystems (request : ListFileSystemsRequest) (c : MockBlockStorageClient) :
  api ListFileSystemsResponse :=
  inl {| lfs_Items := [{| fss_Id := Some fileSystemID; fss_DisplayName := lf_DisplayName request |}];
         lfs_OpcNextPage := None |}.

Definition mock_DeleteFileSystem (id : option string) (c : MockBlockStorageClient) : api unit :=
  inl tt.

Definition mock_CreateExport (request : CreateExportDetails) (c : MockBlockStorageClient) :
  api Export :=
  inl {| ex_Id := Some exportID; ex_LifecycleState := EmptyString; ex_Path := None |}.

Definition mock_GetExport (id : option string) (c : MockBlockStorageClient) : api Export :=
  inl {| ex_Id := Some exportID; ex_LifecycleState := FssActive;
         ex_Path := Some ("/" +:+ fileSystemID) |}.

Definition mock_ListExports (request : ListExportsRequest) (c : MockBlockStorageClient) :
  api ListExportsResponse :=
  inl {| le_Items := [{| es_Id := Some exportID; es_LifecycleState := FssActive |}];
         le_OpcNextPage := None |}.

Definition mock_DeleteExport (id : option string) (c : MockBlockStorageClient) : api unit := inl tt.

Definition mock_GetMountTarget (id : option string) (c : MockBlockStorageClient) :
  api MountTarget :=
  inl {| mt_Id := Some CreatedMountTargetID; mt_LifecycleState := FssActive;
         mt_PrivateIpIds := ServerIPs; mt_ExportSetId := Some exportSetID |}.

Definition mock_GetPrivateIp (id : option string) (c : MockBlockStorageClient) : api PrivateIp :=
  inl {| ip_IpAddress := Some privateIP |}.

Definition mock_ListAvailabilityDomains (id : option string) (c : MockBlockStorageClient) :
  api (list AvailabilityDomain) := inl [].

Definition MockFileStorageClient : FSS MockBlockStorageClient :=
  {| fss_CreateFileSystem := fun _ r => answer (mock_CreateFileSystem r);
     fss_GetFileSystem := fun _ id => answer (mock_GetFileSystem id);
     fss_ListFileSystems := fun _ r => answer (mock_ListFileSystems r);
     fss_DeleteFileSystem := fun _ id => answer (mock_DeleteFileSystem id);
     fss_CreateExport := fun _ r => answer (mock_CreateExport r);
     fss_ListExports := fun _ r => answer (mock_ListExports r);
     fss_GetExport := fun _ id => answer (mock_GetExport id);
     fss_DeleteExport := fun _ id => answer (mock_DeleteExport id);
     fss_GetMountTarget := fun _ id => answer (mock_GetMountTarget id) |}.

Definition MockVirtualNetworkClient : VCN MockBlockStorageClient :=
  {| vcn_GetPrivateIp := fun _ id => answer (mock_GetPrivateIp id) |}.

Definition MockIdentityClient : Identity MockBlockStorageClient :=
  {| id_ListAvailabilityDomains := fun _ id => answer (mock_ListAvailabilityDomains id) |}.

(** The client's sub-clients, on any host. *)
Definition mock_Backend (host : Host MockBlockStorageClient) : Backend MockBlockStorageClient :=
  {| backend_BlockStorage :=
       {| bs_CreateVolume := fun _ r => answer (mock_CreateVolume r);
          bs_DeleteVolume := fun _ id => answer (mock_DeleteVolume id);
          bs_GetVolume := fun _ id => answer (mock_GetVolume id) |};
     backend_Identity := MockIdentityClient;
     backend_FSS := MockFileStorageClient;
     backend_VCN := MockVirtualNetworkClient;
     backend_Host := host |}.

(** [MockProvisionerClient]: [Timeout], [CompartmentOCID] and [TenancyOCID]. *)
Definition MockProvisionerClient : ProvisionerClient :=
  {| client_Timeout := 30 * Second;
     client_compartment := fun cfg => (Val EmptyString, cfg);
     client_TenancyOCID := "ocid1.tenancy.oc1..aaaaaaaaaaaaaaaaaaaaaaaaaaaaaaaaaaaaaaaaaaaaaaaaaaaaaaaaaaaa" |}.

(** ** instance_metadata_mock.go *)

(** A nil [metadata] is dereferenced by the callers right after [Get]. *)
Definition NewMock {W} (metadata : option InstanceMetadata) : InstanceMeta W :=
  {| meta_Get := let* m := deref metadata in ret (Ok m) |}.

#[export] Instance MockProvisionerClient_Ok : @ProvisionerClientOk MockProvisionerClient.
Proof. split; [done|]. by intros c o c' [= <- <-]. Qed.

#[export] Instance NewMock_Ok {W} (m : InstanceMetadata) : @InstanceMetaOk W (NewMock (Some m)).
Proof.
  split; simpl.
  - upholds_tac.
  - upholds_tac.
  - intros s. go. eauto.
Qed.

(** ** block_test.go and fss_test.go *)

Section Tests.
(** The test process: an empty environment, and nothing that the tests would ask the host for. *)
Definition test_host : Host MockBlockStorageClient :=
  {| host_ListNodes := answer (fun _ => Err (errors_New "no cluster"));
     host_HttpGet := fun _ => answer (fun _ => Err (errors_New "no network"));
     host_environ := ∅;
     host_rand := answer (fun _ => 0%N);
     host_select := fun w => (true, w) |}.

#[local] Instance backend : Backend MockBlockStorageClient := mock_Backend test_host.
#[local] Existing Instance MockProvisionerClient.
#[local] Instance metadata : InstanceMeta MockBlockStorageClient :=
  NewMock (Some {| md_CompartmentOCID := EmptyString; md_Region := "phx" |}).

Definition with_state (volumeState : string) : state MockBlockStorageClient :=
  State 0 {| VolumeState := volumeState |} None.

Definition defaultAD : AvailabilityDomain :=
  {| ad_Name := Some "PHX-AD-1"; ad_CompartmentId := Some "ocid1.compartment.oc1" |}.

Definition createPVC (annotations : gmap string string) (size : Quantity) : PersistentVolumeClaim :=
  {| pvc_Namespace := EmptyString; pvc_Name := EmptyString; pvc_UID := EmptyString;
     pvc_Annotations := annotations; pvc_AccessModes := []; pvc_Selector := None;
     pvc_Requests := {[ResourceStorage := size]};
     pvc_VolumeName := EmptyString; pvc_StorageClassName := Some "oci"; pvc_VolumeMode := None |}.

Definition test_options (pvc : PersistentVolumeClaim) : VolumeOptions :=
  {| vo_ReclaimPolicy := EmptyString; vo_PVName := "dummyVolumeOptions"; vo_MountOptions := [];
     vo_PVC := Some pvc; vo_Parameters := ∅ |}.

Definition test_block (enabled : bool) (minVolumeSize : Quantity) (timeout : Z) :
  Block.blockProvisioner :=
  {| Block.bp_volumeRoundingEnabled := enabled; Block.bp_minVolumeSize := minVolumeSize;
     Block.bp_timeout := timeout |}.

(** What a test sees of a run: the volume, or the text of the error. *)
Definition seen {A} (r : outcome (result A) * state MockBlockStorageClient * list event) :
  option (A + string) :=
  match r with
  | (Val (Ok a), _, _) => Some (inl a)
  | (Val (Err e), _, _) => Some (inr (Error e))
  | _ => None
  end.

(** A test of the block provisioner; the poll needs no more fuel than 13 for a minute. *)
Definition run_block (volumeState : string) (block : Block.blockProvisioner)
    (pvc : PersistentVolumeClaim) : option (PersistentVolume + string) :=
  seen (Block.Provision 13 block (test_options pvc) defaultAD (with_state volumeState)).

Definition capacity_of (r : option (PersistentVolume + string)) : option Z :=
  match r with Some (inl pv) => Value <$> pv_Capacity pv !! ResourceStorage | _ => None end.

Definition run_fss : option (PersistentVolume + string) :=
  seen (Fss.Provision 1 {| Fss.fsp_region := "phx" |}
          {| vo_ReclaimPolicy := EmptyString; vo_PVName := "dummyVolumeOptions";
             vo_MountOptions := [];
             vo_PVC := Some {| pvc_Namespace := EmptyString; pvc_Name := EmptyString;
                               pvc_UID := "my-uid"; pvc_Annotations := ∅; pvc_AccessModes := [];
                               pvc_Selector := None; pvc_Requests := ∅;
                               pvc_VolumeName := EmptyString; pvc_StorageClassName := None;
                               pvc_VolumeMode := None |};
             vo_Parameters := {["mntTargetId" := "dummyMountTargetID"]} |}
          {| ad_Name := Some "dummyAdName"; ad_CompartmentId := Some "dummyCompartmentId" |}
          (with_state EmptyString)).

(** The failure of TestCreateVolumeFailure for a volume in the given state. *)
Definition failure_of (volumeState : string) : option (PersistentVolume + string) :=
  run_block volumeState (test_block true (Gi 50) Second) (createPVC ∅ (Gi 50)).

(** The unit tests of the two plugins hold in the model, in an empty environment: a volume is created
    from a backup and carries its id; each bad state of the volume is reported with the text
    that the test expects, and a volume that stays in provisioning as the timeout of the
    poll; the capacity is rounded up as the table has it; and a file system is provisioned. *)
Theorem unit_tests :
  (exists pv, run_block VolumeAvailable (test_block true (Gi 50) Minute)
                (createPVC {[Block.OCIVolumeBackupID := VolumeBackupID]} (Gi 50)) = Some (inl pv)
     /\ gomap_lookup (pv_Annotations pv) Block.OCIVolumeID = Some VolumeBackupID)
  /\ (forall st, st ∈ [VolumeTerminated; VolumeFaulty; VolumeTerminating] ->
        failure_of st = Some (inr (Sprintf "failed to provision volume %q: volume has lifecycle state %q"
                                     [FStr "dummyVolumeBackupId"; FStr st])))
  /\ failure_of VolumeProvisioning = Some (inr "timed out waiting for the condition")
  /\ Forall (fun row => match row with (requested, enabled, minimum, expected) =>
        capacity_of (run_block VolumeAvailable (test_block enabled minimum Minute) (createPVC ∅ requested))
        = Some (Value expected) end)
       [(Gi 20, true, Gi 50, Gi 50); (Gi 30, true, Gi 25, Gi 30);
        (Gi 50, true, Gi 50, Gi 50); (Gi 20, false, Gi 50, Gi 20)]
  /\ exists pv, run_fss = Some (inl pv)
       /\ pv_NFS pv = Some {| nfs_Server := "127.0.0.1"; nfs_Path := "/dummyFileSystemId";
                              nfs_ReadOnly := true |}.
Proof.
  split; [|split; [|split; [|split]]].
  - eexists. split; [vm_compute; reflexivity|reflexivity].
  - intros st Hst. repeat (apply elem_of_cons in Hst as [->|Hst]; [vm_compute; reflexivity|]). set_solver.
  - vm_compute. reflexivity.
  - repeat constructor.
  - eexists. split; [vm_compute; reflexivity|reflexivity].
Qed.
End Tests.
