(* ===== verification/Zones.v ===== *)
(** * Choosing a zone: k8s.io/kubernetes/pkg/volume/util (vendored)

    [ChooseZoneForVolume] spreads volumes over the zones by a hash of the claim's name; the
    members of a StatefulSet, whose claims end in an index, go round the zones.  The sets of
    strings are those of k8s.io/apimachinery/pkg/util/sets, the hash is FNV-1. *)

From Stdlib Require Import Ascii.
From stdpp Require Import sorting.
From S2P Require Import Prelude GoStrings Errors Quantity Objects Config Effects Logic.

Open Scope Z_scope.

(** ** sets.String *)

(** [List]: the members in increasing byte order. *)
Definition List_ (s : gset string) : list string := merge_sort String.le (elements s).

(** ** hash/fnv, [New32] *)

Definition fnv_offset32 : Z := 2166136261.
Definition fnv_prime32 : Z := 16777619.

Fixpoint fnv32_from (hash : Z) (data : string) : Z :=
  match data with
  | EmptyString => hash
  | String c data =>
      fnv32_from (Z.lxor (wrap32u (hash * fnv_prime32)) (Z.of_nat (nat_of_ascii c))) data
  end.

Definition fnv32 (data : string) : Z := fnv32_from fnv_offset32 data.

(** ** util.go *)

Definition dash : ascii := "-"%char.

(** The part of the name that is hashed, and the index: for a non-empty name. *)
Definition hashed_name (pvcName : string) : string * Z :=
  match LastIndexByte pvcName dash with
  | Some lastDash =>
      match ParseUint32 (sdrop (lastDash + 1) pvcName) with
      | Some statefulsetID =>
          let hashString := stake lastDash pvcName in
          match LastIndexByte hashString dash with
          | Some lastDash => (sdrop (lastDash + 1) hashString, statefulsetID)
          | None => (hashString, statefulsetID)
          end
      | None => (pvcName, 0)
      end
  | None => (pvcName, 0)
  end.

Section Choose.
Context {W : Type} `{Backend W}.

(** [rand.Uint32]: the upper 32 of the 63 random bits. *)
Definition rand_Uint32 : M W Z :=
  let* r := rand_Int in ret (wrap32u (Z.shiftr r 31)).

Definition getPVCNameHashAndIndexOffset (pvcName : string) : M W (Z * Z) :=
  if is_empty pvcName then
    let* hash := rand_Uint32 in ret (hash, 0)
  else
    let '(hashString, index) := hashed_name pvcName in
    ret (fnv32 hashString, index).

Definition ChooseZoneForVolume (zones : gset string) (pvcName : string) : M W string :=
  let* hi := getPVCNameHashAndIndexOffset pvcName in
  let '(hash, idx) := hi in
  let zoneSlice := List_ zones in
  let n := wrap32u (Z.of_nat (length zoneSlice)) in
  if n =? 0 then panic_ DivideByZero
  else index zoneSlice (wrap32u (hash + idx) mod n).
End Choose.

(** ** Lemmas *)

Lemma List_perm s : List_ s ≡ₚ elements s.
Proof. apply merge_sort_Permutation. Qed.

Lemma elem_of_List s z : z ∈ List_ s <-> z ∈ s.
Proof. by rewrite List_perm, elem_of_elements. Qed.

Lemma List_NoDup s : NoDup (List_ s).
Proof. rewrite List_perm. apply NoDup_elements. Qed.

Lemma length_List s : length (List_ s) = size s.
Proof. by rewrite List_perm. Qed.

(** [List] is the only increasing enumeration of the set. *)
Lemma List_unique s l : StronglySorted String.le l -> l ≡ₚ elements s -> l = List_ s.
Proof.
  intros Hl Hp. apply (StronglySorted_unique String.le); [done| |].
  - apply Sorted_StronglySorted; [apply _|]. apply Sorted_merge_sort, _.
  - by rewrite List_perm.
Qed.

Lemma byte_range c : 0 <= Z.of_nat (nat_of_ascii c) < 256.
Proof. pose proof (nat_ascii_bounded c). lia. Qed.

Lemma lxor_range a b : uint32_range a -> 0 <= b < 256 -> uint32_range (Z.lxor a b).
Proof.
  unfold uint32_range. intros Ha Hb. split; [apply Z.lxor_nonneg; lia|].
  destruct (Z.eq_dec (Z.lxor a b) 0) as [->|Hne]; [unfold two32; lia|].
  assert (0 < Z.lxor a b) by (assert (0 <= Z.lxor a b) by (apply Z.lxor_nonneg; lia); lia).
  change two32 with (2 ^ 32) in *. apply Z.log2_lt_pow2; [done|].
  eapply Z.le_lt_trans; [apply Z.log2_lxor; lia|]. apply Z.max_lub_lt.
  - destruct (Z.eq_dec a 0) as [->|]; [done|]. apply Z.log2_lt_pow2; lia.
  - destruct (Z.eq_dec b 0) as [->|]; [done|]. apply Z.log2_lt_pow2; lia.
Qed.

Lemma fnv32_range s : uint32_range (fnv32 s).
Proof.
  assert (forall h, uint32_range h -> uint32_range (fnv32_from h s)) as Hf;
    [|apply Hf; by unfold uint32_range, fnv_offset32, two32].
  induction s as [|c s IH]; intros h Hh; simpl; [done|].
  apply IH, lxor_range; [apply wrap32u_range|apply byte_range].
Qed.

Lemma LastIndexByte_None s c : LastIndexByte s c = None <-> Count s c = 0%nat.
Proof.
  induction s as [|a s IH]; simpl; [done|].
  destruct (LastIndexByte s c); [split; [done|]; intros; destruct IH as [_ IH]; discriminate IH; lia|].
  destruct (Ascii.eqb a c); [split; [done|lia]|]. simpl. by rewrite <- IH.
Qed.

Lemma LastIndexByte_app s c t :
  Count t c = 0%nat -> LastIndexByte (s +:+ String c t) c = Some (String.length s).
Proof.
  intros Ht. induction s as [|a s IH].
  - change (LastIndexByte (String c t) c = Some 0%nat). simpl.
    apply LastIndexByte_None in Ht. by rewrite Ht, Ascii.eqb_refl.
  - rewrite append_cons. simpl. by rewrite IH.
Qed.

Lemma sdrop_cons_app s c t : sdrop (String.length s + 1) (s +:+ String c t) = t.
Proof. induction s as [|a s IH]; [done|]. rewrite append_cons. simpl. done. Qed.

(** Digits contain no dash. *)
Lemma parse_digits_no_dash max acc s z : parse_digits max acc s = Some z -> Count s dash = 0%nat.
Proof.
  revert acc. induction s as [|c s IH]; simpl; intros acc; [done|].
  destruct (digit c) as [d|] eqn:Hd; [|done]. destruct (_ <? _); [done|]. intros Hp.
  rewrite (IH _ Hp). destruct (Ascii.eqb_spec c dash) as [->|]; [by vm_compute in Hd|done].
Qed.

Lemma ParseUint32_no_dash s z : ParseUint32 s = Some z -> Count s dash = 0%nat.
Proof. unfold ParseUint32. destruct s; [done|]. apply parse_digits_no_dash. Qed.

(** The name of a StatefulSet's claim: [claim-set-id]. *)
Lemma hashed_name_statefulset claim set id i :
  Count set dash = 0%nat -> ParseUint32 id = Some i ->
  hashed_name (claim +:+ String dash (set +:+ String dash id)) = (set, i).
Proof.
  intros Hset Hid. unfold hashed_name.
  assert (claim +:+ String dash (set +:+ String dash id)
          = (claim +:+ String dash set) +:+ String dash id) as ->
    by (by rewrite append_assoc, append_cons).
  rewrite LastIndexByte_app by (by eapply ParseUint32_no_dash).
  rewrite sdrop_cons_app, Hid, stake_app, LastIndexByte_app by done. by rewrite sdrop_cons_app.
Qed.

Section ChooseSpec.
Context {W : Type} `{Backend W}.

(** The zone at an offset of the sorted list. *)
Definition zone_at (zones : gset string) (h : Z) : option string :=
  List_ zones !! Z.to_nat (wrap32u h mod Z.of_nat (size zones)).

Lemma zone_at_is_Some zones h : 0 < Z.of_nat (size zones) -> is_Some (zone_at zones h).
Proof.
  intros Hn. apply lookup_lt_is_Some_2. rewrite length_List.
  pose proof (Z.mod_pos_bound (wrap32u h) (Z.of_nat (size zones)) Hn). lia.
Qed.

Lemma post_ChooseZoneForVolume zones pvcName (s : state W)
    (Q : outcome string -> state W -> list event -> Prop) :
  0 < Z.of_nat (size zones) < two32 ->
  (forall hash idx d w z,
     (pvcName <> EmptyString ->
        hash = fnv32 (fst (hashed_name pvcName)) /\ idx = snd (hashed_name pvcName)
        /\ d = 0%N /\ w = st_world s) ->
     zone_at zones (hash + idx) = Some z ->
     Q (Val z) (State (st_now s + Z.of_N d) w (st_cfg s)) []) ->
  post (ChooseZoneForVolume zones pvcName) s Q.
Proof.
  intros Hn HQ. unfold ChooseZoneForVolume, getPVCNameHashAndIndexOffset. go.
  assert (forall hash idx d w,
    (pvcName <> EmptyString ->
        hash = fnv32 (fst (hashed_name pvcName)) /\ idx = snd (hashed_name pvcName)
        /\ d = 0%N /\ w = st_world s) ->
    post (let zoneSlice := List_ zones in
          let n := wrap32u (Z.of_nat (length zoneSlice)) in
          if n =? 0 then panic_ DivideByZero
          else index zoneSlice (wrap32u (hash + idx) mod n))
      (State (st_now s + Z.of_N d) w (st_cfg s)) Q) as Hpick.
  { intros hash idx d w Hne. cbv zeta. rewrite length_List, wrap32u_id by (unfold uint32_range; lia).
    rewrite (proj2 (Z.eqb_neq _ 0)) by lia. unfold index.
    pose proof (Z.mod_pos_bound (wrap32u (hash + idx)) (Z.of_nat (size zones)) (proj1 Hn)).
    rewrite (proj2 (Z.leb_le 0 _)) by lia.
    destruct (zone_at_is_Some zones (hash + idx)) as [z Hz]; [lia|].
    pose proof Hz as Hz'. unfold zone_at in Hz'. rewrite Hz'. go. eauto. }
  destruct (is_empty pvcName) eqn:He.
  - apply is_empty_true in He. go. unfold rand_Uint32. go. apply Hpick. done.
  - destruct (hashed_name pvcName) as [hs idx] eqn:Hh. go.
    specialize (Hpick (fnv32 hs) idx 0%N (st_world s)). simpl in Hpick.
    rewrite Z.add_0_r in Hpick. destruct s. by apply Hpick.
Qed.
End ChooseSpec.

(** ** Properties *)

(** The zone chosen is one of the zones on offer, whatever the name (even the empty
    one, for which a random hash is used), and choosing makes no call. *)
Theorem ChooseZone_member {W} `{Backend W} zones pvcName (s : state W) :
  0 < Z.of_nat (size zones) < two32 ->
  post (ChooseZoneForVolume zones pvcName) s (fun o _ l =>
    l = [] /\ exists z, o = Val z /\ z ∈ zones).
Proof.
  intros Hn. apply post_ChooseZoneForVolume; [done|]. intros hash idx d w z _ Hz.
  split; [done|]. exists z. split; [done|]. apply elem_of_List. by eapply list_elem_of_lookup_2.
Qed.

(** The claims of one StatefulSet member, whose names are [claim-set-i], get the same
    zone whatever the claim template is called, so that the member can mount all of them;
    and members whose indices differ by less than the number of zones get different zones,
    so that any run of consecutive members is spread over all of them (as long as the hash
    plus the index does not wrap around 32 bits). *)
Theorem ChooseZone_statefulset {W} `{Backend W} zones set claim1 claim2 id1 id2 i1 i2
    (s1 s2 : state W) :
  0 < Z.of_nat (size zones) < two32 ->
  Count set dash = 0%nat ->
  ParseUint32 id1 = Some i1 -> ParseUint32 id2 = Some i2 ->
  fnv32 set + Z.max i1 i2 < two32 -> Z.abs (i1 - i2) < Z.of_nat (size zones) ->
  exists z1 z2,
    fst (fst (ChooseZoneForVolume zones (claim1 +:+ String dash (set +:+ String dash id1)) s1)) = Val z1
    /\ fst (fst (ChooseZoneForVolume zones (claim2 +:+ String dash (set +:+ String dash id2)) s2)) = Val z2
    /\ (z1 = z2 <-> i1 = i2).
Proof.
  intros Hn Hset Hid1 Hid2 Hmax Habs. set (n := Z.of_nat (size zones)) in *.
  assert (forall claim id i (s : state W), ParseUint32 id = Some i -> exists z,
    fst (fst (ChooseZoneForVolume zones (claim +:+ String dash (set +:+ String dash id)) s)) = Val z
    /\ zone_at zones (fnv32 set + i) = Some z) as Hpick.
  { intros claim id i s Hi.
    assert (post (ChooseZoneForVolume zones (claim +:+ String dash (set +:+ String dash id))) s
      (fun o _ _ => exists z, o = Val z /\ zone_at zones (fnv32 set + i) = Some z)) as Hpost.
    { apply post_ChooseZoneForVolume; [done|]. intros hash idx d w z Hne Hz.
      rewrite (hashed_name_statefulset claim set id i) in Hne by done. simpl in Hne.
      destruct Hne as (-> & -> & _); [by destruct claim|]. eauto. }
    unfold post in Hpost. destruct (ChooseZoneForVolume _ _ s) as [[o s'] l]. naive_solver. }
  destruct (Hpick claim1 id1 i1 s1 Hid1) as (z1 & -> & Hz1).
  destruct (Hpick claim2 id2 i2 s2 Hid2) as (z2 & -> & Hz2).
  exists z1, z2. split; [done|]. split; [done|]. split; [|congruence]. intros <-.
  unfold zone_at in *. fold n in Hz1, Hz2.
  pose proof (fnv32_range set) as Hf. apply ParseUint32_range in Hid1, Hid2. unfold uint32_range in *.
  rewrite wrap32u_id in Hz1, Hz2 by (unfold uint32_range; lia).
  pose proof (Z.mod_pos_bound (fnv32 set + i1) n ltac:(lia)).
  pose proof (Z.mod_pos_bound (fnv32 set + i2) n ltac:(lia)).
  assert ((fnv32 set + i1) mod n = (fnv32 set + i2) mod n) as Heq.
  { apply Z2Nat.inj; [lia..|]. eapply NoDup_lookup; [apply List_NoDup|done|done]. }
  clear - Hn Heq Habs. revert Heq. generalize (fnv32 set) as h. clearbody n. intros h Heq.
  assert (n <> 0) as Hn0 by lia.
  pose proof (Z.div_mod (h + i1) n Hn0). pose proof (Z.div_mod (h + i2) n Hn0).
  set (k := (h + i1) / n - (h + i2) / n).
  assert (i1 - i2 = n * k) as Hd by (unfold k; lia). clearbody k.
  rewrite Hd, Z.abs_mul, (Z.abs_eq n) in Habs by lia.
  assert (k = 0) as -> by nia. lia.
Qed.
