(* ===== verification/Core.v ===== *)
(** * The provisioner that the controller calls: pkg/provisioner/core

    [Provision] chooses an availability domain from the claim's selector or the nodes'
    labels, lets the plugin provision, and marks the volume as its own; [Delete] deletes
    only volumes with that mark.  The plugin is the class [ProvisionerPlugin]: what is
    proved here holds for every plugin that keeps [PluginContract]. *)

From Stdlib Require Import Ascii.
From S2P Require Import Prelude GoStrings Errors Quantity Objects Config Effects Logic Wait Plugin InstanceMeta Client Zones.
From S2P Require Block Fss.

Open Scope Z_scope.

(** ** Constants (provisioner.go) *)

Definition ProvisionerNameDefault : string := "oracle.com/oci".
Definition ProvisionerNameBlock : string := "oracle.com/oci-block".
Definition ProvisionerNameFss : string := "oracle.com/oci-fss".
Definition configFilePath : string := "/etc/oci/config.yaml".

Definition roundUpSize (volumeSizeBytes allocationUnitBytes : Z) : Z :=
  div64 (sub64 (add64 volumeSizeBytes allocationUnitBytes) 1) allocationUnitBytes.

Definition mapAvailabilityDomainToFailureDomain (AD : string) : string :=
  let parts := SplitN AD ":"%char 2 in
  match parts with
  | [] => EmptyString
  | _ => List.last parts EmptyString
  end.

(** [identity.AvailabilityDomain.String] (common.PointerString), and a slice of them. *)
Definition pointer_field (name : string) (p : option string) : string :=
  name +:+ "=" +:+ match p with Some v => v | None => "<nil>" end.

Definition ad_String (ad : AvailabilityDomain) : string :=
  TrimSpace (Join [EmptyString; EmptyString; "{"; pointer_field "Name" (ad_Name ad);
                   pointer_field "CompartmentId" (ad_CompartmentId ad); "}"] " "%char).

Definition ads_String (l : list AvailabilityDomain) : string :=
  "[" +:+ Join (ad_String <$> l) " "%char +:+ "]".

(** The node labels collected by [chooseAvailabilityDomain]. *)
Definition valid_ads (nodes : list Node) : gset string :=
  foldl (fun validADs node =>
    match node_Labels node !! LabelZoneFailureDomain with
    | Some zone => {[zone]} ∪ validADs
    | None => validADs
    end) ∅ nodes.

Definition legacy_selector : string := "oci-availability-domain".

(** The name that the claim asks for. *)
Definition selected (pvc : PersistentVolumeClaim) : option string :=
  match pvc_Selector pvc with
  | Some selector =>
      match MatchLabels selector !! LabelZoneFailureDomain with
      | Some name => Some name
      | None => MatchLabels selector !! legacy_selector
      end
  | None => None
  end.

Definition set_Annotations (pv : PersistentVolume) (m : gomap string) : PersistentVolume :=
  {| pv_Name := pv_Name pv; pv_Annotations := m; pv_Labels := pv_Labels pv;
     pv_ReclaimPolicy := pv_ReclaimPolicy pv; pv_AccessModes := pv_AccessModes pv;
     pv_Capacity := pv_Capacity pv; pv_FlexVolume := pv_FlexVolume pv; pv_NFS := pv_NFS pv;
     pv_MountOptions := pv_MountOptions pv; pv_ClaimRef := pv_ClaimRef pv;
     pv_StorageClassName := pv_StorageClassName pv; pv_Phase := pv_Phase pv |}.

Definition set_Labels (pv : PersistentVolume) (m : gomap string) : PersistentVolume :=
  {| pv_Name := pv_Name pv; pv_Annotations := pv_Annotations pv; pv_Labels := m;
     pv_ReclaimPolicy := pv_ReclaimPolicy pv; pv_AccessModes := pv_AccessModes pv;
     pv_Capacity := pv_Capacity pv; pv_FlexVolume := pv_FlexVolume pv; pv_NFS := pv_NFS pv;
     pv_MountOptions := pv_MountOptions pv; pv_ClaimRef := pv_ClaimRef pv;
     pv_StorageClassName := pv_StorageClassName pv; pv_Phase := pv_Phase pv |}.

Section Core.
Context {W : Type} `{Backend W} `{!ProvisionerClient} `{!ProvisionerPlugin W}.

(** ** utils.go *)

(** The loop over the listed domains: each name is dereferenced until one matches. *)
Fixpoint find_ad (name : string) (items : list AvailabilityDomain) :
  M W (option AvailabilityDomain) :=
  match items with
  | [] => ret None
  | ad :: items =>
      let* adName := deref (ad_Name ad) in
      if HasSuffix adName name then ret (Some ad) else find_ad name items
  end.

Definition findADByName (c : ctx) (name : string) : M W (result AvailabilityDomain) :=
  let* comp := CompartmentOCID_ in
  let* c := WithTimeout c client_Timeout in
  let! items := ListAvailabilityDomains c (Some comp) in
  let* r := find_ad name items in
  match r with
  | Some ad => ret (Ok ad)
  | None => ret (Err (Errorf "error looking up availability domain '%s':%v"
                        [FStr name; FStr (ads_String items)]))
  end.

(** The choice among the zones of the nodes. *)
Definition choose_from_nodes (pvcName : string) : M W (result string) :=
  let* nodes := ListNodes in
  match nodes with
  | Err err =>
      ret (Err (Errorf "failed to list nodes when choosing availability domain: %v"
                  [FStr (Error err)]))
  | Ok nodes =>
      let validADs := valid_ads nodes in
      if (Z.of_nat (size validADs) =? 0)%Z then
        ret (Err (Errorf "failed to choose availability domain; no zone labels (%q) on nodes"
                    [FStr LabelZoneFailureDomain]))
      else let* zone := ChooseZoneForVolume validADs pvcName in ret (Ok zone)
  end.

Definition chooseAvailabilityDomain (c : ctx) (pvc : option PersistentVolumeClaim) :
  M W (result (string * AvailabilityDomain)) :=
  let* pvc := deref pvc in
  let! availabilityDomainName :=
    match selected pvc with
    | Some name => ret (Ok name)
    | None => choose_from_nodes (pvc_Name pvc)
    end in
  let! availabilityDomain := findADByName c availabilityDomainName in
  ret (Ok (availabilityDomainName, availabilityDomain)).

(** ** provisioner.go *)

Definition Provision (options : VolumeOptions) : M W (result PersistentVolume) :=
  let! chosen := chooseAvailabilityDomain Background (vo_PVC options) in
  let '(availabilityDomainName, availabilityDomain) := chosen in
  let! pv := plugin_Provision options availabilityDomain in
  let* a := map_write (pv_Annotations pv) ociProvisionerIdentity ociProvisionerIdentity in
  let* a := map_write a ociAvailabilityDomain availabilityDomainName in
  let* comp := CompartmentOCID_ in
  let* a := map_write a ociCompartment comp in
  let* adName := deref (ad_Name availabilityDomain) in
  let* l := map_write (pv_Labels pv) LabelZoneFailureDomain
              (mapAvailabilityDomainToFailureDomain adName) in
  ret (Ok (set_Labels (set_Annotations pv a) l)).

Definition Delete (volume : PersistentVolume) : M W (result unit) :=
  match gomap_lookup (pv_Annotations volume) ociProvisionerIdentity with
  | None => ret (Err (errors_New "identity annotation not found on PV"))
  | Some identity =>
      if negb (String.eqb identity ociProvisionerIdentity) then
        ret (Err (ErrIgnored "identity annotation on PV does not match ours"))
      else plugin_Delete volume
  end.

(** [WaitForCacheSync] is client-go's: it reports whether the node cache synced before the
    stop channel closed. *)
Definition Ready (WaitForCacheSync : M W bool) : M W (result unit) :=
  let* synced := WaitForCacheSync in
  if negb synced then
    ret (Err (errors_New "unable to sync caches for OCI Volume Provisioner"))
  else ret (Ok tt).
End Core.

(** ** NewOCIProvisioner *)

Inductive plugin_kind : Type :=
| PBlock (block : Block.blockProvisioner)
| PFss (fsp : Fss.filesystemProvisioner).

Record OCIProvisioner : Type := {
  oci_client : provisionerClient;
  oci_provisioner : plugin_kind
}.

Section New.
Context {W : Type} `{Backend W} `{GoLib} `{SDK W}.

(** The switch over the provisioner types. *)
Definition new_provisioner (client : provisionerClient) (provisionerType : string)
    (volumeRoundingEnabled : bool) (minVolumeSize : Quantity) (region : string) :
  M W (result OCIProvisioner) :=
  let new_block :=
    let* b := @Block.NewBlockProvisioner W (client_of client)
                volumeRoundingEnabled minVolumeSize (3 * Minute) in
    ret (Ok {| oci_client := client; oci_provisioner := PBlock b |}) in
  if String.eqb provisionerType ProvisionerNameDefault then new_block
  else if String.eqb provisionerType ProvisionerNameBlock then new_block
  else if String.eqb provisionerType ProvisionerNameFss then
    let* f := @Fss.NewFilesystemProvisioner W (client_of client) region in
    ret (Ok {| oci_client := client; oci_provisioner := PFss f |})
  else ret (Err (Errorf "invalid provisioner type %q" [FStr provisionerType])).

Definition NewOCIProvisioner (provisionerType : string) (volumeRoundingEnabled : bool)
    (minVolumeSize : Quantity) : M W (result OCIProvisioner) :=
  let configPath := match LookupEnv (W := W) "CONFIG_YAML_FILENAME" with
                    | Some p => p | None => configFilePath end in
  match os_Open configPath with
  | Err _ => fatal
  | Ok f =>
      let* cfg := LoadConfig (Some f) in
      match cfg with
      | Err _ => fatal
      | Ok cfg =>
          let* _ := put_cfg (Some cfg) in
          let* client := FromConfig in
          match client with
          | Err _ => fatal
          | Ok client =>
              let! region :=
                match LookupEnv (W := W) "OCI_SHORT_REGION" with
                | Some region => ret (Ok region)
                | None => let! metadata := Get New in ret (Ok (md_Region metadata))
                end in
              new_provisioner client provisionerType volumeRoundingEnabled minVolumeSize region
          end
      end
  end.

(** The plugin behind the interface value, with the fuel of its loops. *)
Definition plugin_of (fuel : nat) (p : OCIProvisioner) : ProvisionerPlugin W :=
  match oci_provisioner p with
  | PBlock block =>
      {| plugin_Provision :=
           @Block.Provision W _ (client_of (oci_client p)) metadataGetter_Interface fuel block;
         plugin_Delete := @Block.Delete W _ (client_of (oci_client p)) |}
  | PFss fsp =>
      {| plugin_Provision := @Fss.Provision W _ (client_of (oci_client p)) fuel fsp;
         plugin_Delete := @Fss.Delete W _ |}
  end.
End New.
