(* ===== verification/CoreSpec.v ===== *)
(** * What the core provisioner promises

    The choice of the availability domain, the marking of volumes, and the two together
    with a plugin: first for every plugin that keeps the contract, then for the block
    provisioner, whose [Delete] undoes its [Provision]. *)

From Stdlib Require Import Ascii.
From S2P Require Import Prelude GoStrings Errors Quantity Objects Config Effects Logic Wait Plugin InstanceMeta Client Zones Core.
From S2P Require Block BlockSpec Fss FssSpec.

Open Scope Z_scope.

(** ** The zones of the nodes *)

Definition has_zone (z : string) (node : Node) : Prop :=
  node_Labels node !! LabelZoneFailureDomain = Some z.

Lemma elem_of_valid_ads nodes z : z ∈ valid_ads nodes <-> Exists (has_zone z) nodes.
Proof.
  unfold valid_ads. assert (forall acc : gset string,
    z ∈ foldl (fun validADs node =>
      match node_Labels node !! LabelZoneFailureDomain with
      | Some zone => {[zone]} ∪ validADs
      | None => validADs
      end) acc nodes <-> z ∈ acc \/ Exists (has_zone z) nodes) as Hacc; [|rewrite Hacc; set_solver].
  induction nodes as [|n nodes IH]; intros acc; simpl; [rewrite Exists_nil; naive_solver|].
  rewrite IH, Exists_cons. unfold has_zone at 2.
  destruct (node_Labels n !! LabelZoneFailureDomain); set_solver.
Qed.

Lemma valid_ads_perm nodes nodes' : nodes ≡ₚ nodes' -> valid_ads nodes = valid_ads nodes'.
Proof.
  intros Hp. apply set_eq. intros z. rewrite !elem_of_valid_ads, !Exists_exists.
  by setoid_rewrite Hp.
Qed.

(** ** Failure-domain labels *)

(** The failure-domain label of a volume is the availability domain's name after its
    first colon, or the whole name when it has none; it is always a suffix of the name. *)
Theorem failure_domain_label (tenant zone AD : string) :
  (Count AD ":" = 0%nat -> mapAvailabilityDomainToFailureDomain AD = AD)
  /\ (Count tenant ":" = 0%nat ->
      mapAvailabilityDomainToFailureDomain (tenant +:+ String ":" zone) = zone)
  /\ HasSuffix AD (mapAvailabilityDomainToFailureDomain AD) = true.
Proof.
  unfold mapAvailabilityDomainToFailureDomain. rewrite !SplitN_SS. split; [|split].
  - intros Hc%cut_None. by rewrite Hc.
  - intros Hc. by rewrite cut_app.
  - destruct (cut AD ":") as [[x y]|] eqn:Hc; simpl.
    + apply cut_Some in Hc as [-> _]. apply HasSuffix_spec. exists (x +:+ String ":" EmptyString).
      by rewrite append_assoc.
    + apply HasSuffix_spec. by exists EmptyString.
Qed.

Section Choice.
Context {W : Type} `{Backend W} `{!ProvisionerClient}.

Definition not_suffixed (name : string) (ad : AvailabilityDomain) : Prop :=
  exists n, ad_Name ad = Some n /\ HasSuffix n name = false.

(** The first listed domain whose name ends in [name]. *)
Definition first_suffixed (name : string) (items : list AvailabilityDomain)
    (ad : AvailabilityDomain) : Prop :=
  exists l1 l2 n, items = l1 ++ ad :: l2 /\ Forall (not_suffixed name) l1
    /\ ad_Name ad = Some n /\ HasSuffix n name = true.

Definition find_ad_spec (name : string) (items : list AvailabilityDomain)
    (o : outcome (option AvailabilityDomain)) : Prop :=
  match o with
  | Val (Some ad) => first_suffixed name items ad
  | Val None => Forall (not_suffixed name) items
  | Panicked NilDereference => Exists (fun ad => ad_Name ad = None) items
  | _ => False
  end.

Lemma find_ad_run name items (s : state W) :
  exists o, find_ad name items s = (o, s, []) /\ find_ad_spec name items o.
Proof.
  induction items as [|ad items IH]; simpl; [eexists; split; [done|constructor]|].
  unfold bind, deref. destruct (ad_Name ad) as [n|] eqn:Hn; simpl.
  2: { exists (Panicked NilDereference). split; [done|]. by constructor. }
  destruct (HasSuffix n name) eqn:Hs.
  - eexists. split; [done|]. exists [], items, n. split; [done|]. split; [constructor|]. done.
  - destruct IH as (o & Hrun & Ho). rewrite Hrun. exists o. split; [done|].
    assert (not_suffixed name ad) as Had by (exists n; done).
    destruct o as [[ad'|]|p|c|]; simpl in *; try done.
    + destruct Ho as (l1 & l2 & n' & -> & ? & ?). exists (ad :: l1), l2, n'.
      split; [done|]. split; [by constructor|done].
    + by constructor.
    + destruct p; try done. by apply Exists_cons_tl.
Qed.

(** The label that core writes on a volume is accepted as a selector: against any
    listing of named domains that contains the volume's domain, looking up the label finds a
    domain, one whose name ends in the label. *)
Theorem label_selects items ad adName (s : state W) :
  Forall (fun a => is_Some (ad_Name a)) items -> ad ∈ items -> ad_Name ad = Some adName ->
  exists ad' n, find_ad (mapAvailabilityDomainToFailureDomain adName) items s = (Val (Some ad'), s, [])
    /\ ad_Name ad' = Some n
    /\ HasSuffix n (mapAvailabilityDomainToFailureDomain adName) = true.
Proof.
  intros Hnamed Hin Had.
  assert (HasSuffix adName (mapAvailabilityDomainToFailureDomain adName) = true) as Hs.
  { unfold mapAvailabilityDomainToFailureDomain. rewrite SplitN_SS.
    destruct (cut adName ":") as [[x y]|] eqn:Hc; apply HasSuffix_spec; [|by exists EmptyString].
    apply cut_Some in Hc as [-> _]. exists (x +:+ String ":" EmptyString).
    by rewrite append_assoc. }
  destruct (find_ad_run (mapAvailabilityDomainToFailureDomain adName) items s) as (o & -> & Ho).
  destruct o as [[ad'|]|p|c|]; simpl in Ho; try done.
  - destruct Ho as (l1 & l2 & n & _ & _ & ? & ?). eauto.
  - rewrite Forall_forall in Ho. destruct (Ho _ Hin) as (n & Hn & Hf). congruence.
  - destruct p; try done. apply Exists_exists in Ho as (a & Ha & Hn).
    rewrite Forall_forall in Hnamed. destruct (Hnamed _ Ha). congruence.
Qed.

(** What one lookup of a domain by name did. *)
Definition looked_up (name : string) (o : outcome (result AvailabilityDomain)) (l : list event) : Prop :=
  exists comp e r, l = [e] /\ ev_call e = CListAvailabilityDomains (Some comp) r /\
    match r, o with
    | inr x, Val (Err err) => err = ErrSDK x
    | inl items, Val (Ok ad) => first_suffixed name items ad
    | inl items, Val (Err err) => Forall (not_suffixed name) items
        /\ err = Errorf "error looking up availability domain '%s':%v"
                   [FStr name; FStr (ads_String items)]
    | inl items, Panicked p => p = NilDereference /\ Exists (fun ad => ad_Name ad = None) items
    | _, _ => False
    end.

Lemma post_findADByName `{!ProvisionerClientOk} c name (s : state W) :
  post (findADByName c name) s (fun o s' l =>
    (l = [] /\ ((exists p, o = Panicked p) \/ (exists n, o = Exited n))) \/ looked_up name o l).
Proof.
  unfold findADByName. go. apply post_CompartmentOCID. intros o c' Hc.
  pose proof (compartment_returns (st_cfg s)) as Hr. rewrite Hc in Hr.
  destruct o as [comp|p|n|]; go; [|left; eauto..|done].
  destruct a as [items|x]; go; [|right; by repeat eexists].
  unfold post. match goal with |- context [find_ad name items ?s1] =>
    destruct (find_ad_run name items s1) as (o & -> & Ho) end.
  destruct o as [[ad|]|p|n|]; simpl in Ho; try done; go; right;
    eexists comp, _, (inl items); (split; [done|]); (split; [done|]); try done.
  by destruct p.
Qed.
End Choice.

Section CoreProperties.
Context {W : Type} `{Backend W} `{!ProvisionerClient} `{!ProvisionerClientOk}.

(** Where the name of the domain comes from: the claim, or a zone label of a node (for
    fewer than 2^32 zones). *)
Definition named_by (pvc : PersistentVolumeClaim) (name : string) (l : list event) : Prop :=
  match selected pvc with
  | Some asked => name = asked /\ l = []
  | None => exists e nodes, l = [e] /\ ev_call e = CListNodes (Ok nodes)
              /\ (Z.of_nat (size (valid_ads nodes)) < two32 -> Exists (has_zone name) nodes)
  end.

Lemma post_choose_from_nodes pvcName (s : state W) :
  post (choose_from_nodes pvcName) s (fun o s' l => forall name, o = Val (Ok name) ->
    exists e nodes, l = [e] /\ ev_call e = CListNodes (Ok nodes)
      /\ (Z.of_nat (size (valid_ads nodes)) < two32 -> Exists (has_zone name) nodes)).
Proof.
  unfold choose_from_nodes. go. destruct a as [nodes|e]; go; [|done].
  destruct (Z.eqb_spec (Z.of_nat (size (valid_ads nodes))) 0); go; [done|].
  apply post_of_run. intros o s' l Hrun.
  assert (l = []) as ->.
  { eapply (post_run _ _ (fun _ _ l => l = [])); [|exact Hrun].
    unfold ChooseZoneForVolume, getPVCNameHashAndIndexOffset.
    destruct (is_empty pvcName); [unfold rand_Uint32|destruct (hashed_name pvcName)]; go;
      (destruct (_ =? _)%Z; go; [done|]); unfold index; (destruct (0 <=? _)%Z; go; [|done]);
      by destruct (_ !! _). }
  destruct o as [z|p|c|]; go; try done. intros name [= <-]. do 2 eexists. split; [done|].
  split; [done|]. intros Hsize. apply elem_of_valid_ads.
  eapply (post_run _ _ (fun o _ _ => forall z, o = Val z -> z ∈ valid_ads nodes));
    [|exact Hrun|done].
  apply post_ChooseZoneForVolume; [lia|]. intros hash idx d0 w0 z0 _ Hz0 z1 [= <-].
  apply elem_of_List. by eapply list_elem_of_lookup_2.
Qed.

(** C31: the availability domain chosen is the first listed domain whose name ends in the
    name looked for, and that name is the one of the claim's selector (the standard label
    before the legacy one), in which case no node is consulted, or else the zone label of
    some node. *)
Theorem chooseAvailabilityDomain_spec c pvc (s : state W) :
  post (chooseAvailabilityDomain c (Some pvc)) s (fun o s' l =>
    forall name ad, o = Val (Ok (name, ad)) ->
    exists l1 e items comp,
      l = l1 ++ [e] /\ named_by pvc name l1
      /\ ev_call e = CListAvailabilityDomains (Some comp) (inl items)
      /\ first_suffixed name items ad).
Proof using All.
  unfold chooseAvailabilityDomain. go. eapply post_mono.
  { instantiate (1 := fun o s' l => forall name, o = Val (Ok name) -> named_by pvc name l).
    unfold named_by. destruct (selected pvc) as [asked|]; [by go; intros name [= <-]|].
    apply post_choose_from_nodes. }
  intros [[name|e]|p|n|] s1 l1 Hname; go; try done. specialize (Hname _ eq_refl).
  eapply post_mono; [apply post_findADByName|].
  intros o s2 l2 [[-> [[p ->]|[n ->]]]|(comp & e & r & -> & He & Hr)]; go; try done.
  destruct o as [[ad|e']|p|n|]; go; try done. rewrite app_nil_r.
  intros name' ad' [= <- <-]. destruct r as [items|x]; [|done].
  exists l1, e, items, comp. done.
Qed.

Context `{!ProvisionerPlugin W}.

(** The volume as core hands it to the controller. *)
Definition marked (pv : PersistentVolume) (name adName comp : string) (pv' : PersistentVolume) : Prop :=
  exists a b,
    pv_Annotations pv = Some a /\ pv_Labels pv = Some b
    /\ pv_Annotations pv' =
         Some (<["ociCompartment" := comp]>
                (<["ociAvailabilityDomain" := name]>
                  (<["ociProvisionerIdentity" := "ociProvisionerIdentity"]> a)))
    /\ pv_Labels pv' =
         Some (<["failure-domain.beta.kubernetes.io/zone" :=
                 mapAvailabilityDomainToFailureDomain adName]> b)
    /\ pv' = set_Labels (set_Annotations pv (pv_Annotations pv')) (pv_Labels pv').

(** What a successful [Provision] did: the choice, then the plugin, then the marks. *)
Lemma Provision_Ok options (s s' : state W) pv' l :
  Provision options s = (Val (Ok pv'), s', l) ->
  exists name ad adName comp c pv s1 s2 l1 l2,
    chooseAvailabilityDomain Background (vo_PVC options) s = (Val (Ok (name, ad)), s1, l1)
    /\ plugin_Provision options ad s1 = (Val (Ok pv), s2, l2)
    /\ l = l1 ++ l2
    /\ ad_Name ad = Some adName /\ client_compartment (st_cfg s2) = (Val comp, c)
    /\ marked pv name adName comp pv'.
Proof.
  unfold Provision. intros ([name ad] & s1 & l1 & l2 & Hch & Hk & ->)%bind_ok_Ok.
  apply bind_ok_Ok in Hk as (pv & s2 & l3 & l4 & Hpv & Hk & ->).
  apply bind_Val in Hk as (a1 & s3 & ? & ? & (g & Hg & -> & -> & ->)%map_write_Val & Hk & ->).
  apply bind_Val in Hk as (a2 & s4 & ? & ? & (g2 & [= <-] & -> & -> & ->)%map_write_Val & Hk & ->).
  apply bind_Val in Hk as (comp & s5 & ? & ? & Hcomp & Hk & ->).
  unfold CompartmentOCID_ in Hcomp.
  destruct (client_compartment (st_cfg s2)) as [o c] eqn:Hc. injection Hcomp as -> <- <-.
  apply bind_Val in Hk as (a3 & s6 & ? & ? & (g3 & [= <-] & -> & -> & ->)%map_write_Val & Hk & ->).
  apply bind_Val in Hk as (adn & s7 & ? & ? & (Had & -> & ->)%deref_Val & Hk & ->).
  apply bind_Val in Hk as (lb & s8 & ? & ? & (g4 & Hg4 & -> & -> & ->)%map_write_Val & Hk & ->).
  injection Hk as <- <- <-.
  exists name, ad, adn, comp, c, pv, s1, s2, l1, l3. rewrite !app_nil_r.
  repeat (split; [done|]). exists g, g4. by repeat (split; [done|]).
Qed.

(** C18: a volume that [Provision] returns is the plugin's own volume, made in a domain that
    the choice returned, with exactly four changes: the identity mark, the chosen name and
    the compartment as annotations, and the failure-domain label of that domain; every other
    annotation and label, and all else, is the plugin's. *)
Theorem core_Provision_success options (s : state W) :
  post (Provision options) s (fun o s' l => forall pv', o = Val (Ok pv') ->
    exists name ad adName comp pv s1 s2 l1 l2,
      chooseAvailabilityDomain Background (vo_PVC options) s = (Val (Ok (name, ad)), s1, l1)
      /\ plugin_Provision options ad s1 = (Val (Ok pv), s2, l2)
      /\ l = l1 ++ l2 /\ ad_Name ad = Some adName
      /\ (forall k, gomap_lookup (pv_Annotations pv') k =
            if String.eqb k "ociProvisionerIdentity" then Some "ociProvisionerIdentity"
            else if String.eqb k "ociAvailabilityDomain" then Some name
            else if String.eqb k "ociCompartment" then Some comp
            else gomap_lookup (pv_Annotations pv) k)
      /\ (forall k, gomap_lookup (pv_Labels pv') k =
            if String.eqb k "failure-domain.beta.kubernetes.io/zone"
            then Some (mapAvailabilityDomainToFailureDomain adName)
            else gomap_lookup (pv_Labels pv) k)
      /\ pv' = set_Labels (set_Annotations pv (pv_Annotations pv')) (pv_Labels pv')).
Proof.
  apply post_of_run. intros o s' l Hrun pv' ->.
  apply Provision_Ok in Hrun
    as (name & ad & adn & comp & c & pv & s1 & s2 & l1 & l2 & Hch & Hpv & -> & Had & Hc & Hm).
  destruct Hm as (a & b & Ha & Hb & Ha' & Hb' & Heq).
  exists name, ad, adn, comp, pv, s1, s2, l1, l2. do 4 (split; [done|]).
  rewrite Ha, Hb, Ha', Hb'. simpl. split; [|split; [|by rewrite <- Ha', <- Hb']]; intros k.
  - destruct (String.eqb_spec k "ociProvisionerIdentity") as [->|?];
      [by rewrite !lookup_insert_ne, lookup_insert_eq by done|].
    destruct (String.eqb_spec k "ociAvailabilityDomain") as [->|?];
      [by rewrite lookup_insert_ne, lookup_insert_eq by done|].
    destruct (String.eqb_spec k "ociCompartment") as [->|?]; [by rewrite lookup_insert_eq|].
    by rewrite !lookup_insert_ne by done.
  - destruct (String.eqb_spec k "failure-domain.beta.kubernetes.io/zone") as [->|?];
      [by rewrite lookup_insert_eq|by rewrite lookup_insert_ne].
Qed.

(** [Delete] touches only volumes with this provisioner's mark. Without the mark it is
    an error and with somebody else's mark the error that the controller ignores, in both
    cases without a call and without a change of state; with the mark it is the plugin's
    [Delete]. *)
Theorem core_Delete_owned volume (s : state W) :
  post (Delete volume) s (fun o s' l =>
    match gomap_lookup (pv_Annotations volume) "ociProvisionerIdentity" with
    | None => l = [] /\ s' = s /\ exists m, o = Val (Err (ErrFundamental m))
    | Some i =>
        if String.eqb i "ociProvisionerIdentity" then plugin_Delete volume s = (o, s', l)
        else l = [] /\ s' = s /\ exists r, o = Val (Err (ErrIgnored r))
    end).
Proof.
  apply post_of_run. intros o s' l. unfold Delete, ociProvisionerIdentity.
  destruct (gomap_lookup _ _) as [i|]; [|intros [= <- <- <-]; by eauto].
  destruct (String.eqb i _); simpl; [done|]. intros [= <- <- <-]. eauto.
Qed.

Definition lists_only (k : call) : Prop :=
  (exists r, k = CListNodes r) \/ (exists c r, k = CListAvailabilityDomains c r).

Lemma choose_lists c pvc : upholds (chooseAvailabilityDomain c pvc) (only lists_only).
Proof.
  unfold chooseAvailabilityDomain, choose_from_nodes, findADByName, ChooseZoneForVolume,
    getPVCNameHashAndIndexOffset, rand_Uint32, lists_only.
  assert (forall name items, upholds (find_ad (W := W) name items) (only lists_only)) as Hfind.
  { intros name items. induction items as [|ad items IH]; simpl; upholds_tac; apply IH. }
  upholds_tac; eauto.
Qed.

(** How [Provision] fails: in the choice, or in the plugin. *)
Lemma Provision_Err options (s s' : state W) e l :
  Provision options s = (Val (Err e), s', l) ->
  (chooseAvailabilityDomain Background (vo_PVC options) s = (Val (Err e), s', l)
     /\ Forall (fun ev => lists_only (ev_call ev)) l)
  \/ exists name ad s1 l1 l2,
      chooseAvailabilityDomain Background (vo_PVC options) s = (Val (Ok (name, ad)), s1, l1)
      /\ Forall (fun ev => lists_only (ev_call ev)) l1
      /\ plugin_Provision options ad s1 = (Val (Err e), s', l2) /\ l = l1 ++ l2.
Proof.
  intros Hrun. unfold Provision in Hrun.
  apply bind_ok_Err in Hrun as [Hch|([name ad] & s1 & l1 & l2 & Hch & Hk & ->)];
    pose proof (post_run _ _ _ _ _ _ (choose_lists _ _ s) Hch) as Hl; [by left|right].
  apply bind_ok_Err in Hk as [Hpv|(pv & s2 & l3 & l4 & Hpv & Hk & ->)];
    [by exists name, ad, s1, l1, l2|].
  exfalso. apply bind_Val in Hk as (a1 & s3 & ? & ? & _ & Hk & ->).
  do 4 (apply bind_Val in Hk as (? & ? & ? & ? & _ & Hk & ->)).
  by apply bind_Val in Hk as (? & ? & ? & ? & _ & [=] & ->).
Qed.

(** A failed [Provision] either failed in the choice of the domain, after nothing but
    listings and before the plugin was asked, or reports the plugin's own error. *)
Theorem core_Provision_failure options (s : state W) :
  post (Provision options) s (fun o s' l => forall e, o = Val (Err e) ->
    (chooseAvailabilityDomain Background (vo_PVC options) s = (Val (Err e), s', l)
       /\ Forall (fun ev => lists_only (ev_call ev)) l)
    \/ exists name ad s1 l1 l2,
        chooseAvailabilityDomain Background (vo_PVC options) s = (Val (Ok (name, ad)), s1, l1)
        /\ plugin_Provision options ad s1 = (Val (Err e), s', l2) /\ l = l1 ++ l2).
Proof.
  apply post_of_run. intros o s' l Hrun e ->.
  destruct (Provision_Err _ _ _ _ _ Hrun) as [?|(name & ad & s1 & l1 & l2 & ? & _ & ? & ?)];
    [by left|right]. by exists name, ad, s1, l1, l2.
Qed.

Context `{!PluginContract W}.

Lemma marked_Delete pv name adName comp pv' (s : state W) :
  marked pv name adName comp pv' -> Delete pv' s = plugin_Delete pv s.
Proof using All.
  intros (a & b & Ha & Hb & Ha' & _ & _). unfold Delete. rewrite Ha'. cbn [gomap_lookup].
  unfold ociProvisionerIdentity. rewrite !lookup_insert_ne, lookup_insert_eq by done.
  rewrite String.eqb_refl. simpl. apply plugin_Delete_annotations. intros k Hk.
  unfold same_annotation. rewrite Ha, Ha'. simpl.
  unfold core_keys, ociProvisionerIdentity, ociAvailabilityDomain, ociCompartment in Hk.
  rewrite !not_elem_of_cons in Hk. destruct Hk as (? & ? & ? & _).
  by rewrite !lookup_insert_ne by congruence.
Qed.

(** Deleting a provisioned volume is deleting the plugin's own: for every plugin that
    keeps the contract, [Delete] of a volume that [Provision] returned runs the plugin's
    [Delete] exactly as it would run on the volume that the plugin made, at any later time.
    *)
Theorem core_Delete_of_provisioned options (s : state W) :
  post (Provision options) s (fun o _ _ => forall pv', o = Val (Ok pv') ->
    exists ad pv s1 s2 l2, plugin_Provision options ad s1 = (Val (Ok pv), s2, l2)
      /\ forall later, Delete pv' later = plugin_Delete pv later).
Proof using All.
  apply post_of_run. intros o s' l Hrun pv' ->.
  apply Provision_Ok in Hrun
    as (name & ad & adn & comp & c & pv & s1 & s2 & l1 & l2 & _ & Hpv & _ & _ & _ & Hm).
  exists ad, pv, s1, s2, l2. split; [done|]. intros later. by eapply marked_Delete.
Qed.
End CoreProperties.

(** ** Core with its two plugins *)

Section EndToEnd.
Context {W : Type} `{Backend W} `{!ProvisionerClient} `{!ProvisionerClientOk}.
Context `{!InstanceMeta W} `{!InstanceMetaOk W}.

(** A claim's whole life: provisioned, handed to the controller, deleted. *)
Definition provision_then_delete `{!ProvisionerPlugin W} (options : VolumeOptions) :
  M W (result (PersistentVolume * result unit)) :=
  let! pv := Provision options in
  let* r := Delete pv in
  ret (Ok (pv, r)).

Lemma provision_then_delete_Ok `{!ProvisionerPlugin W} `{!PluginContract W} options
    (s s' : state W) pv' r l :
  provision_then_delete options s = (Val (Ok (pv', r)), s', l) ->
  exists ad pv s1 s2 s3 l1 l2 l3,
    Forall (fun e => lists_only (ev_call e)) l1
    /\ plugin_Provision options ad s1 = (Val (Ok pv), s2, l2)
    /\ plugin_Delete pv s3 = (Val r, s', l3)
    /\ l = l1 ++ l2 ++ l3.
Proof using All.
  unfold provision_then_delete. intros (pv1 & s3 & l12 & l3 & Hprov & Hk & ->)%bind_ok_Ok.
  apply bind_Val in Hk as (r' & s4 & l3' & ? & Hdel & [= <- <- <- <-] & ->).
  apply Provision_Ok in Hprov
    as (name & ad & adn & comp & c & pv & s1 & s2 & l1 & l2 & Hch & Hpv & -> & _ & _ & Hm).
  exists ad, pv, s1, s2, s3, l1, l2, l3'. split; [|split; [done|split]].
  - eapply (post_run _ _ _ _ _ _ (choose_lists _ _ s)). exact Hch.
  - by rewrite <- (marked_Delete _ _ _ _ _ s3 Hm).
  - by rewrite app_nil_r, app_assoc.
Qed.

(** C16: the block life cycle: whenever a claim is provisioned by core with the block plugin
    and the volume core returned is then deleted, the calls are listings only, then one run
    of the plugin that creates a volume, sees it available and deletes nothing, then one
    deletion of that very volume. *)
Theorem block_life_cycle fuel block options (s : state W) :
  enough_fuel fuel (5 * Second) (Block.bp_timeout block) ->
  post (@provision_then_delete (BlockSpec.block_Plugin fuel block) options) s (fun o _ l =>
    forall pv r, o = Val (Ok (pv, r)) -> exists id l1 l2 d reply,
      l = l1 ++ l2 ++ [d] /\ Forall (fun e => lists_only (ev_call e)) l1
      /\ BlockSpec.created id l2 /\ BlockSpec.seen_available id l2 /\ BlockSpec.never_deletes l2
      /\ ev_call d = CDeleteVolume (Some id) reply).
Proof using All.
  intros Hf. apply post_of_run. intros o s' l Hrun pv r ->.
  pose proof (BlockSpec.block_contract fuel block Hf).
  apply provision_then_delete_Ok in Hrun as (ad & pv0 & s1 & s2 & s3 & l1 & l2 & l3 & Hl1 & Hp & Hd & ->).
  simpl in Hp, Hd. pose proof (post_run _ _ _ _ _ _ (BlockSpec.Provision_runs fuel block options ad s1 Hf) Hp) as Hr.
  inversion Hr as [| | | |? ? ? ? ? Ho| | | |
    |v id pvc capacity adName region e polls last https ? Hc Hid _ _ Hpolls _ Hend _ Hh]; subst.
  { by destruct Ho as [[? ?]|[? ?]]. }
  match type of Hd with Block.Delete ?pv _ = _ =>
    assert (gomap_lookup (pv_Annotations pv) Block.OCIVolumeID = Some id) as Hann by done end.
  destruct (post_run _ _ _ _ _ _ (BlockSpec.Delete_calls _ _ s3 Hann) Hd) as [reply ->].
  exists id, l1, (e :: polls ++ last :: https). do 2 eexists. split; [done|]. split; [done|].
  split; [by eapply BlockSpec.creates_created|]. split; [|split; [by eapply BlockSpec.available_never_deletes|done]].
  inversion Hend as [? v' Hpl Hv| | |]; subst. exists v'. split; [done|].
  apply Exists_cons_tl, Exists_app. right. by apply Exists_cons_hd.
Qed.

(** C17: the file-storage life cycle: when a claim is provisioned by core with the
    file-storage plugin and the volume is then deleted successfully, the deletions are those
    of the export and of the file system that the run saw active, in this order and after
    everything else. *)
Theorem fss_life_cycle fsp (rank : string -> nat) (bound : nat) options (s : state W) :
  (forall t w req c resp d w' q,
     fss_ListExports c req t w = (inl resp, d, w') -> le_OpcNextPage resp = Some q ->
     (rank q < match le_Page req with Some p => rank p | None => bound end)%nat) ->
  post (@provision_then_delete (FssSpec.fss_Plugin fsp bound) options) s (fun o _ l =>
    forall pv, o = Val (Ok (pv, Ok tt)) -> exists ex fs path l1 l2 d1 d2 r1 r2,
      l = l1 ++ l2 ++ [d1; d2] /\ Forall (fun e => lists_only (ev_call e)) l1
      /\ FssSpec.file_system_seen fs l2 /\ FssSpec.export_seen ex path l2
      /\ ev_call d1 = CDeleteExport (Some ex) r1 /\ ev_call d2 = CDeleteFileSystem (Some fs) r2).
Proof using All.
  intros Hrank. apply post_of_run. intros o s' l Hrun pv ->.
  pose proof (FssSpec.fss_contract fsp rank bound Hrank).
  apply provision_then_delete_Ok in Hrun as (ad & pv0 & s1 & s2 & s3 & l1 & l2 & l3 & Hl1 & Hp & Hd & ->).
  simpl in Hp, Hd.
  destruct (post_run _ _ _ _ _ _ (FssSpec.Provision_evidence (S bound) fsp options ad s1) Hp pv0 eq_refl)
    as (pvc & ip & es & fs & ex & path & _ & -> & _ & Hfs & Hex).
  destruct (post_run _ _ _ _ _ _ (FssSpec.fss_Delete_calls _ ex fs s3
    (FssSpec.pv_export _ _ _ _ _ _ _) (FssSpec.pv_file_system _ _ _ _ _ _ _)) Hd eq_refl)
    as (r & t & r' & ->).
  exists ex, fs, path, l1, l2. do 4 eexists. by repeat (split; [done|]).
Qed.
End EndToEnd.
