(* ===== verification/Controller.v ===== *)
(** * The provision controller: external-storage/lib/controller (vendored)

    What happens between a claim or a volume in the API server and the calls of [Provision]
    and [Delete]: the tests whether there is anything to do, [provisionClaimOperation] and
    [deleteVolumeOperation], and the handlers of the two work queues.  The queues themselves
    are in Queue.v.

    The API server, the informers' caches and the election of a leader for a claim are
    classes.  An election is taken to end before the next operation on the claim begins; the
    case where the leader's term is over before its operation is the subject of Overlap.v. *)

From S2P Require Import Prelude GoStrings Version Errors Quantity Objects Config Effects Logic.

Open Scope Z_scope.

(** ** Constants *)

Definition annClass : string := "volume.beta.kubernetes.io/storage-class".
Definition annDynamicallyProvisioned : string := "pv.kubernetes.io/provisioned-by".
Definition annStorageProvisioner : string := "volume.beta.kubernetes.io/storage-provisioner".

Definition EventTypeNormal : string := "Normal".
Definition EventTypeWarning : string := "Warning".

(** ** Interfaces *)

(** [Provisioner], with the two optional interfaces [Qualifier] and [BlockProvisioner] that
    a provisioner may implement besides. *)
Class Provisioner (W : Type) := {
  prov_Provision : VolumeOptions -> M W (result PersistentVolume);
  prov_Delete : PersistentVolume -> M W (result unit);
  prov_ShouldProvision : option (PersistentVolumeClaim -> bool);
  prov_SupportsBlock : option bool
}.

(** The PersistentVolumes of the API server, the informers' caches, [ref.GetReference] and
    the BlockVolume feature gate. *)
Class ApiServer (W : Type) := {
  api_GetPV : string -> Op W (result (option PersistentVolume));
  api_CreatePV : PersistentVolume -> Op W (result unit);
  api_DeletePV : string -> Op W (result unit);
  cache_GetClass : string -> Op W (result (option StorageClass));
  cache_GetClaim : string -> Op W (result (option PersistentVolumeClaim));
  cache_GetVolume : string -> Op W (result (option PersistentVolume));
  ref_GetReference : PersistentVolumeClaim -> result ObjectReference;
  feature_BlockVolume : bool
}.

(** How the race for a claim ends. *)
Inductive election : Type :=
| Elected
| TaskDone
| ElectionError (e : error).

(** [el_IsLeader uid]: this process has an elector for the claim, and it leads. *)
Class Election (W : Type) := {
  el_IsLeader : string -> M W bool;
  el_Run : PersistentVolumeClaim -> M W election
}.

(** ** The controller *)

Record ProvisionController : Type := {
  provisionerName : string;
  kubeVersion : Version;
  resyncPeriod : Z;
  exponentialBackOffOnError : bool;
  threadiness : Z;
  createProvisionedPVRetryCount : Z;
  createProvisionedPVInterval : Z;
  failedProvisionThreshold : Z;
  failedDeleteThreshold : Z;
  leaseDuration : Z;
  renewDeadline : Z;
  retryPeriod : Z;
  termLimit : Z
}.

Definition DefaultResyncPeriod : Z := 15 * Minute.
Definition DefaultThreadiness : Z := 4.
Definition DefaultCreateProvisionedPVRetryCount : Z := 5.
Definition DefaultCreateProvisionedPVInterval : Z := 10 * Second.
Definition DefaultFailedProvisionThreshold : Z := 15.
Definition DefaultFailedDeleteThreshold : Z := 15.
Definition DefaultLeaseDuration : Z := 15 * Second.
Definition DefaultRenewDeadline : Z := 10 * Second.
Definition DefaultRetryPeriod : Z := 2 * Second.
Definition DefaultTermLimit : Z := 30 * Second.

(** The options that the program passes.  They fail only on a controller that has run. *)
Definition ResyncPeriod (resyncPeriod_ : Z) (c : ProvisionController) : ProvisionController :=
  {| provisionerName := provisionerName c; kubeVersion := kubeVersion c;
     resyncPeriod := resyncPeriod_;
     exponentialBackOffOnError := exponentialBackOffOnError c;
     threadiness := threadiness c;
     createProvisionedPVRetryCount := createProvisionedPVRetryCount c;
     createProvisionedPVInterval := createProvisionedPVInterval c;
     failedProvisionThreshold := failedProvisionThreshold c;
     failedDeleteThreshold := failedDeleteThreshold c; leaseDuration := leaseDuration c;
     renewDeadline := renewDeadline c; retryPeriod := retryPeriod c;
     termLimit := termLimit c |}.
Definition ExponentialBackOffOnError (exponentialBackOffOnError_ : bool) (c : ProvisionController) : ProvisionController :=
  {| provisionerName := provisionerName c; kubeVersion := kubeVersion c;
     resyncPeriod := resyncPeriod c;
     exponentialBackOffOnError := exponentialBackOffOnError_; threadiness := threadiness c;
     createProvisionedPVRetryCount := createProvisionedPVRetryCount c;
     createProvisionedPVInterval := createProvisionedPVInterval c;
     failedProvisionThreshold := failedProvisionThreshold c;
     failedDeleteThreshold := failedDeleteThreshold c; leaseDuration := leaseDuration c;
     renewDeadline := renewDeadline c; retryPeriod := retryPeriod c;
     termLimit := termLimit c |}.
Definition FailedProvisionThreshold (failedProvisionThreshold_ : Z) (c : ProvisionController) : ProvisionController :=
  {| provisionerName := provisionerName c; kubeVersion := kubeVersion c;
     resyncPeriod := resyncPeriod c;
     exponentialBackOffOnError := exponentialBackOffOnError c;
     threadiness := threadiness c;
     createProvisionedPVRetryCount := createProvisionedPVRetryCount c;
     createProvisionedPVInterval := createProvisionedPVInterval c;
     failedProvisionThreshold := failedProvisionThreshold_;
     failedDeleteThreshold := failedDeleteThreshold c; leaseDuration := leaseDuration c;
     renewDeadline := renewDeadline c; retryPeriod := retryPeriod c;
     termLimit := termLimit c |}.
Definition LeaseDuration (leaseDuration_ : Z) (c : ProvisionController) : ProvisionController :=
  {| provisionerName := provisionerName c; kubeVersion := kubeVersion c;
     resyncPeriod := resyncPeriod c;
     exponentialBackOffOnError := exponentialBackOffOnError c;
     threadiness := threadiness c;
     createProvisionedPVRetryCount := createProvisionedPVRetryCount c;
     createProvisionedPVInterval := createProvisionedPVInterval c;
     failedProvisionThreshold := failedProvisionThreshold c;
     failedDeleteThreshold := failedDeleteThreshold c; leaseDuration := leaseDuration_;
     renewDeadline := renewDeadline c; retryPeriod := retryPeriod c;
     termLimit := termLimit c |}.
Definition RenewDeadline (renewDeadline_ : Z) (c : ProvisionController) : ProvisionController :=
  {| provisionerName := provisionerName c; kubeVersion := kubeVersion c;
     resyncPeriod := resyncPeriod c;
     exponentialBackOffOnError := exponentialBackOffOnError c;
     threadiness := threadiness c;
     createProvisionedPVRetryCount := createProvisionedPVRetryCount c;
     createProvisionedPVInterval := createProvisionedPVInterval c;
     failedProvisionThreshold := failedProvisionThreshold c;
     failedDeleteThreshold := failedDeleteThreshold c; leaseDuration := leaseDuration c;
     renewDeadline := renewDeadline_; retryPeriod := retryPeriod c;
     termLimit := termLimit c |}.
Definition RetryPeriod (retryPeriod_ : Z) (c : ProvisionController) : ProvisionController :=
  {| provisionerName := provisionerName c; kubeVersion := kubeVersion c;
     resyncPeriod := resyncPeriod c;
     exponentialBackOffOnError := exponentialBackOffOnError c;
     threadiness := threadiness c;
     createProvisionedPVRetryCount := createProvisionedPVRetryCount c;
     createProvisionedPVInterval := createProvisionedPVInterval c;
     failedProvisionThreshold := failedProvisionThreshold c;
     failedDeleteThreshold := failedDeleteThreshold c; leaseDuration := leaseDuration c;
     renewDeadline := renewDeadline c; retryPeriod := retryPeriod_;
     termLimit := termLimit c |}.
Definition TermLimit (termLimit_ : Z) (c : ProvisionController) : ProvisionController :=
  {| provisionerName := provisionerName c; kubeVersion := kubeVersion c;
     resyncPeriod := resyncPeriod c;
     exponentialBackOffOnError := exponentialBackOffOnError c;
     threadiness := threadiness c;
     createProvisionedPVRetryCount := createProvisionedPVRetryCount c;
     createProvisionedPVInterval := createProvisionedPVInterval c;
     failedProvisionThreshold := failedProvisionThreshold c;
     failedDeleteThreshold := failedDeleteThreshold c; leaseDuration := leaseDuration c;
     renewDeadline := renewDeadline c; retryPeriod := retryPeriod c;
     termLimit := termLimit_ |}.

(** [NewProvisionController] for a parsed version: the struct literal, which does not set
    [exponentialBackOffOnError], and the options in order. *)
Definition new_controller (name : string) (version : Version)
    (options : list (ProvisionController -> ProvisionController)) : ProvisionController :=
  fold_left (fun c option => option c) options
    {| provisionerName := name;
       kubeVersion := version;
       resyncPeriod := DefaultResyncPeriod;
       exponentialBackOffOnError := false;
       threadiness := DefaultThreadiness;
       createProvisionedPVRetryCount := DefaultCreateProvisionedPVRetryCount;
       createProvisionedPVInterval := DefaultCreateProvisionedPVInterval;
       failedProvisionThreshold := DefaultFailedProvisionThreshold;
       failedDeleteThreshold := DefaultFailedDeleteThreshold;
       leaseDuration := DefaultLeaseDuration;
       renewDeadline := DefaultRenewDeadline;
       retryPeriod := DefaultRetryPeriod;
       termLimit := DefaultTermLimit |}.

Definition MustParseSemantic {W} (str : string) : M W Version :=
  match ParseSemantic str with Ok v => ret v | Err _ => panic_ ErrorValue end.

Definition NewProvisionController {W} (name : string) (version : string)
    (options : list (ProvisionController -> ProvisionController)) : M W ProvisionController :=
  let* v := MustParseSemantic version in ret (new_controller name v options).

(** The options of cmd/main.go. *)
Definition main_options : list (ProvisionController -> ProvisionController) :=
  [ResyncPeriod (15 * Second); ExponentialBackOffOnError false; FailedProvisionThreshold 5;
   LeaseDuration DefaultLeaseDuration; RenewDeadline DefaultRenewDeadline;
   RetryPeriod DefaultRetryPeriod; TermLimit DefaultTermLimit].

Definition main_controller (name : string) (version : Version) : ProvisionController :=
  new_controller name version main_options.

(** ** Pure helpers *)

Definition getProvisionedVolumeNameForClaim (claim : PersistentVolumeClaim) : string :=
  "pvc-" +:+ pvc_UID claim.

Definition claimToClaimKey (claim : PersistentVolumeClaim) : string :=
  Sprintf "%s/%s" [FStr (pvc_Namespace claim); FStr (pvc_Name claim)].

(** k8s.io/kubernetes/pkg/apis/core/v1/helper *)
Definition GetPersistentVolumeClaimClass (claim : PersistentVolumeClaim) : string :=
  match pvc_Annotations claim !! BetaStorageClassAnnotation with
  | Some class => class
  | None => match pvc_StorageClassName claim with Some class => class | None => EmptyString end
  end.

(** k8s.io/apimachinery/pkg/apis/meta/v1 *)
Definition SetMetaDataAnnotation (pv : PersistentVolume) (ann value : string) : PersistentVolume :=
  {| pv_Name := pv_Name pv;
     pv_Annotations := Some (<[ann := value]> (default ∅ (pv_Annotations pv)));
     pv_Labels := pv_Labels pv; pv_ReclaimPolicy := pv_ReclaimPolicy pv;
     pv_AccessModes := pv_AccessModes pv; pv_Capacity := pv_Capacity pv;
     pv_FlexVolume := pv_FlexVolume pv; pv_NFS := pv_NFS pv;
     pv_MountOptions := pv_MountOptions pv; pv_ClaimRef := pv_ClaimRef pv;
     pv_StorageClassName := pv_StorageClassName pv; pv_Phase := pv_Phase pv |}.

Definition set_ClaimRef (pv : PersistentVolume) (r : ObjectReference) : PersistentVolume :=
  {| pv_Name := pv_Name pv; pv_Annotations := pv_Annotations pv;
     pv_Labels := pv_Labels pv; pv_ReclaimPolicy := pv_ReclaimPolicy pv;
     pv_AccessModes := pv_AccessModes pv; pv_Capacity := pv_Capacity pv;
     pv_FlexVolume := pv_FlexVolume pv; pv_NFS := pv_NFS pv;
     pv_MountOptions := pv_MountOptions pv; pv_ClaimRef := Some r;
     pv_StorageClassName := pv_StorageClassName pv; pv_Phase := pv_Phase pv |}.

Definition set_StorageClassName (pv : PersistentVolume) (class : string) : PersistentVolume :=
  {| pv_Name := pv_Name pv; pv_Annotations := pv_Annotations pv;
     pv_Labels := pv_Labels pv; pv_ReclaimPolicy := pv_ReclaimPolicy pv;
     pv_AccessModes := pv_AccessModes pv; pv_Capacity := pv_Capacity pv;
     pv_FlexVolume := pv_FlexVolume pv; pv_NFS := pv_NFS pv;
     pv_MountOptions := pv_MountOptions pv; pv_ClaimRef := pv_ClaimRef pv;
     pv_StorageClassName := class; pv_Phase := pv_Phase pv |}.

Definition is_ignored (e : error) : bool := match e with ErrIgnored _ => true | _ => false end.

Section Controller.
Context {W : Type} `{ApiServer W} `{Provisioner W} (ctrl : ProvisionController).

Definition GetPV (name : string) : M W (result (option PersistentVolume)) :=
  invoke Background (api_GetPV name) (CGetPV name).
Definition CreatePV (pv : PersistentVolume) : M W (result unit) :=
  invoke Background (api_CreatePV pv) (CCreatePV pv).
Definition DeletePV (name : string) : M W (result unit) :=
  invoke Background (api_DeletePV name) (CDeletePV name).

(** [eventRecorder.Event]: recorded, sent by another goroutine. *)
Definition Event_ (eventtype reason message : string) : M W unit := fun s =>
  (Val tt, s, [Event (st_now s) Background (CEvent eventtype reason message)]).

Definition at_least (minor : Z) : bool := AtLeast (kubeVersion ctrl) (release 1 minor 0).

(** The cache holds objects of the watched type only, so the type switches on what it
    returns have one case. *)
Definition getStorageClass (name : string) : M W (result StorageClass) :=
  let! classObj := silent (cache_GetClass name) in
  ret (match classObj with
       | None => Err (Errorf "StorageClass %q not found" [FStr name])
       | Some class => Ok class
       end).

Definition getStorageClassFields (name : string) : M W (result (string * gmap string string)) :=
  let! class := getStorageClass name in
  ret (Ok (sc_Provisioner class, sc_Parameters class)).

Definition fetchReclaimPolicy (storageClassName : string) : M W (result string) :=
  let! class := getStorageClass storageClassName in
  let* policy := deref (sc_ReclaimPolicy class) in ret (Ok policy).

Definition fetchMountOptions (storageClassName : string) : M W (result (list string)) :=
  let! class := getStorageClass storageClassName in ret (Ok (sc_MountOptions class)).

Definition supportsBlock : bool :=
  match prov_SupportsBlock (W := W) with Some b => b | None => false end.

Definition CheckPersistentVolumeClaimModeBlock (pvc : PersistentVolumeClaim) : bool :=
  feature_BlockVolume (W := W)
  && match pvc_VolumeMode pvc with Some m => String.eqb m PersistentVolumeBlock | None => false end.

Definition canProvision (claim : PersistentVolumeClaim) : option error :=
  if CheckPersistentVolumeClaimModeBlock claim && negb supportsBlock
  then Some (Errorf "%s does not support block volume provisioning" [FStr (provisionerName ctrl)])
  else None.

Definition shouldProvision (claim : PersistentVolumeClaim) : M W bool :=
  if negb (is_empty (pvc_VolumeName claim)) then ret false
  else if match prov_ShouldProvision (W := W) with Some q => negb (q claim) | None => false end
  then ret false
  else if at_least 5 then
    match pvc_Annotations claim !! annStorageProvisioner with
    | Some provisioner => ret (String.eqb provisioner (provisionerName ctrl))
    | None => ret false
    end
  else
    let* r := getStorageClassFields (GetPersistentVolumeClaimClass claim) in
    ret (match r with
         | Err _ => false
         | Ok (provisioner, _) => String.eqb provisioner (provisionerName ctrl)
         end).

Definition shouldDelete (volume : PersistentVolume) : bool :=
  if (if at_least 5 then negb (String.eqb (pv_Phase volume) VolumeReleased)
      else negb (String.eqb (pv_Phase volume) VolumeReleased)
           && negb (String.eqb (pv_Phase volume) VolumeFailed))
  then false
  else if negb (String.eqb (pv_ReclaimPolicy volume) PersistentVolumeReclaimDelete) then false
  else match gomap_lookup (pv_Annotations volume) annDynamicallyProvisioned with
       | None => false
       | Some ann => String.eqb ann (provisionerName ctrl)
       end.

(** ** Provisioning *)

(** The loop that creates the PV object; the result is [err] after it. *)
Fixpoint save_volume (tries : nat) (volume : PersistentVolume) (err : option error) :
  M W (option error) :=
  match tries with
  | O => ret err
  | S tries =>
      let* r := CreatePV volume in
      match r with
      | Ok _ => ret None
      | Err e =>
          let* _ := sleep (createProvisionedPVInterval ctrl) in save_volume tries volume (Some e)
      end
  end.

(** The loop that deletes a volume whose PV object could not be created. *)
Fixpoint clean_volume (tries : nat) (volume : PersistentVolume) (err : option error) :
  M W (option error) :=
  match tries with
  | O => ret err
  | S tries =>
      let* r := prov_Delete volume in
      match r with
      | Ok _ => ret None
      | Err e =>
          let* _ := sleep (createProvisionedPVInterval ctrl) in clean_volume tries volume (Some e)
      end
  end.

Definition retries : nat := Z.to_nat (createProvisionedPVRetryCount ctrl).

(** The volume as the controller hands it to the API server. *)
Definition claimed_volume (volume : PersistentVolume) (claimRef : ObjectReference)
    (claimClass : string) : PersistentVolume :=
  let volume := set_ClaimRef volume claimRef in
  let volume := SetMetaDataAnnotation volume annDynamicallyProvisioned (provisionerName ctrl) in
  if at_least 6 then set_StorageClassName volume claimClass
  else SetMetaDataAnnotation volume annClass claimClass.

(** From the returned volume on. *)
Definition save_or_clean (claim : PersistentVolumeClaim) (volume : PersistentVolume) :
  M W (result unit) :=
  let* err := save_volume retries volume None in
  match err with
  | Some err =>
      let* _ := Event_ EventTypeWarning "ProvisioningFailed"
                  (Sprintf "Error creating provisioned PV object for claim %s: %v. Deleting the volume."
                     [FStr (claimToClaimKey claim); FStr (Error err)]) in
      let* err := clean_volume retries volume (Some err) in
      match err with
      | Some err =>
          let* _ := Event_ EventTypeWarning "ProvisioningCleanupFailed"
                      (Sprintf "Error cleaning provisioned volume for claim %s: %v. Please delete manually."
                         [FStr (claimToClaimKey claim); FStr (Error err)]) in
          ret (Ok tt)
      | None => ret (Ok tt)
      end
  | None =>
      let* _ := Event_ EventTypeNormal "ProvisioningSucceeded"
                  (Sprintf "Successfully provisioned volume %s" [FStr (pv_Name volume)]) in
      ret (Ok tt)
  end.

(** From the options on: the event, [Provision], and what follows. *)
Definition provision_and_save (claim : PersistentVolumeClaim) (claimClass : string)
    (claimRef : ObjectReference) (options : VolumeOptions) : M W (result unit) :=
  let* _ := Event_ EventTypeNormal "Provisioning"
              (Sprintf "External provisioner is provisioning volume for claim %q"
                 [FStr (claimToClaimKey claim)]) in
  let* r := prov_Provision options in
  match r with
  | Err err =>
      if is_ignored err then ret (Ok tt)
      else
        let* _ := Event_ EventTypeWarning "ProvisioningFailed"
                    (Sprintf "Failed to provision volume with StorageClass %q: %v"
                       [FStr claimClass; FStr (Error err)]) in
        ret (Err err)
  | Ok volume => save_or_clean claim (claimed_volume volume claimRef claimClass)
  end.

(** From the reference on: what must be known before [Provision] can be asked. *)
Definition check_and_provision (claim : PersistentVolumeClaim) : M W (result unit) :=
  let claimClass := GetPersistentVolumeClaimClass claim in
  match ref_GetReference (W := W) claim with
  | Err _ => ret (Ok tt)
  | Ok claimRef =>
  let* r := getStorageClassFields claimClass in
  match r with
  | Err _ => ret (Ok tt)
  | Ok (provisioner, parameters) =>
      if negb (String.eqb provisioner (provisionerName ctrl)) then ret (Ok tt)
      else
      match canProvision claim with
      | Some err =>
          let* _ := Event_ EventTypeWarning "ProvisioningFailed" (Error err) in ret (Ok tt)
      | None =>
          let! reclaimPolicy :=
            if at_least 8 then fetchReclaimPolicy claimClass
            else ret (Ok PersistentVolumeReclaimDelete) in
          let! mountOptions := fetchMountOptions claimClass in
          provision_and_save claim claimClass claimRef
            {| vo_ReclaimPolicy := reclaimPolicy;
               vo_PVName := getProvisionedVolumeNameForClaim claim;
               vo_MountOptions := mountOptions;
               vo_PVC := Some claim;
               vo_Parameters := parameters |}
      end
  end
  end.

Definition provisionClaimOperation (claim : PersistentVolumeClaim) : M W (result unit) :=
  let* r := GetPV (getProvisionedVolumeNameForClaim claim) in
  match r with
  | Ok (Some _) => ret (Ok tt)
  | Ok None | Err _ => check_and_provision claim
  end.

(** ** Deletion *)

Definition deleteVolumeOperation (volume : PersistentVolume) : M W (result unit) :=
  let* r := GetPV (pv_Name volume) in
  match r with
  | Err _ => ret (Ok tt)
  | Ok newVolume =>
      let* newVolume := deref newVolume in
      if negb (shouldDelete newVolume) then ret (Ok tt)
      else
        let* r := prov_Delete volume in
        match r with
        | Err err =>
            if is_ignored err then ret (Ok tt)
            else
              let* _ := Event_ EventTypeWarning "VolumeFailedDelete" (Error err) in ret (Err err)
        | Ok _ => DeletePV (pv_Name volume)
        end
  end.

(** ** The handlers of the queues *)

Context `{Election W}.

Definition lockProvisionClaimOperation (claim : PersistentVolumeClaim) : M W (result unit) :=
  let* r := el_Run claim in
  match r with
  | Elected => provisionClaimOperation claim
  | TaskDone => ret (Ok tt)
  | ElectionError err => ret (Err err)
  end.

Definition syncClaim (claim : PersistentVolumeClaim) : M W (result unit) :=
  let* should := shouldProvision claim in
  if should then
    let* leads := el_IsLeader (pvc_UID claim) in
    if leads then provisionClaimOperation claim else lockProvisionClaimOperation claim
  else ret (Ok tt).

Definition syncVolume (volume : PersistentVolume) : M W (result unit) :=
  if shouldDelete volume then deleteVolumeOperation volume else ret (Ok tt).

Definition syncClaimHandler (key : string) : M W (result unit) :=
  let! claimObj := silent (cache_GetClaim key) in
  match claimObj with None => ret (Ok tt) | Some claim => syncClaim claim end.

Definition syncVolumeHandler (key : string) : M W (result unit) :=
  let! volumeObj := silent (cache_GetVolume key) in
  match volumeObj with None => ret (Ok tt) | Some volume => syncVolume volume end.
End Controller.

