(* ===== verification/ControllerSpec.v ===== *)
(** * What the controller does with this program's provisioner

    [claim_run] lists the ways [provisionClaimOperation] can go for any provisioner; with
    the core provisioner and the block plugin behind it this accounts for every volume that
    an operation on a claim creates, and for every volume that an operation on a volume
    deletes. *)

From S2P Require Import Prelude GoStrings Version Errors Quantity Objects Config Effects Logic Wait Plugin Core Controller.
From S2P Require Block BlockSpec CoreSpec.

Open Scope Z_scope.

(** core's [OCIProvisioner] implements neither of the optional interfaces. *)
Definition core_Provisioner {W} `{Backend W} `{!ProvisionerClient} `{!ProvisionerPlugin W} :
  Provisioner W :=
  {| prov_Provision := Core.Provision;
     prov_Delete := Core.Delete;
     prov_ShouldProvision := None;
     prov_SupportsBlock := None |}.

(** ** What a log says *)

Definition created_id (e : event) : option string :=
  match ev_call e with CCreateVolume _ (inl v) => vol_Id v | _ => None end.
Definition saved_pv (e : event) : option PersistentVolume :=
  match ev_call e with CCreatePV pv (Ok _) => Some pv | _ => None end.
Definition deleted_id (e : event) : option string :=
  match ev_call e with CDeleteVolume id _ => id | _ => None end.

(** The volumes created and the volumes asked to be deleted at the block-storage service,
    and the volumes saved at the API server, in order. *)
Definition created_ids (l : list event) : list string := omap created_id l.
Definition saved_pvs (l : list event) : list PersistentVolume := omap saved_pv l.
Definition deleted_ids (l : list event) : list string := omap deleted_id l.

(** Calls that none of the three lists records. *)
Definition unrecorded (e : event) : Prop :=
  created_id e = None /\ saved_pv e = None /\ deleted_id e = None.

Lemma omap_nil_Forall {A B} (f : A -> option B) l : Forall (fun x => f x = None) l -> omap f l = [].
Proof. induction 1 as [|x l Hx _ IH]; [done|]. simpl. by rewrite Hx. Qed.

Lemma unrecorded_lists l :
  Forall unrecorded l -> created_ids l = [] /\ saved_pvs l = [] /\ deleted_ids l = [].
Proof.
  intros Hl. repeat split; apply omap_nil_Forall; eapply Forall_impl; try exact Hl;
    by intros e (? & ? & ?).
Qed.

Lemma created_ids_app l1 l2 : created_ids (l1 ++ l2) = created_ids l1 ++ created_ids l2.
Proof. apply omap_app. Qed.
Lemma saved_pvs_app l1 l2 : saved_pvs (l1 ++ l2) = saved_pvs l1 ++ saved_pvs l2.
Proof. apply omap_app. Qed.
Lemma deleted_ids_app l1 l2 : deleted_ids (l1 ++ l2) = deleted_ids l1 ++ deleted_ids l2.
Proof. apply omap_app. Qed.

Section Runs.
Context {W : Type} `{ApiServer W} `{Provisioner W} (ctrl : ProvisionController).

(** ** The loops *)

Definition save_failed (pv : PersistentVolume) (e : event) : Prop :=
  exists err, ev_call e = CCreatePV pv (Err err).

(** After the loop: the volume was saved by the last call, or no call saved it. *)
Definition saves (tries : nat) (pv : PersistentVolume) (err : option error)
    (o : outcome (option error)) (l : list event) : Prop :=
  (exists l1 e u, o = Val None /\ l = l1 ++ [e] /\ Forall (save_failed pv) l1
     /\ ev_call e = CCreatePV pv (Ok u) /\ (length l1 < tries)%nat)
  \/ (Forall (save_failed pv) l /\ length l = tries
      /\ (tries = O /\ o = Val err \/ (0 < tries)%nat /\ exists e, o = Val (Some e))).

Lemma post_save_volume tries pv err (s : state W) :
  post (save_volume ctrl tries pv err) s (fun o _ l => saves tries pv err o l).
Proof.
  revert err s. induction tries as [|tries IH]; intros err s; simpl.
  { go. right. auto. }
  unfold CreatePV. go. destruct a as [u|e]; go.
  { left. exists [], (Event (st_now s) Background (CCreatePV pv (Ok u))), u. simpl. auto with lia. }
  eapply post_mono; [apply IH|]. intros o s' l Hs. simpl.
  assert (save_failed pv (Event (st_now s) Background (CCreatePV pv (Err e)))) as Hf by (by exists e).
  destruct Hs as [(l1 & e1 & u & -> & -> & Hall & Hok & Hlen)|(Hall & Hlen & Ho)].
  - left. eexists (_ :: l1), e1, u. split; [done|]. split; [done|]. split; [by constructor|].
    split; [done|]. simpl. lia.
  - right. split; [by constructor|]. split; [simpl; lia|]. right. split; [lia|].
    destruct Ho as [[_ ->]|[_ ?]]; [eauto|done].
Qed.

Lemma upholds_clean_volume (R : trel) `{!TraceRel R} tries pv err :
  upholds (prov_Delete pv) R -> (forall d, upholds (@sleep W d) R) ->
  upholds (clean_volume ctrl tries pv err) R.
Proof.
  intros Hdel Hsleep. revert err. induction tries as [|tries IH]; intros err; simpl; [upholds_tac|].
  apply upholds_bind; [done|done|]. intros [u|e]; [upholds_tac|].
  apply upholds_bind; [done|done|auto].
Qed.

(** The first attempt is always made. *)
Lemma clean_volume_first tries pv err (s : state W) o s' l :
  clean_volume ctrl (S tries) pv err s = (Val o, s', l) ->
  exists r s1 l1 l2, prov_Delete pv s = (Val r, s1, l1) /\ l = l1 ++ l2.
Proof. simpl. intros (r & s1 & l1 & l2 & Hd & _ & ->)%bind_Val. eauto 10. Qed.

(** ** provisionClaimOperation *)

(** The claim is to be provisioned, with these options and this reference. *)
Definition to_provision (claim : PersistentVolumeClaim) (claimRef : ObjectReference)
    (options : VolumeOptions) : Prop :=
  ref_GetReference (W := W) claim = Ok claimRef
  /\ canProvision (W := W) ctrl claim = None
  /\ vo_PVName options = "pvc-" +:+ pvc_UID claim
  /\ vo_PVC options = Some claim.

Definition lookup_event (claim : PersistentVolumeClaim) (e : event) : Prop :=
  exists r, ev_call e = CGetPV ("pvc-" +:+ pvc_UID claim) r.
Definition kube_event (reason : string) (e : event) : Prop :=
  exists t m, ev_call e = CEvent t reason m.

Inductive claim_run (claim : PersistentVolumeClaim) (s : state W) :
  outcome (result unit) -> state W -> list event -> Prop :=
| claim_not_asked o s' e l :
    lookup_event claim e -> Forall (kube_event "ProvisioningFailed") l -> (length l <= 1)%nat ->
    claim_run claim s o s' (e :: l)
| claim_failed e e1 claimRef options o s1 s' l1 :
    lookup_event claim e -> (forall pv, ev_call e <> CGetPV ("pvc-" +:+ pvc_UID claim) (Ok (Some pv))) ->
    kube_event "Provisioning" e1 -> to_provision claim claimRef options ->
    prov_Provision options s1 = (o, s', l1) -> (forall r, o <> Val r) ->
    forall o', (forall r, o' <> Val r) -> claim_run claim s o' s' (e :: e1 :: l1)
| claim_refused e e1 claimRef options err s1 s' l1 l2 o :
    lookup_event claim e -> (forall pv, ev_call e <> CGetPV ("pvc-" +:+ pvc_UID claim) (Ok (Some pv))) ->
    kube_event "Provisioning" e1 -> to_provision claim claimRef options ->
    prov_Provision options s1 = (Val (Err err), s', l1) ->
    (if is_ignored err then o = Val (Ok tt) /\ l2 = []
     else o = Val (Err err) /\ exists e2, l2 = [e2] /\ kube_event "ProvisioningFailed" e2) ->
    claim_run claim s o s' (e :: e1 :: l1 ++ l2)
| claim_provisioned e e1 claimRef options pv s1 s2 s' l1 l2 o :
    lookup_event claim e -> (forall pv, ev_call e <> CGetPV ("pvc-" +:+ pvc_UID claim) (Ok (Some pv))) ->
    kube_event "Provisioning" e1 -> to_provision claim claimRef options ->
    prov_Provision options s1 = (Val (Ok pv), s2, l1) ->
    save_or_clean ctrl claim
      (claimed_volume ctrl pv claimRef (GetPersistentVolumeClaimClass claim)) s2 = (o, s', l2) ->
    claim_run claim s o s' (e :: e1 :: l1 ++ l2).

Lemma post_getStorageClass name (s : state W) :
  post (getStorageClass name) s (fun o _ l => l = [] /\ exists r, o = Val r).
Proof. unfold getStorageClass. go. destruct a as [[c|]|e]; go; eauto. Qed.

Lemma post_provision_and_save claim claimRef options e (s0 s : state W) :
  lookup_event claim e -> (forall pv, ev_call e <> CGetPV ("pvc-" +:+ pvc_UID claim) (Ok (Some pv))) ->
  to_provision claim claimRef options ->
  post (provision_and_save ctrl claim (GetPersistentVolumeClaimClass claim) claimRef options) s
    (fun o s' l => claim_run claim s0 o s' (e :: l)).
Proof.
  intros He Hne Hto. unfold provision_and_save. go. unfold post at 1; simpl. go.
  apply post_of_run. intros o s1 l1 Hrun.
  match type of Hrun with prov_Provision _ _ = _ => idtac end.
  destruct o as [[pv|err]|p|c|]; go.
  - apply post_of_run. intros o s2 l2 Hs. simpl. by eapply claim_provisioned; [..|exact Hs]; eauto; do 2 eexists.
  - destruct (is_ignored err) eqn:Hi; go.
    + simpl. eapply claim_refused; eauto; [by do 2 eexists|]. by rewrite Hi.
    + unfold post; simpl. eapply claim_refused; eauto; [by do 2 eexists|]. rewrite Hi.
      split; [done|]. eexists. split; [done|]. by do 2 eexists.
  - eapply claim_failed; eauto; [by do 2 eexists|done..].
  - eapply claim_failed; eauto; [by do 2 eexists|done..].
  - eapply claim_failed; eauto; [by do 2 eexists|done..].
Qed.
Lemma post_check_and_provision claim e (s0 s : state W) :
  lookup_event claim e -> (forall pv, ev_call e <> CGetPV ("pvc-" +:+ pvc_UID claim) (Ok (Some pv))) ->
  post (check_and_provision ctrl claim) s (fun o s' l => claim_run claim s0 o s' (e :: l)).
Proof.
  intros He Hne. unfold check_and_provision, getProvisionedVolumeNameForClaim,
    getStorageClassFields, fetchReclaimPolicy, fetchMountOptions.
  assert (forall o s', claim_run claim s0 o s' [e]) as Hnothing
    by (intros; apply claim_not_asked; [done|constructor|simpl; lia]).
  destruct (ref_GetReference claim) as [claimRef|err] eqn:Href; go; [|apply Hnothing].
  eapply post_mono; [apply post_getStorageClass|].
  intros o s1 l1 [-> [[class|err] ->]]; go; [|apply Hnothing].
  destruct (negb _); go; [apply Hnothing|].
  destruct (canProvision ctrl claim) as [err|] eqn:Hcan; go.
  { unfold post; simpl. apply claim_not_asked; [done| |done]. constructor; [by do 2 eexists|constructor]. }
  eapply (post_mono _ _ (fun o _ l => l = [])).
  { destruct (at_least ctrl 8); [|by go]. go. eapply post_mono; [apply post_getStorageClass|].
    intros o s2 l2 [-> [[c|err] ->]]; go; [|done]. by destruct (sc_ReclaimPolicy c). }
  intros o s2 l2 ->. destruct o as [[policy|err]|p|c|]; go; try apply Hnothing.
  eapply post_mono; [apply post_getStorageClass|].
  intros o s3 l3 [-> [[class'|err] ->]]; go; [|apply Hnothing].
  eapply post_mono; [by apply (post_provision_and_save claim claimRef _ e s0)|].
  intros o s4 l4. by rewrite app_nil_r.
Qed.

Lemma provisionClaimOperation_runs claim (s : state W) :
  post (provisionClaimOperation ctrl claim) s (fun o s' l => claim_run claim s o s' l).
Proof.
  unfold provisionClaimOperation, GetPV, getProvisionedVolumeNameForClaim. go.
  assert (lookup_event claim (Event (st_now s) Background (CGetPV ("pvc-" +:+ pvc_UID claim) a))) as He
    by (by exists a).
  destruct a as [[pv|]|err]; [go; apply claim_not_asked; [done|constructor|simpl; lia]| |];
    (eapply post_mono; [apply post_check_and_provision; [exact He|done]|]);
    intros o s' l Hrun; exact Hrun.
Qed.
End Runs.

(** ** The block provisioner behind the controller *)

Lemma claimed_volume_annotation ctrl pv r class k :
  k <> annDynamicallyProvisioned -> k <> annClass ->
  gomap_lookup (pv_Annotations (claimed_volume ctrl pv r class)) k
  = gomap_lookup (pv_Annotations pv) k.
Proof.
  intros H1 H2. unfold claimed_volume. destruct (at_least ctrl 6); simpl;
    rewrite !lookup_insert_ne by done; by destruct (pv_Annotations pv).
Qed.

Lemma claimed_volume_name ctrl pv r class :
  pv_Name (claimed_volume ctrl pv r class) = pv_Name pv.
Proof. unfold claimed_volume. by destruct (at_least ctrl 6). Qed.

Section BlockAccount.
Context {W : Type} `{Backend W} `{!ProvisionerClient} `{!ProvisionerClientOk}.
Context `{!InstanceMeta W} `{!InstanceMetaOk W} `{!ApiServer W}.
Context (fuel : nat) (block : Block.blockProvisioner) (ctrl : ProvisionController).
Context (Hfuel : enough_fuel fuel (5 * Second) (Block.bp_timeout block)).

#[local] Existing Instance BlockSpec.block_Plugin.
#[local] Instance block_plugin : ProvisionerPlugin W := BlockSpec.block_Plugin fuel block.
#[local] Instance block_provisioner : Provisioner W := core_Provisioner.

(** The accounts of a log: the volumes created, saved and asked to be deleted. *)
Definition accounts (l : list event) (created : list string) (saved : list PersistentVolume)
    (deleted : list string) : Prop :=
  created_ids l = created /\ saved_pvs l = saved /\ deleted_ids l = deleted.

Lemma accounts_app l1 l2 c1 c2 p1 p2 d1 d2 :
  accounts l1 c1 p1 d1 -> accounts l2 c2 p2 d2 ->
  accounts (l1 ++ l2) (c1 ++ c2) (p1 ++ p2) (d1 ++ d2).
Proof.
  intros (<- & <- & <-) (<- & <- & <-). unfold accounts.
  by rewrite created_ids_app, saved_pvs_app, deleted_ids_app.
Qed.

Lemma accounts_nil l : Forall unrecorded l -> accounts l [] [] [].
Proof. apply unrecorded_lists. Qed.

Lemma accounts_empty_l l1 l2 c p d :
  accounts l1 [] [] [] -> accounts l2 c p d -> accounts (l1 ++ l2) c p d.
Proof. apply accounts_app. Qed.

Lemma accounts_empty_r l1 l2 c p d :
  accounts l1 c p d -> accounts l2 [] [] [] -> accounts (l1 ++ l2) c p d.
Proof.
  intros Ha Hb. pose proof (accounts_app _ _ _ _ _ _ _ _ Ha Hb) as Hab.
  by rewrite !app_nil_r in Hab.
Qed.

Lemma accounts_quiet_l l1 l2 c p d :
  Forall unrecorded l1 -> accounts l2 c p d -> accounts (l1 ++ l2) c p d.
Proof. intros Ha%accounts_nil. by apply accounts_empty_l. Qed.

Lemma accounts_quiet_r l1 l2 c p d :
  accounts l1 c p d -> Forall unrecorded l2 -> accounts (l1 ++ l2) c p d.
Proof. intros Ha Hb%accounts_nil. by apply accounts_empty_r. Qed.

(** What a failed provisioning may leave: nothing, a volume it asked to be deleted, or, when
    the region had to be looked up, the volume. *)
Definition failed_accounts (l : list event) : Prop :=
  accounts l [] [] []
  \/ exists id, accounts l [id] [] [id]
       \/ accounts l [id] [] [] /\ LookupEnv (W := W) "OCI_SHORT_REGION" = None.

Lemma creates_account options ad (s : state W) r e :
  BlockSpec.creates block options ad s r e ->
  created_id e = match r with inl v => vol_Id v | inr _ => None end
  /\ saved_pv e = None /\ deleted_id e = None.
Proof. inversion 1; subst. unfold created_id, saved_pv, deleted_id; simpl. by destruct r. Qed.

Lemma wait_end_unrecorded id r e : Block.wait_end id r e -> unrecorded e.
Proof.
  unfold unrecorded, created_id, saved_pv, deleted_id.
  inversion 1 as [? ? Hp|? ? ? Hp|? ? Hp|? (? & Hp & _)]; subst; by rewrite Hp.
Qed.

Lemma pending_unrecorded id polls : Forall (Block.pending id) polls -> Forall unrecorded polls.
Proof. intros Hp. eapply Forall_impl; [exact Hp|]. intros e Hpend. by eapply wait_end_unrecorded, Block.wait_timeout. Qed.

Lemma http_unrecorded https :
  Forall (fun e => exists u r, ev_call e = CHttpGet u r) https -> Forall unrecorded https.
Proof.
  intros Hh. eapply Forall_impl; [exact Hh|]. intros e (u & r & Hc).
  unfold unrecorded, created_id, saved_pv, deleted_id. by rewrite Hc.
Qed.

Lemma lists_unrecorded l :
  Forall (fun e => CoreSpec.lists_only (ev_call e)) l -> Forall unrecorded l.
Proof.
  intros Hl. eapply Forall_impl; [exact Hl|]. intros e Hc.
  unfold unrecorded, created_id, saved_pv, deleted_id.
  by destruct Hc as [[? ->]|(? & ? & ->)].
Qed.

Lemma create_poll_accounts options ad (s : state W) v id e polls last r :
  BlockSpec.creates block options ad s (inl v) e -> vol_Id v = Some id ->
  Forall (Block.pending id) polls -> Block.wait_end id r last ->
  accounts (e :: polls ++ [last]) [id] [] [].
Proof.
  intros Hc Hid Hp Hend. apply (accounts_quiet_r [e]).
  - destruct (creates_account _ _ _ _ _ Hc) as (Ha & Hb & Hd).
    unfold accounts, created_ids, saved_pvs, deleted_ids; simpl. by rewrite Ha, Hb, Hd, Hid.
  - apply Forall_app. split; [by eapply pending_unrecorded|].
    constructor; [by eapply wait_end_unrecorded|constructor].
Qed.

Lemma block_run_accounts options ad (s s' : state W) o l :
  BlockSpec.provision_run block options ad s o s' l ->
  match o with
  | Val (Ok pv) => accounts l [pv_Name pv] [] []
  | Val (Err _) => failed_accounts l
  | _ => True
  end.
Proof.
  intros Hrun. inversion Hrun as [| | | |? ? ? ? ? Ho|x e ? Hc| |v id err e polls last del reply ? Hc Hid Hp _ Hend _ _ Hdel
    |v id err e polls last https ? Hc Hid Hp _ Hend Henv Hh
    |v id pvc cap adn region e polls last https ? Hc Hid ? ? Hp _ Hend Hr Hh]; subst; try done;
    try (by left); try (destruct Ho as [[? ->]|[? ->]]; done).
  - left. destruct (creates_account _ _ _ _ _ Hc) as (? & ? & ?). by apply accounts_nil; repeat constructor.
  - right. exists id. left.
    replace (e :: polls ++ [last; del]) with ((e :: polls ++ [last]) ++ [del]) by by simplify_list_eq.
    apply (accounts_app _ _ [id] [] [] [] [] [id]); [by eapply create_poll_accounts|].
    unfold accounts, created_ids, saved_pvs, deleted_ids, created_id, saved_pv, deleted_id; simpl.
    by rewrite Hdel.
  - right. exists id. right. split; [|done].
    replace (e :: polls ++ last :: https) with ((e :: polls ++ [last]) ++ https) by by simplify_list_eq.
    apply accounts_quiet_r; [by eapply create_poll_accounts|by apply http_unrecorded].
  - replace (e :: polls ++ last :: https) with ((e :: polls ++ [last]) ++ https) by by simplify_list_eq.
    apply accounts_quiet_r; [by eapply create_poll_accounts|by apply http_unrecorded].
Qed.

(** A volume that core returned: named and annotated by the OCID, and marked. *)
Definition core_volume (pv : PersistentVolume) : Prop :=
  gomap_lookup (pv_Annotations pv) Block.OCIVolumeID = Some (pv_Name pv)
  /\ gomap_lookup (pv_Annotations pv) ociProvisionerIdentity = Some ociProvisionerIdentity.

Lemma core_accounts options (s : state W) :
  post (Core.Provision options) s (fun o _ l =>
    match o with
    | Val (Ok pv) => accounts l [pv_Name pv] [] [] /\ core_volume pv
    | Val (Err _) => failed_accounts l
    | _ => True
    end).
Proof using All.
  apply post_of_run. intros o s' l Hrun. destruct o as [[pv|e]|p|c|]; try done.
  - apply CoreSpec.Provision_Ok in Hrun
      as (name & ad & adn & comp & c & pv0 & s1 & s2 & l1 & l2 & Hch & Hpv & -> & _ & _ & Hm).
    pose proof (post_run _ _ _ _ _ _ (BlockSpec.Provision_runs fuel block options ad s1 Hfuel) Hpv) as Hr.
    pose proof (post_run _ _ _ _ _ _ (CoreSpec.choose_lists _ _ s) Hch) as Hl1.
    destruct Hm as (a & b & Ha & _ & Ha' & _ & ->).
    split; [apply accounts_quiet_l; [by apply lists_unrecorded|by apply (block_run_accounts _ _ _ _ _ _ Hr)]|].
    inversion Hr as [| | | |? ? ? ? ? Ho| | | | |]; subst; [by destruct Ho as [[? ?]|[? ?]]|].
    simplify_eq/=. unfold core_volume. rewrite Ha'. simpl.
    rewrite !(lookup_insert_ne _ _ Block.OCIVolumeID) by done.
    rewrite lookup_singleton_eq. split; [done|].
    by rewrite !lookup_insert_ne, lookup_insert_eq by done.
  - apply CoreSpec.Provision_Err in Hrun as [[_ Hl]|(name & ad & s1 & l1 & l2 & _ & Hl & Hpv & ->)];
      [left; by apply accounts_nil, lists_unrecorded|].
    pose proof (post_run _ _ _ _ _ _ (BlockSpec.Provision_runs fuel block options ad s1 Hfuel) Hpv) as Hr.
    apply lists_unrecorded in Hl.
    destruct (block_run_accounts _ _ _ _ _ _ Hr) as [Ha|(id & [Ha|[Ha Henv]])].
    + left. by apply accounts_quiet_l.
    + right. exists id. left. by apply accounts_quiet_l.
    + right. exists id. right. split; [by apply accounts_quiet_l|done].
Qed.
(** core passes a volume of its own on to the plugin: one delete call, for its OCID. *)
Lemma core_Delete_account pv (s : state W) :
  core_volume pv -> post (Core.Delete pv) s (fun _ _ l => accounts l [] [] [pv_Name pv]).
Proof.
  intros [Hid Hmark]. unfold Core.Delete. rewrite Hmark, String.eqb_refl. simpl.
  eapply post_mono; [by apply BlockSpec.Delete_calls|]. by intros o s' l [reply ->].
Qed.

Lemma clean_account tries pv err (s : state W) :
  core_volume pv ->
  post (clean_volume ctrl tries pv err) s (fun _ _ l => exists k,
    accounts l [] [] (replicate k (pv_Name pv)) /\ (k <= tries)%nat /\ ((0 < tries)%nat -> (0 < k)%nat)).
Proof.
  intros Hpv. revert err s. induction tries as [|tries IH]; intros err s; simpl.
  { go. exists O. split; [done|lia]. }
  go. eapply post_mono; [by apply core_Delete_account|].
  intros o s1 l1 Hl1. destruct o as [[u|e]|p|c|]; go;
    try (exists 1%nat; rewrite ?app_nil_r; split; [done|lia]).
  eapply post_mono; [apply IH|]. intros o s2 l2 (k & Hl2 & Hk & _). exists (S k).
  split; [|lia]. by apply (accounts_app l1 l2 [] [] [] [] [pv_Name pv]).
Qed.

Lemma saves_account tries pv err o l :
  saves tries pv err o l -> (0 < tries)%nat ->
  (o = Val None /\ accounts l [] [pv] []) \/ (exists e, o = Val (Some e)) /\ accounts l [] [] [].
Proof.
  assert (forall l, Forall (save_failed pv) l -> Forall unrecorded l) as Hfailed.
  { intros l' Hl. eapply Forall_impl; [exact Hl|]. intros e [err' He].
    unfold unrecorded, created_id, saved_pv, deleted_id. by rewrite He. }
  intros [(l1 & e & u & -> & -> & Hl1 & He & _)|(Hl & _ & Ho)] Hn; [left|right].
  - split; [done|]. apply accounts_quiet_l; [auto|].
    unfold accounts, created_ids, saved_pvs, deleted_ids, created_id, saved_pv, deleted_id; simpl.
    by rewrite He.
  - split; [destruct Ho as [[? _]|[_ ?]]; [lia|done]|]. by apply accounts_nil, Hfailed.
Qed.

Lemma kube_event_unrecorded r e : kube_event r e -> unrecorded e.
Proof.
  intros (t & m & He). unfold unrecorded, created_id, saved_pv, deleted_id. by rewrite He.
Qed.

Lemma lookup_unrecorded claim e : lookup_event claim e -> unrecorded e.
Proof.
  intros (r & He). unfold unrecorded, created_id, saved_pv, deleted_id. by rewrite He.
Qed.

Lemma accounts_preamble claim e e1 l c p d :
  lookup_event claim e -> kube_event "Provisioning" e1 -> accounts l c p d -> accounts (e :: e1 :: l) c p d.
Proof.
  intros He He1. apply (accounts_quiet_l [e; e1]).
  constructor; [by eapply lookup_unrecorded|]. constructor; [by eapply kube_event_unrecorded|constructor].
Qed.

(** After [Provision] returned a volume: it is saved, or deleted as often as it takes. *)
Lemma save_or_clean_account claim pv (s : state W) :
  core_volume pv -> (0 < retries ctrl)%nat ->
  post (save_or_clean ctrl claim pv) s (fun o _ l => forall r, o = Val r ->
    r = Ok tt
    /\ (accounts l [] [pv] []
        \/ exists k, accounts l [] [] (replicate (S k) (pv_Name pv)) /\ (k < retries ctrl)%nat)).
Proof.
  intros Hpv Hn. unfold save_or_clean. go. eapply post_mono; [apply post_save_volume|].
  intros o s1 l1 [[-> Hl1]|[[e ->] Hl1]]%saves_account; [| |done]; go.
  - unfold post; simpl. intros r [= <-]. split; [done|]. left.
    apply accounts_quiet_r; [done|by repeat constructor].
  - unfold post at 1; simpl. go. eapply post_mono; [by apply clean_account|].
    intros o s2 l2 (k & Hl2 & Hk & Hpos). specialize (Hpos Hn).
    assert (forall ev l3, unrecorded ev -> Forall unrecorded l3 -> exists k',
      accounts (l1 ++ ev :: l2 ++ l3) [] [] (replicate (S k') (pv_Name pv)) /\ (k' < retries ctrl)%nat)
      as Hacc.
    { intros ev l3 Hev Hl3. exists (pred k). replace (S (pred k)) with k by lia. split; [|lia].
      apply accounts_empty_l; [done|]. apply (accounts_quiet_l [ev]); [by constructor|].
      by apply accounts_quiet_r. }
    destruct o as [[e'|]|p|c|]; go; try done.
    + unfold post; simpl. intros r [= <-]. split; [done|]. right.
      apply Hacc; by repeat constructor.
    + simpl. intros r [= <-]. split; [done|]. right. by apply Hacc.
Qed.

(** C5: every volume is accounted for: an operation of the controller on a claim, with core
    and the block plugin behind it, that comes to an end created no volume at all, or
    exactly one, and then either the PV object that bears this volume's OCID and refers to
    the claim was saved, once, and the volume was not deleted; or no PV object was saved and
    the volume was asked to be deleted, at least once and at most as often as the controller
    retries; or neither, which happens only when the region of the volume had to be looked
    up. *)
Theorem block_claim_accounted claim (s : state W) :
  0 < createProvisionedPVRetryCount ctrl ->
  post (provisionClaimOperation ctrl claim) s (fun o _ l => forall r, o = Val r ->
    accounts l [] [] []
    \/ exists id,
        (r = Ok tt /\ exists pv claimRef, accounts l [id] [pv] [] /\ pv_Name pv = id
           /\ gomap_lookup (pv_Annotations pv) "ociVolumeID" = Some id
           /\ ref_GetReference (W := W) claim = Ok claimRef /\ pv_ClaimRef pv = Some claimRef)
        \/ (exists k, accounts l [id] [] (replicate (S k) id)
              /\ Z.of_nat (S k) <= Z.max 1 (createProvisionedPVRetryCount ctrl))
        \/ (accounts l [id] [] [] /\ LookupEnv (W := W) "OCI_SHORT_REGION" = None)).
Proof using All.
  intros Hn. eapply post_mono; [apply provisionClaimOperation_runs|].
  intros o s' l Hrun r ->.
  inversion Hrun as [o' s1 e l1 He Hl1|? ? ? ? ? ? ? ? ? ? ? ? ? ? ? Hno
    |e e1 claimRef options err s1 s2 l1 l2 o' He Hne He1 Hto Hprov Hr
    |e e1 claimRef options pv s1 s2 s3 l1 l2 o' He Hne He1 Hto Hprov Hsave]; subst.
  - left. apply accounts_nil. constructor; [by eapply lookup_unrecorded|].
    eapply Forall_impl; [exact Hl1|]. intros ?. apply kube_event_unrecorded.
  - by destruct (Hno r).
  - assert (forall c p d, accounts l1 c p d -> accounts (e :: e1 :: l1 ++ l2) c p d) as Hacc.
    { intros c p d Hl1. apply (accounts_preamble claim); [done|done|].
      apply accounts_quiet_r; [done|]. destruct (is_ignored err); destruct Hr as [_ Hl2]; [subst; constructor|].
      destruct Hl2 as (e2 & -> & He2). constructor; [by eapply kube_event_unrecorded|constructor]. }
    destruct (post_run _ _ _ _ _ _ (core_accounts options s1) Hprov) as [Ha|(id & [Ha|[Ha Henv]])].
    + left. by apply Hacc.
    + right. exists id. right. left. exists O. split; [by apply Hacc|lia].
    + right. exists id. right. right. by split; [apply Hacc|].
  - destruct (post_run _ _ _ _ _ _ (core_accounts options s1) Hprov) as [Hl1 [Hid Hmark]].
    set (pv' := claimed_volume ctrl pv claimRef (GetPersistentVolumeClaimClass claim)) in *.
    assert (pv_Name pv' = pv_Name pv) as Hname by apply claimed_volume_name.
    assert (core_volume pv') as Hpv'.
    { unfold core_volume. rewrite Hname. unfold pv'. by rewrite !claimed_volume_annotation. }
    assert (forall p d, accounts l2 [] p d -> accounts (e :: e1 :: l1 ++ l2) [pv_Name pv] p d) as Hacc.
    { intros p d Hl2. apply (accounts_preamble claim); [done|done|].
      exact (accounts_app _ _ _ _ _ _ _ _ Hl1 Hl2). }
    right. exists (pv_Name pv).
    pose proof (post_run _ _ _ _ _ _ (save_or_clean_account claim pv' s2 Hpv' ltac:(unfold retries; lia)) Hsave)
      as Hl2. destruct (Hl2 r eq_refl) as [-> [Ha|(k & Ha & Hk)]].
    + destruct Hpv' as [Hann _]. rewrite Hname in Hann.
      left. split; [done|]. exists pv', claimRef. split; [by apply Hacc|]. split; [done|].
      split; [done|]. split; [apply Hto|].
      unfold pv', claimed_volume. by destruct (at_least ctrl 6).
    + right. left. rewrite Hname in Ha. exists k. split; [by apply Hacc|unfold retries in Hk; lia].
Qed.
(** ** deleteVolumeOperation *)

Lemma shouldDelete_true pv : shouldDelete ctrl pv = true ->
  (pv_Phase pv = "Released" \/ pv_Phase pv = "Failed")
  /\ pv_ReclaimPolicy pv = "Delete"
  /\ gomap_lookup (pv_Annotations pv) "pv.kubernetes.io/provisioned-by" = Some (provisionerName ctrl).
Proof.
  unfold shouldDelete. change annDynamicallyProvisioned with "pv.kubernetes.io/provisioned-by".
  assert (forall b, (if (b : bool) then negb (String.eqb (pv_Phase pv) VolumeReleased)
     else negb (String.eqb (pv_Phase pv) VolumeReleased)
          && negb (String.eqb (pv_Phase pv) VolumeFailed)) = false ->
     pv_Phase pv = "Released" \/ pv_Phase pv = "Failed") as Hphase.
  { intros b. destruct (String.eqb_spec (pv_Phase pv) VolumeReleased) as [->|]; [auto|].
    destruct (String.eqb_spec (pv_Phase pv) VolumeFailed) as [->|]; [auto|]. by destruct b. }
  destruct (if at_least ctrl 5 then _ else _) eqn:Hp; [done|]. apply Hphase in Hp.
  destruct (String.eqb_spec (pv_ReclaimPolicy pv) PersistentVolumeReclaimDelete) as [->|]; [|done].
  simpl. destruct (gomap_lookup _ _) as [a|]; [|done].
  destruct (String.eqb_spec a (provisionerName ctrl)) as [->|]; [auto|done].
Qed.

(** The API server's volume as the first call of [l] saw it. *)
Definition deletable (volume : PersistentVolume) (l : list event) : Prop :=
  exists pv e0 l0, l = e0 :: l0 /\ ev_call e0 = CGetPV (pv_Name volume) (Ok (Some pv))
    /\ (pv_Phase pv = "Released" \/ pv_Phase pv = "Failed")
    /\ pv_ReclaimPolicy pv = "Delete"
    /\ gomap_lookup (pv_Annotations pv) "pv.kubernetes.io/provisioned-by" = Some (provisionerName ctrl).

(** The volume of the block service is gone. *)
Definition volume_gone (volume : PersistentVolume) (e : event) : Prop :=
  exists id reply, ev_call e = CDeleteVolume (Some id) reply
    /\ gomap_lookup (pv_Annotations volume) "ociVolumeID" = Some id
    /\ (dv_err reply = None \/ BlockSpec.gone reply).

Inductive delete_op_run (volume : PersistentVolume) :
  outcome (result unit) -> list event -> Prop :=
| delete_not_asked o e r :
    ev_call e = CGetPV (pv_Name volume) r -> delete_op_run volume o [e]
| delete_refused o e l1 l2 :
    deletable volume (e :: l1 ++ l2) -> (length l1 <= 1)%nat -> Forall (kube_event "VolumeFailedDelete") l2 ->
    Forall (fun e => exists reply, ev_call e = CDeleteVolume (gomap_lookup (pv_Annotations volume) "ociVolumeID") reply) l1 ->
    delete_op_run volume o (e :: l1 ++ l2)
| delete_done e e1 e2 r :
    deletable volume [e; e1; e2] -> volume_gone volume e1 ->
    ev_call e2 = CDeletePV (pv_Name volume) r ->
    delete_op_run volume (Val r) [e; e1; e2].

Lemma deleteVolumeOperation_runs volume (s : state W) :
  post (deleteVolumeOperation ctrl volume) s (fun o _ l => delete_op_run volume o l).
Proof.
  unfold deleteVolumeOperation, GetPV, DeletePV. go. destruct a as [[pv|]|e]; go;
    [|by eapply delete_not_asked..].
  destruct (shouldDelete ctrl pv) eqn:Hs; simpl; go; [|by eapply delete_not_asked].
  apply shouldDelete_true in Hs.
  assert (forall t c l, deletable volume (Event t c (CGetPV (pv_Name volume) (Ok (Some pv))) :: l)) as Hdel
    by (intros; by do 3 eexists).
  unfold Core.Delete. destruct (gomap_lookup (pv_Annotations volume) ociProvisionerIdentity) as [i|]; go.
  2: { unfold post; simpl. by apply (delete_refused _ _ _ [] [_]); [| |repeat constructor; by do 3 eexists|]; auto. }
  destruct (negb _); go; [by apply (delete_refused _ _ _ [] []); auto|].
  eapply post_mono; [apply BlockSpec.Delete_runs|]. intros o s1 l1. unfold BlockSpec.delete_run.
  change Block.OCIVolumeID with "ociVolumeID".
  destruct (gomap_lookup _ "ociVolumeID") as [id|] eqn:Hid.
  2: { intros (-> & -> & _). go. unfold post; simpl.
       by apply (delete_refused _ _ _ [] [_]); [| |repeat constructor; by do 3 eexists|]; auto. }
  intros (reply & -> & [[-> Hgone]|(x & -> & _)]); go.
  - eapply delete_done; [done|by do 2 eexists|done].
  - unfold post; simpl. apply (delete_refused _ _ _ [_] [_]); [done|done|repeat constructor; by do 3 eexists|].
    constructor; [|constructor]. rewrite Hid. eauto.
Qed.
Definition deletes (e : event) : Prop :=
  BlockSpec.is_delete (ev_call e) = true \/ exists n r, ev_call e = CDeletePV n r.

(** C9: deletion is safe: an operation of the controller on a volume, with core and the
    block plugin behind it, deletes nothing unless the API server has just shown the volume
    released (or failed), with the policy Delete and as provisioned by this controller; the
    only block volume it may delete is the annotated one; and the PV object is deleted last,
    only when the deletion of the block volume succeeded or found nothing, and the answer to
    it is the operation's own. *)
Theorem block_delete_safe volume (s : state W) :
  post (deleteVolumeOperation ctrl volume) s (fun o _ l =>
    (Exists deletes l -> deletable volume l)
    /\ Forall (fun e => forall id reply, ev_call e = CDeleteVolume id reply ->
         id = gomap_lookup (pv_Annotations volume) "ociVolumeID") l
    /\ (forall l1 d l2 n r, l = l1 ++ d :: l2 -> ev_call d = CDeletePV n r ->
          n = pv_Name volume /\ l2 = [] /\ o = Val r
          /\ exists e0 e1, l1 = [e0; e1] /\ volume_gone volume e1)).
Proof using All.
  eapply post_mono; [apply deleteVolumeOperation_runs|]. intros o s' l Hrun.
  inversion Hrun as [? e r He|? e l1 l2 Hd Hlen Hl2 Hl1|e e1 e2 r Hd Hg He2]; subst.
  - unfold deletes. split; [|split].
    + intros [[Hx|(? & ? & Hx)]|Hx]%Exists_cons; [by rewrite He in Hx..|by apply Exists_nil in Hx].
    + constructor; [by rewrite He|constructor].
    + intros [|? [|]] d l2 n r' Heq Hc; simplify_list_eq; congruence.
  - split; [done|]. pose proof Hd as (pv & e0 & l0 & [= <- <-] & He & _). split.
    + constructor; [by rewrite He|]. apply Forall_app. split; (eapply Forall_impl; [eassumption|]); simpl.
      * intros ev [reply ->]. by intros ? ? [= <- _].
      * intros ev (? & ? & ->). done.
    + intros l3 d l4 n r Heq Hc. exfalso.
      assert (d ∈ e :: l1 ++ l2) as Hin by (rewrite Heq; set_solver).
      apply elem_of_cons in Hin as [->|[Hin|Hin]%elem_of_app]; [congruence|..].
      * rewrite Forall_forall in Hl1. destruct (Hl1 d Hin) as [? ?]. congruence.
      * rewrite Forall_forall in Hl2. destruct (Hl2 d Hin) as (? & ? & ?). congruence.
  - split; [done|]. pose proof Hd as (pv & e0 & l0 & [= <- <-] & He & _).
    pose proof Hg as (id & reply & He1 & Hid & _). split.
    + repeat constructor; rewrite ?He, ?He1, ?He2; [done| |done]. by intros ? ? [= <- _].
    + intros [|? [|? [|? [|]]]] d l4 n r' Heq Hc; simplify_list_eq; try congruence.
      repeat split; [congruence..|]. by do 2 eexists.
Qed.
End BlockAccount.
