(* ===== verification/Ledger.v ===== *)
(** * The ledger of an operation on a claim

    What one run of [provisionClaimOperation], with core and the block plugin behind it, can
    have done so far, after each of its calls: it creates at most one volume, saves a PV
    object for it or asks for its deletion, but not both, and reports its result at most
    once, after which it neither creates nor saves anything.  The ledger is an automaton over
    the calls; every beginning of every run is shown to be accepted by it, whether the
    operation returns, fails, or is cut short. *)

From S2P Require Import Prelude GoStrings Errors Quantity Objects Config Effects Logic Wait Plugin Core Controller ControllerSpec.
From S2P Require Block BlockSpec CoreSpec.

Open Scope Z_scope.

(** [watchProvisioning]: what the electors of the claim learn from an event, of those that
    [getPVCEventWatch] selects by their type and reason. *)
Definition task_result (e : event) : option bool :=
  match ev_call e with
  | CEvent eventtype reason _ =>
      if String.eqb eventtype EventTypeNormal && String.eqb reason "ProvisioningSucceeded" then Some true
      else if String.eqb eventtype EventTypeWarning && String.eqb reason "ProvisioningFailed" then Some false
      else None
  | _ => None
  end.

(** Nothing made; a volume made; its PV object saved; or its deletion asked for. *)
Inductive standing : Set :=
| Unmade
| Made (id : string)
| Saved (id : string)
| Dropped (id : string).

Record ledger : Set := Ledger { lg_volume : standing; lg_result : option bool }.

Definition is_saved (q : standing) : bool := match q with Saved _ => true | _ => false end.

Definition enter (q : ledger) (e : event) : option ledger :=
  match created_id e, saved_pv e, deleted_id e, task_result e with
  | None, None, None, None => Some q
  | Some id, None, None, None =>
      match q with Ledger Unmade None => Some (Ledger (Made id) None) | _ => None end
  | None, Some pv, None, None =>
      match q with
      | Ledger (Made id) None => if String.eqb (pv_Name pv) id then Some (Ledger (Saved id) None) else None
      | _ => None
      end
  | None, None, Some id, None =>
      match q with
      | Ledger (Made i | Dropped i) r => if String.eqb id i then Some (Ledger (Dropped i) r) else None
      | _ => None
      end
  | None, None, None, Some success =>
      match q with
      | Ledger v None => if Bool.eqb success (is_saved v) then Some (Ledger v (Some success)) else None
      | _ => None
      end
  | _, _, _, _ => None
  end.

Fixpoint balance (q : ledger) (l : list event) : option ledger :=
  match l with
  | [] => Some q
  | e :: l => match enter q e with Some q' => balance q' l | None => None end
  end.

Definition blank : ledger := Ledger Unmade None.

Lemma balance_app q l1 l2 : balance q (l1 ++ l2) = balance q l1 ≫= fun q' => balance q' l2.
Proof. revert q. induction l1 as [|e l1 IH]; intros q; simpl; [done|]. by destruct (enter q e). Qed.

(** Calls that leave it alone. *)
Definition quiet (e : event) : Prop := unrecorded e /\ task_result e = None.

Lemma enter_quiet q e : quiet e -> enter q e = Some q.
Proof. intros ((Hc & Hs & Hd) & Hr). unfold enter. by rewrite Hc, Hs, Hd, Hr. Qed.

Lemma balance_quiet q l : Forall quiet l -> balance q l = Some q.
Proof. induction 1 as [|e l He _ IH]; simpl; [done|]. by rewrite enter_quiet. Qed.

Lemma balance_quiet_l q l1 l2 : Forall quiet l1 -> balance q (l1 ++ l2) = balance q l2.
Proof. intros Hl. by rewrite balance_app, balance_quiet. Qed.

Lemma balance_quiet_r q q' l1 l2 :
  balance q l1 = Some q' -> Forall quiet l2 -> balance q (l1 ++ l2) = Some q'.
Proof. intros Hq Hl. rewrite balance_app, Hq. by apply balance_quiet. Qed.

(** The request and the reply of a call decide what it enters. *)
Ltac call_of H := unfold quiet, unrecorded, enter, created_id, saved_pv, deleted_id, task_result; rewrite H.

(** ** The calls of the operation *)

Section Calls.
Context {W : Type} `{Backend W} (ctrl : ProvisionController).

Lemma pending_quiet id polls : Forall (Block.pending id) polls -> Forall quiet polls.
Proof.
  intros Hp. eapply Forall_impl; [exact Hp|]. intros e Hpend. split.
  - by eapply wait_end_unrecorded, Block.wait_timeout.
  - destruct Hpend as (v & Hc & _). unfold task_result. by rewrite Hc.
Qed.

Lemma wait_end_quiet id r e : Block.wait_end id r e -> quiet e.
Proof.
  intros Hend. split; [by eapply wait_end_unrecorded|]. unfold task_result.
  inversion Hend as [? ? Hp|? ? ? Hp|? ? Hp|? (? & Hp & _)]; subst; by rewrite Hp.
Qed.

Lemma http_quiet https :
  Forall (fun e => exists u r, ev_call e = CHttpGet u r) https -> Forall quiet https.
Proof. intros Hh. eapply Forall_impl; [exact Hh|]. intros e (u & r & Hc). by call_of Hc. Qed.

Lemma lists_quiet l : Forall (fun e => CoreSpec.lists_only (ev_call e)) l -> Forall quiet l.
Proof.
  intros Hl. eapply Forall_impl; [exact Hl|].
  intros e [[r Hc]|(c & r & Hc)]; by call_of Hc.
Qed.

Lemma lookup_quiet claim e : lookup_event claim e -> quiet e.
Proof. intros (r & Hc). by call_of Hc. Qed.

Lemma save_failed_quiet pv l : Forall (save_failed pv) l -> Forall quiet l.
Proof. intros Hl. eapply Forall_impl; [exact Hl|]. intros e (err & Hc). by call_of Hc. Qed.

Lemma provisioning_quiet e : kube_event "Provisioning" e -> quiet e.
Proof.
  intros (t & m & Hc). call_of Hc. split; [done|]. simpl. by rewrite !andb_false_r.
Qed.

Definition deletes_volume (id : string) (e : event) : Prop :=
  exists reply, ev_call e = CDeleteVolume (Some id) reply.

Lemma balance_deletes id v r l :
  v = Made id \/ v = Dropped id -> Forall (deletes_volume id) l ->
  balance (Ledger v r) l = Some (Ledger (match l with [] => v | _ => Dropped id end) r).
Proof.
  intros Hv Hl. revert v Hv. induction Hl as [|e l [reply Hc] _ IH]; intros v Hv; [done|]. simpl.
  assert (enter (Ledger v r) e = Some (Ledger (Dropped id) r)) as ->.
  { call_of Hc. destruct Hv as [->| ->]; by rewrite String.eqb_refl. }
  rewrite IH by by right. by destruct l.
Qed.

(** The loop over [CreatePV]. *)
Lemma balance_saves tries pv err o l :
  saves tries pv err o l -> (0 < tries)%nat ->
  (o = Val None /\ balance (Ledger (Made (pv_Name pv)) None) l = Some (Ledger (Saved (pv_Name pv)) None))
  \/ ((exists e, o = Val (Some e)) /\ Forall quiet l).
Proof.
  intros [(l1 & e & u & -> & -> & Hl1 & He & _)|(Hl & _ & Ho)] Hn; [left|right].
  - split; [done|]. rewrite balance_quiet_l by by eapply save_failed_quiet. simpl.
    call_of He. simpl. by rewrite String.eqb_refl.
  - split; [destruct Ho as [[? _]|[_ ?]]; [lia|done]|]. by eapply save_failed_quiet.
Qed.
End Calls.

Section Operation.
Context {W : Type} `{Backend W} `{!ProvisionerClient} `{!ProvisionerClientOk}.
Context `{!InstanceMeta W} `{!InstanceMetaOk W} `{!ApiServer W}.
Context (fuel : nat) (block : Block.blockProvisioner) (ctrl : ProvisionController).
Context (Hfuel : enough_fuel fuel (5 * Second) (Block.bp_timeout block)).

#[local] Instance block_plugin : ProvisionerPlugin W := BlockSpec.block_Plugin fuel block.
#[local] Instance block_provisioner : Provisioner W := core_Provisioner.

(** ** Provision *)

Definition opened (v : standing) : ledger := Ledger v None.

(** How the ledger of a call of [Provision] ends. *)
Definition provision_balance (o : outcome (result PersistentVolume)) (l : list event) : Prop :=
  exists v, balance blank l = Some (opened v)
    /\ match o with
       | Val (Ok pv) => v = Made (pv_Name pv)
       | Val (Err _) => LookupEnv (W := W) "OCI_SHORT_REGION" <> None -> forall id, v <> Made id
       | _ => True
       end
    /\ is_saved v = false.

Lemma creates_enters options ad (s : state W) r e :
  BlockSpec.creates block options ad s r e ->
  enter blank e = Some (opened (match r with
    | inl v => match vol_Id v with Some id => Made id | None => Unmade end
    | inr _ => Unmade
    end)).
Proof.
  inversion 1; subst. unfold enter, created_id, saved_pv, deleted_id, task_result; simpl.
  destruct r as [v|x]; [|done]. by destruct (vol_Id v).
Qed.

Lemma create_poll_balance options ad (s : state W) v id e polls last r tail :
  BlockSpec.creates block options ad s (inl v) e -> vol_Id v = Some id ->
  Forall (Block.pending id) polls -> Block.wait_end id r last ->
  balance blank (e :: polls ++ last :: tail) = balance (opened (Made id)) tail.
Proof.
  intros Hc Hid Hp Hend. simpl. rewrite (creates_enters _ _ _ _ _ Hc), Hid.
  rewrite balance_quiet_l by by eapply pending_quiet. simpl.
  by rewrite enter_quiet by by eapply wait_end_quiet.
Qed.

Lemma block_run_balance options ad (s s' : state W) o l :
  BlockSpec.provision_run block options ad s o s' l -> provision_balance o l.
Proof.
  assert (forall o, match o with Val (Ok _) => False | _ => True end -> provision_balance o []) as Hnone.
  { intros o' Ho. exists Unmade. split; [done|]. destruct o' as [[|]| | |]; by split. }
  intros Hrun. inversion Hrun as [| | | |? ? ? ? ? Ho|x e ? Hc|v e ? Hc Hid
    |v id err e polls last del reply ? Hc Hid Hp _ Hend _ _ Hdel
    |v id err e polls last https ? Hc Hid Hp _ Hend Henv Hh
    |v id pvc cap adn region e polls last https ? Hc Hid ? ? Hp _ Hend Hr Hh]; subst; try (by apply Hnone);
    try pose proof (fun tail => create_poll_balance _ _ _ _ _ _ _ _ _ tail Hc Hid Hp Hend) as Hmade.
  - apply Hnone. by destruct Ho as [[? ->]|[? ->]].
  - exists Unmade. split; [|done]. simpl. by rewrite (creates_enters _ _ _ _ _ Hc).
  - exists Unmade. split; [|done]. simpl. by rewrite (creates_enters _ _ _ _ _ Hc), Hid.
  - exists (Dropped id). split; [|done].
    rewrite Hmade. apply (balance_deletes id); [by left|].
    by constructor; [exists reply|constructor].
  - exists (Made id). split; [|done]. rewrite Hmade. by apply balance_quiet, http_quiet.
  - exists (Made id). split; [|done]. rewrite Hmade. by apply balance_quiet, http_quiet.
Qed.

Lemma provision_balance_quiet o l1 l2 :
  Forall quiet l1 -> provision_balance o l2 -> provision_balance o (l1 ++ l2).
Proof. intros Hl (v & Hv & Ho). exists v. by rewrite balance_quiet_l. Qed.

(** The result of [Provision] can be changed as long as it is about the same volume. *)
Lemma provision_balance_same o o' l :
  match o' with
  | Val (Ok pv) => exists pv0, o = Val (Ok pv0) /\ pv_Name pv0 = pv_Name pv
  | Val (Err e) => o = Val (Err e)
  | _ => True
  end -> provision_balance o l -> provision_balance o' l.
Proof.
  intros Ho (v & Hv & Hend & Hs). exists v. split; [exact Hv|]. split; [|exact Hs].
  destruct o' as [[pv|e]|p|c|]; try done; [|by subst]. by destruct Ho as (pv0 & -> & <-).
Qed.

Lemma core_balance options (s : state W) :
  post (Core.Provision options) s (fun o _ l => provision_balance o l).
Proof using All.
  unfold Core.Provision. go. eapply post_mono; [apply CoreSpec.choose_lists|].
  intros o s1 l1 Hl1%lists_quiet.
  assert (forall o, match o with Val (Ok _) => False | _ => True end -> provision_balance o l1) as Hnone.
  { intros o' Ho. exists Unmade. rewrite balance_quiet by done. split; [done|].
    destruct o' as [[|]| | |]; by split. }
  destruct o as [[[name ad]|e]|p|c|]; go; rewrite ?app_nil_r; try (by apply Hnone).
  eapply post_mono; [apply (BlockSpec.Provision_runs fuel block options ad s1 Hfuel)|].
  intros o s2 l2 Hr%block_run_balance. apply (provision_balance_quiet _ l1) in Hr; [|done].
  destruct o as [[pv|e]|p|c|]; go; rewrite ?app_nil_r; try (by eapply provision_balance_same).
  assert (forall o', match o' with Val (Ok pv') => pv_Name pv = pv_Name pv' | Val (Err _) => False | _ => True end ->
    provision_balance o' (l1 ++ l2)) as Hok.
  { intros o' Ho. eapply provision_balance_same; [|exact Hr]. destruct o' as [[pv'|e]|p|c|]; try done. eauto. }
  unfold map_write. destruct (pv_Annotations pv) as [a|]; go; rewrite ?app_nil_r; [|by apply Hok].
  apply post_CompartmentOCID. intros [comp|p|c|] cc _; go; rewrite ?app_nil_r; try (by apply Hok).
  destruct (ad_Name ad) as [n|]; go; rewrite ?app_nil_r; [|by apply Hok].
  destruct (pv_Labels pv) as [lb|]; go; rewrite ?app_nil_r; by apply Hok.
Qed.

(** ** After [Provision] *)

Lemma clean_deletes tries pv err (s : state W) :
  core_volume pv ->
  post (clean_volume ctrl tries pv err) s (fun _ _ l =>
    Forall (deletes_volume (pv_Name pv)) l /\ ((0 < tries)%nat -> l <> [])).
Proof.
  intros [Hid Hmark]. revert err s. induction tries as [|tries IH]; intros err s; simpl.
  { go. split; [constructor|lia]. }
  go. unfold Core.Delete. rewrite Hmark, String.eqb_refl. simpl.
  eapply post_mono; [by apply BlockSpec.Delete_calls|]. intros o s1 l1 [reply ->].
  assert (deletes_volume (pv_Name pv) (Event (st_now s) (Some (st_now s + client_Timeout))
    (CDeleteVolume (Some (pv_Name pv)) reply))) as Hdel by by exists reply.
  destruct o as [[u|e]|p|c|]; go; try (by split; [constructor; [done|constructor]|]).
  eapply post_mono; [apply IH|]. intros o s2 l2 [Hl2 _]. by split; [constructor|].
Qed.

(** How the ledger of an operation ends. *)
Definition closed (o : outcome (result unit)) (q : ledger) : Prop :=
  forall r, o = Val r -> LookupEnv (W := W) "OCI_SHORT_REGION" <> None ->
    forall id, lg_volume q <> Made id.

Lemma event_enters eventtype reason m t c v :
  enter (opened v) (Event t c (CEvent eventtype reason m))
  = match task_result (Event t c (CEvent eventtype reason m)) with
    | None => Some (opened v)
    | Some b => if Bool.eqb b (is_saved v) then Some (Ledger v (Some b)) else None
    end.
Proof. reflexivity. Qed.

Lemma save_or_clean_balance claim pv (s : state W) :
  core_volume pv -> (0 < retries ctrl)%nat ->
  post (save_or_clean ctrl claim pv) s (fun o _ l => exists q,
    balance (opened (Made (pv_Name pv))) l = Some q /\ closed o q).
Proof using All.
  intros Hpv Hn. unfold save_or_clean. go. eapply post_mono; [apply post_save_volume|].
  intros o s1 l1 [[-> Hl1]|[[e ->] Hl1]]%balance_saves; [| |done]; go.
  - unfold post; simpl. exists (Ledger (Saved (pv_Name pv)) (Some true)). split; [|by intros ? _ _ ?].
    unfold opened. by rewrite balance_app, Hl1.
  - unfold post at 1; simpl. go. eapply post_mono; [by apply clean_deletes|].
    intros o s2 l2 [Hl2 Hpos]. specialize (Hpos Hn).
    set (q := Ledger (Dropped (pv_Name pv)) (Some false)).
    assert (forall m l3, Forall quiet l3 ->
      balance (opened (Made (pv_Name pv)))
        (l1 ++ Event (st_now s1) Background (CEvent EventTypeWarning "ProvisioningFailed" m) :: l2 ++ l3) = Some q)
      as Hend.
    { intros m l3 Hl3. rewrite balance_quiet_l by done. simpl.
      apply balance_quiet_r; [|done]. etrans; [apply (balance_deletes (pv_Name pv)); [by left|done]|].
      by destruct l2. }
    destruct o as [[e'|]|p|c|]; go; try (unfold post; simpl); exists q; (split; [|by intros ? _ _ ?]);
      rewrite <- ?app_assoc;
      first [apply (Hend _ [_]) | apply (Hend _ []) | rewrite <- (app_nil_r l2); apply (Hend _ [])];
      by repeat constructor.
Qed.

(** ** The operation *)

Lemma lookup_then_balance claim e e1 q l :
  lookup_event claim e -> kube_event "Provisioning" e1 -> balance blank l = q ->
  balance blank (e :: e1 :: l) = q.
Proof.
  intros He He1 <-. apply (balance_quiet_l blank [e; e1]).
  constructor; [by eapply lookup_quiet|]. constructor; [by apply provisioning_quiet|constructor].
Qed.

(** A failure is recorded by one event, which is a result if its type is the one that the
    electors watch for. *)
Lemma failed_enters v e :
  kube_event "ProvisioningFailed" e -> is_saved v = false ->
  exists r, enter (opened v) e = Some (Ledger v r).
Proof.
  intros (t & m & He) Hs. unfold enter, created_id, saved_pv, deleted_id, task_result. rewrite He. simpl.
  rewrite !andb_false_r. destruct (String.eqb t _); simpl; [|by eexists]. rewrite Hs. simpl. by eexists.
Qed.

Lemma operation_balance claim (s : state W) :
  0 < createProvisionedPVRetryCount ctrl ->
  post (provisionClaimOperation ctrl claim) s (fun o _ l => exists q,
    balance blank l = Some q /\ closed o q).
Proof using All.
  intros Hn. eapply post_mono; [apply provisionClaimOperation_runs|]. intros o s' l Hrun.
  inversion Hrun as [o' s1 e l1 He Hl1 Hlen|e e1 claimRef options ? s1 s2 l1 He Hne He1 Hto Hprov Hno o' Hno'
    |e e1 claimRef options err s1 s2 l1 l2 o' He Hne He1 Hto Hprov Hr
    |e e1 claimRef options pv s1 s2 s3 l1 l2 o' He Hne He1 Hto Hprov Hsave]; subst;
    try pose proof (post_run _ _ _ _ _ _ (core_balance options s1) Hprov) as (v & Hv & Hend & Hs).
  - assert (exists r, balance blank (e :: l1) = Some (Ledger Unmade r)) as [r Hr].
    { simpl. rewrite enter_quiet by by eapply lookup_quiet.
      destruct Hl1 as [|e1 l1 He1 Hl1]; [by eexists|]. destruct Hl1; [|simpl in Hlen; lia].
      destruct (failed_enters Unmade e1 He1 eq_refl) as [r Hr]. exists r. simpl. by rewrite (Hr : enter blank e1 = _). }
    exists (Ledger Unmade r). by split.
  - exists (opened v). split; [by eapply lookup_then_balance|]. intros r Hr. by destruct (Hno' r).
  - assert (exists r, balance blank (l1 ++ l2) = Some (Ledger v r)) as [r Hl].
    { rewrite balance_app, Hv. simpl. destruct (is_ignored err); destruct Hr as [_ Hl2].
      - rewrite Hl2. by eexists.
      - destruct Hl2 as (e2 & -> & He2). destruct (failed_enters v e2 He2 Hs) as [r Hr].
        exists r. simpl. by rewrite Hr. }
    exists (Ledger v r). split; [by eapply lookup_then_balance|]. by intros ? _ Henv; apply Hend.
  - destruct (post_run _ _ _ _ _ _ (core_accounts fuel block ctrl Hfuel options s1) Hprov) as [_ [Hid Hmark]].
    set (pv' := claimed_volume ctrl pv claimRef (GetPersistentVolumeClaimClass claim)) in *.
    assert (pv_Name pv' = pv_Name pv) as Hname by apply claimed_volume_name.
    assert (core_volume pv') as Hpv'.
    { unfold core_volume. rewrite Hname. unfold pv'. by rewrite !claimed_volume_annotation. }
    destruct (post_run _ _ _ _ _ _ (save_or_clean_balance claim pv' s2 Hpv' ltac:(unfold retries; lia)) Hsave)
      as (q & Hq & Hclosed). exists q. split; [|exact Hclosed].
    eapply lookup_then_balance; [done..|]. rewrite balance_app, Hv. simpl. rewrite Hend, <- Hname. exact Hq.
Qed.
End Operation.

(** ** What the ledger says of the calls *)

Definition standing_accounts (v : standing) (l : list event) : Prop :=
  match v with
  | Unmade => accounts l [] [] []
  | Made id => accounts l [id] [] []
  | Saved id => exists pv, pv_Name pv = id /\ accounts l [id] [pv] []
  | Dropped id => exists k, accounts l [id] [] (replicate (S k) id)
  end.

Lemma accounts_one e :
  accounts [e] (option_list (created_id e)) (option_list (saved_pv e)) (option_list (deleted_id e)).
Proof.
  unfold accounts, created_ids, saved_pvs, deleted_ids. simpl.
  by destruct (created_id e), (saved_pv e), (deleted_id e).
Qed.

Lemma standing_accounts_enter v r e q l :
  standing_accounts v l -> enter (Ledger v r) e = Some q -> standing_accounts (lg_volume q) (l ++ [e]).
Proof.
  intros Hv He. pose proof (accounts_one e) as H1. unfold enter in He.
  destruct (created_id e) as [i|], (saved_pv e) as [pv|], (deleted_id e) as [j|], (task_result e) as [b|];
    try done; simpl in H1.
  - destruct v, r; try done. injection He as <-. exact (accounts_app _ _ _ _ _ _ _ _ Hv H1).
  - destruct v as [|i| |], r; try done. destruct (String.eqb_spec (pv_Name pv) i) as [<-|]; [|done].
    injection He as <-. exists pv. split; [done|]. exact (accounts_app _ _ _ _ _ _ _ _ Hv H1).
  - destruct v as [|i| |i]; try done;
      (destruct (String.eqb_spec j i) as [Hj|]; [subst i|done]); injection He as <-; simpl in *.
    + exists O. exact (accounts_app _ _ _ _ _ _ _ _ Hv H1).
    + destruct Hv as [k Hv]. exists (S k). rewrite replicate_S_end.
      exact (accounts_app _ _ _ _ _ _ _ _ Hv H1).
  - destruct r; [done|]. destruct (Bool.eqb b (is_saved v)); [|done]. injection He as <-. simpl.
    destruct v; simpl in *; [by apply accounts_empty_r..| |].
    + destruct Hv as (pv & Hpv & Hv). exists pv. split; [done|by apply accounts_empty_r].
    + destruct Hv as (k & Hv). exists k. by apply accounts_empty_r.
  - injection He as <-. simpl. destruct v; simpl in *; [by apply accounts_empty_r..| |].
    + destruct Hv as (pv & Hpv & Hv). exists pv. split; [done|by apply accounts_empty_r].
    + destruct Hv as (k & Hv). exists k. by apply accounts_empty_r.
Qed.

Lemma balance_accounts l q : balance blank l = Some q -> standing_accounts (lg_volume q) l.
Proof.
  revert q. induction l as [|e l IH] using rev_ind; intros q; [by intros [= <-]|].
  rewrite balance_app. intros ([v r] & Hq & He)%bind_Some. simpl in He.
  destruct (enter _ e) as [q'|] eqn:Hq'; [|done]. injection He as ->.
  by eapply standing_accounts_enter; [apply (IH _ Hq)|].
Qed.

(** Creations and savings. *)
Definition works (e : event) : bool :=
  bool_decide (is_Some (created_id e)) || bool_decide (is_Some (saved_pv e)).

(** A call enters no result, or is one and nothing else; after a result there is no work. *)
Lemma enter_opened v e q :
  enter (opened v) e = Some q -> task_result e = None -> exists v', q = opened v'.
Proof.
  unfold enter, opened. intros He Hr. rewrite Hr in He.
  destruct (created_id e), (saved_pv e), (deleted_id e), v; try done; try (destruct (String.eqb _ _); [|done]);
    injection He as <-; by eexists.
Qed.

Lemma enter_result q e q' b : enter q e = Some q' -> task_result e = Some b -> lg_result q' = Some b /\ works e = false.
Proof.
  unfold enter, works. intros He Hr. rewrite Hr in He.
  destruct (created_id e), (saved_pv e), (deleted_id e), q as [v [r|]]; try done.
  destruct (Bool.eqb b _); [|done]. by injection He as <-.
Qed.

Lemma enter_reported q e q' :
  enter q e = Some q' -> lg_result q <> None -> lg_result q' = lg_result q /\ works e = false.
Proof.
  unfold enter, works. intros He Hr. destruct q as [v [r|]]; [|done].
  destruct (created_id e), (saved_pv e), (deleted_id e), (task_result e), v; try done;
    try (destruct (String.eqb _ _); [|done]); injection He as <-; done.
Qed.

(** ** The check for a volume that the claim has *)

(** The API server shows only objects that were there at first or were saved since, by their
    names. *)
Definition shows_stored (S : gset string) (l : list event) : Prop :=
  forall e name pv, e ∈ l -> ev_call e = CGetPV name (Ok (Some pv)) ->
    name ∈ S \/ name ∈ pv_Name <$> saved_pvs l.

Section Check.
Context {W : Type} `{Backend W} `{!ProvisionerClient} `{!ProvisionerClientOk}.
Context `{!InstanceMeta W} `{!InstanceMetaOk W} `{!ApiServer W}.
Context (fuel : nat) (block : Block.blockProvisioner) (ctrl : ProvisionController).
Context (Hfuel : enough_fuel fuel (5 * Second) (Block.bp_timeout block)).

#[local] Instance checked_plugin : ProvisionerPlugin W := BlockSpec.block_Plugin fuel block.
#[local] Instance checked_provisioner : Provisioner W := core_Provisioner.

(** The lookups are for these names. *)
Definition looks_for (names : list string) (k : call) : Prop :=
  match k with CGetPV name _ => name ∈ names | _ => True end.

Section LooksFor.
Context (names : list string).
Abbreviation R := (only (W := W) (looks_for names)).

Lemma looks_event eventtype reason m : upholds (@Event_ W eventtype reason m) R.
Proof. intros s. unfold post; simpl. by constructor. Qed.
Lemma looks_compartment : upholds CompartmentOCID_ R.
Proof. intros s. apply post_CompartmentOCID. by constructor. Qed.
Lemma looks_class name : upholds (getStorageClass name) R.
Proof. unfold getStorageClass. upholds_tac. Qed.
Lemma looks_meta : upholds meta_Get R.
Proof using All.
  intros s. eapply post_mono; [apply meta_only_http|]. intros o s' l Hl. eapply Forall_impl; [exact Hl|].
  by intros e (u & r & ->).
Qed.
#[local] Hint Resolve looks_event looks_compartment looks_class looks_meta : upholds.

Lemma looks_wait c id T : upholds (Block.waitForVolumeAvailable fuel c id T) R.
Proof using All.
  unfold Block.waitForVolumeAvailable. apply upholds_bind; [apply _| |intros; upholds_tac].
  apply upholds_PollImmediate; [apply _| | |].
  - intros t s. apply post_advance_to. by constructor.
  - intros. upholds_tac.
  - intros x. unfold Block.volume_condition, Block.isVolumeReady. upholds_tac.
Qed.

Lemma looks_Provision options : upholds (Core.Provision options) R.
Proof using All.
  assert (forall c pvc, upholds (chooseAvailabilityDomain c pvc) R) as Hchoose.
  { intros c pvc s. eapply post_mono; [apply CoreSpec.choose_lists|]. intros o s' l Hl.
    eapply Forall_impl; [exact Hl|]. by intros e [(r & ->)|(c' & r & ->)]. }
  assert (forall options ad, upholds (Block.Provision fuel block options ad) R) as Hblock.
  { intros o ad. unfold Block.Provision, Block.block_region. upholds_tac; auto using looks_wait with upholds. }
  unfold Core.Provision. simpl. upholds_tac; auto.
Qed.

Lemma looks_Delete volume : upholds (Core.Delete volume) R.
Proof. unfold Core.Delete. simpl. unfold Block.Delete. upholds_tac. Qed.

Lemma looks_save tries pv err : upholds (save_volume ctrl tries pv err) R.
Proof. revert err. induction tries as [|tries IH]; intros err; simpl; unfold CreatePV; upholds_tac; apply IH. Qed.

Lemma looks_clean tries pv err : upholds (clean_volume ctrl tries pv err) R.
Proof using All. apply upholds_clean_volume; [apply _|apply looks_Delete|intros; upholds_tac]. Qed.

Lemma operation_looks claim :
  getProvisionedVolumeNameForClaim claim ∈ names -> upholds (provisionClaimOperation ctrl claim) R.
Proof using All.
  intros Hname. unfold provisionClaimOperation, check_and_provision, provision_and_save, save_or_clean,
    getStorageClassFields, fetchReclaimPolicy, fetchMountOptions, GetPV.
  upholds_tac; auto using looks_save, looks_clean with upholds;
    apply looks_Provision.
Qed.
End LooksFor.

(** What an operation saves it has made. *)
Lemma saved_made l q pv :
  balance blank l = Some q -> pv ∈ saved_pvs l -> pv_Name pv ∈ created_ids l.
Proof.
  intros Hq%balance_accounts. unfold standing_accounts, accounts in Hq.
  destruct (lg_volume q) as [|i|i|i];
    [destruct Hq as (Hc & Hs & _)|destruct Hq as (Hc & Hs & _)|destruct Hq as (pv0 & Hn & Hc & Hs & _)
    |destruct Hq as (k & Hc & Hs & _)]; rewrite Hc, Hs; set_solver.
Qed.

Definition saves_made : trel (W := W) := fun _ _ l => (pv_Name <$> saved_pvs l) ⊆ created_ids l.

#[local] Instance saves_made_TraceRel : TraceRel saves_made.
Proof.
  unfold saves_made. split; [done|]. intros s1 s2 s3 l1 l2. rewrite saved_pvs_app, created_ids_app, fmap_app.
  set_solver.
Qed.

Context (Hretry : 0 < createProvisionedPVRetryCount ctrl).

Lemma operation_saves_made claim : upholds (provisionClaimOperation ctrl claim) saves_made.
Proof using All.
  intros s. eapply post_mono; [apply (operation_balance fuel block ctrl Hfuel claim s Hretry)|].
  intros o s' l (q & Hq & _). intros n (pv & -> & Hpv)%list_elem_of_fmap. by eapply saved_made.
Qed.

(** C10: the controller's check for the volume of a claim never finds one that it saved: an
    operation looks for a PV object under the name that it proposes, "pvc-" and the claim's
    UID, and core saves the volume under its OCID. In any sequence of operations on any
    claims, however they end, if the API server shows only objects that were there at first
    or were saved by the operations, by their names, and no object at first nor any new OCID
    has a name of that form, then no lookup is answered with an object: no operation is left
    out because an earlier one has saved a volume for its claim. *)
Theorem saved_volume_not_found claims (s : state W) (S : gset string) :
  post (mapM (provisionClaimOperation ctrl) claims) s (fun _ _ l =>
    shows_stored S l ->
    (forall claim, claim ∈ claims -> let name := getProvisionedVolumeNameForClaim claim in
       (name ∉ S) /\ (name ∉ created_ids l)) ->
    forall e name pv, e ∈ l -> ev_call e <> CGetPV name (Ok (Some pv))).
Proof using All.
  set (names := getProvisionedVolumeNameForClaim <$> claims).
  assert (forall cs, cs ⊆ claims -> upholds (mapM (provisionClaimOperation ctrl) cs) (only (looks_for names))
    /\ upholds (mapM (provisionClaimOperation ctrl) cs) saves_made) as Hall.
  { induction cs as [|c cs IH]; intros Hcs; [by split; apply upholds_ret, _|].
    destruct IH as [IH1 IH2]; [set_solver|]. split; simpl.
    - apply upholds_bind; [apply _| |intros; apply upholds_bind; [apply _|done|intros; upholds_tac]].
      apply operation_looks. apply list_elem_of_fmap. exists c. split; [done|]. apply Hcs. by left.
    - apply upholds_bind; [apply _|apply operation_saves_made|].
      intros r. apply upholds_bind; [apply _|done|intros; by apply upholds_ret, _]. }
  destruct (Hall claims ltac:(done)) as [Hlooks Hmade].
  eapply post_mono; [apply post_and; [apply Hlooks|apply Hmade]|].
  intros o s' l [Hl Hsaved] Hshow Hfresh e name pv He Hcall.
  assert (name ∈ names) as (claim & -> & Hclaim)%list_elem_of_fmap.
  { unfold only in Hl. rewrite Forall_forall in Hl. specialize (Hl e He). by rewrite Hcall in Hl. }
  destruct (Hfresh claim Hclaim) as [HS Hids]. destruct (Hshow e _ pv He Hcall) as [?|Hin]; [done|].
  by apply Hids, Hsaved.
Qed.
End Check.
