(* ===== verification/Logging.v ===== *)
(** * Logging: pkg/logging/logging.go

    [FieldsFromEnv] reads log fields from the environment; [Logger] builds a zap logger from
    the flags and a configuration that is made once per process.  A zap logger is modelled by
    its core (where it writes, how it encodes, from which level, with which fields) and the
    level of its stack traces; the options of zap.Config.Build are functions on it, applied in
    order. *)

From Stdlib Require Import Ascii.
From S2P Require Import Prelude GoStrings Config.

(** ** FieldsFromEnv *)

(** [zap.String(key, value)] *)
Record zapField : Set := { field_Key : string; field_String : string }.

Definition logfieldPrefix : string := "LOG_FIELD_".

Fixpoint FieldsFromEnv (env : list string) : list zapField :=
  match env with
  | [] => []
  | s :: env =>
      if negb (HasPrefix s logfieldPrefix)
         || (String.length s <? String.length logfieldPrefix + 1)%nat
      then FieldsFromEnv env
      else
        let s := sdrop (String.length logfieldPrefix) s in
        let parts := SplitN s "="%char 2 in
        match parts with
        | [k; v] => {| field_Key := k; field_String := v |} :: FieldsFromEnv env
        | _ => FieldsFromEnv env
        end
  end.

(** ** Logger *)

Inductive time_encoder : Set := EpochTimeEncoder | ISO8601TimeEncoder.
Inductive encoding : Set := console | json.
Inductive log_sink : Set := Stderr | LogFile (Filename : string).

Definition DebugLevel : Z := -1.
Definition InfoLevel : Z := 0.
Definition WarnLevel : Z := 1.
Definition ErrorLevel : Z := 2.
Definition DPanicLevel : Z := 3.
Definition PanicLevel : Z := 4.
Definition FatalLevel : Z := 5.

(** [Level.Set]: the name of a level. *)
Definition unmarshalText (text : string) : Datatypes.option Z :=
  if bool_decide (text ∈ ["debug"; "DEBUG"]) then Some DebugLevel
  else if bool_decide (text ∈ ["info"; "INFO"; ""]) then Some InfoLevel
  else if bool_decide (text ∈ ["warn"; "WARN"]) then Some WarnLevel
  else if bool_decide (text ∈ ["error"; "ERROR"]) then Some ErrorLevel
  else if bool_decide (text ∈ ["dpanic"; "DPANIC"]) then Some DPanicLevel
  else if bool_decide (text ∈ ["panic"; "PANIC"]) then Some PanicLevel
  else if bool_decide (text ∈ ["fatal"; "FATAL"]) then Some FatalLevel
  else None.

Definition UnmarshalText (text : string) : Datatypes.option Z :=
  match unmarshalText text with
  | Some l => Some l
  | None => unmarshalText (ToLower text)
  end.

(** The package variables that the package's flags set. *)
Record log_flags : Set := { lvl : Z; logJSON : bool; logfilePath : string }.
Definition default_log_flags : log_flags :=
  {| lvl := InfoLevel; logJSON := false; logfilePath := EmptyString |}.

(** zap.Config: the fields that matter here. *)
Record zapConfig : Set := {
  zc_Level : Z;
  zc_Development : bool;
  zc_Encoding : encoding;
  zc_EncodeTime : time_encoder;
  zc_Sampling : bool
}.

Definition NewProductionConfig : zapConfig :=
  {| zc_Level := InfoLevel; zc_Development := false; zc_Encoding := json;
     zc_EncodeTime := EpochTimeEncoder; zc_Sampling := true |}.
Definition NewDevelopmentConfig : zapConfig :=
  {| zc_Level := DebugLevel; zc_Development := true; zc_Encoding := console;
     zc_EncodeTime := ISO8601TimeEncoder; zc_Sampling := false |}.

Record core : Set := {
  co_sink : log_sink;
  co_encoding : encoding;
  co_time : time_encoder;
  co_level : Z;
  co_sampled : bool;
  co_fields : list zapField
}.

Record logger : Set := { log_core : core; log_stack : Z }.

Definition option : Set := logger -> logger.
Definition WrapCore (f : core -> core) : option := fun l =>
  {| log_core := f (log_core l); log_stack := log_stack l |}.
Definition AddStacktrace (lvl : Z) : option := fun l =>
  {| log_core := log_core l; log_stack := lvl |}.
Definition With (fields : list zapField) (c : core) : core :=
  {| co_sink := co_sink c; co_encoding := co_encoding c; co_time := co_time c;
     co_level := co_level c; co_sampled := co_sampled c; co_fields := co_fields c ++ fields |}.
Definition sampler (c : core) : core :=
  {| co_sink := co_sink c; co_encoding := co_encoding c; co_time := co_time c;
     co_level := co_level c; co_sampled := true; co_fields := co_fields c |}.

Definition apply_options (l : logger) (opts : list option) : logger :=
  foldl (fun l o => o l) l opts.

(** [zap.Config.Build] *)
Definition Build (cfg : zapConfig) (opts : list option) : logger :=
  let l := {| log_core := {| co_sink := Stderr; co_encoding := zc_Encoding cfg;
                             co_time := zc_EncodeTime cfg; co_level := zc_Level cfg;
                             co_sampled := false; co_fields := [] |};
              log_stack := if zc_Development cfg then WarnLevel else ErrorLevel |} in
  let l := if zc_Sampling cfg then WrapCore sampler l else l in
  apply_options l opts.

(** [Logger] with the values of the flags, the environment, and the package variable
    [config] before the call; the result has its value after. *)
Definition Logger (v : log_flags) (environ : list string)
    (config : Datatypes.option zapConfig) : logger * zapConfig :=
  let cfg := if negb (logJSON v) then NewDevelopmentConfig else NewProductionConfig in
  let envFields := FieldsFromEnv environ in
  let options := [AddStacktrace FatalLevel; WrapCore (With envFields)] in
  let options :=
    if (0 <? String.length (logfilePath v))%nat then
      let core := {| co_sink := LogFile (logfilePath v);
                     co_encoding := if logJSON v then json else console;
                     co_time := zc_EncodeTime cfg; co_level := lvl v;
                     co_sampled := false; co_fields := [] |} in
      options ++ [WrapCore (fun _ => core)]
    else options in
  let config :=
    match config with
    | Some c => c
    | None => {| zc_Level := lvl v; zc_Development := zc_Development cfg;
                 zc_Encoding := zc_Encoding cfg; zc_EncodeTime := ISO8601TimeEncoder;
                 zc_Sampling := zc_Sampling cfg |}
    end in
  (Build config options, config).

(** [Level] dereferences the package variable. *)
Definition Level (config : Datatypes.option zapConfig) : Datatypes.option Z := zc_Level <$> config.

(** ** Properties *)

Definition env_field (s : string) (f : zapField) : Prop :=
  s = logfieldPrefix +:+ field_Key f +:+ String "=" (field_String f) /\ Count (field_Key f) "=" = 0.

Lemma FieldsFromEnv_cons s env :
  FieldsFromEnv (s :: env) =
  if negb (HasPrefix s logfieldPrefix)
     || (String.length s <? String.length logfieldPrefix + 1)%nat
  then FieldsFromEnv env
  else match SplitN (sdrop (String.length logfieldPrefix) s) "="%char 2 with
       | [k; v] => {| field_Key := k; field_String := v |} :: FieldsFromEnv env
       | _ => FieldsFromEnv env
       end.
Proof. done. Qed.

Lemma env_field_step s env :
  (exists f, env_field s f /\ FieldsFromEnv (s :: env) = f :: FieldsFromEnv env)
  \/ ((forall f, ~ env_field s f) /\ FieldsFromEnv (s :: env) = FieldsFromEnv env).
Proof.
  rewrite FieldsFromEnv_cons. destruct (HasPrefix s logfieldPrefix) eqn:Hp; cbn [negb orb].
  - apply HasPrefix_spec in Hp as [r ->]. rewrite length_append, sdrop_app, SplitN_SS.
    assert ((String.length logfieldPrefix + String.length r <? String.length logfieldPrefix + 1)
            = (String.length r =? 0)) as -> by
      (destruct (Nat.ltb_spec (String.length logfieldPrefix + String.length r)
         (String.length logfieldPrefix + 1)), (Nat.eqb_spec (String.length r) 0); lia || done).
    destruct (cut r "=") as [[k v]|] eqn:Hc.
    + apply cut_Some in Hc as Hr. destruct Hr as [Hr Hk].
      assert ((String.length r =? 0) = false) as ->.
      { subst. apply Nat.eqb_neq. rewrite length_append. simpl. lia. }
      left. exists {| field_Key := k; field_String := v |}. split; [|done].
      split; [by subst|done].
    + right. split; [|by destruct (String.length r =? 0)].
      intros f [Hf _]. apply cut_None in Hc. apply (f_equal (sdrop (String.length logfieldPrefix))) in Hf.
      rewrite !sdrop_app in Hf. subst. rewrite Count_app in Hc. simpl in Hc. lia.
  - right. split; [|done]. intros f [-> _].
    assert (HasPrefix (logfieldPrefix +:+ (field_Key f +:+ String "=" (field_String f))) logfieldPrefix = true)
      as Ht by (apply HasPrefix_spec; eauto). congruence.
Qed.

(** [FieldsFromEnv] extracts exactly the entries LOG_FIELD_name=value, in their order:
    the name ends at the first equals sign, the value may contain more of them or be empty,
    and every other entry is ignored. *)
Theorem FieldsFromEnv_spec (env : list string) :
  (forall f, f ∈ FieldsFromEnv env <-> Exists (fun s => env_field s f) env)
  /\ (forall env1 env2, env = env1 ++ env2 ->
        FieldsFromEnv env = FieldsFromEnv env1 ++ FieldsFromEnv env2).
Proof.
  split.
  - intros f. induction env as [|s env IH]; [rewrite Exists_nil; split; [by intros ?%elem_of_nil|done]|].
    rewrite Exists_cons. destruct (env_field_step s env) as [(g & Hg & ->)|[Hno ->]].
    + rewrite elem_of_cons, IH. split; [intros [->|?]; auto|]. intros [Hf|?]; [left|by right].
      destruct Hf as [Hs Hk], Hg as [Hs' Hk']. rewrite Hs in Hs'.
      apply (f_equal (sdrop (String.length logfieldPrefix))) in Hs'. rewrite !sdrop_app in Hs'.
      apply (f_equal (fun x => cut x "=")) in Hs'. rewrite !cut_app in Hs' by done.
      destruct f, g; simpl in *. by simplify_eq.
    + rewrite IH. split; [by right|]. intros [Hf|?]; [by destruct (Hno f)|done].
  - intros env1 env2 ->. induction env1 as [|s env1 IH]; [done|].
    change ((s :: env1) ++ env2) with (s :: (env1 ++ env2)).
    destruct (env_field_step s (env1 ++ env2)) as [(g & Hg & ->)|[Hno ->]];
      destruct (env_field_step s env1) as [(g' & Hg' & ->)|[Hno' ->]]; rewrite IH; try done.
    + destruct Hg as [Hs Hk], Hg' as [Hs' Hk']. rewrite Hs in Hs'.
      apply (f_equal (sdrop (String.length logfieldPrefix))) in Hs'. rewrite !sdrop_app in Hs'.
      apply (f_equal (fun x => cut x "=")) in Hs'. rewrite !cut_app in Hs' by done.
      destruct g, g'; simpl in *. by simplify_eq.
    + by destruct (Hno' g).
    + by destruct (Hno g').
Qed.

(** C40: what a logger carries: stack traces only for fatal messages in every case; without
    a log file it writes to standard error with exactly the fields of the environment; with
    a log file it writes to that file, but the core that carries the fields is replaced, so
    the fields of the environment are lost; and the level of the process-wide configuration
    is fixed by the first call. *)
Theorem Logger_spec v environ config :
  let '(l, config') := Logger v environ config in
  log_stack l = FatalLevel
  /\ (logfilePath v = EmptyString ->
        co_sink (log_core l) = Stderr /\ co_fields (log_core l) = FieldsFromEnv environ
        /\ co_level (log_core l) = zc_Level config')
  /\ (logfilePath v <> EmptyString ->
        co_sink (log_core l) = LogFile (logfilePath v) /\ co_fields (log_core l) = []
        /\ co_level (log_core l) = lvl v)
  /\ zc_Level config' = default (lvl v) (Level config)
  /\ snd (Logger v environ (Some config')) = config'.
Proof.
  unfold Logger. destruct v as [level js path]. cbn [lvl logJSON logfilePath].
  destruct (Nat.ltb_spec 0 (String.length path)) as [Hl|Hl].
  - split; [done|]. split; [intros ->; simpl in Hl; lia|]. split; [done|]. by destruct config.
  - assert (path = EmptyString) as ->
      by (destruct path; [done|simpl in Hl; lia]).
    split; [done|]. split; [|split; [done|by destruct config]]. intros _.
    unfold Build, apply_options. simpl. by destruct (zc_Sampling _).
Qed.
