(* ===== verification/Flags.v ===== *)
(** * The command line: the flags of the program and package flag

    cmd/main.go declares four flags and pkg/logging three; [main] calls [flag.Parse].
    [Parse] is that function of the standard library, over those flags and the ones that
    other linked packages declare on the same command line; [Parse_grammar] shows that what
    it accepts is a small grammar. *)

From Stdlib Require Import Ascii.
From S2P Require Import Prelude GoStrings.
From S2P Require Logging.

(** ** The flags *)

Record flags : Type := {
  flag_kubeconfig : string;
  flag_rounding_enabled : bool;
  flag_min_volume_size : string;
  flag_master : string;
  flag_logging : Logging.log_flags
}.

Definition default_flags : flags :=
  {| flag_kubeconfig := EmptyString; flag_rounding_enabled := true;
     flag_min_volume_size := "50Gi"; flag_master := EmptyString;
     flag_logging := Logging.default_log_flags |}.

Inductive flag_name : Set :=
| Kubeconfig | RoundingEnabled | MinVolumeSize | Master | LogLevel | LogJSON | LogfilePath.

#[export] Instance flag_name_eq_dec : EqDecision flag_name.
Proof. solve_decision. Defined.

Definition flag_string (n : flag_name) : string :=
  match n with
  | Kubeconfig => "kubeconfig"
  | RoundingEnabled => "rounding-enabled"
  | MinVolumeSize => "min-volume-size"
  | Master => "master"
  | LogLevel => "log-level"
  | LogJSON => "log-json"
  | LogfilePath => "logfile-path"
  end.

Definition own_flag (name : string) : option flag_name :=
  first_such (fun n => String.eqb (flag_string n) name)
    [Kubeconfig; RoundingEnabled; MinVolumeSize; Master; LogLevel; LogJSON; LogfilePath].

(** The flags made with [flag.Bool] and [flag.BoolVar]. *)
Definition is_switch (n : flag_name) : bool :=
  match n with RoundingEnabled | LogJSON => true | _ => false end.

Definition set_logging (f : flags) (v : Logging.log_flags) : flags :=
  {| flag_kubeconfig := flag_kubeconfig f; flag_rounding_enabled := flag_rounding_enabled f;
     flag_min_volume_size := flag_min_volume_size f; flag_master := flag_master f;
     flag_logging := v |}.

(** [Value.Set] of a flag; a string is always accepted. *)
Definition set_flag (n : flag_name) (value : string) (f : flags) : option flags :=
  let v := flag_logging f in
  match n with
  | Kubeconfig => Some {| flag_kubeconfig := value; flag_rounding_enabled := flag_rounding_enabled f;
      flag_min_volume_size := flag_min_volume_size f; flag_master := flag_master f;
      flag_logging := v |}
  | RoundingEnabled =>
      b ← ParseBool value;
      Some {| flag_kubeconfig := flag_kubeconfig f; flag_rounding_enabled := b;
        flag_min_volume_size := flag_min_volume_size f; flag_master := flag_master f;
        flag_logging := v |}
  | MinVolumeSize => Some {| flag_kubeconfig := flag_kubeconfig f;
      flag_rounding_enabled := flag_rounding_enabled f; flag_min_volume_size := value;
      flag_master := flag_master f; flag_logging := v |}
  | Master => Some {| flag_kubeconfig := flag_kubeconfig f;
      flag_rounding_enabled := flag_rounding_enabled f;
      flag_min_volume_size := flag_min_volume_size f; flag_master := value; flag_logging := v |}
  | LogLevel =>
      l ← Logging.UnmarshalText value;
      Some (set_logging f {| Logging.lvl := l; Logging.logJSON := Logging.logJSON v;
                             Logging.logfilePath := Logging.logfilePath v |})
  | LogJSON =>
      b ← ParseBool value;
      Some (set_logging f {| Logging.lvl := Logging.lvl v; Logging.logJSON := b;
                             Logging.logfilePath := Logging.logfilePath v |})
  | LogfilePath =>
      Some (set_logging f {| Logging.lvl := Logging.lvl v; Logging.logJSON := Logging.logJSON v;
                             Logging.logfilePath := value |})
  end.

(** The flags that linked packages declare: whether one is a switch, and the values that it
    accepts.  Declaring a name twice panics before [main], so none has one of the names
    above. *)
Class OtherFlags := { other_flag : string -> option (bool * (string -> bool)) }.

(** ** Package flag *)

(** What the first argument is. *)
Inductive word : Type :=
| Positional
| Terminator
| BadWord
| FlagWord (name : string) (value : option string).

Definition flag_body (name : string) : word :=
  match name with
  | EmptyString => BadWord
  | String c _ =>
      if Ascii.eqb c "-" || Ascii.eqb c "=" then BadWord
      else match cut name "=" with
           | Some (name, value) => FlagWord name (Some value)
           | None => FlagWord name None
           end
  end.

Definition flag_word (s : string) : word :=
  match s with
  | String a (String b r) =>
      if Ascii.eqb a "-" then
        if Ascii.eqb b "-" then if is_empty r then Terminator else flag_body r
        else flag_body (String b r)
      else Positional
  | _ => Positional
  end.

Inductive usage_error : Type :=
| BadSyntax (s : string)
| HelpRequested
| NotDefined (name : string)
| NeedsArgument (name : string)
| InvalidValue (name value : string).

Inductive parse_result : Type :=
| Parsed (f : flags) (args : list string)
| Usage (e : usage_error).

Section Parse.
Context `{OtherFlags}.

(** The table of the declared flags: switch or not, and its [Set]. *)
Definition formal (name : string) : option (bool * (string -> flags -> option flags)) :=
  match own_flag name with
  | Some n => Some (is_switch n, set_flag n)
  | None =>
      match other_flag name with
      | Some (switch, accepts) => Some (switch, fun v f => if accepts v then Some f else None)
      | None => None
      end
  end.

(** [parseOne] until it reports that no flag is left. *)
Fixpoint Parse (f : flags) (args : list string) : parse_result :=
  match args with
  | [] => Parsed f []
  | s :: args' =>
      match flag_word s with
      | Positional => Parsed f args
      | Terminator => Parsed f args'
      | BadWord => Usage (BadSyntax s)
      | FlagWord name value =>
          match formal name with
          | None =>
              if String.eqb name "help" || String.eqb name "h" then Usage HelpRequested
              else Usage (NotDefined name)
          | Some (true, set) =>
              let v := default "true" value in
              match set v f with Some f => Parse f args' | None => Usage (InvalidValue name v) end
          | Some (false, set) =>
              match value with
              | Some v =>
                  match set v f with Some f => Parse f args' | None => Usage (InvalidValue name v) end
              | None =>
                  match args' with
                  | [] => Usage (NeedsArgument name)
                  | v :: args'' =>
                      match set v f with
                      | Some f => Parse f args''
                      | None => Usage (InvalidValue name v)
                      end
                  end
              end
          end
      end
  end.
End Parse.

(** ** The grammar of a command line *)

Definition dash (two : bool) : string := if two then "--" else "-".

Definition well_named (name : string) : Prop :=
  Count name "=" = 0%nat /\
  match name with EmptyString => False | String c _ => c <> "-"%char end.

(** The words that give a flag a value: [-name=value]; [-name value], unless it is a switch;
    and [-name] for a switch, which makes it true.  One dash or two. *)
Inductive writes (switch : bool) (name value : string) : list string -> Prop :=
| writes_joined two : writes switch name value [dash two +:+ name +:+ String "=" value]
| writes_separate two : switch = false -> writes switch name value [dash two +:+ name; value]
| writes_alone two : switch = true -> value = "true" -> writes switch name value [dash two +:+ name].

Section Grammar.
Context `{OtherFlags}.

(** [line f args f' rest]: the settings in [args] turn [f] into [f'] and [rest] is left. *)
Inductive line : flags -> list string -> flags -> list string -> Prop :=
| line_setting switch set name value ws f f1 args f' rest :
    well_named name -> formal name = Some (switch, set) -> writes switch name value ws ->
    set value f = Some f1 -> line f1 args f' rest -> line f (ws ++ args) f' rest
| line_end f : line f [] f []
| line_terminator f rest : line f ("--" :: rest) f rest
| line_positional s f rest :
    (String.length s < 2)%nat \/ (forall r, s <> String "-" r) -> line f (s :: rest) f (s :: rest).

Lemma flag_body_named name : well_named name -> flag_body name = FlagWord name None.
Proof.
  intros [Hc Hd]. destruct name as [|c n]; [done|]. unfold flag_body.
  rewrite (proj2 (cut_None _ _) Hc). simpl in Hc.
  destruct (Ascii.eqb_spec c "-"), (Ascii.eqb_spec c "="); done.
Qed.

Lemma flag_body_joined name v :
  well_named name -> flag_body (name +:+ String "=" v) = FlagWord name (Some v).
Proof.
  intros [Hc Hd]. destruct name as [|c n]; [done|]. rewrite append_cons. unfold flag_body.
  rewrite <- append_cons, cut_app by done. simpl in Hc.
  destruct (Ascii.eqb_spec c "-"), (Ascii.eqb_spec c "="); done.
Qed.

Lemma flag_body_inv s name value :
  flag_body s = FlagWord name value ->
  well_named name
  /\ s = match value with Some v => name +:+ String "=" v | None => name end.
Proof.
  unfold flag_body, well_named. destruct s as [|c s]; [done|].
  destruct (Ascii.eqb_spec c "-"), (Ascii.eqb_spec c "="); try done. simpl orb. cbn iota.
  destruct (cut _ _) as [[x y]|] eqn:Hcut; intros [= <- <-].
  - apply cut_Some in Hcut as [Heq Hx]. split; [|done]. split; [done|].
    destruct x as [|c' x]; injection Heq as -> _; done.
  - apply cut_None in Hcut. done.
Qed.

Lemma flag_word_dash two name :
  match name with EmptyString => False | String c _ => c <> "-"%char end ->
  flag_word (dash two +:+ name) = flag_body name.
Proof.
  destruct name as [|c n]; [done|]. intros Hc. destruct two; simpl; [done|].
  by destruct (Ascii.eqb_spec c "-").
Qed.

Lemma flag_word_inv s name value :
  flag_word s = FlagWord name value ->
  well_named name
  /\ exists two, s = dash two +:+ match value with Some v => name +:+ String "=" v | None => name end.
Proof.
  destruct s as [|a [|b r]]; [done|done|]. cbn [flag_word].
  destruct (Ascii.eqb_spec a "-") as [->|]; [|done].
  destruct (Ascii.eqb_spec b "-") as [->|].
  - destruct (is_empty r); [done|]. intros [Hn ->]%flag_body_inv. split; [done|]. by exists true.
  - intros [Hn Hr]%flag_body_inv. rewrite Hr. split; [done|]. by exists false.
Qed.

Lemma flag_word_Terminator s : flag_word s = Terminator -> s = "--".
Proof.
  assert (forall n, flag_body n <> Terminator) as Hb.
  { intros [|c n]; [done|]. simpl. repeat case_match; done. }
  destruct s as [|a [|b r]]; [done|done|]. cbn [flag_word].
  destruct (Ascii.eqb_spec a "-") as [->|]; [|done].
  destruct (Ascii.eqb_spec b "-") as [->|]; [|by intros ?%Hb].
  destruct (is_empty r) eqn:Hr; [|by intros ?%Hb]. by apply String.eqb_eq in Hr as ->.
Qed.

Lemma flag_word_Positional s :
  flag_word s = Positional <-> (String.length s < 2)%nat \/ (forall r, s <> String "-" r).
Proof.
  assert (forall n, flag_body n <> Positional) as Hb.
  { intros [|c n]; [done|]. simpl. repeat case_match; done. }
  destruct s as [|a [|b r]]; [split; [|done]; left; simpl; lia..|]. cbn [flag_word].
  destruct (Ascii.eqb_spec a "-") as [->|Ha].
  - split; [|intros [Hl|Hr]; [simpl in Hl; lia|by destruct (Hr (String b r))]].
    destruct (Ascii.eqb_spec b "-"); [|by intros ?%Hb]. destruct (is_empty r); [done|by intros ?%Hb].
  - split; [|done]. intros _. right. intros r' [= -> _]. done.
Qed.

Lemma Parse_setting switch set name value ws f f1 args :
  well_named name -> formal name = Some (switch, set) -> writes switch name value ws ->
  set value f = Some f1 -> Parse f (ws ++ args) = Parse f1 args.
Proof.
  intros Hname Hformal Hw Hset.
  assert (forall two, flag_word (dash two +:+ name) = FlagWord name None) as Halone.
  { intros two. rewrite flag_word_dash by apply Hname. by apply flag_body_named. }
  destruct Hw as [two|two ->|two -> ->]; simpl.
  - rewrite flag_word_dash by (destruct Hname, name; done).
    rewrite flag_body_joined, Hformal by done. destruct switch; simpl; by rewrite Hset.
  - rewrite Halone, Hformal. by rewrite Hset.
  - rewrite Halone, Hformal. simpl. by rewrite Hset.
Qed.

Lemma Parse_line f args f' rest : line f args f' rest -> Parse f args = Parsed f' rest.
Proof.
  induction 1 as [switch set name value ws f f1 args f' rest Hn Hf Hw Hset _ IH|f|f rest|s f rest Hs].
  - by rewrite (Parse_setting _ _ _ _ _ _ _ _ Hn Hf Hw Hset).
  - done.
  - done.
  - simpl. by rewrite (proj2 (flag_word_Positional s) Hs).
Qed.

Lemma line_Parse n f args f' rest :
  (length args <= n)%nat -> Parse f args = Parsed f' rest -> line f args f' rest.
Proof.
  revert f args. induction n as [|n IH]; intros f [|s args]; simpl; try lia;
    try (intros _ [= <- <-]; constructor).
  intros Hlen. destruct (flag_word s) as [| | |name value] eqn:Hs; try done.
  - intros [= <- <-]. by apply line_positional, flag_word_Positional.
  - apply flag_word_Terminator in Hs as ->. intros [= <- <-]. constructor.
  - apply flag_word_inv in Hs as [Hname [two ->]].
    destruct (formal name) as [[switch set]|] eqn:Hf; [|by destruct (_ || _)].
    assert (forall ws v args', writes switch name v ws -> (length args' <= n)%nat ->
      match set v f with Some f1 => Parse f1 args' | None => Usage (InvalidValue name v) end = Parsed f' rest ->
      line f (ws ++ args') f' rest) as Hstep.
    { intros ws v args' Hw Hargs. destruct (set v f) as [f1|] eqn:Hset; [|done].
      intros HP. eapply line_setting; eauto. }
    destruct switch, value as [v|]; simpl.
    + apply (Hstep [_]); [constructor|lia].
    + apply (Hstep [_]); [by constructor|lia].
    + apply (Hstep [_]); [constructor|lia].
    + destruct args as [|v args]; [done|]. simpl in Hlen. apply (Hstep [_; _]); [by constructor|lia].
Qed.

(** [flag.Parse] accepts exactly the command lines of the grammar, and sets what they
    say: a sequence of settings, each of a declared flag, with one dash or two, its value
    joined by an equals sign or, unless the flag is a switch, in the next word, and accepted
    by the flag; then the end, the word "--", or a first word that is no flag, after which
    nothing is a setting any more.  Later settings of a flag replace earlier ones. *)
Theorem Parse_grammar f args f' rest :
  Parse f args = Parsed f' rest <-> line f args f' rest.
Proof. split; [by apply (line_Parse (length args))|apply Parse_line]. Qed.

(** A command line that says all the settings, with the name of the level. *)
Definition switch_word (n : flag_name) (b : bool) : string :=
  "-" +:+ flag_string n +:+ (if b then EmptyString else "=false").

Definition command_line (f : flags) (level : string) : list string :=
  ["-kubeconfig"; flag_kubeconfig f; "--master=" +:+ flag_master f;
   switch_word RoundingEnabled (flag_rounding_enabled f);
   "-min-volume-size"; flag_min_volume_size f;
   "-log-level"; level; switch_word LogJSON (Logging.logJSON (flag_logging f));
   "-logfile-path"; Logging.logfilePath (flag_logging f)].

(** Every value of the flags can be written, whatever the strings in it. *)
Lemma Parse_command_line f f0 level rest :
  Logging.UnmarshalText level = Some (Logging.lvl (flag_logging f)) ->
  Parse f0 (command_line f level ++ "--" :: rest) = Parsed f rest.
Proof.
  intros Hl. destruct f as [k r m a [l j p]]. simpl in Hl. unfold command_line.
  destruct r, j; simpl; by rewrite Hl.
Qed.

(** A switch takes no second word: the text after it ends the flags, and what follows is not
    read either. *)
Theorem switch_takes_no_word f v rest :
  (forall r, v <> String "-" r) ->
  exists f', Parse f ("-rounding-enabled" :: v :: rest) = Parsed f' (v :: rest)
    /\ flag_rounding_enabled f' = true.
Proof.
  intros Hv. simpl. rewrite (proj2 (flag_word_Positional v) (or_intror Hv)). by eexists.
Qed.
End Grammar.
