(* ===== verification/Startup.v ===== *)
(** * Starting the provisioner: [core.NewOCIProvisioner] and cmd/main.go

    What a provisioner that was constructed is like, and the sequence of [main]: every
    failure before the controller runs ends the process. *)

From S2P Require Import Prelude GoStrings Errors Version Quantity Parse Objects Config Effects Logic Wait Plugin InstanceMeta Client Core Controller Flags.
From S2P Require Block Fss Logging.

Open Scope Z_scope.

Section NewProperties.
Context {W : Type} `{Backend W} `{GoLib} `{SDK W}.

(** The configuration file was found, read, decoded and valid. *)
Definition configured (cfg : Config) : Prop :=
  exists path text c,
    os_Open path = Ok (Ok text) /\ yaml_Unmarshal text empty_Config = Ok (Some c)
    /\ (LookupEnv (W := W) "CONFIG_YAML_FILENAME" = Some path
        \/ LookupEnv (W := W) "CONFIG_YAML_FILENAME" = None /\ path = "/etc/oci/config.yaml")
    /\ cfg = Complete c /\ Validate cfg = None.

Definition plugin_for (provisionerType : string) (rounding : bool) (minSize : Quantity)
    (k : plugin_kind) : Prop :=
  match k with
  | PBlock b =>
      (provisionerType = "oracle.com/oci" \/ provisionerType = "oracle.com/oci-block")
      /\ b = {| Block.bp_volumeRoundingEnabled := rounding; Block.bp_minVolumeSize := minSize;
                Block.bp_timeout := 3 * Minute |}
  | PFss f =>
      provisionerType = "oracle.com/oci-fss"
      /\ forall r, LookupEnv (W := W) "OCI_SHORT_REGION" = Some r -> Fss.fsp_region f = r
  end.

Definition made (provisionerType : string) (rounding : bool) (minSize : Quantity)
    (o : outcome (result OCIProvisioner)) : Prop :=
  forall p, o = Val (Ok p) ->
    pc_timeout (oci_client p) = 180000000000 /\ plugin_for provisionerType rounding minSize (oci_provisioner p).

Lemma post_new_provisioner client ty rounding minSize region (s : state W) :
  pc_timeout client = 180000000000 ->
  (forall r, LookupEnv (W := W) "OCI_SHORT_REGION" = Some r -> region = r) ->
  post (new_provisioner client ty rounding minSize region) s (fun o _ _ =>
    made ty rounding minSize o).
Proof.
  intros Ht Hregion. unfold new_provisioner, Block.NewBlockProvisioner,
    Fss.NewFilesystemProvisioner, made.
  destruct (String.eqb_spec ty ProvisionerNameDefault);
    [|destruct (String.eqb_spec ty ProvisionerNameBlock);
      [|destruct (String.eqb_spec ty ProvisionerNameFss); [|by go]]];
    go; apply post_CompartmentOCID; intros [?|?|?|] cc _; go; try done;
    intros p [= <-]; simpl; auto.
Qed.

Lemma post_NewOCIProvisioner ty rounding minSize (s : state W) :
  post (NewOCIProvisioner ty rounding minSize) s (fun o _ _ =>
    made ty rounding minSize o /\ (forall p, o = Val (Ok p) -> exists cfg, configured cfg)).
Proof.
  unfold NewOCIProvisioner. set (path := match LookupEnv _ with Some p => p | None => _ end).
  assert (LookupEnv (W := W) "CONFIG_YAML_FILENAME" = Some path
        \/ LookupEnv (W := W) "CONFIG_YAML_FILENAME" = None /\ path = "/etc/oci/config.yaml") as Hpath.
  { unfold path. destruct (LookupEnv "CONFIG_YAML_FILENAME"); auto. }
  destruct (os_Open path) as [[text|]|] eqn:Hopen; [| |by go].
  2: { unfold LoadConfig. by go. }
  unfold LoadConfig. destruct (yaml_Unmarshal text empty_Config) as [[c|]|] eqn:Hyaml; [|by go..].
  go. eapply post_mono; [apply FromConfig_made|].
  intros [[client|e]|p|n|] s1 l1 [_ Hclient]; go; try done.
  destruct (Hclient client eq_refl) as (Hvalid & Htimeout & _).
  assert (configured (Complete c)) as Hconf by (exists path, text, c; auto 6).
  destruct (LookupEnv "OCI_SHORT_REGION") as [r|] eqn:Hr; go.
  - eapply post_mono; [apply post_new_provisioner; [done|]; intros; congruence|]. eauto.
  - eapply post_mono; [apply post_Get|]. intros o s2 l2 _.
    destruct o as [[md|e]|p|n|]; go; try done.
    eapply post_mono; [apply post_new_provisioner; [done|]; intros; congruence|]. eauto.
Qed.

(** C35: a provisioner that [NewOCIProvisioner] returns was configured by a file that was
    found, decoded and valid, has the plugin of its type name ("oracle.com/oci" and
    "oracle.com/oci-block" the block plugin with the given rounding switch and minimum,
    "oracle.com/oci-fss" the file-storage plugin, and no other name gives any), and its
    block plugin waits exactly as long as the client's own timeout, three minutes, for which
    37 rounds of the poll suffice. *)
Theorem NewOCIProvisioner_spec ty rounding minSize (s : state W) :
  post (NewOCIProvisioner ty rounding minSize) s (fun o _ _ => forall p, o = Val (Ok p) ->
    (exists cfg, configured cfg)
    /\ pc_timeout (oci_client p) = 180000000000
    /\ match oci_provisioner p with
       | PBlock b =>
           (ty = "oracle.com/oci" \/ ty = "oracle.com/oci-block")
           /\ Block.bp_volumeRoundingEnabled b = rounding /\ Block.bp_minVolumeSize b = minSize
           /\ Block.bp_timeout b = pc_timeout (oci_client p)
           /\ enough_fuel 37 (5 * Second) (Block.bp_timeout b)
       | PFss f =>
           ty = "oracle.com/oci-fss"
           /\ forall r, LookupEnv (W := W) "OCI_SHORT_REGION" = Some r -> Fss.fsp_region f = r
       end).
Proof.
  eapply post_mono; [apply post_NewOCIProvisioner|]. intros o s' l [Hmade Hconf] p ->.
  destruct (Hmade p eq_refl) as [Ht Hk]. split; [by eapply Hconf|]. split; [done|].
  unfold plugin_for in Hk. destruct (oci_provisioner p) as [b|f]; [|done].
  destruct Hk as [Hty ->]. simpl. rewrite Ht. do 3 (split; [done|]). split; [done|].
  by vm_compute.
Qed.
End NewProperties.

(** ** main *)

(** The Kubernetes side of the process: client-go, and what the controller library starts. *)
Class Kube (W : Type) := {
  kube_BuildConfigFromFlags : string -> string -> option error;
  kube_NewForConfig : option error;
  kube_ServerVersion : M W (result string);
  kube_NewSharedInformerFactory : Z -> M W unit;
  kube_WaitForCacheSync : M W bool;
  kube_Run : ProvisionController -> OCIProvisioner -> M W unit
}.

(** [float64] rounding of a positive integer, to nearest and ties to even: to 53 bits. *)
Definition round_half_even (n d : Z) : Z :=
  let q := n / d in
  let r := n mod d in
  if 2 * r <? d then q
  else if d <? 2 * r then q + 1
  else if Z.even q then q else q + 1.

Definition round53 (n : Z) : Z :=
  let e := Z.log2 n - 52 in
  if e <=? 0 then n else round_half_even n (2 ^ e) * 2 ^ e.

Definition minResyncPeriod : Z := 12 * 3600 * Second.

(** [rand.Float64] divides a draw of 63 bits by 2^63; the factor and the product are in
    units of 2^-63. *)
Definition informerResyncPeriod (minResyncPeriod draw : Z) : Z :=
  let factor := round53 (round53 draw + 2 ^ 63) in
  round53 (minResyncPeriod * factor) / 2 ^ 63.

Section Main.
Context {W : Type} `{Backend W} `{GoLib} `{SDK W} `{Kube W} `{OtherFlags}.

(** The logger is built first, from the package variables as they are then; the flags are
    parsed after that. *)
Definition main_prologue (environ args : list string) : Logging.logger * parse_result :=
  let '(log, _) := Logging.Logger (flag_logging default_flags) environ None in
  (log, Parse default_flags args).

(** From the parsed flags on.  The signal handler, which is set up before and cannot fail, is
    the subject of Signals.v.  [rand_Int63] is the draw of the runtime's random numbers; what
    the controller does once it runs is in Controller.v and Queue.v. *)
Definition start (rand_Int63 : Op W Z) (f : flags) : M W unit :=
  match kube_BuildConfigFromFlags (flag_master f) (flag_kubeconfig f) with
  | Some _ => fatal
  | None =>
  match kube_NewForConfig with
  | Some _ => fatal
  | None =>
      let* serverVersion := kube_ServerVersion in
      match serverVersion with
      | Err _ => fatal
      | Ok serverVersion =>
          let nodeName := Getenv (W := W) "NODE_NAME" in
          if is_empty nodeName then fatal
          else
          let provisionerType := Getenv (W := W) "PROVISIONER_TYPE" in
          let provisionerType :=
            if is_empty provisionerType then ProvisionerNameDefault else provisionerType in
          let* draw := silent rand_Int63 in
          let* _ := kube_NewSharedInformerFactory (informerResyncPeriod minResyncPeriod draw) in
          match ParseQuantity (flag_min_volume_size f) with
          | Err _ => fatal
          | Ok volumeSizeLowerBound =>
              let* ociProvisioner :=
                NewOCIProvisioner provisionerType (flag_rounding_enabled f) volumeSizeLowerBound in
              match ociProvisioner with
              | Err _ => fatal
              | Ok ociProvisioner =>
                  let* pc := NewProvisionController provisionerType serverVersion main_options in
                  let* ready := Ready kube_WaitForCacheSync in
                  match ready with
                  | Err _ => fatal
                  | Ok _ => kube_Run pc ociProvisioner
                  end
              end
          end
      end
  end
  end.

Definition os_Exit {A} (code : Z) : M W A := fun s => (Exited code, s, []).

(** [flag.Parse] ends the process with status 2 when it cannot parse the arguments (or, in
    the Go of the time, when it was asked for help); the words that are left are not read,
    and the logger only takes messages. *)
Definition main (rand_Int63 : Op W Z) (environ args : list string) : M W unit :=
  let '(_, parsed) := main_prologue environ args in
  match parsed with
  | Usage _ => os_Exit 2
  | Parsed f _ => start rand_Int63 f
  end.

(** C38: the flags of pkg/logging change nothing. Whatever values the command line gives to
    the flags, and it can give any, the flags are parsed and set, but the logger of the
    process, which was built before, writes to standard error, in the console format, from
    the level "info" on, with the fields of the environment. *)
Theorem log_flags_ignored environ f level rest :
  Logging.UnmarshalText level = Some (Logging.lvl (flag_logging f)) ->
  let '(log, parsed) := main_prologue environ (command_line f level ++ "--" :: rest) in
  parsed = Parsed f rest
  /\ Logging.log_core log =
       {| Logging.co_sink := Logging.Stderr; Logging.co_encoding := Logging.console;
          Logging.co_time := Logging.ISO8601TimeEncoder; Logging.co_level := Logging.InfoLevel;
          Logging.co_sampled := false; Logging.co_fields := Logging.FieldsFromEnv environ |}
  /\ Logging.log_stack log = Logging.FatalLevel.
Proof. intros Hl. unfold main_prologue. by rewrite (Parse_command_line _ _ _ _ Hl). Qed.

(** The controller ran: with this object and this provisioner, from this state. *)
Definition ran (f : flags) (pc : ProvisionController) (p : OCIProvisioner) (s1 : state W) : Prop :=
  exists q ty version v,
    kube_BuildConfigFromFlags (flag_master f) (flag_kubeconfig f) = None
    /\ kube_NewForConfig = None
    /\ Getenv (W := W) "NODE_NAME" <> EmptyString
    /\ ty = (if is_empty (Getenv (W := W) "PROVISIONER_TYPE") then "oracle.com/oci"
             else Getenv (W := W) "PROVISIONER_TYPE")
    /\ ParseQuantity (flag_min_volume_size f) = Ok q
    /\ plugin_for (W := W) ty (flag_rounding_enabled f) q (oci_provisioner p)
    /\ (exists s0 s0' l0, kube_ServerVersion s0 = (Val (Ok version), s0', l0))
    /\ ParseSemantic version = Ok v /\ pc = main_controller ty v
    /\ exists s0 l0, kube_WaitForCacheSync s0 = (Val true, s1, l0).

(** C37: [main] returns normally only after the controller ran, and the controller runs only
    after every step of the start-up succeeded: the command line was one of the grammar of
    Flags.v and set the flags, the Kubernetes clients were made, the node name is set, the
    minimum size was a quantity, the provisioner of the type in PROVISIONER_TYPE (by default
    the block provisioner) was constructed with the flags, the API server's version was a
    semantic version, for which the controller was made with the options of the program, and
    the node cache was synced. *)
Theorem main_runs rand_Int63 (environ args : list string) (s : state W) :
  post (main rand_Int63 environ args) s (fun o s' _ => forall u, o = Val u ->
    exists f rest pc p s1 l1,
      line default_flags args f rest /\ ran f pc p s1 /\ kube_Run pc p s1 = (Val u, s', l1)).
Proof.
  unfold main, main_prologue. simpl. destruct (Parse default_flags args) as [f rest|e] eqn:Hflags; [|done].
  apply (line_Parse (length args)) in Hflags; [|done].
  apply post_of_run. intros o s' l Hrun u ->. unfold start in Hrun.
  destruct (kube_BuildConfigFromFlags _ _) eqn:Hb; [done|].
  destruct kube_NewForConfig eqn:Hn; [done|].
  apply bind_Val in Hrun as ([version|e] & s1 & l1 & l2 & Hv & Hrun & _); [|done].
  destruct (is_empty (Getenv "NODE_NAME")) eqn:Hnode; [done|].
  apply bind_Val in Hrun as (draw & s1' & l1' & l2' & _ & Hrun & _).
  apply bind_Val in Hrun as ([] & s1'' & l1'' & l2'' & _ & Hrun & _).
  destruct (ParseQuantity _) as [q|] eqn:Hq; [|done].
  apply bind_Val in Hrun as ([p|e] & s2 & l3 & l4 & Hnew & Hrun & _); [|done].
  apply bind_Val in Hrun as (pc & s3 & l5 & l6 & Hpc & Hrun & _).
  unfold NewProvisionController, MustParseSemantic in Hpc.
  destruct (ParseSemantic version) as [v|] eqn:Hsem; [|done]. injection Hpc as <- <- <-.
  apply bind_Val in Hrun as (ready & s4 & l7 & l8 & Hready & Hrun & _).
  unfold Ready in Hready. apply bind_Val in Hready as (b & s5 & l9 & l10 & Hsync & Hready & _).
  destruct b; simpl in Hready; injection Hready as <- <- <-; [|done].
  exists f, rest. do 4 eexists. split; [done|]. split; [|exact Hrun]. exists q. do 3 eexists. repeat (split; [done|]).
  split; [intros Hempty; by rewrite Hempty in Hnode|]. split; [done|]. split; [done|].
  split; [|repeat split; by eauto].
  by destruct (post_run _ _ _ _ _ _ (post_NewOCIProvisioner _ _ _ _) Hnew) as [[_ ?]%(fun Hm => Hm p eq_refl) _].
Qed.
End Main.

(** The default flag is fifty GiB. *)
Example default_minimum : ParseQuantity (flag_min_volume_size default_flags) = Ok (Gi 50).
Proof. reflexivity. Qed.

(** ** The resync period of the informers *)

Lemma round_half_even_bounds n d : 0 < d -> n / d <= round_half_even n d <= ceil_div n d.
Proof.
  intros Hd. unfold round_half_even. rewrite ceil_div_spec by done.
  pose proof (Z.mod_pos_bound n d Hd).
  destruct (Z.eqb_spec (n mod d) 0), (Z.ltb_spec (2 * (n mod d)) d), (Z.ltb_spec d (2 * (n mod d)));
    try lia; destruct (Z.even _); lia.
Qed.

(** Rounding does not cross a multiple of a large power of two. *)
Lemma round53_between n a b k :
  0 < n < 2 ^ (53 + k) -> 0 <= k -> a * 2 ^ k <= n <= b * 2 ^ k ->
  a * 2 ^ k <= round53 n <= b * 2 ^ k.
Proof.
  intros Hn Hk Hab. unfold round53. destruct (Z.leb_spec (Z.log2 n - 52) 0); [done|].
  assert (Z.log2 n < 53 + k) by (apply Z.log2_lt_pow2; lia).
  set (e := Z.log2 n - 52) in *. set (d := 2 ^ e).
  assert (0 < d) by (apply Z.pow_pos_nonneg; lia).
  assert (2 ^ k = 2 ^ (k - e) * d) as Hpow by (unfold d; rewrite <- Z.pow_add_r by lia; f_equal; lia).
  rewrite Hpow, !Z.mul_assoc in *. set (x := a * 2 ^ (k - e)) in *. set (y := b * 2 ^ (k - e)) in *.
  destruct (round_half_even_bounds n d) as [Hlo Hhi]; [done|].
  assert (x <= n / d) by (apply Z.div_le_lower_bound; lia).
  assert (ceil_div n d <= y).
  { transitivity (ceil_div (y * d) (1 * d)); [rewrite Z.mul_1_l; apply ceil_div_mono; lia|].
    rewrite ceil_div_cancel, ceil_div_1 by lia. lia. }
  nia.
Qed.

(** The period is at least the given one and at most twice as long. *)
Theorem informerResyncPeriod_bounds period draw :
  0 < period < 2 ^ 52 -> 0 <= draw < 2 ^ 63 ->
  period <= informerResyncPeriod period draw <= 2 * period.
Proof.
  intros Hp Hd. unfold informerResyncPeriod.
  assert (0 <= round53 draw <= 1 * 2 ^ 63) as Hf.
  { destruct (Z.eq_dec draw 0) as [->|]; [done|].
    pose proof (round53_between draw 0 1 63 ltac:(lia) ltac:(lia) ltac:(lia)). lia. }
  pose proof (round53_between (round53 draw + 2 ^ 63) 1 2 63 ltac:(lia) ltac:(lia) ltac:(lia)) as Hfactor.
  set (factor := round53 (round53 draw + 2 ^ 63)) in *.
  pose proof (round53_between (period * factor) period (2 * period) 63 ltac:(nia) ltac:(lia) ltac:(nia)) as Hr.
  split; [apply Z.div_le_lower_bound; lia|apply Z.div_le_upper_bound; lia].
Qed.
