(* ===== verification/Typing.v ===== *)
(** * The shape of the volumes

    A typing of persistent volumes by the kind of plugin that made them: which source,
    annotations, labels and capacity they have.  Everything core returns is typed, what the
    controller adds keeps the type, and a typed volume is one that core's [Delete] passes on
    to the plugin that can delete it. *)

From S2P Require Import Prelude GoStrings Errors Quantity Objects Config Effects Logic Wait Plugin InstanceMeta Client Core Controller ControllerSpec.
From S2P Require Block BlockSpec Fss FssSpec CoreSpec.

Open Scope Z_scope.

Definition annotated (pv : PersistentVolume) (k : string) : Prop :=
  is_Some (gomap_lookup (pv_Annotations pv) k).
Definition labelled (pv : PersistentVolume) (k : string) : Prop :=
  is_Some (gomap_lookup (pv_Labels pv) k).

(** The plugin's half: exactly one source, and what its [Delete] looks for. *)
Definition plugin_typed (k : plugin_kind) (pv : PersistentVolume) : Prop :=
  match k with
  | PBlock _ =>
      (exists fsType, pv_FlexVolume pv = Some {| flex_Driver := "oracle/oci"; flex_FSType := fsType |})
      /\ pv_NFS pv = None
      /\ Forall (fun m => m = ReadWriteOnce) (pv_AccessModes pv)
      /\ gomap_lookup (pv_Annotations pv) "ociVolumeID" = Some (pv_Name pv)
  | PFss _ =>
      pv_FlexVolume pv = None
      /\ (exists server path, pv_NFS pv
            = Some {| nfs_Server := server; nfs_Path := path;
                      nfs_ReadOnly := Fss.isReadOnly (pv_AccessModes pv) |})
      /\ gomap_lookup (pv_Annotations pv) "volume.beta.kubernetes.io/oci-volume-id" = Some (pv_Name pv)
      /\ annotated pv "volume.beta.kubernetes.io/oci-export-id"
  end.

(** The common half. *)
Definition core_typed (pv : PersistentVolume) : Prop :=
  gomap_lookup (pv_Annotations pv) "ociProvisionerIdentity" = Some "ociProvisionerIdentity"
  /\ annotated pv "ociAvailabilityDomain" /\ annotated pv "ociCompartment"
  /\ labelled pv "failure-domain.beta.kubernetes.io/zone"
  /\ labelled pv "failure-domain.beta.kubernetes.io/region"
  /\ is_Some (pv_Capacity pv !! "storage").

Definition pv_typed (k : plugin_kind) (pv : PersistentVolume) : Prop :=
  core_typed pv /\ plugin_typed k pv.

(** ** Marking keeps the plugin's half and adds the common one *)

Lemma marked_lookup pv name adName comp pv' k :
  CoreSpec.marked pv name adName comp pv' -> k ∉ core_keys ->
  gomap_lookup (pv_Annotations pv') k = gomap_lookup (pv_Annotations pv) k.
Proof.
  intros (a & b & Ha & _ & Ha' & _ & _) Hk. rewrite Ha, Ha'. simpl. unfold core_keys in Hk.
  by rewrite !lookup_insert_ne by set_solver.
Qed.

Lemma marked_plugin_typed kind pv name adName comp pv' :
  CoreSpec.marked pv name adName comp pv' -> plugin_typed kind pv -> plugin_typed kind pv'.
Proof.
  intros Hm. pose proof (fun k => marked_lookup _ _ _ _ _ k Hm) as Hl.
  destruct Hm as (a & b & _ & _ & _ & _ & Heq). unfold plugin_typed, annotated.
  rewrite !Hl by (eapply bool_decide_unpack; by vm_compute). by rewrite Heq.
Qed.

Lemma marked_core_typed pv name adName comp pv' :
  CoreSpec.marked pv name adName comp pv' ->
  labelled pv "failure-domain.beta.kubernetes.io/region" -> is_Some (pv_Capacity pv !! "storage") ->
  core_typed pv'.
Proof.
  intros (a & b & Ha & Hb & Ha' & Hb' & Heq) [r Hr] Hcap.
  unfold core_typed, annotated, labelled. rewrite Ha', Hb'. rewrite Hb in Hr. simpl in *.
  split; [by rewrite !lookup_insert_ne, lookup_insert_eq by done|].
  split; [rewrite lookup_insert_ne, lookup_insert_eq by done; eauto|].
  split; [rewrite lookup_insert_eq; eauto|].
  split; [rewrite lookup_insert_eq; eauto|].
  split; [rewrite lookup_insert_ne by done; eauto|]. by rewrite Heq.
Qed.

(** The controller writes two keys that no part of the type looks at, and no source. *)
Lemma claimed_typed kind ctrl pv claimRef class :
  pv_typed kind pv -> pv_typed kind (claimed_volume ctrl pv claimRef class).
Proof.
  assert (forall k, k ∉ [annDynamicallyProvisioned; annClass] ->
    gomap_lookup (pv_Annotations (claimed_volume ctrl pv claimRef class)) k
    = gomap_lookup (pv_Annotations pv) k) as Hl.
  { intros k Hk. apply claimed_volume_annotation; set_solver. }
  unfold pv_typed, core_typed, plugin_typed, annotated, labelled.
  rewrite !Hl by (eapply bool_decide_unpack; by vm_compute).
  rewrite claimed_volume_name. unfold claimed_volume. by destruct (at_least ctrl 6).
Qed.

(** ** The plugins *)

Lemma core_typed_Delete {W} `{Backend W} `{!ProvisionerClient} `{!ProvisionerPlugin W} pv (s : state W) :
  core_typed pv -> Core.Delete pv s = plugin_Delete pv s.
Proof.
  intros [Hi _]. unfold Core.Delete. change ociProvisionerIdentity with "ociProvisionerIdentity".
  by rewrite Hi.
Qed.

Section Typing.
Context {W : Type} `{Backend W} `{GoLib} `{SDK W}.

Definition plugin_ok (fuel : nat) (k : plugin_kind) : Prop :=
  match k with
  | PBlock b => enough_fuel fuel (5 * Second) (Block.bp_timeout b)
  | PFss _ => True
  end.

Lemma plugin_Provision_typed fuel (p : OCIProvisioner) options ad (s : state W) :
  plugin_ok fuel (oci_provisioner p) ->
  post (@plugin_Provision W (plugin_of fuel p) options ad) s (fun o _ _ => forall pv, o = Val (Ok pv) ->
    plugin_typed (oci_provisioner p) pv
    /\ labelled pv "failure-domain.beta.kubernetes.io/region" /\ is_Some (pv_Capacity pv !! "storage")).
Proof.
  unfold plugin_of, plugin_ok, plugin_typed, labelled, annotated.
  destruct (oci_provisioner p) as [b|f]; simpl; intros Hf.
  - eapply post_mono; [by apply (BlockSpec.Provision_runs (H := _))|]. intros o s' l Hrun pv ->.
    inversion Hrun as [| | | |? ? ? ? ? Ho| | | | |v id pvc cap adn region e polls last https ? _ _ Hvalid];
      subst; [by destruct Ho as [[? ?]|[? ?]]|].
    destruct Hvalid as (_ & Hmodes & _). apply first_such_None in Hmodes. simpl.
    split; [|by eauto]. split; [by eexists|]. split; [done|]. split; [|done].
    eapply Forall_impl; [exact Hmodes|]. intros m Hm. by apply negb_false_iff, String.eqb_eq in Hm.
  - eapply post_mono; [apply FssSpec.Provision_evidence|]. intros o s' l Hev pv Ho.
    destruct (Hev pv Ho) as (pvc & ip & es & fs & ex & path & _ & -> & _). simpl.
    split; [|by eauto]. split; [done|]. split; [by eauto|]. split; [done|]. eauto.
Qed.

(** C19: every volume is well typed: what the provisioner of this program returns has
    exactly the source of its plugin (the flexvolume driver, or an NFS export that is
    read-only when no access mode writes), is named by the OCID in the annotation that the
    plugin's [Delete] reads, and carries the identity, domain and compartment annotations,
    the zone and region labels and a storage capacity; all this survives what the controller
    writes into the volume before it saves it, and core's [Delete] passes such a volume on
    to the plugin. *)
Theorem Provision_typed fuel (p : OCIProvisioner) options (s : state W) :
  plugin_ok fuel (oci_provisioner p) ->
  let _ := plugin_of (W := W) fuel p in
  let _ := client_of (oci_client p) in
  post (Core.Provision options) s (fun o _ _ => forall pv, o = Val (Ok pv) ->
    pv_typed (oci_provisioner p) pv
    /\ forall ctrl claimRef class,
         pv_typed (oci_provisioner p) (claimed_volume ctrl pv claimRef class)
         /\ forall s', Core.Delete (claimed_volume ctrl pv claimRef class) s'
                      = plugin_Delete (claimed_volume ctrl pv claimRef class) s').
Proof.
  intros Hok plugin client. apply post_of_run. intros o s' l Hrun pv ->.
  assert (pv_typed (oci_provisioner p) pv) as Ht.
  { apply CoreSpec.Provision_Ok in Hrun
      as (name & ad & adn & comp & c & pv0 & s1 & s2 & l1 & l2 & _ & Hpv & _ & _ & _ & Hm).
    pose proof (post_run _ _ _ _ _ _ (plugin_Provision_typed fuel p options ad s1 Hok) Hpv) as Ht.
    destruct (Ht pv0 eq_refl) as (Hp & Hr & Hc).
    split; [by eapply marked_core_typed|by eapply marked_plugin_typed]. }
  split; [done|]. intros ctrl claimRef class.
  pose proof (claimed_typed _ ctrl _ claimRef class Ht) as Ht'.
  split; [done|]. intros s1. apply core_typed_Delete, Ht'.
Qed.
End Typing.
