(* ===== verification/Queue.v ===== *)
(** * Work queues: k8s.io/client-go/util/workqueue (vendored) and the controller's workers

    The queue of keys with its dirty and processing sets, the delaying and rate-limiting
    queue around it, and, as a transition system, what the provision controller does with
    them: the informers' event handlers, and the workers of [processNextClaimWorkItem] (and
    of [processNextVolumeWorkItem], which is the same code over the other queue). *)

From stdpp Require Import relations.
From S2P Require Import Prelude Controller.

Open Scope Z_scope.

(** ** queue.go *)

Record Type_ : Type := {
  queue : list string;
  dirty : gset string;
  processing : gset string;
  shuttingDown : bool
}.

Definition New : Type_ := {| queue := []; dirty := ∅; processing := ∅; shuttingDown := false |}.

Definition Add (q : Type_) (item : string) : Type_ :=
  if shuttingDown q then q
  else if bool_decide (item ∈ dirty q) then q
  else
    {| queue := if bool_decide (item ∈ processing q) then queue q else queue q ++ [item];
       dirty := {[item]} ∪ dirty q; processing := processing q; shuttingDown := false |}.

(** [None]: the call waits, or reports the shutdown. *)
Definition Get (q : Type_) : option (string * Type_) :=
  match queue q with
  | [] => None
  | item :: rest =>
      Some (item, {| queue := rest; dirty := dirty q ∖ {[item]};
                     processing := {[item]} ∪ processing q; shuttingDown := shuttingDown q |})
  end.

Definition Done (q : Type_) (item : string) : Type_ :=
  {| queue := if bool_decide (item ∈ dirty q) then queue q ++ [item] else queue q;
     dirty := dirty q; processing := processing q ∖ {[item]}; shuttingDown := shuttingDown q |}.

Definition ShutDown (q : Type_) : Type_ :=
  {| queue := queue q; dirty := dirty q; processing := processing q; shuttingDown := true |}.

(** ** default_rate_limiters.go *)

(** The token bucket is golang.org/x/time/rate's: the delay it gives is an argument of
    [When].  [base * 2^exp] is exact in a float64. *)
Inductive RateLimiter : Type :=
| BucketRateLimiter
| ItemExponentialFailureRateLimiter (failures : gmap string Z) (baseDelay maxDelay : Z).

Definition When1 (bucketDelay : Z) (item : string) (r : RateLimiter) : Z * RateLimiter :=
  match r with
  | BucketRateLimiter => (bucketDelay, r)
  | ItemExponentialFailureRateLimiter failures baseDelay maxDelay =>
      let exp := default 0 (failures !! item) in
      let backoff := baseDelay * 2 ^ exp in
      let delay := if MaxInt64 <? backoff then maxDelay
                   else if maxDelay <? backoff then maxDelay else backoff in
      (delay, ItemExponentialFailureRateLimiter (<[item := exp + 1]> failures) baseDelay maxDelay)
  end.

Definition NumRequeues1 (item : string) (r : RateLimiter) : Z :=
  match r with
  | BucketRateLimiter => 0
  | ItemExponentialFailureRateLimiter failures _ _ => default 0 (failures !! item)
  end.

Definition Forget1 (item : string) (r : RateLimiter) : RateLimiter :=
  match r with
  | BucketRateLimiter => r
  | ItemExponentialFailureRateLimiter failures baseDelay maxDelay =>
      ItemExponentialFailureRateLimiter (delete item failures) baseDelay maxDelay
  end.

(** [MaxOfRateLimiter]: the largest answer, from 0. *)
Definition max_of (l : list Z) : Z := foldl (fun r curr => if r <? curr then curr else r) 0 l.

Definition When (bucketDelay : Z) (item : string) (limiters : list RateLimiter) :
  Z * list RateLimiter :=
  let rs := When1 bucketDelay item <$> limiters in (max_of (fst <$> rs), snd <$> rs).
Definition NumRequeues_ (item : string) (limiters : list RateLimiter) : Z :=
  max_of (NumRequeues1 item <$> limiters).

(** ** delaying_queue.go and rate_limitting_queue.go *)

(** [waiting]: the items handed to the waiting loop and not yet added. *)
Record RateLimitingQueue : Type := {
  rq : Type_;
  waiting : gset string;
  rateLimiter : list RateLimiter
}.

Definition with_queue (q : RateLimitingQueue) (t : Type_) : RateLimitingQueue :=
  {| rq := t; waiting := waiting q; rateLimiter := rateLimiter q |}.

Definition AddAfter (q : RateLimitingQueue) (item : string) (duration : Z) : RateLimitingQueue :=
  if shuttingDown (rq q) then q
  else if duration <=? 0 then with_queue q (Add (rq q) item)
  else {| rq := rq q; waiting := {[item]} ∪ waiting q; rateLimiter := rateLimiter q |}.

(** The waiting loop: an item that is due. *)
Definition add_ready (q : RateLimitingQueue) (item : string) : RateLimitingQueue :=
  {| rq := Add (rq q) item; waiting := waiting q ∖ {[item]}; rateLimiter := rateLimiter q |}.

Definition AddRateLimited (q : RateLimitingQueue) (item : string) (bucketDelay : Z) :
  RateLimitingQueue :=
  let '(delay, r) := When bucketDelay item (rateLimiter q) in
  AddAfter {| rq := rq q; waiting := waiting q; rateLimiter := r |} item delay.

Definition NumRequeues (q : RateLimitingQueue) (item : string) : Z :=
  NumRequeues_ item (rateLimiter q).

Definition Forget (q : RateLimitingQueue) (item : string) : RateLimitingQueue :=
  {| rq := rq q; waiting := waiting q; rateLimiter := Forget1 item <$> rateLimiter q |}.

(** The rate limiter that [NewProvisionController] gives to the queues. *)
Definition controller_limiter (c : ProvisionController) : list RateLimiter :=
  if negb (exponentialBackOffOnError c) then [BucketRateLimiter]
  else [ItemExponentialFailureRateLimiter ∅ 15000000000 1000000000000; BucketRateLimiter].

Definition NewRateLimitingQueue (limiters : list RateLimiter) : RateLimitingQueue :=
  {| rq := New; waiting := ∅; rateLimiter := limiters |}.

(** ** The controller's handlers *)

Definition enqueueWork (q : RateLimitingQueue) (key : string) : RateLimitingQueue :=
  if NumRequeues q key =? 0 then with_queue q (Add (rq q) key) else q.

Definition forgetWork (q : RateLimitingQueue) (key : string) : RateLimitingQueue :=
  let q := Forget q key in with_queue q (Done (rq q) key).

(** What a worker does with the result of the sync handler, before the deferred [Done]. *)
Definition after_sync (threshold : Z) (q : RateLimitingQueue) (key : string) (failed : bool)
    (bucketDelay : Z) : RateLimitingQueue :=
  if failed then
    if NumRequeues q key <? threshold then AddRateLimited q key bucketDelay else q
  else Forget q key.

(** ** The system

    [busy]: the keys whose sync handler runs, one entry per worker; [ending]: those whose
    worker has dealt with the result and not yet called [Done]. *)
Record sys : Type := Sys { sq : RateLimitingQueue; busy : list string; ending : list string }.

Inductive label : Type :=
| LInformer (key : string)
| LDeleted (key : string)
| LGet (key : string)
| LSynced (key : string) (failed : bool)
| LDone (key : string)
| LReady (key : string)
| LShutDown.

(** [deletion]: when the informers may report a deleted object. *)
Inductive step (threshold : Z) (deletion : sys -> string -> Prop) : sys -> label -> sys -> Prop :=
| s_informer s key :
    step threshold deletion s (LInformer key) (Sys (enqueueWork (sq s) key) (busy s) (ending s))
| s_deleted s key :
    deletion s key ->
    step threshold deletion s (LDeleted key) (Sys (forgetWork (sq s) key) (busy s) (ending s))
| s_get s key q :
    Get (rq (sq s)) = Some (key, q) ->
    step threshold deletion s (LGet key) (Sys (with_queue (sq s) q) (key :: busy s) (ending s))
| s_synced s b1 key b2 failed delay :
    busy s = b1 ++ key :: b2 ->
    step threshold deletion s (LSynced key failed)
      (Sys (after_sync threshold (sq s) key failed delay) (b1 ++ b2) (key :: ending s))
| s_done s e1 key e2 :
    ending s = e1 ++ key :: e2 ->
    step threshold deletion s (LDone key)
      (Sys (with_queue (sq s) (Done (rq (sq s)) key)) (busy s) (e1 ++ e2))
| s_ready s key :
    key ∈ waiting (sq s) ->
    step threshold deletion s (LReady key) (Sys (add_ready (sq s) key) (busy s) (ending s))
| s_shutdown s :
    step threshold deletion s LShutDown (Sys (with_queue (sq s) (ShutDown (rq (sq s)))) (busy s) (ending s)).

Inductive steps (threshold : Z) (deletion : sys -> string -> Prop) : sys -> list label -> sys -> Prop :=
| steps_nil s : steps threshold deletion s [] s
| steps_cons s l s' ls s'' :
    step threshold deletion s l s' -> steps threshold deletion s' ls s'' ->
    steps threshold deletion s (l :: ls) s''.

Definition initial (limiters : list RateLimiter) : sys :=
  Sys (NewRateLimitingQueue limiters) [] [].

(** A key that nobody holds. *)
Definition idle (s : sys) (key : string) : Prop :=
  (key ∉ dirty (rq (sq s))) /\ key ∉ processing (rq (sq s)).

(** ** The queue *)

(** As the comment of queue.go has it: what is queued is dirty and not being processed; and
    nothing is queued twice, nor dirty without being queued or processed. *)
Definition wf (q : Type_) : Prop :=
  NoDup (queue q) /\ forall k, k ∈ queue q <-> k ∈ dirty q /\ k ∉ processing q.

Lemma Add_processing q k : processing (Add q k) = processing q.
Proof. unfold Add. by repeat case_match. Qed.

Lemma Add_dirty q k : shuttingDown q = false -> dirty (Add q k) = {[k]} ∪ dirty q.
Proof. unfold Add. intros ->. case_bool_decide; [set_solver|done]. Qed.

Lemma Add_shuttingDown q k : shuttingDown (Add q k) = shuttingDown q.
Proof. unfold Add. destruct (shuttingDown q) eqn:Hs; [done|]. by case_bool_decide. Qed.

Lemma Get_Some q k q' : Get q = Some (k, q') ->
  exists rest, queue q = k :: rest
    /\ q' = {| queue := rest; dirty := dirty q ∖ {[k]};
               processing := {[k]} ∪ processing q; shuttingDown := shuttingDown q |}.
Proof. unfold Get. destruct (queue q) as [|x r]; [done|]. intros [= <- <-]. eauto. Qed.

Lemma wf_Add q k : wf q -> wf (Add q k).
Proof.
  intros [Hnd Hq]. unfold Add. destruct (shuttingDown q); [done|].
  case_bool_decide as Hd; [done|]. unfold wf; simpl. case_bool_decide as Hp.
  - split; [done|]. intros k'. rewrite Hq. set_solver.
  - split.
    + apply NoDup_app. split; [done|]. split; [|apply NoDup_singleton].
      intros k' Hk'%Hq. set_solver.
    + intros k'. rewrite elem_of_app, Hq. set_solver.
Qed.

Lemma wf_Get q k q' : wf q -> Get q = Some (k, q') ->
  wf q' /\ (k ∉ processing q) /\ processing q' = {[k]} ∪ processing q.
Proof.
  unfold wf, Get. intros [Hnd Hq]. destruct (queue q) as [|k' r] eqn:Hqueue; [done|].
  intros [= <- <-]. simpl. apply NoDup_cons in Hnd as [Hk Hnd].
  assert (k' ∈ dirty q /\ k' ∉ processing q) as [_ Hp] by (apply Hq; set_solver).
  split; [|done]. split; [done|]. intros k. specialize (Hq k).
  rewrite elem_of_cons in Hq. destruct (decide (k = k')) as [->|]; set_solver.
Qed.

Lemma wf_Done q k : wf q -> k ∈ processing q \/ k ∉ dirty q -> wf (Done q k).
Proof.
  unfold wf, Done. simpl. intros [Hnd Hq] Hk. case_bool_decide as Hd; (split; [|intros k']).
  - apply NoDup_app. split; [done|]. split; [|apply NoDup_singleton]. intros k' Hk'%Hq. set_solver.
  - rewrite elem_of_app, Hq. destruct (decide (k' = k)) as [->|]; set_solver.
  - done.
  - rewrite Hq. destruct (decide (k' = k)) as [->|]; set_solver.
Qed.

(** ** The invariant of the system *)

Definition Inv (s : sys) : Prop :=
  wf (rq (sq s)) /\ NoDup (busy s ++ ending s)
  /\ forall k, k ∈ busy s ++ ending s <-> k ∈ processing (rq (sq s)).

(** Handlers that only add keep the set of keys that are being processed. *)
Definition adds (q q' : RateLimitingQueue) : Prop :=
  (wf (rq q) -> wf (rq q')) /\ processing (rq q') = processing (rq q).

Lemma adds_Add q k : adds q (with_queue q (Add (rq q) k)).
Proof. split; [apply wf_Add|apply Add_processing]. Qed.

Lemma adds_enqueueWork q k : adds q (enqueueWork q k).
Proof. unfold enqueueWork. case_match; [apply adds_Add|done]. Qed.

Lemma adds_add_ready q k : adds q (add_ready q k).
Proof. split; [apply wf_Add|apply Add_processing]. Qed.

Lemma adds_AddAfter q k d : adds q (AddAfter q k d).
Proof. unfold AddAfter. repeat case_match; [done|apply adds_Add|done]. Qed.

Lemma adds_after_sync threshold q k failed d : adds q (after_sync threshold q k failed d).
Proof.
  unfold after_sync, AddRateLimited. destruct failed; [|done]. case_match; [|done].
  destruct (When _ _ _) as [delay r]. exact (adds_AddAfter {| rq := rq q; waiting := waiting q; rateLimiter := r |} k delay).
Qed.

Lemma Inv_adds s q : adds (sq s) q -> Inv s -> Inv (Sys q (busy s) (ending s)).
Proof. intros [Hwf Hp] (H1 & H2 & H3). split; [by apply Hwf|]. simpl. by rewrite Hp. Qed.

Lemma Inv_initial limiters : Inv (initial limiters).
Proof. split; [|split]; [split; [constructor|]|constructor|]; set_solver. Qed.

Lemma Inv_step threshold deletion s l s' :
  (forall s key, deletion s key -> idle s key) ->
  step threshold deletion s l s' -> Inv s -> Inv s'.
Proof.
  intros Hdel Hstep Hinv. pose proof Hinv as (Hwf & Hnd & Hp).
  destruct Hstep as [s key|s key Hd|s key q Hget|s b1 key b2 failed d Hb|s e1 key e2 He|s key Hw|s].
  - apply Inv_adds; [apply adds_enqueueWork|done].
  - apply Hdel in Hd as [Hkd Hkp]. split; [|split; [done|]]; simpl; [by apply wf_Done; [|right]|].
    intros k. rewrite Hp. set_solver.
  - destruct (wf_Get _ _ _ Hwf Hget) as (Hwf' & Hk & Hp'). split; [done|]. simpl. rewrite Hp'.
    split; [apply NoDup_cons; by rewrite Hp|]. intros k. rewrite elem_of_cons, Hp. set_solver.
  - pose proof (adds_after_sync threshold (sq s) key failed d) as [Hwf' Hp'].
    assert (busy s ++ ending s ≡ₚ (b1 ++ b2) ++ key :: ending s) as Hperm
      by (rewrite Hb; solve_Permutation).
    split; [by apply Hwf'|]. simpl. rewrite Hp'. split; [by rewrite <- Hperm|].
    intros k. by rewrite <- Hperm.
  - assert (busy s ++ ending s ≡ₚ key :: busy s ++ e1 ++ e2) as Hperm
      by (rewrite He; solve_Permutation).
    rewrite Hperm in Hnd. apply NoDup_cons in Hnd as [Hk Hnd].
    assert (key ∈ processing (rq (sq s))) as Hkey by (apply Hp; rewrite Hperm; set_solver).
    split; [apply wf_Done; auto|]. split; [done|]. simpl. intros k.
    specialize (Hp k). rewrite Hperm in Hp. destruct (decide (k = key)) as [->|]; set_solver.
  - apply Inv_adds; [apply adds_add_ready|done].
  - done.
Qed.

Lemma Inv_steps threshold deletion s ls s' :
  (forall s key, deletion s key -> idle s key) ->
  steps threshold deletion s ls s' -> Inv s -> Inv s'.
Proof. intros Hdel Hs. induction Hs; [done|]. eauto using Inv_step. Qed.

(** C21: no claim is provisioned by two workers at once: in every run of the informers and
    the workers in which an object is reported as deleted only while its key is neither
    queued nor being processed, the keys in the workers' hands are distinct, they are
    exactly the processing set, and what is queued is dirty, not being processed and queued
    once. *)
Theorem workers_exclusive threshold limiters ls s :
  steps threshold idle (initial limiters) ls s ->
  NoDup (busy s ++ ending s)
  /\ (forall k, k ∈ busy s ++ ending s <-> k ∈ processing (rq (sq s)))
  /\ NoDup (queue (rq (sq s)))
  /\ (forall k, k ∈ queue (rq (sq s)) <-> k ∈ dirty (rq (sq s)) /\ k ∉ processing (rq (sq s))).
Proof.
  intros Hs. apply Inv_steps in Hs as ([Hnd Hq] & Hb & Hp); [|done|apply Inv_initial]. auto.
Qed.

(** C23: without that restriction it fails: the handler for deleted objects calls [Done] for
    a key it does not hold. A claim that is deleted while a worker provisions it and made
    again under its name is then given to a second worker while the first is still busy with
    it; and a key that is deleted while it is queued is queued twice. *)
Theorem deletion_breaks_exclusion threshold :
  let k := "default/data-db-1" in
  let start := initial [BucketRateLimiter] in
  (exists s, steps threshold (fun _ _ => True) start
               [LInformer k; LGet k; LDeleted k; LInformer k; LGet k] s /\ busy s = [k; k])
  /\ exists s, steps threshold (fun _ _ => True) start [LInformer k; LDeleted k] s
       /\ queue (rq (sq s)) = [k; k].
Proof.
  intros k start. split; (eexists; split;
    [repeat (eapply steps_cons; [econstructor; reflexivity || exact I|]); apply steps_nil|by vm_compute]).
Qed.

(** ** Retries *)

(** The key is queued, waits for its delay, or is in the hands of a worker. *)
Definition pending (s : sys) (k : string) : Prop :=
  k ∈ dirty (rq (sq s)) \/ k ∈ waiting (sq s) \/ k ∈ busy s.

Definition bucket_only (s : sys) : Prop := rateLimiter (sq s) = [BucketRateLimiter].

Lemma after_sync_bucket threshold q key failed d :
  0 < threshold -> rateLimiter q = [BucketRateLimiter] -> shuttingDown (rq q) = false ->
  let q' := after_sync threshold q key failed d in
  rateLimiter q' = [BucketRateLimiter] /\ shuttingDown (rq q') = false
  /\ (failed = true -> key ∈ dirty (rq q') \/ key ∈ waiting q')
  /\ (forall k, k ∈ dirty (rq q) -> k ∈ dirty (rq q'))
  /\ (forall k, k ∈ waiting q -> k ∈ waiting q').
Proof.
  intros Hth Hb Hsd. unfold after_sync, NumRequeues, AddRateLimited. rewrite Hb.
  destruct failed; simpl; [|by rewrite Hb].
  change (NumRequeues_ key [BucketRateLimiter]) with 0.
  destruct (Z.ltb_spec 0 threshold); [|lia]. unfold AddAfter; simpl. rewrite Hsd.
  destruct (max_of [d] <=? 0); simpl; [|set_solver].
  rewrite Add_shuttingDown, Add_dirty by done. set_solver.
Qed.

Lemma still_pending threshold deletion s l s' k :
  0 < threshold -> bucket_only s -> shuttingDown (rq (sq s)) = false ->
  step threshold deletion s l s' -> l <> LShutDown ->
  bucket_only s' /\ shuttingDown (rq (sq s')) = false
  /\ (l <> LSynced k false -> pending s k -> pending s' k).
Proof.
  unfold bucket_only, pending. intros Hth Hb Hsd Hstep Hl1.
  destruct Hstep as [s key|s key Hd|s key q Hget|s b1 key b2 failed d Hbusy|s e1 key e2 He|s key Hw|s];
    simpl in *; try done.
  - unfold enqueueWork. case_match; simpl; [|auto]. rewrite Add_shuttingDown.
    split; [done|]. split; [done|]. rewrite Add_dirty by done. set_solver.
  - rewrite Hb. auto.
  - apply Get_Some in Hget as (rest & _ & ->). simpl. split; [done|]. split; [done|].
    destruct (decide (k = key)) as [->|]; set_solver.
  - assert (bucket_only (Sys (after_sync threshold (sq s) key failed d) (b1 ++ b2) (key :: ending s))
      /\ shuttingDown (rq (after_sync threshold (sq s) key failed d)) = false
      /\ (failed = true -> key ∈ dirty (rq (after_sync threshold (sq s) key failed d))
                            \/ key ∈ waiting (after_sync threshold (sq s) key failed d))
      /\ (forall k, k ∈ dirty (rq (sq s)) -> k ∈ dirty (rq (after_sync threshold (sq s) key failed d)))
      /\ (forall k, k ∈ waiting (sq s) -> k ∈ waiting (after_sync threshold (sq s) key failed d)))
      as (H1 & H2 & H3 & H4 & H5); [by apply after_sync_bucket|].
    split; [done|]. split; [done|]. intros Hl2 [Hk|[Hk|Hk]]; [auto|auto|].
    rewrite Hbusy in Hk. destruct (decide (k = key)) as [->|Hne]; [|set_solver].
    destruct failed; [|done]. destruct (H3 eq_refl); auto.
  - rewrite Add_shuttingDown, Add_dirty by done. split; [done|]. split; [done|].
    destruct (decide (k = key)) as [->|]; set_solver.
Qed.

Lemma stays_pending threshold deletion s ls s' k :
  0 < threshold -> bucket_only s -> shuttingDown (rq (sq s)) = false ->
  steps threshold deletion s ls s' -> LShutDown ∉ ls ->
  bucket_only s' /\ shuttingDown (rq (sq s')) = false
  /\ (LSynced k false ∉ ls -> pending s k -> pending s' k).
Proof.
  intros Hth Hb Hsd Hs. induction Hs as [|s l s1 ls s2 Hstep Hs IH]; [done|].
  intros [Hl Hls]%not_elem_of_cons.
  destruct (still_pending threshold deletion s l s1 k) as (Hb1 & Hsd1 & Hk1); [done..|].
  destruct (IH Hb1 Hsd1 Hls) as (? & ? & Hk2). split; [done|]. split; [done|].
  intros [Hne Hls']%not_elem_of_cons Hk. auto.
Qed.

Lemma steps_app_inv threshold deletion s ls1 ls2 s' :
  steps threshold deletion s (ls1 ++ ls2) s' ->
  exists s1, steps threshold deletion s ls1 s1 /\ steps threshold deletion s1 ls2 s'.
Proof.
  revert s. induction ls1 as [|l ls1 IH]; intros s; simpl; [exists s; split; [constructor|done]|].
  inversion 1 as [|? ? s1 ? ? Hstep Hs]; subst. apply IH in Hs as (s2 & ? & ?).
  exists s2. split; [by econstructor|done].
Qed.

(** C22: the process never gives up on a claim: with the options that cmd/main.go gives to
    the controller, the number of requeues that is compared with the threshold is always 0,
    so that a claim the informers have reported stays queued, delayed or in work for as long
    as the process runs and its sync does not succeed, however often it has failed, although
    the threshold is 5, and even after the claim was deleted. *)
Theorem failed_claims_retried name version deletion ls1 ls2 s k :
  let c := main_controller name version in
  steps (failedProvisionThreshold c) deletion (initial (controller_limiter c))
    (ls1 ++ LInformer k :: ls2) s ->
  LShutDown ∉ ls1 ++ LInformer k :: ls2 -> LSynced k false ∉ ls2 ->
  pending s k /\ NumRequeues (sq s) k = 0.
Proof.
  intros c (s1 & Hs1 & Hs2)%steps_app_inv Hsd Hk.
  apply not_elem_of_app in Hsd as [Hsd1 [_ Hsd2]%not_elem_of_cons].
  assert (0 < failedProvisionThreshold c) as Hth by done.
  assert (bucket_only (initial (controller_limiter c))) as Hb0 by done.
  destruct (stays_pending _ _ _ _ _ k Hth Hb0 eq_refl Hs1 Hsd1) as (Hb1 & Hf1 & _).
  inversion Hs2 as [|? ? s2 ? ? Hstep Hs3]; subst.
  destruct (still_pending _ _ _ _ _ k Hth Hb1 Hf1 Hstep) as (Hb2 & Hf2 & _); [done|].
  destruct (stays_pending _ _ _ _ _ k Hth Hb2 Hf2 Hs3 Hsd2) as (Hb & _ & Hpend).
  split; [|unfold NumRequeues; by rewrite Hb].
  apply Hpend; [done|]. inversion Hstep; subst. left. simpl. unfold enqueueWork, NumRequeues.
  rewrite Hb1. simpl. rewrite Add_dirty by done. set_solver.
Qed.
