(* ===== verification/Lease.v ===== *)
(** * The lock on a claim: lib/leaderelection and resourcelock (vendored)

    Several provisioners serve the same claims.  Before it provisions, each runs a
    [LeaderElector] on the claim: a record in an annotation of the claim names the leader,
    which renews it, and another process takes it over when it has not seen it change for
    the duration of the lease.  This file has the elector's functions and, as a transition
    system, any number of processes with electors on one claim behind an API server with
    optimistic concurrency: at most one of them leads at any time. *)

From S2P Require Import Prelude Effects Controller.

Open Scope Z_scope.

(** ** The record *)

(** [metav1.Time] as [reflect.DeepEqual] sees it: the zero time, a time read from JSON, which
    has whole seconds, and a reading of the process's own clock, which equals neither. *)
Inductive gotime : Set := ZeroTime | Parsed (sec : Z) | Local (ns : Z).

#[export] Instance gotime_eq_dec : EqDecision gotime.
Proof. solve_decision. Defined.

Record LeaderElectionRecord : Set := {
  HolderIdentity : string;
  LeaseDurationSeconds : Z;
  AcquireTime : gotime;
  RenewTime : gotime;
  LeaderTransitions : Z
}.

#[export] Instance record_eq_dec : EqDecision LeaderElectionRecord.
Proof. solve_decision. Defined.

(** What a claim without the annotation is read as. *)
Definition zero_record : LeaderElectionRecord :=
  {| HolderIdentity := EmptyString; LeaseDurationSeconds := 0; AcquireTime := ZeroTime;
     RenewTime := ZeroTime; LeaderTransitions := 0 |}.

(** [json.Marshal] and [json.Unmarshal]: times lose the fraction of the second. *)
Definition marshal_time (t : gotime) : gotime :=
  match t with Local ns => Parsed (ns / Second) | t => t end.
Definition marshal (r : LeaderElectionRecord) : LeaderElectionRecord :=
  {| HolderIdentity := HolderIdentity r; LeaseDurationSeconds := LeaseDurationSeconds r;
     AcquireTime := marshal_time (AcquireTime r); RenewTime := marshal_time (RenewTime r);
     LeaderTransitions := LeaderTransitions r |}.

(** ** The elector *)

(** The bookkeeping of a [LeaderElector]; [None] is the zero time. *)
Record LeaderElector : Set := {
  observedRecord : LeaderElectionRecord;
  observedTime : option Z
}.

Definition new_elector : LeaderElector :=
  {| observedRecord := zero_record; observedTime := None |}.

Definition IsLeader (le : LeaderElector) (identity : string) : bool :=
  String.eqb (HolderIdentity (observedRecord le)) identity.

Section Elector.
Context (ctrl : ProvisionController).

(** The parts of [tryAcquireOrRenew]: what it does after [Get], whether it then gives up,
    and the record that it writes.  [clock] is the time of the process's clock. *)
Definition observe (le : LeaderElector) (old : LeaderElectionRecord) (clock : Z) : LeaderElector :=
  if bool_decide (observedRecord le = old) then le
  else {| observedRecord := old; observedTime := Some clock |}.

Definition is_held (le : LeaderElector) (old : LeaderElectionRecord) (identity : string) (now : Z) : bool :=
  match observedTime le with Some t => now <? t + leaseDuration ctrl | None => false end
  && negb (String.eqb (HolderIdentity old) identity).

Definition next_record (old : LeaderElectionRecord) (identity : string) (now : Z) : LeaderElectionRecord :=
  let same := String.eqb (HolderIdentity old) identity in
  {| HolderIdentity := identity;
     LeaseDurationSeconds := leaseDuration ctrl / Second;
     AcquireTime := if same then AcquireTime old else Local now;
     RenewTime := Local now;
     LeaderTransitions := if same then 0 else add64 (LeaderTransitions old) 1 |}.

Definition acquired (written : LeaderElectionRecord) (clock : Z) : LeaderElector :=
  {| observedRecord := written; observedTime := Some clock |}.
End Elector.

(** ** The processes and the server *)

(** A record as written to the claim, with the times at which the try began and at which the
    server took it. *)
Record write : Set := Write { w_rec : LeaderElectionRecord; w_begin : Z; w_at : Z }.

(** An update under way: it holds only for the version of the claim that was read. *)
Record request : Set := Request { rq_rec : LeaderElectionRecord; rq_begin : Z; rq_version : nat }.

#[export] Instance request_eq_dec : EqDecision request.
Proof. solve_decision. Defined.

(** Where a process is in [tryAcquireOrRenew]: between two tries, before [Get], after [Get],
    in [Update], and before the reply to an [Update] that took effect. *)
Inductive stage : Set :=
| Between
| Begun (now : Z)
| Got (now : Z) (old : LeaderElectionRecord) (version : nat)
| Updating (rq : request)
| Updated (rq : request).

(** A process in [LeaderElector.Run]; [leading] is the time of its last successful try, once
    it has acquired the lock. *)
Record process : Set := Process {
  elector : LeaderElector;
  at_stage : stage;
  leading : option Z
}.

(** One claim: the time, its version, the records written so far, the newest first, the
    updates that were sent, and the processes by identity. *)
Record system : Set := System {
  clock : Z;
  version : nat;
  log : list write;
  net : list request;
  procs : gmap string process
}.

Definition current (s : system) : LeaderElectionRecord :=
  match log s with w :: _ => w_rec w | [] => zero_record end.

(** [Touch]: the claim is changed otherwise, but not the record in its annotation. *)
Inductive event : Set :=
| Run (p : string)
| Return (p : string)
| Try (p : string)
| Get (p : string)
| Decide (p : string)
| Apply (n : nat)
| Success (p : string)
| Failure (p : string)
| Touch
| Tick (d : Z).

#[export] Instance event_eq_dec : EqDecision event.
Proof. solve_decision. Defined.

Section Steps.
(** [skew]: how far each process's clock is ahead; [latency]: how long a call of
    [tryAcquireOrRenew] can take. *)
Context (ctrl : ProvisionController) (skew : string -> Z) (latency : Z).

Definition set_proc (s : system) (p : string) (x : option process) : system :=
  System (clock s) (version s) (log s) (net s) (partial_alter (fun _ => x) p (procs s)).

Definition began (st : stage) : option Z :=
  match st with
  | Between => None
  | Begun now | Got now _ _ => Some now
  | Updating rq | Updated rq => Some (rq_begin rq)
  end.

(** [renew] polls until a try succeeds or the renew deadline is over, and one try may be
    under way or due when it is. *)
Definition last_try (t : Z) : Z := t + renewDeadline ctrl + latency.
Definition in_time (now : Z) (x : process) : bool :=
  match began (at_stage x) with
  | Some b => now <=? b + latency
  | None => match leading x with Some t => now <=? last_try t + latency | None => true end
  end.

(** The processes read and write the claim with their own clocks; here all times are those
    of one clock, and only the times in records carry the skew. *)
Definition decide_step (s : system) (p : string) (x : process) (now : Z)
    (old : LeaderElectionRecord) (v : nat) : system :=
  let le := observe (elector x) old (clock s) in
  if is_held ctrl le old p now then set_proc s p (Some (Process le Between (leading x)))
  else
    let rq := Request (next_record ctrl old p (now + skew p)) now v in
    let s := set_proc s p (Some (Process le (Updating rq) (leading x))) in
    System (clock s) (version s) (log s) (rq :: net s) (procs s).

(** The server takes an update if the claim has not changed since it was read; the process
    that waits for the reply may then get it. *)
Definition take (s : system) (rq : request) : system :=
  let s' := System (clock s) (S (version s)) (Write (marshal (rq_rec rq)) (rq_begin rq) (clock s) :: log s)
              (net s) (procs s) in
  let p := HolderIdentity (rq_rec rq) in
  match procs s !! p with
  | Some x =>
      match at_stage x with
      | Updating rq' =>
          if bool_decide (rq' = rq) then set_proc s' p (Some (Process (elector x) (Updated rq) (leading x)))
          else s'
      | _ => s'
      end
  | None => s'
  end.

Definition step (e : event) (s : system) : option system :=
  match e with
  | Run p =>
      match procs s !! p with
      | None => Some (set_proc s p (Some (Process new_elector Between None)))
      | Some _ => None
      end
  | Return p =>
      match procs s !! p with
      | Some (Process _ Between _) => Some (set_proc s p None)
      | _ => None
      end
  | Try p =>
      match procs s !! p with
      | Some (Process le Between l) =>
          if match l with Some t => clock s <=? last_try t | None => true end
          then Some (set_proc s p (Some (Process le (Begun (clock s)) l))) else None
      | _ => None
      end
  | Get p =>
      match procs s !! p with
      | Some (Process le (Begun now) l) =>
          Some (set_proc s p (Some (Process le (Got now (current s) (version s)) l)))
      | _ => None
      end
  | Decide p =>
      match procs s !! p with
      | Some (Process le (Got now old v) l) =>
          Some (decide_step s p (Process le (Got now old v) l) now old v)
      | _ => None
      end
  | Apply n =>
      match net s !! n with
      | Some rq => if (rq_version rq =? version s)%nat then Some (take s rq) else None
      | None => None
      end
  | Success p =>
      match procs s !! p with
      | Some (Process _ (Updated rq) _) =>
          Some (set_proc s p (Some (Process (acquired (rq_rec rq) (clock s)) Between (Some (clock s)))))
      | _ => None
      end
  | Failure p =>
      match procs s !! p with
      | Some (Process le (Begun _ | Updating _ | Updated _) l) =>
          Some (set_proc s p (Some (Process le Between l)))
      | _ => None
      end
  | Touch => Some (System (clock s) (S (version s)) (log s) (net s) (procs s))
  | Tick d =>
      if (0 <=? d) && bool_decide (map_Forall (fun _ x => in_time (clock s + d) x = true) (procs s))
      then Some (System (clock s + d) (version s) (log s) (net s) (procs s)) else None
  end.

(** No record, no processes. *)
Definition start (now : Z) : system := System now 0 [] [] ∅.

Inductive reachable : system -> Prop :=
| r_start now : reachable (start now)
| r_step s e s' : reachable s -> step e s = Some s' -> reachable s'.

Definition leads (s : system) (p : string) : Prop :=
  exists x, procs s !! p = Some x /\ is_Some (leading x).

(** The last successful try of a process that leads. *)
Definition leading_since (s : system) (p : string) : option Z :=
  match procs s !! p with Some x => leading x | None => None end.

Lemma leading_since_leads s p t : leading_since s p = Some t -> leads s p.
Proof. unfold leading_since, leads. destruct (procs s !! p) as [x|]; [|done]. intros Ht. exists x. by rewrite Ht. Qed.

Lemma leading_since_set s p x q :
  leading_since (set_proc s p x) q
  = if bool_decide (q = p) then match x with Some x => leading x | None => None end
    else leading_since s q.
Proof.
  unfold leading_since. simpl. case_bool_decide as Hq.
  - subst q. by rewrite lookup_partial_alter_eq.
  - by rewrite lookup_partial_alter_ne by done.
Qed.

(** Only an acquisition, a renewal and the end of [Run] change who leads since when. *)
Lemma leading_since_step e s s' q :
  step e s = Some s' -> e <> Return q -> e <> Success q -> leading_since s' q = leading_since s q.
Proof.
  intros Hstep Hret Hsucc.
  assert (forall p x s1, procs s1 = procs s ->
    (q = p -> match x with Some x => leading x | None => None end = leading_since s p) ->
    leading_since (set_proc s1 p x) q = leading_since s q) as Hset.
  { intros p x s1 Hs1 Hx. rewrite leading_since_set. case_bool_decide as Hq; [|unfold leading_since; by rewrite Hs1].
    rewrite (Hx Hq). by subst q. }
  destruct e as [p|p|p|p|p|n|p|p| |d]; simpl in Hstep; unfold decide_step, take in Hstep;
    repeat (case_match; simplify_eq; try done); simplify_eq; try done;
    try (apply Hset; [done|]; intros ->); try done; unfold leading_since; simplify_map_eq; try done.
Qed.

Lemma leading_since_success s s' p :
  step (Success p) s = Some s' -> leading_since s' p = Some (clock s).
Proof.
  simpl. intros Hstep. repeat (case_match; simplify_eq; try done).
  rewrite leading_since_set. by rewrite bool_decide_true by done.
Qed.

Lemma leading_since_return s s' p : step (Return p) s = Some s' -> leading_since s' p = None.
Proof.
  simpl. intros Hstep. repeat (case_match; simplify_eq; try done).
  rewrite leading_since_set. by rewrite bool_decide_true by done.
Qed.

Definition elapsed (e : event) : Z := match e with Tick d => d | _ => 0 end.

Lemma clock_step e s s' : step e s = Some s' -> clock s' = clock s + elapsed e /\ 0 <= elapsed e.
Proof.
  intros Hstep. destruct e as [p|p|p|p|p|n|p|p| |d]; simpl in Hstep; unfold decide_step, take in Hstep;
    try (destruct (Z.leb_spec 0 d));
    repeat (case_match; simplify_eq; try done); simplify_eq; simpl; lia.
Qed.

(** ** The invariant *)

Definition holder (r : LeaderElectionRecord) : string := HolderIdentity r.
Definition written (l : list write) (r : LeaderElectionRecord) (t : Z) : Prop :=
  exists w, w ∈ l /\ w_rec w = r /\ w_at w <= t.

(** A record in the log has the time of its try, to the second. *)
Definition write_ok (now : Z) (w : write) : Prop :=
  RenewTime (w_rec w) = Parsed ((w_begin w + skew (holder (w_rec w))) / Second)
  /\ w_begin w <= w_at w <= now.

(** Who may write next: anyone at first, the leader, and who has seen the record of the
    leader unchanged for the duration of the lease. *)
Definition may_write (s : system) (p : string) : Prop :=
  log s = [] \/ holder (current s) = p
  \/ written (log s) (current s) (clock s - leaseDuration ctrl).

Definition request_ok (s : system) (rq : request) : Prop :=
  RenewTime (rq_rec rq) = Local (rq_begin rq + skew (holder (rq_rec rq)))
  /\ rq_begin rq <= clock s
  /\ (rq_version rq <= version s)%nat
  /\ (rq_version rq = version s -> may_write s (holder (rq_rec rq))).

Definition elector_ok (s : system) (p : string) (le : LeaderElector) : Prop :=
  match observedTime le with
  | None => observedRecord le = zero_record
  | Some t => holder (observedRecord le) = p \/ observedRecord le = zero_record
              \/ written (log s) (observedRecord le) t
  end.

(** The write [wc] is of [p], and so is everything after it and whatever can still come of
    what [p] has sent; all of it was begun after [wc]. *)
Definition holds (s : system) (p : string) (st : stage) (wc : write) : Prop :=
  (exists l1 l2, log s = l1 ++ wc :: l2
     /\ Forall (fun w => holder (w_rec w) = p /\ w_begin wc <= w_begin w) (wc :: l1))
  /\ Forall (fun rq => holder (rq_rec rq) = p -> rq_version rq = version s ->
                w_begin wc <= rq_begin rq) (net s)
  /\ (forall b, began st = Some b -> w_begin wc <= b).

Definition stage_ok (s : system) (p : string) (st : stage) : Prop :=
  match st with
  | Got now old v =>
      (v <= version s)%nat /\ (v = version s -> old = current s)
      /\ (old = zero_record \/ written (log s) old (clock s))
  | Updating rq => rq ∈ net s /\ holder (rq_rec rq) = p
  | Updated rq => holder (rq_rec rq) = p /\ exists wc, holds s p st wc /\ w_begin wc = rq_begin rq
  | _ => True
  end.

Definition timed_ok (s : system) (x : process) : Prop :=
  (forall b, began (at_stage x) = Some b -> b <= clock s <= b + latency
     /\ forall t, leading x = Some t -> b <= last_try t)
  /\ forall t, leading x = Some t -> t <= clock s <= last_try t + latency.

Definition leading_ok (s : system) (p : string) (x : process) : Prop :=
  forall t, leading x = Some t -> exists wc, holds s p (at_stage x) wc /\ t <= w_begin wc + latency.

Definition process_ok (s : system) (p : string) (x : process) : Prop :=
  elector_ok s p (elector x) /\ stage_ok s p (at_stage x) /\ timed_ok s x /\ leading_ok s p x.

Record invariant (s : system) : Prop := {
  inv_log : Forall (write_ok (clock s)) (log s);
  inv_net : Forall (request_ok s) (net s);
  inv_procs : map_Forall (process_ok s) (procs s)
}.

Context (Hlat : 0 <= latency) (Hrenew : 0 <= renewDeadline ctrl).
Context (Hlease : renewDeadline ctrl + 3 * latency + Second <= leaseDuration ctrl).

(** Two records that are equal were begun within a second of each other. *)
Lemma same_record now w w' :
  write_ok now w -> write_ok now w' -> w_rec w = w_rec w' -> w_begin w' - Second < w_begin w.
Proof.
  intros [Hw _] [Hw' _] Heq. rewrite Heq, Hw' in Hw. injection Hw as Hw.
  set (a := w_begin w' + _) in Hw. set (b := w_begin w + _) in Hw.
  assert (a - b = w_begin w' - w_begin w) by (subst a b; lia).
  pose proof (Z.mul_div_le b Second ltac:(done)) as Hb.
  pose proof (Z.mul_succ_div_gt a Second ltac:(done)) as Ha. change Second with 1000000000 in *. lia.
Qed.

(** While a lease runs, nobody else may write. *)
Lemma no_takeover s p q st wc :
  Forall (write_ok (clock s)) (log s) -> holds s p st wc ->
  clock s <= w_begin wc + renewDeadline ctrl + 3 * latency -> may_write s q -> q = p.
Proof.
  intros Hlog ((l1 & l2 & Hl & Hp) & _ & _) Hclock.
  assert (exists w l, log s = w :: l /\ holder (w_rec w) = p /\ w_begin wc <= w_begin w) as (w & l & Hw & Hwp & Hwb).
  { rewrite Hl. inversion Hp as [|? ? Hwc Hl1]; subst. destruct l1 as [|w l1]; [by exists wc, l2|].
    inversion Hl1; subst. by exists w, (l1 ++ wc :: l2). }
  unfold may_write, current. rewrite Hw. intros [?|[?|(w' & Hin & Heq & Hat)]]; [done|congruence|].
  rewrite Hw, Forall_forall in Hlog.
  pose proof (Hlog w' Hin) as Hw'. pose proof (Hlog w ltac:(by left)) as Hww.
  pose proof (same_record _ _ _ Hw' Hww Heq). destruct Hw' as [_ Hw']. lia.
Qed.

(** ** Preservation *)

(** What survives when time passes and records are added. *)
Definition later (s s' : system) : Prop :=
  clock s <= clock s' /\ (forall w, w ∈ log s -> w ∈ log s').

Lemma written_later s s' r t t' :
  later s s' -> t <= t' -> written (log s) r t -> written (log s') r t'.
Proof. intros [_ Hl] Ht (w & Hin & Hr & Hw). exists w. split; [by apply Hl|]. split; [done|lia]. Qed.

Lemma elector_later s s' p le : later s s' -> elector_ok s p le -> elector_ok s' p le.
Proof.
  intros Hs. unfold elector_ok. destruct (observedTime le); [|done].
  intros [?|[?|Hw]]; [auto..|]. right. right. eapply written_later; [done| |done]. lia.
Qed.

Lemma writes_later s s' : clock s <= clock s' ->
  Forall (write_ok (clock s)) (log s) -> Forall (write_ok (clock s')) (log s).
Proof. intros Hc Hl. eapply Forall_impl; [exact Hl|]. intros w [Hr Hw]. split; [done|lia]. Qed.

(** Changing one process leaves the others. *)
Lemma invariant_set s p x :
  invariant s -> match x with Some x => process_ok s p x | None => True end ->
  invariant (set_proc s p x).
Proof.
  intros [Hl Hn Hp] Hx. split; [done|done|]. simpl. intros q y.
  destruct (decide (q = p)) as [->|Hq].
  - rewrite lookup_partial_alter_eq. intros ->. exact Hx.
  - rewrite lookup_partial_alter_ne by done. intros Hy. exact (Hp q y Hy).
Qed.

(** The clauses of a process do not mention the table of processes. *)
Lemma holds_stage s p st st' wc :
  holds s p st wc -> (forall b, began st' = Some b -> w_begin wc <= b) -> holds s p st' wc.
Proof. intros (Hl & Hn & _) Hb. by split. Qed.

Lemma held_begin s p st wc :
  Forall (write_ok (clock s)) (log s) -> holds s p st wc -> w_begin wc <= clock s.
Proof.
  intros Hlog ((l1 & l2 & Hl & _) & _). rewrite Forall_forall in Hlog.
  destruct (Hlog wc) as [_ ?]; [rewrite Hl; set_solver|lia].
Qed.

(** A process that has given up a try keeps what it leads. *)
Lemma process_between s p x le :
  process_ok s p x -> elector_ok s p le -> process_ok s p (Process le Between (leading x)).
Proof.
  intros (_ & _ & [_ Ht] & Hl) Hle. split; [done|]. split; [done|]. split; [split; [done|exact Ht]|].
  intros t Hx. destruct (Hl t Hx) as (wc & Hh & Hb). exists wc. split; [|done].
  by eapply holds_stage.
Qed.

(** The next stage of the same try. *)
Lemma process_next s p le le' st st' l :
  process_ok s p (Process le st l) -> began st' = began st -> elector_ok s p le' ->
  stage_ok s p st' -> process_ok s p (Process le' st' l).
Proof.
  intros (_ & _ & Ht & Hl) Hb Hle Hst. split; [done|]. split; [done|]. unfold timed_ok in *. simpl in *.
  rewrite Hb. split; [exact Ht|]. intros t Hx. destruct (Hl t Hx) as (wc & Hh & Hw).
  exists wc. split; [|done]. eapply holds_stage; [exact Hh|]. simpl. rewrite Hb. apply Hh.
Qed.

(** What a process knows survives a change of the rest, if what it holds does. *)
Definition lease_runs (s : system) (wc : write) : Prop :=
  clock s <= w_begin wc + renewDeadline ctrl + 3 * latency.

Lemma process_change s s' p x :
  process_ok s p x -> later s s' -> (version s <= version s')%nat ->
  (version s' = version s -> current s' = current s) -> (forall rq, rq ∈ net s -> rq ∈ net s') ->
  timed_ok s' x ->
  (forall wc, lease_runs s wc -> holds s p (at_stage x) wc -> holds s' p (at_stage x) wc) ->
  process_ok s' p x.
Proof using All.
  intros (He & Hst & [Hb Hl] & Hld) Hs Hv Hcur Hnet Ht Hholds. unfold lease_runs, last_try in *.
  split; [by eapply elector_later|]. split; [|split; [done|]].
  - destruct (at_stage x) as [|now|now old v|rq|rq] eqn:Hx; simpl in *; try done.
    + destruct Hst as (Hle & Hold & Hw). split; [lia|]. split.
      * intros Hveq. assert (version s' = version s) as Heq by lia. rewrite (Hcur Heq). apply Hold. lia.
      * destruct Hw as [?|Hw]; [by left|right]. eapply written_later; [done| |done]. apply Hs.
    + destruct Hst. auto.
    + destruct Hst as [Hrq (wc & Hh & Hw)]. split; [done|]. exists wc. split; [|done].
      apply Hholds; [|done]. destruct (Hb _ eq_refl). lia.
  - intros t Hx. destruct (Hld t Hx) as (wc & Hh & Hw). exists wc. split; [|done].
    apply Hholds; [|done]. pose proof (Hl t Hx). lia.
Qed.

Lemma written_current s : log s = [] /\ current s = zero_record \/
  exists w, w ∈ log s /\ w_rec w = current s.
Proof.
  unfold current. destruct (log s) as [|w l]; [by left|]. right. exists w. split; [by left|done].
Qed.
Lemma no_zero_record now l : Forall (write_ok now) l -> forall w, w ∈ l -> w_rec w <> zero_record.
Proof. rewrite Forall_forall. intros Hl w Hw Hz. destruct (Hl w Hw) as [Hr _]. by rewrite Hz in Hr. Qed.

Lemma observed_record le old now : observedRecord (observe le old now) = old.
Proof. unfold observe. by case_bool_decide. Qed.

Lemma observe_ok s p le old :
  elector_ok s p le -> old = zero_record \/ written (log s) old (clock s) ->
  elector_ok s p (observe le old (clock s)).
Proof. intros Hle Hold. unfold observe. case_bool_decide; [done|]. unfold elector_ok. simpl. auto. Qed.

(** An elector that does not give up may write, if nothing was written since it read. *)
Lemma unheld_may_write s p le now :
  Forall (write_ok (clock s)) (log s) -> elector_ok s p le -> observedRecord le = current s ->
  now <= clock s -> is_held ctrl le (current s) p now = false -> may_write s p.
Proof.
  intros Hlog Hle Hobs Hnow Hheld. unfold is_held in Hheld. unfold may_write.
  destruct (String.eqb_spec (HolderIdentity (current s)) p) as [|Hne]; [auto|].
  destruct (written_current s) as [[? _]|(w & Hin & Hw)]; [auto|].
  pose proof (no_zero_record _ _ Hlog w Hin) as Hnz. unfold elector_ok in Hle. rewrite Hobs in Hle.
  destruct (observedTime le) as [t|]; [|congruence].
  rewrite andb_true_r in Hheld. apply Z.ltb_ge in Hheld.
  destruct Hle as [?|[?|(w' & Hin' & Hw' & Ht)]]; [done|congruence|].
  right. right. exists w'. split; [done|]. split; [done|lia].
Qed.

(** What a process holds through an update that it or another process sends, through a change
    of the claim, and through an update that takes effect while the lease runs. *)
Lemma holds_send s q q' st wc rq :
  holds s q st wc -> holder (rq_rec rq) = q' -> (q' = q -> began st = Some (rq_begin rq)) ->
  holds (System (clock s) (version s) (log s) (rq :: net s) (procs s)) q st wc.
Proof.
  intros (Hl & Hn & Hb) Hq Hst. split; [done|]. split; [|done]. constructor; [|done].
  intros Heq _. apply Hb, Hst. congruence.
Qed.

(** The claim changes: the updates under way will be refused. *)
Lemma old_requests s n : Forall (request_ok s) n -> Forall (fun rq => rq_version rq <> S (version s)) n.
Proof. intros Hn. eapply Forall_impl; [exact Hn|]. intros rq (_ & _ & Hv & _). lia. Qed.

Lemma none_current s n (P : request -> Prop) :
  Forall (request_ok s) n -> Forall (fun rq => P rq -> rq_version rq = S (version s) -> False) n.
Proof. intros Hn%old_requests. eapply Forall_impl; [exact Hn|]. by intros rq Hne _ Hv. Qed.

Lemma holds_touch s q st wc :
  Forall (request_ok s) (net s) -> holds s q st wc ->
  holds (System (clock s) (S (version s)) (log s) (net s) (procs s)) q st wc.
Proof.
  intros Hn (Hl & _ & Hb). split; [done|]. split; [|done].
  eapply Forall_impl; [exact (none_current s _ (fun _ => True) Hn)|]. intros rq Hne _ Hv. by destruct Hne.
Qed.

Definition taken (s : system) (rq : request) : system :=
  System (clock s) (S (version s)) (Write (marshal (rq_rec rq)) (rq_begin rq) (clock s) :: log s)
    (net s) (procs s).

Lemma holds_taken s rq q st wc :
  Forall (write_ok (clock s)) (log s) -> Forall (request_ok s) (net s) ->
  rq ∈ net s -> rq_version rq = version s -> lease_runs s wc -> holds s q st wc ->
  holds (taken s rq) q st wc.
Proof using All.
  intros Hlog Hnet Hin Hver Hrun Hh. rewrite Forall_forall in Hnet.
  destruct (Hnet rq Hin) as (_ & _ & _ & Hmay). rewrite <- Forall_forall in Hnet.
  assert (holder (rq_rec rq) = q) as Hrq by (eapply no_takeover; eauto).
  destruct Hh as ((l1 & l2 & Hl & Hby) & Hn & Hst). split; [|split; [|done]].
  - exists (Write (marshal (rq_rec rq)) (rq_begin rq) (clock s) :: l1), l2.
    split; [simpl; by rewrite Hl|]. inversion Hby; subst.
    constructor; [done|]. constructor; [|done]. split; [done|]. simpl.
    rewrite Forall_forall in Hn. by apply (Hn rq).
  - eapply Forall_impl; [exact (none_current s _ (fun _ => True) Hnet)|]. intros r Hne _ Hv. by destruct Hne.
Qed.

Lemma invariant_send s p le now old v l :
  invariant s -> procs s !! p = Some (Process le (Got now old v) l) ->
  invariant (decide_step s p (Process le (Got now old v) l) now old v).
Proof using All.
  intros Hinv Hp. pose proof (inv_procs _ Hinv _ _ Hp) as Hok.
  pose proof Hok as (Hle & (Hv & Hcur & Hw) & [Ht _] & _). simpl in Ht, Hle.
  destruct (Ht now eq_refl) as [Hnow _].
  pose proof (observe_ok s p le old Hle Hw) as Hle'. unfold decide_step. simpl elector. simpl leading.
  destruct (is_held _ _ _ _ _) eqn:Hheld.
  { apply invariant_set; [done|]. by apply (process_between s p (Process le (Got now old v) l)). }
  set (rq := Request _ _ _). set (s' := System (clock s) (version s) (log s) (rq :: net s) (procs s)).
  change (invariant (set_proc s' p (Some (Process (observe le old (clock s)) (Updating rq) l)))).
  assert (forall q y, procs s !! q = Some y -> process_ok s' q y) as Hall.
  { intros q y Hy. pose proof (inv_procs _ Hinv _ _ Hy) as Hq.
    apply (process_change s s' q y Hq); [by split|done|done|by right|apply Hq|].
    intros wc _ Hh. eapply holds_send; [done|done|]. simpl. intros <-. rewrite Hp in Hy. by injection Hy as <-. }
  apply invariant_set; [split|].
  - apply Hinv.
  - constructor; [|apply Hinv]. split; [done|]. split; [simpl; lia|]. split; [simpl; lia|]. simpl.
    intros Heq. rewrite (Hcur Heq) in *.
    eapply (unheld_may_write s); eauto using observed_record; [apply Hinv|lia].
  - exact Hall.
  - eapply process_next; [by apply Hall|done|done|]. split; [by left|done].
Qed.

Lemma requests_refused s s' :
  Forall (request_ok s) (net s) -> clock s <= clock s' -> version s' = S (version s) ->
  Forall (request_ok s') (net s).
Proof.
  intros Hn Hc Hv. eapply Forall_impl; [exact Hn|]. intros rq (Hr & Hb & Hle & _).
  split; [done|]. split; [lia|]. split; [lia|]. intros Heq. lia.
Qed.

Lemma invariant_touch s : invariant s ->
  invariant (System (clock s) (S (version s)) (log s) (net s) (procs s)).
Proof using All.
  intros Hinv. split; [apply Hinv|by apply (requests_refused s); [apply Hinv|..]|].
  intros q y Hy. pose proof (inv_procs _ Hinv _ _ Hy) as Hq. simpl in Hy.
  apply (process_change s _ q y Hq); [by split|simpl; lia|simpl; lia|done|apply Hq|].
  intros wc _ Hh. apply holds_touch; [apply Hinv|done].
Qed.

Lemma invariant_take s rq :
  invariant s -> rq ∈ net s -> rq_version rq = version s -> invariant (take s rq).
Proof using All.
  intros Hinv Hin Hver. pose proof (inv_net _ Hinv) as Hnet. rewrite Forall_forall in Hnet.
  destruct (Hnet rq Hin) as (Hr & Hb & _ & _).
  set (s' := taken s rq). set (w := Write (marshal (rq_rec rq)) (rq_begin rq) (clock s)).
  assert (forall q y, procs s !! q = Some y -> process_ok s' q y) as Hall.
  { intros q y Hy. pose proof (inv_procs _ Hinv _ _ Hy) as Hq.
    apply (process_change s s' q y Hq); [split; [done|by right]|simpl; lia|simpl; lia|done|apply Hq|].
    intros wc Hrun Hh. apply holds_taken; [apply Hinv..|done|done|done|done]. }
  assert (invariant s') as Hinv'.
  { split; [|by apply (requests_refused s); [apply Hinv|..]|exact Hall].
    constructor; [|apply Hinv]. split; [|simpl; lia]. simpl. by rewrite Hr. }
  unfold take. fold (taken s rq). fold s'.
  destruct (procs s !! _) as [x|] eqn:Hx; [|done]. destruct x as [le st l]. simpl.
  destruct st as [| | |rq'|]; try done. case_bool_decide as Heq; [|done]. subst rq'.
  apply invariant_set; [done|]. eapply process_next; [by apply Hall|done|by apply Hall in Hx as [? _]|].
  split; [done|]. exists w. split; [|done]. split; [|split].
  - exists [], (log s). split; [done|]. constructor; [|constructor]. split; [done|simpl; lia].
  - eapply Forall_impl; [exact (old_requests _ _ (inv_net _ Hinv))|]. intros r Hne _ Heq. by destruct Hne.
  - intros b [= <-]. simpl. lia.
Qed.

Lemma invariant_tick s d :
  0 <= d -> map_Forall (fun _ x => in_time (clock s + d) x = true) (procs s) -> invariant s ->
  invariant (System (clock s + d) (version s) (log s) (net s) (procs s)).
Proof using All.
  intros Hd Htime Hinv. split.
  - apply (writes_later s (System (clock s + d) (version s) (log s) (net s) (procs s)));
      [simpl; lia|apply Hinv].
  - eapply Forall_impl; [apply Hinv|]. intros rq (Hr & Hb & Hle & Hmay). split; [done|].
    split; [simpl; lia|]. split; [done|]. intros Hv. destruct (Hmay Hv) as [?|[?|Hw]]; [by left|by right; left|].
    right. right. eapply written_later; [| |exact Hw]; [split; [simpl; lia|done]|simpl; lia].
  - intros q y Hy. pose proof (inv_procs _ Hinv _ _ Hy) as Hq.
    apply (process_change s _ q y Hq); [split; [simpl; lia|done]|done|done|done| |done].
    destruct Hq as (_ & _ & [Hb Hl] & _). specialize (Htime q y Hy). unfold in_time in Htime.
    unfold timed_ok. simpl. destruct (began (at_stage y)) as [b|].
    + apply Z.leb_le in Htime. destruct (Hb b eq_refl) as [Hb1 Hb2]. split.
      * intros b' [= <-]. split; [lia|done].
      * intros t Ht. specialize (Hb2 t Ht). specialize (Hl t Ht). lia.
    + split; [done|]. intros t Ht. rewrite Ht in Htime. apply Z.leb_le in Htime.
      specialize (Hl t Ht). lia.
Qed.

Lemma invariant_try s p le l :
  invariant s -> procs s !! p = Some (Process le Between l) ->
  match l with Some t => clock s <= last_try t | None => True end ->
  invariant (set_proc s p (Some (Process le (Begun (clock s)) l))).
Proof using All.
  intros Hinv Hp Htime. destruct (inv_procs _ Hinv _ _ Hp) as (Hle & _ & [_ Ht] & Hl).
  apply invariant_set; [done|]. split; [done|]. split; [done|]. split.
  - split; [|exact Ht]. intros b [= <-]. split; [lia|]. simpl. intros t Hlt. by rewrite Hlt in Htime.
  - intros t Hx. destruct (Hl t Hx) as (wc & Hh & Hw). exists wc. split; [|done].
    eapply holds_stage; [exact Hh|]. intros b [= <-]. eapply held_begin; [apply Hinv|exact Hh].
Qed.

Lemma invariant_success s p le rq l :
  invariant s -> procs s !! p = Some (Process le (Updated rq) l) ->
  invariant (set_proc s p (Some (Process (acquired (rq_rec rq) (clock s)) Between (Some (clock s))))).
Proof using All.
  intros Hinv Hp. destruct (inv_procs _ Hinv _ _ Hp) as (_ & (Hrq & wc & Hh & Hw) & [Hb _] & _).
  simpl in Hb. destruct (Hb _ eq_refl) as [Hclock _].
  apply invariant_set; [done|]. split; [by left|]. split; [done|]. split.
  - split; [done|]. simpl. intros t [= <-]. unfold last_try. lia.
  - intros t [= <-]. exists wc. split; [by eapply holds_stage|lia].
Qed.

Lemma invariant_get s p le now l :
  invariant s -> procs s !! p = Some (Process le (Begun now) l) ->
  invariant (set_proc s p (Some (Process le (Got now (current s) (version s)) l))).
Proof.
  intros Hinv Hp. apply invariant_set; [done|].
  eapply process_next; [by apply (inv_procs _ Hinv)|done|by apply (inv_procs _ Hinv) in Hp as [? _]|].
  split; [done|]. split; [done|]. destruct (written_current s) as [[_ ?]|(w & Hin & Hw)]; [by left|right].
  exists w. split; [done|]. split; [done|]. pose proof (inv_log _ Hinv) as Hl.
  rewrite Forall_forall in Hl. destruct (Hl w Hin) as [_ ?]. lia.
Qed.

Lemma invariant_failure s p le st l :
  invariant s -> procs s !! p = Some (Process le st l) ->
  invariant (set_proc s p (Some (Process le Between l))).
Proof.
  intros Hinv Hp. apply invariant_set; [done|]. pose proof (inv_procs _ Hinv _ _ Hp) as Hok.
  apply (process_between s p (Process le st l)); [done|apply Hok].
Qed.

Lemma invariant_step s e s' : invariant s -> step e s = Some s' -> invariant s'.
Proof using All.
  intros Hinv Hstep. destruct e as [p|p|p|p|p|n|p|p| |d]; simpl in Hstep;
    try (destruct (procs s !! p) as [[le st l]|] eqn:Hp; [destruct st|]; try done);
    try (injection Hstep as <-).
  - apply invariant_set; [done|]. split; [done|]. split; [done|]. by split; [split|].
  - by apply invariant_set.
  - destruct l as [t|]; [destruct (Z.leb_spec (clock s) (last_try t)); [|done]|];
      injection Hstep as <-; by apply invariant_try.
  - by eapply invariant_get.
  - by apply invariant_send.
  - destruct (net s !! n) as [rq|] eqn:Hn; [|done].
    destruct (Nat.eqb_spec (rq_version rq) (version s)); [|done]. injection Hstep as <-.
    apply invariant_take; [done|by eapply list_elem_of_lookup_2|done].
  - by eapply invariant_success.
  - by eapply invariant_failure.
  - by eapply invariant_failure.
  - by eapply invariant_failure.
  - by apply invariant_touch.
  - destruct (Z.leb_spec 0 d); [|done]. simpl in Hstep.
    case_bool_decide; [|done]. injection Hstep as <-. by apply invariant_tick.
Qed.

(** The stage of a process; one that is not in [Run] is between two tries. *)
Definition stage_of (s : system) (p : string) : stage :=
  match procs s !! p with Some x => at_stage x | None => Between end.

Lemma stage_of_set s p x q :
  stage_of (set_proc s p x) q
  = if bool_decide (q = p) then match x with Some x => at_stage x | None => Between end
    else stage_of s q.
Proof.
  unfold stage_of. simpl. case_bool_decide as Hq.
  - subst q. by rewrite lookup_partial_alter_eq.
  - by rewrite lookup_partial_alter_ne by done.
Qed.

Lemma holds_set s p x q wc :
  holds s q (stage_of s q) wc ->
  (forall b, began match x with Some x => at_stage x | None => Between end = Some b ->
     began (stage_of s p) = Some b \/ (p = q -> w_begin wc <= b)) ->
  holds (set_proc s p x) q (stage_of (set_proc s p x) q) wc.
Proof.
  intros Hh Hx. rewrite stage_of_set. case_bool_decide as Hq; [|exact Hh]. subst q.
  apply (holds_stage s p _ _ wc Hh). intros b Hb. destruct (Hx b Hb) as [Hs|Hw]; [by apply Hh|by apply Hw].
Qed.

(** What is written stays the last word of its process while the lease runs. *)
Lemma holds_through s e s' q wc :
  invariant s -> step e s = Some s' -> lease_runs s wc ->
  holds s q (stage_of s q) wc -> holds s' q (stage_of s' q) wc.
Proof using All.
  intros Hinv Hstep Hrun Hh. pose proof (held_begin _ _ _ _ (inv_log _ Hinv) Hh) as Hbegin.
  destruct e as [p|p|p|p|p|n|p|p| |d]; simpl in Hstep;
    try (destruct (procs s !! p) as [[le st l]|] eqn:Hp; [destruct st|]; try done);
    try (injection Hstep as <-); try (apply holds_set; [done|]; simpl; try done).
  - destruct l as [t|]; [destruct (Z.leb_spec (clock s) (last_try t)); [|done]|];
      injection Hstep as <-; (apply holds_set; [done|]); intros b [= <-]; auto.
  - intros b [= <-]. left. unfold stage_of. by rewrite Hp.
  - unfold decide_step. simpl. destruct (is_held _ _ _ _ _); [by apply holds_set|].
    set (rq := Request _ _ _). set (s1 := System (clock s) (version s) (log s) (rq :: net s) (procs s)).
    change (holds (set_proc s1 p (Some (Process (observe le old (clock s)) (Updating rq) l))) q
      (stage_of (set_proc s1 p (Some (Process (observe le old (clock s)) (Updating rq) l))) q) wc).
    apply (holds_set s1).
    + eapply holds_send; [done|done|]. simpl. intros <-. unfold stage_of; simpl; by rewrite Hp.
    + simpl. intros b [= <-]. left. unfold stage_of. simpl. by rewrite Hp.
  - destruct (net s !! n) as [rq|] eqn:Hn; [|done].
    destruct (Nat.eqb_spec (rq_version rq) (version s)) as [Hver|]; [|done]. injection Hstep as <-.
    assert (holds (taken s rq) q (stage_of (taken s rq) q) wc) as Ht.
    { apply holds_taken; [apply Hinv..|by eapply list_elem_of_lookup_2|done|done|done]. }
    unfold take. fold (taken s rq). destruct (procs s !! _) as [[le st l]|] eqn:Hx; [|done]. simpl.
    destruct st as [| | |rq'|]; try done. case_bool_decide as Heq; [|done]. subst rq'.
    apply (holds_set (taken s rq)); [done|]. simpl. intros b [= <-]. left. unfold stage_of. simpl. by rewrite Hx.
  - apply holds_touch; [apply Hinv|done].
  - destruct (Z.leb_spec 0 d); [|done]. simpl in Hstep.
    case_bool_decide; [|done]. by injection Hstep as <-.
Qed.

Lemma invariant_reachable s : reachable s -> invariant s.
Proof using All.
  induction 1 as [now|s e s' _ IH Hs]; [|by eapply invariant_step].
  split; [constructor|constructor|apply map_Forall_empty].
Qed.

(** What the invariant says of a process that leads. *)
Lemma leading_since_holds s p t :
  invariant s -> leading_since s p = Some t ->
  t <= clock s /\ exists wc, holds s p (stage_of s p) wc /\ t <= w_begin wc + latency.
Proof.
  intros Hinv. unfold leading_since, stage_of. destruct (procs s !! p) as [x|] eqn:Hx; [|done]. intros Ht.
  destruct (inv_procs _ Hinv _ _ Hx) as (_ & _ & [_ Htime] & Hl).
  destruct (Htime t Ht) as [? _]. split; [done|]. by apply Hl.
Qed.

Lemma holds_head s p st wc : holds s p st wc -> holder (current s) = p.
Proof.
  intros ((l1 & l2 & Hl & Hp) & _). unfold current. rewrite Hl.
  inversion Hp as [|? ? [Hwc _] Hl1]; subst. destruct l1 as [|w l1]; [done|].
  by inversion Hl1 as [|? ? [? _]].
Qed.

(** C24: leadership is exclusive: however many provisioners run electors on a claim,
    whatever the offsets of their clocks, in whatever order their reads and writes of the
    claim are interleaved, refused, delayed or lost, and however others change the claim as
    long as they leave the record in its annotation alone, at most one of them leads at any
    time, and the record in the claim names it. What it takes is that a call of
    [tryAcquireOrRenew] ends within some time and that the lease is longer than the deadline
    for its renewal by three such times and the second to which the times in the record are
    rounded. *)
Theorem leaders_exclusive s p q :
  reachable s -> leads s p -> leads s q -> p = q /\ HolderIdentity (current s) = p.
Proof using All.
  intros Hr%invariant_reachable (x & Hx & t & Ht) (y & Hy & u & Hu).
  destruct (inv_procs _ Hr _ _ Hx) as (_ & _ & _ & Hlx), (inv_procs _ Hr _ _ Hy) as (_ & _ & _ & Hly).
  destruct (Hlx t Ht) as (w & Hw & _), (Hly u Hu) as (w' & Hw' & _).
  apply holds_head in Hw, Hw'. split; [congruence|exact Hw].
Qed.

(** The lock changes hands only when the lease is over: a process that writes the record
    after another one does so at least a lease, less one second, after the try began by
    which the other wrote it. *)
Definition handed_over (w' w : write) : Prop :=
  holder (w_rec w') <> holder (w_rec w) -> w_begin w + leaseDuration ctrl - Second < w_at w'.

Fixpoint adjacent (R : write -> write -> Prop) (l : list write) : Prop :=
  match l with
  | w' :: ((w :: _) as r) => R w' w /\ adjacent R r
  | _ => True
  end.

Lemma handed_over_take s rq :
  invariant s -> rq ∈ net s -> rq_version rq = version s -> adjacent handed_over (log s) ->
  adjacent handed_over (log (take s rq)).
Proof.
  intros Hinv Hin Hver Hadj. pose proof (inv_net _ Hinv) as Hnet. rewrite Forall_forall in Hnet.
  destruct (Hnet rq Hin) as (_ & _ & _ & Hmay). specialize (Hmay Hver).
  assert (log (take s rq) = Write (marshal (rq_rec rq)) (rq_begin rq) (clock s) :: log s) as ->.
  { unfold take. repeat case_match; done. }
  unfold may_write, current in Hmay. pose proof (inv_log _ Hinv) as Hl. rewrite Forall_forall in Hl.
  simpl. destruct (log s) as [|w l] eqn:Hlog; [done|]. split; [|done]. intros Hne. simpl in *.
  destruct Hmay as [?|[Heq|(w' & Hw' & Heq & Hat)]]; [done|by destruct Hne|].
  pose proof (same_record _ _ _ (Hl w' Hw') (Hl w ltac:(by left)) Heq).
  destruct (Hl w' Hw') as [_ ?]. lia.
Qed.

Theorem leases_respected s : reachable s -> adjacent handed_over (log s).
Proof using All.
  induction 1 as [now|s e s' Hr IH Hs]; [done|]. apply invariant_reachable in Hr.
  destruct e; simpl in Hs; repeat case_match; simplify_eq; try done.
  - unfold decide_step. by case_match.
  - apply handed_over_take; [done|by eapply list_elem_of_lookup_2| |done]. by apply Nat.eqb_eq.
Qed.

(** A process whose identity is in the record, left by an earlier term, is not kept waiting. *)
Lemma own_record_not_held le old p now : HolderIdentity old = p -> is_held ctrl le old p now = false.
Proof. intros <-. unfold is_held. by rewrite String.eqb_refl, andb_false_r. Qed.

(** The state after a sequence of events, if every one of them is possible. *)
Fixpoint play (es : list event) (s : system) : option system :=
  match es with
  | [] => Some s
  | e :: es => match step e s with Some s => play es s | None => None end
  end.

Lemma play_reachable es s s' : reachable s -> play es s = Some s' -> reachable s'.
Proof.
  revert s. induction es as [|e es IH]; intros s Hr; simpl; [by intros [= <-]|].
  destruct (step e s) as [s1|] eqn:Hs; [|done]. apply IH. by eapply r_step.
Qed.
End Steps.
