(* ===== verification/Operations.v ===== *)
(** * Operations on a claim: lockProvisionClaimOperation in several processes (vendored)

    [LeaderElector.Run] starts an operation on the claim in a goroutine when it has the lock
    and then only waits: for a result of an operation on the claim, which it learns from the
    events of the claim, for the end of the leader's term, or for a renewal of the lock that
    does not succeed in time.  The operation does not notice when the elector is gone.  This
    file puts the operations, their results and the channels of the electors on top of
    Lease.v, with any number of processes on one claim.  Operations that end before the lease
    can pass on are all in the process that the claim names, whatever the watches deliver; if
    the watches deliver each result once, and only results of operations that were under way,
    such operations exclude each other.

    A watch need not do that: [getPVCEventWatch] begins with the last event of a list, in the
    order of the list, so that failures of earlier operations may be delivered again, and the
    loop of [watchProvisioning] reports a success when the claim is changed or deleted or its
    watch fails.  All these are [Stray] results, which the parameter [strays] allows at any
    time.

    The claim is one that needs a volume all along.  A process calls [Run] again for the claim
    when it has returned, never twice at a time (Queue.v). *)

From S2P Require Import Prelude Effects Controller.
From S2P Require Lease.

Open Scope Z_scope.

(** [provisionClaimOperation] in a goroutine of the process [op_by], since its elector
    acquired the lock. *)
Record operation : Set := Operation { op_by : string; op_since : Z }.

(** The event ProvisioningSucceeded or ProvisioningFailed of an operation.  It is the last
    thing the operation does, except where the PV object could not be saved: then the
    operation goes on to delete its volume, and nobody waits for that (Deployment.v). *)
Record report : Set := Report { rp_of : operation; rp_at : Z; rp_success : bool }.

(** The locks of Lease.v; for the processes that lead, the time at which their term began;
    the operations that have neither recorded a result nor ended without one; the events that
    are still to be sent to the watches;
    and, for the processes in [Run], those sent and not yet received from [task]. *)
Record claim : Set := Claim {
  locks : Lease.system;
  terms : gmap string Z;
  running : list operation;
  reports : list report;
  inboxes : gmap string (list report)
}.

Inductive move : Set :=
| Elect (e : Lease.event)
| Start (p : string)
| End (n : nat) (result : option bool)
| Deliver (n : nat)
| Receive (p : string)
| Stray (p : string) (success : bool)
| TermOver (p : string)
| RenewalOver (p : string)
| Pass (d : Z).

Definition clock (c : claim) : Z := Lease.clock (locks c).
Definition inbox (c : claim) (p : string) : list report := default [] (inboxes c !! p).

#[local] Existing Instance Lease.event_eq_dec.

Section Moves.
(** [longest]: how long an operation can take; [delay]: how long it can take until its result
    is received by the electors of the claim; [strays]: whether the watches deliver results
    that are of no operation under way. *)
Context (ctrl : ProvisionController) (skew : string -> Z) (latency longest delay : Z) (strays : bool).

Definition with_locks (c : claim) (l : Lease.system) : claim :=
  Claim l (terms c) (running c) (reports c) (inboxes c).

Definition elect (e : Lease.event) (c : claim) : option claim :=
  with_locks c <$> Lease.step ctrl skew latency e (locks c).

(** [Run] returns, and the watch is closed. *)
Definition return_ (p : string) (c : claim) : option claim :=
  l ← Lease.step ctrl skew latency (Lease.Return p) (locks c);
  Some (Claim l (delete p (terms c)) (running c) (reports c) (delete p (inboxes c))).

(** What may happen next.  [Elect] has the steps of the election that neither begin nor end
    the leadership of a process; [Start] is the end of [acquire], [End] the record of a result
    or the end of an operation that has none, [Receive] and [Stray] the case of
    [task] in [acquire] and in [renew], [TermOver] that of [timeout], and [RenewalOver] the
    error of [wait.Poll]. *)
Definition advance (m : move) (c : claim) : option claim :=
  match m with
  | Elect (Lease.Return _ | Lease.Tick _) => None
  | Elect (Lease.Success p as e) =>
      match Lease.leading_since (locks c) p with Some _ => elect e c | None => None end
  | Elect e => elect e c
  | Start p =>
      match Lease.leading_since (locks c) p with
      | Some _ => None
      | None =>
          l ← Lease.step ctrl skew latency (Lease.Success p) (locks c);
          Some (Claim l (<[p := clock c]> (terms c)) (Operation p (clock c) :: running c)
                  (reports c) (inboxes c))
      end
  | End n result =>
      o ← running c !! n;
      let reports := match result with
                     | Some success => Report o (clock c) success :: reports c
                     | None => reports c
                     end in
      Some (Claim (locks c) (terms c) (delete n (running c)) reports (inboxes c))
  | Deliver n =>
      r ← reports c !! n;
      Some (Claim (locks c) (terms c) (running c) (delete n (reports c))
              (map_imap (fun p _ => Some (inbox c p ++ [r])) (Lease.procs (locks c))))
  | Receive p =>
      match inbox c p with
      | [] => None
      | r :: rs =>
          match Lease.leading_since (locks c) p, rp_success r with
          | None, false =>
              Some (Claim (locks c) (terms c) (running c) (reports c) (<[p := rs]> (inboxes c)))
          | _, _ => return_ p c
          end
      end
  | Stray p success =>
      if strays then
        match Lease.leading_since (locks c) p, success with
        | None, false => Some c
        | _, _ => return_ p c
        end
      else None
  | TermOver p =>
      t ← terms c !! p;
      if t + termLimit ctrl <=? clock c then return_ p c else None
  | RenewalOver p =>
      t ← Lease.leading_since (locks c) p;
      if t + renewDeadline ctrl <=? clock c then return_ p c else None
  | Pass d =>
      if forallb (fun o => clock c + d <=? op_since o + longest) (running c)
         && forallb (fun r => clock c + d <=? rp_at r + delay) (reports c)
         && bool_decide (map_Forall (fun _ rs => Forall (fun r => clock c + d <= rp_at r + delay) rs)
                           (inboxes c))
      then elect (Lease.Tick d) c else None
  end.

Definition start (t : Z) : claim := Claim (Lease.start t) ∅ [] [] ∅.

Inductive reachable : claim -> Prop :=
| r_start t : reachable (start t)
| r_move c m c' : reachable c -> advance m c = Some c' -> reachable c'.

Fixpoint play (ms : list move) (c : claim) : option claim :=
  match ms with
  | [] => Some c
  | m :: ms => match advance m c with Some c => play ms c | None => None end
  end.

Lemma plays_reachable ms c c' : reachable c -> play ms c = Some c' -> reachable c'.
Proof.
  revert c. induction ms as [|m ms IH]; intros c Hr; simpl; [by intros [= <-]|].
  destruct (advance m c) as [c1|] eqn:Hm; [|done]. apply IH. by eapply r_move.
Qed.

Context (Hlat : 0 <= latency) (Hlong : 0 <= longest <= renewDeadline ctrl).
Context (Hlease : renewDeadline ctrl + 3 * latency + Second <= leaseDuration ctrl).

Lemma lease_invariant_step e l l' :
  Lease.invariant ctrl skew latency l -> Lease.step ctrl skew latency e l = Some l' ->
  Lease.invariant ctrl skew latency l'.
Proof using All. intros. eapply (Lease.invariant_step ctrl skew latency); eauto; lia. Qed.

(** ** Whatever the watches deliver *)

(** An operation has the word of its process in the claim behind it, written when it began. *)
Definition backed (l : Lease.system) (o : operation) : Prop :=
  op_since o <= Lease.clock l
  /\ exists w, Lease.holds l (op_by o) (Lease.stage_of l (op_by o)) w
               /\ op_since o <= Lease.w_begin w + latency.

(** The word of a process is the last one in the claim. *)
Lemma backed_holder l o :
  backed l o -> Lease.HolderIdentity (Lease.current l) = op_by o.
Proof. intros (_ & w & Hw & _). by eapply Lease.holds_head. Qed.

(** A step of the election keeps what backs an operation, while the lease runs. *)
Lemma backed_step e l l' o :
  Lease.invariant ctrl skew latency l -> Lease.step ctrl skew latency e l = Some l' ->
  Lease.clock l <= op_since o + renewDeadline ctrl -> backed l o -> backed l' o.
Proof using All.
  intros Hinv Hstep Htime [Hs (w & Hw & Hb)]. destruct (Lease.clock_step _ _ _ _ _ _ Hstep).
  split; [lia|]. exists w. split; [|done].
  eapply (Lease.holds_through ctrl skew latency); eauto; unfold Lease.lease_runs; lia.
Qed.

(** What a move does to the lock and to the operations: nothing, or fewer operations; a step of
    the election; or a new leader with its operation. *)
Inductive effect (c c' : claim) : Prop :=
| fewer : locks c' = locks c -> running c' ⊆ running c -> effect c c'
| elected e :
    Lease.step ctrl skew latency e (locks c) = Some (locks c') -> running c' = running c ->
    (Lease.elapsed e = 0 \/ Forall (fun o => clock c' <= op_since o + longest) (running c)) ->
    effect c c'
| begun p :
    Lease.step ctrl skew latency (Lease.Success p) (locks c) = Some (locks c') ->
    running c' = Operation p (clock c) :: running c -> effect c c'.

Lemma elect_effect e c c' : elect e c = Some c' -> Lease.elapsed e = 0 -> effect c c'.
Proof. intros (l & Hl & ->)%fmap_Some He. eapply elected; [exact Hl|done|by left]. Qed.

Lemma return_effect p c c' : return_ p c = Some c' -> effect c c'.
Proof. intros (l & Hl & [= <-])%bind_Some. eapply elected; [exact Hl|done|by left]. Qed.

Lemma pass_effect d c c' : advance (Pass d) c = Some c' -> effect c c'.
Proof.
  simpl. intros Hm. destruct (forallb _ _ && _ && _) eqn:Htime; [|done].
  apply andb_true_iff in Htime as [[Hr _]%andb_true_iff _]. rewrite forallb_forall in Hr.
  apply fmap_Some in Hm as (l & Hstep & ->). eapply elected; [exact Hstep|done|right].
  destruct (Lease.clock_step _ _ _ _ _ _ Hstep) as [Hclock _]. simpl in Hclock.
  apply Forall_forall. intros o Ho. unfold clock. simpl. rewrite Hclock.
  apply Z.leb_le, Hr. by apply list_elem_of_In.
Qed.

Lemma advance_effect m c c' : advance m c = Some c' -> effect c c'.
Proof.
  intros Hm. destruct m as [e|p|n result|n|p|p b|p|p|d]; [..|by eapply pass_effect].
  - destruct e; simpl in Hm; try done; try (by eapply elect_effect).
    destruct (Lease.leading_since _ _); [by eapply elect_effect|done].
  - cbn [advance] in Hm. destruct (Lease.leading_since _ _); [done|].
    apply bind_Some in Hm as (l & Hl & [= <-]). by eapply begun.
  - apply bind_Some in Hm as (o & Ho & [= <-]). apply fewer; [done|].
    intros x. apply list_elem_of_delete_inv.
  - apply bind_Some in Hm as (r & Hr & [= <-]). by apply fewer.
  - simpl in Hm. destruct (inbox c p) as [|r rs]; [done|].
    destruct (Lease.leading_since _ _), (rp_success r); try (by eapply return_effect).
    injection Hm as <-. by apply fewer.
  - simpl in Hm. destruct strays; [|done].
    destruct (Lease.leading_since _ _), b; try (by eapply return_effect). injection Hm as <-. by apply fewer.
  - apply bind_Some in Hm as (t & _ & Hm). destruct (_ <=? _); [by eapply return_effect|done].
  - apply bind_Some in Hm as (t & _ & Hm). destruct (_ <=? _); [by eapply return_effect|done].
Qed.

(** Every operation that runs is backed. *)
Record placed (c : claim) : Prop := {
  p_locks : Lease.invariant ctrl skew latency (locks c);
  p_running : Forall (fun o => clock c <= op_since o + longest /\ backed (locks c) o) (running c)
}.

Lemma placed_step e c c' :
  placed c -> Lease.step ctrl skew latency e (locks c) = Some (locks c') ->
  (Lease.elapsed e = 0 \/ Forall (fun o => clock c' <= op_since o + longest) (running c)) ->
  Forall (fun o => clock c' <= op_since o + longest /\ backed (locks c') o) (running c).
Proof using All.
  intros [Hl Hr] Hstep Htime. destruct (Lease.clock_step _ _ _ _ _ _ Hstep) as [Hclock _].
  rewrite !Forall_forall in *. intros o Ho. destruct (Hr o Ho) as [Ht Hb].
  split; [|eapply backed_step; [done..|unfold clock in *; lia|done]].
  destruct Htime as [He|Htime]; [unfold clock in *; lia|by apply Htime].
Qed.

Lemma placed_advance m c c' : placed c -> advance m c = Some c' -> placed c'.
Proof using All.
  intros Hc [Hl Hr|e Hstep Hr Htime|p Hstep Hr]%advance_effect.
  - destruct Hc as [Hi Ha]. unfold clock in Ha. split; unfold clock; rewrite Hl; [done|].
    rewrite Forall_forall in *. auto.
  - split; [by eapply lease_invariant_step; [apply Hc|]|]. rewrite Hr. by eapply placed_step.
  - split; [by eapply lease_invariant_step; [apply Hc|]|]. rewrite Hr.
    destruct (Lease.clock_step _ _ _ _ _ _ Hstep) as [Hclock _]. simpl in Hclock.
    constructor; [|by eapply placed_step; [..|left]]. split; [unfold clock in *; simpl; lia|].
    split; [unfold clock in *; simpl; lia|]. simpl.
    refine (proj2 (Lease.leading_since_holds _ _ _ _ _ _ _ (Lease.leading_since_success _ _ _ _ _ _ Hstep))).
    eapply lease_invariant_step, Hstep. apply Hc.
Qed.

Lemma reachable_placed c : reachable c -> placed c.
Proof using All.
  induction 1 as [t|c m c' _ IH Hm]; [|by eapply placed_advance].
  split; [|constructor]. split; [constructor|constructor|apply map_Forall_empty].
Qed.

(** All operations that run on a claim are in the process that it names, if they end within the
    deadline for a renewal: whatever the watches deliver, whatever the offsets of the clocks,
    whichever reads and writes of the claim fail, are delayed or lost, and whenever an elector
    gives up.  There may be several of them, if the process began another one. *)
Theorem operations_placed c o :
  reachable c -> o ∈ running c -> Lease.HolderIdentity (Lease.current (locks c)) = op_by o.
Proof using All.
  intros Hc%reachable_placed Ho. pose proof (p_running _ Hc) as Hr. rewrite Forall_forall in Hr.
  apply backed_holder. by apply Hr.
Qed.

(** ** The invariant, if no result is stray *)

(** The operations of which the elector of [p] can still learn. *)
Definition news (c : claim) (p : string) : list report := reports c ++ inbox c p.
Definition unread (c : claim) (p : string) : list operation := running c ++ (rp_of <$> news c p).
Definition own (c : claim) (p : string) : list operation :=
  filter (fun o => op_by o = p) (unread c p).

Definition timely (t : Z) (r : report) : Prop :=
  rp_at r <= op_since (rp_of r) + longest /\ t <= rp_at r + delay.

(** A term has one operation, the one that began it. *)
Definition term_ok (c : claim) (p : string) : Prop :=
  match terms c !! p with
  | Some s => own c p ⊆+ [Operation p s]
              /\ exists t, Lease.leading_since (locks c) p = Some t /\ s <= t
  | None => own c p = [] /\ Lease.leading_since (locks c) p = None
  end.

Record invariant (c : claim) : Prop := {
  i_locks : Lease.invariant ctrl skew latency (locks c);
  i_running : Forall (fun o => clock c <= op_since o + longest) (running c);
  i_news p : Forall (timely (clock c)) (news c p);
  i_backed p : Forall (backed (locks c)) (unread c p);
  i_terms p : term_ok c p
}.

Context (Hstray : strays = false) (Hdelay : 0 <= delay).
Context (Hrenew : longest + delay < renewDeadline ctrl).
Context (Hterm : longest + delay < termLimit ctrl).

Lemma unread_in_time c p o :
  invariant c -> o ∈ unread c p -> clock c <= op_since o + longest + delay.
Proof using Hdelay.
  intros Hinv. pose proof (i_running _ Hinv) as Hr. pose proof (i_news _ Hinv p) as Hn.
  rewrite Forall_forall in Hr. rewrite Forall_forall in Hn. unfold unread. rewrite elem_of_app.
  intros [Ho|(r & -> & Hin)%list_elem_of_fmap]; [specialize (Hr o Ho); lia|].
  destruct (Hn r Hin). lia.
Qed.

Lemma leading_holder l p t :
  Lease.invariant ctrl skew latency l -> Lease.leading_since l p = Some t ->
  Lease.HolderIdentity (Lease.current l) = p.
Proof.
  intros Hinv Ht. destruct (Lease.leading_since_holds _ _ _ _ _ _ Hinv Ht) as (_ & w & Hw & _).
  by eapply Lease.holds_head.
Qed.

(** ** Preservation *)

Lemma filter_submseteq {A} (P : A -> Prop) `{!forall x, Decision (P x)} l k :
  l ⊆+ k -> filter P l ⊆+ filter P k.
Proof.
  induction 1 as [|x l k _ IH|x y l|x l k _ IH|l1 l2 l3 _ IH1 _ IH2]; rewrite ?filter_cons.
  - done.
  - case_decide; [by constructor|done].
  - repeat case_decide; (done || constructor).
  - case_decide; [by constructor|done].
  - by etrans.
Qed.

Lemma filter_all {A} (P : A -> Prop) `{!forall x, Decision (P x)} l : Forall P l -> filter P l = l.
Proof. induction 1 as [|x l Hx _ IH]; [done|]. by rewrite filter_cons_True, IH. Qed.

(** Operations disappear: they end without a result, or their result is received. *)
Lemma own_mono c c' p : unread c' p ⊆+ unread c p -> own c' p ⊆+ own c p.
Proof. apply filter_submseteq. Qed.

Lemma elem_of_own c p o : o ∈ own c p <-> o ∈ unread c p /\ op_by o = p.
Proof. unfold own. rewrite list_elem_of_filter. tauto. Qed.

(** What is said of one process when the operations of which it can learn only become fewer. *)
Lemma term_ok_mono c c' p :
  terms c' !! p = terms c !! p -> Lease.leading_since (locks c') p = Lease.leading_since (locks c) p ->
  own c' p ⊆+ own c p -> term_ok c p -> term_ok c' p.
Proof.
  unfold term_ok. intros -> -> Hown. destruct (terms c !! p) as [s|].
  - intros [Ho ?]. split; [by etrans|done].
  - intros [Ho ?]. rewrite Ho in Hown. split; [by apply submseteq_nil_r|done].
Qed.

(** A step of the election with what it does to the operations and to the term of [p]. *)
Lemma invariant_locks e c c' :
  invariant c -> Lease.step ctrl skew latency e (locks c) = Some (locks c') ->
  Forall (fun o => clock c' <= op_since o + longest) (running c') ->
  (forall q, Forall (timely (clock c')) (news c' q)) ->
  (forall q o, o ∈ unread c' q -> o ∈ unread c q \/ backed (locks c') o) ->
  (forall q, term_ok c' q) -> invariant c'.
Proof using All.
  intros Hinv Hstep Hr Hn Hb Ht. split; [by eapply lease_invariant_step, Hstep; apply Hinv|done|done| |done].
  intros q. apply Forall_forall. intros o Ho. destruct (Hb q o Ho) as [Hin|]; [|done].
  eapply backed_step; [apply Hinv|exact Hstep| |].
  { pose proof (unread_in_time c q o Hinv Hin). unfold clock in *. lia. }
  pose proof (i_backed _ Hinv q) as Hq. rewrite Forall_forall in Hq. by apply Hq.
Qed.

(** The processes in [Run] keep their inboxes, their news and their terms. *)
Lemma invariant_elect e c c' :
  invariant c -> elect e c = Some c' -> Lease.elapsed e = 0 ->
  (forall q, e <> Lease.Return q) ->
  (forall q, e = Lease.Success q -> is_Some (Lease.leading_since (locks c) q)) -> invariant c'.
Proof using All.
  unfold elect. intros Hinv (l & Hstep & ->)%fmap_Some Htick Hret Hsucc.
  destruct (Lease.clock_step _ _ _ _ _ _ Hstep) as [Hclock _]. rewrite Htick, Z.add_0_r in Hclock.
  apply (invariant_locks e c); try done.
  - unfold clock. simpl. rewrite Hclock. apply Hinv.
  - intros q. unfold clock. simpl. rewrite Hclock. apply Hinv.
  - auto.
  - intros q. pose proof (i_terms _ Hinv q) as Hq. destruct (decide (e = Lease.Success q)) as [->|Hne].
    + destruct (Hsucc q eq_refl) as [t Ht]. unfold term_ok in *. simpl.
      destruct (terms c !! q) as [s|]; [|destruct Hq; congruence].
      destruct Hq as [Hown (t' & Ht' & Hs)]. split; [exact Hown|].
      exists (clock c). split; [by eapply Lease.leading_since_success|].
      destruct (Lease.leading_since_holds _ _ _ _ _ _ (i_locks _ Hinv) Ht') as [? _]. unfold clock. lia.
    + apply (term_ok_mono c); [done| |done|done]. by eapply Lease.leading_since_step.
Qed.

(** The operations of which a process can learn become fewer, for every process. *)
Lemma invariant_fewer c c' :
  invariant c -> locks c' = locks c -> terms c' = terms c -> running c' ⊆+ running c ->
  (forall q r, r ∈ news c' q -> r ∈ news c q \/ timely (clock c) r) ->
  (forall q, unread c' q ⊆+ unread c q) -> invariant c'.
Proof.
  intros Hinv Hl Ht Hr Hn Hu. unfold clock in *. split; rewrite ?Hl; [apply Hinv|..].
  - unfold clock. rewrite Hl. rewrite Forall_forall. intros o Ho. pose proof (i_running _ Hinv) as Hall.
    rewrite Forall_forall in Hall. apply Hall. by eapply elem_of_submseteq.
  - intros q. unfold clock. rewrite Hl. apply Forall_forall. intros r Hin. pose proof (i_news _ Hinv q) as Hall.
    rewrite Forall_forall in Hall. destruct (Hn q r Hin); [by apply Hall|done].
  - intros q. apply Forall_forall. intros o Ho. pose proof (i_backed _ Hinv q) as Hall.
    rewrite Forall_forall in Hall. apply Hall. by eapply elem_of_submseteq.
  - intros q. apply (term_ok_mono c); [by rewrite Ht|by rewrite Hl|by apply own_mono|apply Hinv].
Qed.

Lemma invariant_end n result c c' : invariant c -> advance (End n result) c = Some c' -> invariant c'.
Proof using All.
  simpl. intros Hinv (o & Ho & [= <-])%bind_Some.
  pose proof (delete_Permutation _ _ _ Ho) as Hperm.
  assert (running c !! n = Some o -> timely (clock c) (Report o (clock c) true)) as Hnow.
  { intros _. pose proof (i_running _ Hinv) as Hr. rewrite Forall_forall in Hr.
    specialize (Hr o ltac:(by eapply list_elem_of_lookup_2)). split; simpl; lia. }
  apply (invariant_fewer c); try done.
  - simpl. rewrite Hperm at 2. by apply submseteq_cons.
  - intros q r. unfold news, inbox. simpl. destruct result as [b|]; [|auto]. simpl.
    intros [->|?]%elem_of_cons; [right; by apply Hnow|by left].
  - intros q. unfold unread, news, inbox. simpl. rewrite Hperm at 2. destruct result as [b|]; simpl.
    + by rewrite Permutation_middle.
    + by apply submseteq_cons.
Qed.

Lemma invariant_deliver n c c' : invariant c -> advance (Deliver n) c = Some c' -> invariant c'.
Proof using All.
  simpl. intros Hinv (r & Hr & [= <-])%bind_Some.
  pose proof (delete_Permutation _ _ _ Hr) as Hperm.
  assert (forall q, delete n (reports c) ++ inbox (Claim (locks c) (terms c) (running c) (delete n (reports c))
    (map_imap (fun p _ => Some (inbox c p ++ [r])) (Lease.procs (locks c)))) q ⊆+ news c q) as Hnews.
  { intros q. transitivity (r :: delete n (reports c) ++ inbox c q).
    - unfold inbox at 1. simpl. rewrite map_lookup_imap. destruct (Lease.procs (locks c) !! q); simpl.
      + by rewrite (Permutation_app_comm (inbox c q)), Permutation_middle.
      + rewrite app_nil_r. apply submseteq_cons. by apply submseteq_inserts_r.
    - unfold news. by rewrite Hperm at 2. }
  apply (invariant_fewer c); try done.
  - intros q r' Hin. left. eapply elem_of_submseteq; [exact Hin|apply Hnews].
  - intros q. unfold unread. apply submseteq_skips_l. apply fmap_submseteq, Hnews.
Qed.

(** [Run] returns. *)
Lemma invariant_return p c c' :
  invariant c -> return_ p c = Some c' ->
  filter (fun o => op_by o = p) (running c ++ (rp_of <$> reports c)) = [] -> invariant c'.
Proof using All.
  unfold return_. intros Hinv (l & Hstep & [= <-])%bind_Some Hown.
  destruct (Lease.clock_step _ _ _ _ _ _ Hstep) as [Hclock _]. simpl in Hclock. rewrite Z.add_0_r in Hclock.
  set (c' := Claim _ _ _ _ _).
  assert (forall q, q <> p -> inbox c' q = inbox c q) as Hinbox.
  { intros q Hq. unfold inbox. simpl. by rewrite lookup_delete_ne. }
  assert (inbox c' p = []) as Hempty by (unfold inbox; simpl; by rewrite lookup_delete_eq).
  assert (forall q, news c' q ⊆+ news c q) as Hnews.
  { intros q. unfold news. apply submseteq_skips_l. destruct (decide (q = p)) as [->|Hq].
    - rewrite Hempty. apply submseteq_nil_l.
    - by rewrite Hinbox. }
  apply (invariant_locks (Lease.Return p) c); try done.
  - unfold clock. simpl. rewrite Hclock. apply Hinv.
  - intros q. unfold clock. simpl. rewrite Hclock. pose proof (i_news _ Hinv q) as Hq.
    rewrite Forall_forall in Hq |- *. intros r Hr. apply Hq. by eapply elem_of_submseteq.
  - intros q o Ho. left. eapply elem_of_submseteq; [exact Ho|]. unfold unread.
    apply submseteq_skips_l. apply fmap_submseteq, Hnews.
  - intros q. destruct (decide (q = p)) as [->|Hq].
    + unfold term_ok, own, unread, news. simpl. rewrite lookup_delete_eq, Hempty, app_nil_r.
      split; [exact Hown|]. by eapply Lease.leading_since_return.
    + apply (term_ok_mono c); [simpl; by rewrite lookup_delete_ne| | |apply Hinv].
      * eapply Lease.leading_since_step; [exact Hstep|congruence|done].
      * unfold own, unread, news. by rewrite Hinbox.
Qed.
(** The process that leads receives the result of its own operation, which has then ended. *)
Lemma invariant_receive p c c' : invariant c -> advance (Receive p) c = Some c' -> invariant c'.
Proof using All.
  simpl. intros Hinv Hm. destruct (inbox c p) as [|r rs] eqn:Hin; [done|].
  assert (forall t, Lease.leading_since (locks c) p = Some t -> op_by (rp_of r) = p) as Hby.
  { intros t Ht. pose proof (i_backed _ Hinv p) as Hb. rewrite Forall_forall in Hb.
    specialize (Hb (rp_of r)). unfold unread, news in Hb. rewrite Hin, fmap_app in Hb.
    rewrite <- (backed_holder _ _ (Hb ltac:(set_solver))). eapply leading_holder; [apply Hinv|exact Ht]. }
  pose proof (i_terms _ Hinv p) as Hterms. unfold term_ok, own, unread, news in Hterms.
  rewrite Hin, fmap_app, app_assoc, filter_app in Hterms.
  destruct (Lease.leading_since (locks c) p) as [t|] eqn:Ht.
  - apply (invariant_return p c); [done|by destruct (rp_success r)|].
    destruct (terms c !! p) as [s|]; [|by destruct Hterms]. destruct Hterms as [Hown _].
    apply submseteq_length in Hown. simpl in Hown. rewrite filter_cons_True in Hown by by eapply Hby.
    apply nil_length_inv. rewrite length_app in Hown. simpl in Hown. lia.
  - destruct (terms c !! p) as [s|]; [by destruct Hterms as (_ & ? & ? & _)|].
    destruct Hterms as [[Hown _]%app_nil _].
    destruct (rp_success r); [by eapply invariant_return|]. injection Hm as <-.
    assert (forall q, news (Claim (locks c) (terms c) (running c) (reports c) (<[p:=rs]> (inboxes c))) q ⊆+ news c q)
      as Hnews.
    { intros q. unfold news. simpl. apply submseteq_skips_l. unfold inbox at 1. simpl.
      destruct (decide (q = p)) as [->|Hq].
      - rewrite lookup_insert_eq, Hin. by apply submseteq_cons.
      - by rewrite lookup_insert_ne. }
    apply (invariant_fewer c); try done.
    + intros q r' Hr. left. eapply elem_of_submseteq; [exact Hr|apply Hnews].
    + intros q. unfold unread. apply submseteq_skips_l. apply fmap_submseteq, Hnews.
Qed.

(** Late enough in its term, a process has no operation that can be heard of. *)
Lemma term_settled c p s :
  invariant c -> terms c !! p = Some s -> s + longest + delay < clock c ->
  filter (fun o => op_by o = p) (running c ++ (rp_of <$> reports c)) = [].
Proof using All.
  intros Hinv Hs Hlate. pose proof (i_terms _ Hinv p) as Hp. unfold term_ok in Hp. rewrite Hs in Hp.
  destruct Hp as [Hown _]. destruct (filter _ _) as [|o l] eqn:Hf; [done|].
  assert (o ∈ own c p) as Ho.
  { apply elem_of_own. assert (o ∈ filter (fun o => op_by o = p) (running c ++ (rp_of <$> reports c))) as Hin.
    { rewrite Hf. by left. }
    apply list_elem_of_filter in Hin as [Hby Hin]. split; [|done].
    unfold unread, news. rewrite fmap_app. set_solver. }
  pose proof (elem_of_submseteq _ _ _ Ho Hown) as ->%list_elem_of_singleton.
  apply elem_of_own in Ho as [Ho _]. apply unread_in_time in Ho; [simpl in Ho; lia|done].
Qed.

Lemma invariant_start p c c' : invariant c -> advance (Start p) c = Some c' -> invariant c'.
Proof using All.
  cbn [advance]. intros Hinv Hm. destruct (Lease.leading_since (locks c) p) as [t|] eqn:Ht; [done|].
  apply bind_Some in Hm as (l & Hstep & [= <-]). set (c' := Claim _ _ _ _ _).
  destruct (Lease.clock_step _ _ _ _ _ _ Hstep) as [Hclock _]. simpl in Hclock. rewrite Z.add_0_r in Hclock.
  pose proof (Lease.leading_since_success _ _ _ _ _ _ Hstep) as Hsince. fold (clock c) in Hsince.
  assert (clock c' = clock c) as Hnow by exact Hclock.
  apply (invariant_locks (Lease.Success p) c); try done.
  - rewrite Hnow. constructor; [simpl; lia|apply Hinv].
  - intros q. rewrite Hnow. apply Hinv.
  - intros q o [->|Ho]%elem_of_cons; [right|by left]. split; [simpl; unfold clock; lia|].
    refine (proj2 (Lease.leading_since_holds _ _ _ _ _ _ _ Hsince)).
    eapply lease_invariant_step, Hstep. apply Hinv.
  - intros q. pose proof (i_terms _ Hinv q) as Hq. unfold term_ok, own in *.
    change (unread c' q) with (Operation p (clock c) :: unread c q). simpl. rewrite filter_cons. simpl.
    case_decide as Hp.
    + subst q. rewrite lookup_insert_eq. destruct (terms c !! p) as [s|]; [destruct Hq as (_ & ? & ? & _); congruence|].
      destruct Hq as [-> _]. split; [done|]. by exists (clock c).
    + rewrite lookup_insert_ne by congruence.
      rewrite (Lease.leading_since_step _ _ _ _ _ _ q Hstep) by congruence. exact Hq.
Qed.

Lemma invariant_pass d c c' : invariant c -> advance (Pass d) c = Some c' -> invariant c'.
Proof using All.
  simpl. intros Hinv Hm. destruct (forallb _ _ && _ && _) eqn:Htime; [|done].
  apply andb_true_iff in Htime as [[Hr Hn]%andb_true_iff Hi%bool_decide_eq_true].
  rewrite !forallb_forall in *.
  unfold elect in Hm. apply fmap_Some in Hm as (l & Hstep & ->).
  destruct (Lease.clock_step _ _ _ _ _ _ Hstep) as [Hclock Hd]. simpl in Hclock, Hd.
  apply (invariant_locks (Lease.Tick d) c); try done.
  - apply Forall_forall. intros o Ho. unfold clock. simpl. rewrite Hclock.
    apply Z.leb_le, Hr. by apply list_elem_of_In.
  - intros q. pose proof (i_news _ Hinv q) as Hq. rewrite Forall_forall in Hq |- *. intros r Hin.
    split; [by apply Hq|]. unfold clock. simpl. rewrite Hclock. apply elem_of_app in Hin as [Hin|Hin].
    + apply Z.leb_le, Hn. by apply list_elem_of_In.
    + unfold inbox in Hin. simpl in Hin. destruct (inboxes c !! q) as [rs|] eqn:Hrs; [|by apply not_elem_of_nil in Hin].
      specialize (Hi q rs Hrs). rewrite Forall_forall in Hi. by apply Hi.
  - auto.
  - intros q. apply (term_ok_mono c); [done| |done|apply Hinv]. by eapply Lease.leading_since_step.
Qed.

Lemma invariant_advance m c c' : invariant c -> advance m c = Some c' -> invariant c'.
Proof using All.
  intros Hinv Hm. destruct m as [e|p|n result|n|p|p b|p|p|d].
  - destruct e; simpl in Hm; try done; try (by eapply invariant_elect).
    destruct (Lease.leading_since (locks c) p) eqn:Ht; [|done].
    eapply invariant_elect; try done. intros q [= <-]. by rewrite Ht.
  - by eapply invariant_start.
  - by eapply invariant_end.
  - by eapply invariant_deliver.
  - by eapply invariant_receive.
  - simpl in Hm. by rewrite Hstray in Hm.
  - simpl in Hm. apply bind_Some in Hm as (s & Hs & Hm). destruct (Z.leb_spec (s + termLimit ctrl) (clock c)); [|done].
    eapply invariant_return; [done..|]. eapply term_settled; [done..|lia].
  - simpl in Hm. apply bind_Some in Hm as (t & Ht & Hm).
    destruct (Z.leb_spec (t + renewDeadline ctrl) (clock c)); [|done].
    eapply invariant_return; [done..|]. pose proof (i_terms _ Hinv p) as Hp. unfold term_ok in Hp.
    destruct (terms c !! p) as [s|] eqn:Hs; [|destruct Hp; congruence]. destruct Hp as (_ & t' & Ht' & Hle).
    eapply term_settled; [done..|]. rewrite Ht in Ht'. injection Ht' as ->. lia.
  - by eapply invariant_pass.
Qed.

Lemma operations_invariant c : reachable c -> invariant c.
Proof using All.
  induction 1 as [t|c m c' _ IH Hm]; [|by eapply invariant_advance].
  split; [|constructor|intros; constructor|intros; constructor|done].
  split; [constructor|constructor|apply map_Forall_empty].
Qed.

(** Short operations are exclusive: however many provisioners serve a claim, at most
    one operation that has not recorded its result runs on it at any time, in the process
    whose identity is in the claim, and this process leads until the result is recorded. That
    is, when an operation and the receipt of its result take less time together than the
    deadline for a renewal and less than the term: whatever the offsets of the clocks,
    whichever reads and writes of the claim fail, are delayed or lost, and whenever an elector
    gives up. *)
Theorem operations_exclusive c :
  reachable c ->
  (length (running c) <= 1)%nat
  /\ forall o, o ∈ running c -> Lease.leads (locks c) (op_by o)
                /\ Lease.HolderIdentity (Lease.current (locks c)) = op_by o.
Proof using All.
  intros Hinv%operations_invariant. set (p := Lease.HolderIdentity (Lease.current (locks c))).
  assert (forall o, o ∈ running c -> op_by o = p) as Hby.
  { intros o Ho. pose proof (i_backed _ Hinv p) as Hb. rewrite Forall_forall in Hb. symmetry.
    apply backed_holder, Hb. unfold unread. set_solver. }
  pose proof (i_terms _ Hinv p) as Hp. unfold term_ok, own, unread in Hp.
  rewrite filter_app in Hp.
  assert (filter (fun o => op_by o = p) (running c) = running c) as Hall.
  { by apply filter_all, Forall_forall. }
  rewrite Hall in Hp. destruct (terms c !! p) as [s|].
  - destruct Hp as [Hown%submseteq_length (t & Ht & _)]. rewrite length_app in Hown. simpl in Hown.
    split; [lia|]. intros o Ho. rewrite (Hby o Ho). split; [by eapply Lease.leading_since_leads|done].
  - destruct Hp as [[Hr _]%app_nil _]. rewrite Hr. split; [simpl; lia|]. by intros o ?%not_elem_of_nil.
Qed.
End Moves.
