(* ===== verification/Overlap.v ===== *)
(** * Operations that are too long

    What Operations.v asks of operations is needed.  One that goes on when the lease of its
    process has passed on overlaps with one in another process; and one that goes on when
    the term of its elector is over overlaps with the next one in the same process, which
    finds its own name in the claim and has the lock at once.  Nothing stops an operation,
    so with the limits that cmd/main.go sets the number of those that run at once is bounded
    only by the time that each can take. *)

From S2P Require Import Prelude Effects Controller.
From S2P Require Version Lease Operations.
Import Operations.

Open Scope Z_scope.

Section Mono.
Context (ctrl : ProvisionController) (skew : string -> Z) (latency : Z) (strays : bool).

Lemma advance_mono longest longest' delay delay' m c c' :
  longest <= longest' -> delay <= delay' ->
  advance ctrl skew latency longest delay strays m c = Some c' ->
  advance ctrl skew latency longest' delay' strays m c = Some c'.
Proof.
  intros Hl Hd. destruct m as [| | | | | | | |d]; try done. cbn [advance].
  destruct (forallb _ _ && _ && _) eqn:Htime; [|done]. intros <-. rewrite (proj2 (andb_true_iff _ _)); [done|].
  apply andb_true_iff in Htime as [[Hr Hn]%andb_true_iff Hi%bool_decide_eq_true].
  rewrite !forallb_forall in *. rewrite andb_true_iff, !forallb_forall, bool_decide_eq_true.
  split; [split; intros x Hx; [specialize (Hr x Hx)|specialize (Hn x Hx)]; lia|].
  eapply map_Forall_impl; [exact Hi|]. intros p rs Hrs. eapply Forall_impl; [exact Hrs|]. simpl. lia.
Qed.

Lemma reachable_mono longest longest' delay delay' c :
  longest <= longest' -> delay <= delay' ->
  reachable ctrl skew latency longest delay strays c -> reachable ctrl skew latency longest' delay' strays c.
Proof. induction 3 as [t|c m c' _ IH Hm]; [constructor|]. eapply r_move; [exact IH|by eapply advance_mono]. Qed.
End Mono.

(** A process that tries for the lock, and one that gets it. *)
Definition attempt (p : string) : list move :=
  Elect <$> [Lease.Try p; Lease.Get p; Lease.Decide p].
Definition acquisition (p : string) : list move := attempt p ++ [Elect (Lease.Apply 0); Start p].

(** What happens when the leader's renewals fail from the start. *)
Definition lost_lease (p q : string) : list move :=
  [Elect (Lease.Run p); Elect (Lease.Run q)] ++ acquisition p ++ attempt q
  ++ [Pass (10 * Second); RenewalOver p; Pass (5 * Second)] ++ acquisition q.

Lemma played (o : option claim) (P : claim -> Prop) :
  match o with Some c => P c | None => False end -> exists c, o = Some c /\ P c.
Proof. destruct o as [c|]; [|done]. eauto. Qed.

Definition no_skew (p : string) : Z := 0.

(** With the deadlines that cmd/main.go sets, operations of 15 seconds can overlap, even if
    all clocks agree: a leader that cannot renew the lock gives it up after 10 seconds, its
    operation goes on, and another process acquires the lock after 15. *)
Theorem lost_lease_overlap name version longest delay strays :
  15 * Second <= longest -> 0 <= delay ->
  exists c, reachable (main_controller name version) no_skew Second longest delay strays c
    /\ (op_by <$> running c) = ["q"; "p"].
Proof.
  intros Hlong Hdelay. set (ctrl := main_controller name version).
  assert (match play ctrl no_skew Second (15 * Second) 0 strays (lost_lease "p" "q") (start 0) with
          | Some c => (op_by <$> running c) = ["q"; "p"]
          | None => False
          end) as Hplay by by vm_compute.
  apply played in Hplay as (c & Hc & Hby). exists c. split; [|exact Hby].
  eapply reachable_mono; [exact Hlong|exact Hdelay|].
  exact (plays_reachable _ _ _ _ _ _ _ _ _ (r_start _ _ _ _ _ _ 0) Hc).
Qed.

(** ** Terms that end before the operation *)

Section Terms.
Context (name : string) (version : Version.Version) (skew : string -> Z) (latency longest delay : Z) (strays : bool).
Context (p : string).
Context (Hlat : 0 <= latency).
Abbreviation ctrl := (main_controller name version).
Abbreviation playing := (play ctrl skew latency longest delay strays).

(** [p] is the only process in [Run], at a point of its elector. *)
Definition alone (t : Z) (v : nat) (log : list Lease.write) (net : list Lease.request)
    (x : Lease.process) : Lease.system :=
  Lease.System t v log net {[p := x]}.

(** The claim names [p], or nobody and the elector has not looked yet. *)
Definition may_take (log : list Lease.write) (le : Lease.LeaderElector) : Prop :=
  match log with
  | w :: _ => Lease.HolderIdentity (Lease.w_rec w) = p
  | [] => le = Lease.new_elector
  end.

Lemma alone_set t v log net x y :
  Lease.set_proc (alone t v log net x) p (Some y) = alone t v log net y.
Proof.
  unfold Lease.set_proc, alone. simpl. f_equal. exact (insert_singleton_eq (M := gmap string) p y x).
Qed.

Lemma alone_proc t v log net x : Lease.procs (alone t v log net x) !! p = Some x.
Proof. apply lookup_singleton_eq. Qed.

Abbreviation lease_step := (Lease.step ctrl skew latency).

Lemma step_try t v log net le l :
  match l with Some t0 => t <= Lease.last_try ctrl latency t0 | None => True end ->
  lease_step (Lease.Try p) (alone t v log net (Lease.Process le Lease.Between l))
  = Some (alone t v log net (Lease.Process le (Lease.Begun t) l)).
Proof.
  intros Ht. unfold Lease.step. rewrite alone_proc, alone_set. simpl.
  destruct l as [t0|]; [|done]. by rewrite (proj2 (Z.leb_le _ _) Ht).
Qed.

Lemma step_get t v log net le now l :
  lease_step (Lease.Get p) (alone t v log net (Lease.Process le (Lease.Begun now) l))
  = Some (alone t v log net (Lease.Process le
      (Lease.Got now (match log with w :: _ => Lease.w_rec w | [] => Lease.zero_record end) v) l)).
Proof. unfold Lease.step. by rewrite alone_proc, alone_set. Qed.

Lemma step_decide t v log net le l :
  may_take log le ->
  exists rq le', Lease.HolderIdentity (Lease.rq_rec rq) = p /\ Lease.rq_version rq = v
    /\ lease_step (Lease.Decide p) (alone t v log net (Lease.Process le
         (Lease.Got t (match log with w :: _ => Lease.w_rec w | [] => Lease.zero_record end) v) l))
       = Some (alone t v log (rq :: net) (Lease.Process le' (Lease.Updating rq) l)).
Proof.
  set (old := match log with w :: _ => Lease.w_rec w | [] => Lease.zero_record end). intros Hle.
  assert (Lease.is_held ctrl (Lease.observe le old t) old p t = false) as Hfree.
  { unfold Lease.is_held, old. destruct log as [|w log']; simpl in Hle; [by subst|].
    rewrite Hle, String.eqb_refl. apply andb_false_r. }
  exists (Lease.Request (Lease.next_record ctrl old p (t + skew p)) t v), (Lease.observe le old t).
  split; [done|]. split; [done|]. unfold Lease.step. rewrite alone_proc. unfold Lease.decide_step. simpl Lease.elector.
  simpl Lease.leading. simpl Lease.clock. by rewrite Hfree, alone_set.
Qed.

Lemma step_apply t v log net le rq l :
  Lease.HolderIdentity (Lease.rq_rec rq) = p -> Lease.rq_version rq = v ->
  exists w, Lease.HolderIdentity (Lease.w_rec w) = p
    /\ lease_step (Lease.Apply 0) (alone t v log (rq :: net) (Lease.Process le (Lease.Updating rq) l))
       = Some (alone t (S v) (w :: log) (rq :: net) (Lease.Process le (Lease.Updated rq) l)).
Proof.
  intros Hp Hv. exists (Lease.Write (Lease.marshal (Lease.rq_rec rq)) (Lease.rq_begin rq) t). split; [done|].
  unfold Lease.step. simpl Lease.net. cbn [lookup list_lookup]. rewrite Hv, Nat.eqb_refl.
  unfold Lease.take. rewrite Hp, alone_proc. simpl Lease.at_stage. cbv iota.
  rewrite bool_decide_true by done. f_equal. apply alone_set.
Qed.

Lemma step_success t v log net le rq l :
  lease_step (Lease.Success p) (alone t v log net (Lease.Process le (Lease.Updated rq) l))
  = Some (alone t v log net (Lease.Process (Lease.acquired (Lease.rq_rec rq) t) Lease.Between (Some t))).
Proof. unfold Lease.step. by rewrite alone_proc, alone_set. Qed.

Lemma step_return t v log net le l :
  lease_step (Lease.Return p) (alone t v log net (Lease.Process le Lease.Between l))
  = Some (Lease.System t v log net ∅).
Proof.
  unfold Lease.step. rewrite alone_proc. unfold Lease.set_proc, alone. simpl. do 2 f_equal.
  exact (delete_singleton_eq (M := gmap string) p _).
Qed.

Lemma step_run t v log net :
  lease_step (Lease.Run p) (Lease.System t v log net ∅)
  = Some (alone t v log net (Lease.Process Lease.new_elector Lease.Between None)).
Proof. reflexivity. Qed.

Lemma step_tick t v log net le t0 d :
  0 <= d -> t + d <= Lease.last_try ctrl latency t0 + latency ->
  lease_step (Lease.Tick d) (alone t v log net (Lease.Process le Lease.Between (Some t0)))
  = Some (alone (t + d) v log net (Lease.Process le Lease.Between (Some t0))).
Proof.
  intros Hd Ht. unfold Lease.step. rewrite (proj2 (Z.leb_le _ _) Hd). rewrite bool_decide_true; [done|].
  apply map_Forall_singleton. unfold Lease.in_time. simpl. by apply Z.leb_le.
Qed.
Abbreviation reached := (reachable ctrl skew latency longest delay strays).

Lemma reached_elect e c l :
  match e with Lease.Return _ | Lease.Tick _ | Lease.Success _ => False | _ => True end ->
  reached c -> lease_step e (locks c) = Some l -> reached (with_locks c l).
Proof.
  intros He Hc Hl. eapply (r_move _ _ _ _ _ _ c (Elect e)); [exact Hc|].
  destruct e; try done; cbn [advance]; unfold elect; by rewrite Hl.
Qed.

(** A try of [p] up to the reply. *)
Lemma reached_try t v log net le l T R I :
  reached (Claim (alone t v log net (Lease.Process le Lease.Between l)) T R [] I) ->
  may_take log le -> match l with Some t0 => t <= Lease.last_try ctrl latency t0 | None => True end ->
  exists w rq le', Lease.HolderIdentity (Lease.w_rec w) = p
    /\ reached (Claim (alone t (S v) (w :: log) (rq :: net) (Lease.Process le' (Lease.Updated rq) l)) T R [] I).
Proof.
  intros Hc Hle Ht.
  eapply (reached_elect (Lease.Try p)) in Hc; [|done|by apply step_try].
  eapply (reached_elect (Lease.Get p)) in Hc; [|done|apply step_get].
  destruct (step_decide t v log net le l Hle) as (rq & le' & Hp & Hv & Hs).
  eapply (reached_elect (Lease.Decide p)) in Hc; [|done|exact Hs].
  destruct (step_apply t v log net le' rq l Hp Hv) as (w & Hw & Ha).
  eapply (reached_elect (Lease.Apply 0)) in Hc; [|done|exact Ha]. by exists w, rq, le'.
Qed.

Lemma alone_since t v log net x : Lease.leading_since (alone t v log net x) p = Lease.leading x.
Proof. unfold Lease.leading_since. by rewrite alone_proc. Qed.

(** The operations are those of [p], not older than the contest. *)
Definition ours (R : list operation) : Prop := Forall (fun o => op_by o = p /\ 0 <= op_since o) R.

(** The leader waits, for as long as it may without a renewal. *)
Lemma reached_wait t v log net le d T R :
  ours R -> 0 <= d <= renewDeadline ctrl -> t + d <= longest ->
  reached (Claim (alone t v log net (Lease.Process le Lease.Between (Some t))) T R [] ∅) ->
  reached (Claim (alone (t + d) v log net (Lease.Process le Lease.Between (Some t))) T R [] ∅).
Proof using All.
  intros Hours Hd Ht Hc. eapply (r_move _ _ _ _ _ _ _ (Pass d)); [exact Hc|]. cbn [advance].
  rewrite (proj2 (forallb_forall _ (running _))).
  2: { intros o Ho%list_elem_of_In. unfold ours in Hours. rewrite Forall_forall in Hours.
    destruct (Hours o Ho). apply Z.leb_le. unfold clock. simpl. lia. }
  cbn [reports inboxes forallb].
  rewrite bool_decide_true by apply map_Forall_empty. unfold elect. cbn [locks andb].
  rewrite step_tick; [done|lia|unfold Lease.last_try; lia].
Qed.

(** It waits, and renews the lock. *)
Lemma reached_renew t v w log net le d T R :
  Lease.HolderIdentity (Lease.w_rec w) = p -> ours R -> 0 <= d <= renewDeadline ctrl -> t + d <= longest ->
  reached (Claim (alone t v (w :: log) net (Lease.Process le Lease.Between (Some t))) T R [] ∅) ->
  exists v' w' log' net' le', Lease.HolderIdentity (Lease.w_rec w') = p
    /\ reached (Claim (alone (t + d) v' (w' :: log') net' (Lease.Process le' Lease.Between (Some (t + d)))) T R [] ∅).
Proof using All.
  intros Hw Hours Hd Ht Hc%(reached_wait _ _ _ _ _ d); [|done..].
  apply reached_try in Hc as (w' & rq & le' & Hw' & Hc); [|exact Hw|unfold Lease.last_try; lia].
  exists (S v), w', (w :: log), (rq :: net), (Lease.acquired (Lease.rq_rec rq) (t + d)). split; [done|].
  eapply (r_move _ _ _ _ _ _ _ (Elect (Lease.Success p))); [exact Hc|]. cbn [advance].
  cbn [locks]. rewrite alone_since. unfold elect. cbn [locks Lease.leading]. by rewrite step_success.
Qed.

(** Nobody is in [Run], at [t], and [n] operations of [p] go on. *)
Definition abandoned (t : Z) (n : nat) : Prop :=
  exists v log net R, may_take log Lease.new_elector /\ ours R /\ length R = n
    /\ reached (Claim (Lease.System t v log net ∅) ∅ R [] ∅).

(** [p] begins another operation. *)
Lemma reached_begin t n :
  0 <= t -> abandoned t n -> exists v w log net R le,
    Lease.HolderIdentity (Lease.w_rec w) = p /\ ours R /\ length R = S n
    /\ reached (Claim (alone t v (w :: log) net (Lease.Process le Lease.Between (Some t))) {[p := t]} R [] ∅).
Proof using All.
  intros Ht (v & log & net & R & Hlog & Hours & Hn & Hc).
  eapply (reached_elect (Lease.Run p)) in Hc; [|done|apply step_run].
  apply reached_try in Hc as (w & rq & le & Hw & Hc); [|done..].
  exists (S v), w, log, (rq :: net), (Operation p t :: R), (Lease.acquired (Lease.rq_rec rq) t).
  split; [done|]. split; [by constructor|]. split; [simpl; lia|].
  eapply (r_move _ _ _ _ _ _ _ (Start p)); [exact Hc|]. cbn [advance].
  cbn [locks]. rewrite alone_since. cbn [Lease.leading]. by rewrite step_success.
Qed.

(** A term ends without the operation. *)
Lemma abandoned_term t n :
  0 <= t -> t + termLimit ctrl <= longest -> abandoned t n -> abandoned (t + termLimit ctrl) (S n).
Proof using All.
  intros Ht Hlong Hc. apply reached_begin in Hc as (v & w & log & net & R & le & Hw & Hours & Hn & Hc); [|done].
  change (termLimit ctrl) with (30 * Second) in *.
  assert (0 <= 10 * Second <= renewDeadline ctrl) as Hd by done.
  apply (reached_renew _ _ _ _ _ _ (10 * Second)) in Hc as (v1 & w1 & log1 & net1 & le1 & Hw1 & Hc); [|done|done|done|lia].
  apply (reached_renew _ _ _ _ _ _ (10 * Second)) in Hc as (v2 & w2 & log2 & net2 & le2 & Hw2 & Hc); [|done|done|done|lia].
  apply (reached_wait _ _ _ _ _ (10 * Second)) in Hc; [|done|done|lia].
  exists v2, (w2 :: log2), net2, R. split; [done|]. split; [done|]. split; [done|].
  eapply (r_move _ _ _ _ _ _ _ (TermOver p)); [exact Hc|]. cbn [advance].
  cbn [terms]. rewrite lookup_singleton_eq. cbn [mbind option_bind]. unfold clock. cbn [locks].
  rewrite (proj2 (Z.leb_le _ _)) by (change (termLimit ctrl) with (30 * Second); simpl; lia).
  unfold return_. cbn [locks]. rewrite step_return. cbn [mbind option_bind].
  do 2 f_equal; [f_equal; lia|exact (delete_singleton_eq (M := gmap string) p t)].
Qed.

Lemma abandoned_terms n :
  Z.of_nat n * termLimit ctrl <= longest -> abandoned (Z.of_nat n * termLimit ctrl) n.
Proof using All.
  assert (0 < termLimit ctrl) as Hpos by done.
  induction n as [|n IH]; intros Hn.
  - exists 0%nat, [], [], []. split; [done|]. split; [constructor|]. split; [done|]. apply (r_start _ _ _ _ _ _ 0).
  - replace (Z.of_nat (S n) * termLimit ctrl) with (Z.of_nat n * termLimit ctrl + termLimit ctrl) in * by lia.
    apply abandoned_term; [lia|done|]. apply IH. lia.
Qed.

(** C26: nothing bounds the number of operations that run on a claim at once but the time
    that they take: with the settings of cmd/main.go, whatever the offsets of the clocks,
    the latency and the delay of results, with or without stray ones, if an operation can
    last as long as [n] terms of the leader, then a process can have [n + 1] operations on
    the claim at once, while it leads and the claim names it. With the term of 30 seconds
    that is seven, if an operation can last three minutes, the time for which
    [Block.Provision] waits for a volume. *)
Theorem long_operations_overlap n :
  Z.of_nat n * termLimit ctrl <= longest ->
  exists c, reached c /\ length (running c) = S n /\ Forall (fun o => op_by o = p) (running c)
    /\ Lease.leads (locks c) p /\ Lease.HolderIdentity (Lease.current (locks c)) = p.
Proof using All.
  intros Hn. assert (0 <= Z.of_nat n * termLimit ctrl) as Hpos by (apply Z.mul_nonneg_nonneg; [lia|done]).
  destruct (reached_begin _ _ Hpos (abandoned_terms n Hn)) as (v & w & log & net & R & le & Hw & Hours & Hlen & Hc).
  eexists. split; [exact Hc|]. split; [done|]. split.
  - eapply Forall_impl; [exact Hours|]. by intros o [? _].
  - split; [|exact Hw]. eapply Lease.leading_since_leads. exact (alone_since _ _ _ _ _).
Qed.
End Terms.

(** A failure of an earlier operation, delivered again, ends the leadership of the process
    that has just begun the next one, and it can begin another at once. *)
Definition failed_again (p : string) : list move :=
  [Elect (Lease.Run p)] ++ acquisition p ++ [Stray p false; Elect (Lease.Run p)] ++ acquisition p.

Theorem stray_overlap name version longest delay :
  0 <= longest -> 0 <= delay ->
  exists c, reachable (main_controller name version) no_skew Second longest delay true c
    /\ (op_by <$> running c) = ["p"; "p"].
Proof.
  intros Hlong Hdelay. set (ctrl := main_controller name version).
  assert (match play ctrl no_skew Second 0 0 true (failed_again "p") (start 0) with
          | Some c => (op_by <$> running c) = ["p"; "p"]
          | None => False
          end) as Hplay by by vm_compute.
  apply played in Hplay as (c & Hc & Hby). exists c. split; [|exact Hby].
  eapply reachable_mono; [exact Hlong|exact Hdelay|].
  exact (plays_reachable _ _ _ _ _ _ _ _ _ (r_start _ _ _ _ _ _ 0) Hc).
Qed.
