(* ===== verification/Deployment.v ===== *)
(** * All provisioners of a claim and the volumes that they make

    The operations of Operations.v are runs of [provisionClaimOperation] with core and the
    block plugin behind it, each in its own process, with their calls interleaved in any
    order; what they report is read off the events that they record, and the volume service
    is shared by all of them and by everybody else.

    An operation that reports a failure because it could not save its PV object goes on to
    delete its volume; it may also be cut short at any point, with its process, or by a panic.
    A volume of the claim is always accounted for: it is the one of a PV object, and exists;
    or its deletion was asked for; or an operation has it in hand that goes on, was cut short,
    or returned because it could not look up the region.  If the operations end before the
    lease can pass on, the processes take turns: a PV object is saved only for a volume that
    the same process made, with no creation or saving by another one since.  If moreover no
    result is stray, it is saved only for the volume that was made last.

    The times in the logs of the operations are those of their own clocks; no step depends on
    them.  The volumes of the claim are taken to be touched only by these operations: the
    claim needs its volume, so its PV objects are not released.  A PV object is saved when the
    API server answered so, and a volume is made when the volume service did: of a creation
    that was answered by an error no operation knows the volume, if it made one, and it is
    none of those accounted for; a deletion that was answered by an error may still be
    executed ([Elsewhere]). *)

From S2P Require Import Prelude GoStrings Errors Quantity Objects Config Effects Logic Wait Plugin Core Controller ControllerSpec Ledger.
From S2P Require Block BlockSpec CoreSpec Store Operations Lease.

Open Scope Z_scope.

(** What became of an operation that does not work on the claim any more: it goes on after
    its result; it has returned; or it was cut short. *)
Inductive fate : Set := Continues | Returned | CutShort.

(** An operation that left the contest: its process, its log and what became of it. *)
Record past : Type := Past { past_by : string; past_log : list event; past_fate : fate }.

(** The contest for the claim; the logs of the operations that run in it, in the order of
    [Operations.running]; the others, in the order in which they left it; the calls of all of
    them with their processes, in their order in time; and the volumes that exist. *)
Record deployment : Type := Deployment {
  contest : Operations.claim;
  logs : list (list event);
  settled : list past;
  trace : list (string * event);
  volumes : gset string
}.
Definition calls (d : deployment) : list event := (trace d).*2.

(** The contest goes on ([Contend]) and gives the lock to a process, which begins an operation
    ([Begin]); an operation of the contest makes a call ([Call]), or ends without a result
    ([Leave]); one that has reported its result makes a call ([GoOn]) or ends ([Stop]); and
    the volumes change otherwise ([Elsewhere]). *)
Inductive action : Type :=
| Contend (m : Operations.move)
| Begin (p : string)
| Call (n : nat) (e : event)
| Leave (n : nat) (f : fate)
| GoOn (n : nat) (e : event)
| Stop (n : nat) (f : fate)
| Elsewhere (V : gset string).

Lemma split_at {A} (l : list A) n x :
  l !! n = Some x -> exists l1 l2, l = l1 ++ x :: l2 /\ delete n l = l1 ++ l2
    /\ forall y, <[n := y]> l = l1 ++ y :: l2.
Proof.
  intros (l1 & l2 & -> & ->)%list_elem_of_split_length. exists l1, l2. split; [done|].
  split; [by rewrite delete_middle|]. intros y. by rewrite insert_app_r_alt, Nat.sub_diag.
Qed.

Lemma delete_update {A} (l : list A) n x : delete n (<[n := x]> l) = delete n l.
Proof.
  revert n. induction l as [|y l IH]; intros [|n]; [done..|]. simpl. f_equal. apply IH.
Qed.

Lemma logs_middle {A} (l0 l1 l2 : list A) x : l0 ++ l1 ++ x :: l2 ≡ₚ x :: l0 ++ l1 ++ l2.
Proof. rewrite !app_assoc. symmetry. apply Permutation_middle. Qed.

Lemma join_call (ls ls' rest : list (list event)) l e :
  ls ≡ₚ l :: rest -> ls' ≡ₚ (l ++ [e]) :: rest -> mjoin ls ++ [e] ≡ₚ mjoin ls'.
Proof.
  intros -> ->. simpl. rewrite <- !app_assoc. apply Permutation_app_head, Permutation_app_comm.
Qed.

(** ** Turns *)

(** The process that made or saved something last, and the volumes that it made since another
    one did. *)
Definition turn : Type := string * list string.
Definition no_turn : turn := (EmptyString, []).
Definition made (x : turn) (p : string) : list string := if String.eqb p (x.1) then x.2 else [].

(** A PV object may be saved for these volumes; if [strict], only for the last of them. *)
Definition eligible (strict : bool) (ids : list string) (id : string) : bool :=
  if strict then bool_decide (head ids = Some id) else bool_decide (id ∈ ids).

Definition take_turn (strict : bool) (x : turn) (c : string * event) : option turn :=
  let ids := made x (c.1) in
  match created_id (c.2), saved_pv (c.2) with
  | Some id, _ => Some (c.1, id :: ids)
  | None, Some pv => if eligible strict ids (pv_Name pv) then Some (c.1, ids) else None
  | None, None => Some x
  end.

Fixpoint turns (strict : bool) (x : turn) (l : list (string * event)) : option turn :=
  match l with
  | [] => Some x
  | c :: l => match take_turn strict x c with Some x => turns strict x l | None => None end
  end.

Lemma turns_snoc strict x l c : turns strict x (l ++ [c]) = turns strict x l ≫= fun x => take_turn strict x c.
Proof.
  revert x. induction l as [|c' l IH]; intros x; simpl; [by destruct (take_turn _ _ _)|].
  by destruct (take_turn _ _ _).
Qed.

Lemma take_turn_idle strict x p e : works e = false -> take_turn strict x (p, e) = Some x.
Proof. unfold works, take_turn. simpl. by destruct (created_id e), (saved_pv e). Qed.

(** An operation of [p] that has made a volume, and not saved it, has the turn. *)
Definition has_turn (strict : bool) (x : turn) (p : string) (l : list event) : Prop :=
  forall id, balance blank l = Some (opened (Made id)) -> x.1 = p /\ eligible strict (x.2) id = true.

Lemma has_turn_unmade strict x p l : (forall id, balance blank l <> Some (opened (Made id))) -> has_turn strict x p l.
Proof. intros Hl id Hid. by destruct (Hl id). Qed.

(** A call of an operation: it can save what it made, and it keeps or gets the turn. *)
Lemma turn_call strict x p l v e q :
  balance blank l = Some (opened v) -> enter (opened v) e = Some q ->
  has_turn strict x p l ->
  exists x', take_turn strict x (p, e) = Some x' /\ has_turn strict x' p (l ++ [e])
    /\ forall p' l', (strict = true -> False) -> p' = p -> has_turn strict x p' l' -> has_turn strict x' p' l'.
Proof.
  intros Hv He Hl. assert (balance blank (l ++ [e]) = Some q) as Hq.
  { rewrite balance_app, Hv. simpl. by rewrite He. }
  unfold has_turn. rewrite Hq. unfold take_turn. simpl. unfold enter, opened in He.
  destruct (created_id e) as [i|], (saved_pv e) as [pv|], (deleted_id e) as [j|], (task_result e) as [r|]; try done.
  - destruct v; try done. injection He as <-. eexists. split; [done|]. split.
    + intros id [= <-]. split; [done|]. unfold eligible. simpl.
      destruct strict; apply bool_decide_eq_true; [done|by left].
    + intros p' l' Hloose -> Hl' id Hid. destruct (Hl' id Hid) as [Hp Hel]. split; [done|].
      unfold eligible in *. destruct strict; [done|]. apply bool_decide_eq_true in Hel. apply bool_decide_eq_true.
      simpl. unfold made. rewrite <- Hp, String.eqb_refl. by right.
  - destruct v as [|i| |]; try done. destruct (String.eqb_spec (pv_Name pv) i) as [Hi|]; [|done].
    injection He as <-. destruct (Hl i Hv) as [Hp Hel]. unfold made. rewrite <- Hp, String.eqb_refl, Hi, Hel.
    eexists. split; [done|]. split; [by intros id [=]|]. intros p' l' _ -> Hl' id Hid. by apply Hl'.
  - eexists. split; [done|]. split; [|by intros p' l' _ _ Hl'].
    destruct v as [|i| |i]; try done; (destruct (String.eqb_spec j i) as [Hj|]; [subst i|done]); injection He as <-; by intros id [=].
  - eexists. split; [done|]. split; [|by intros p' l' _ _ Hl'].
    destruct (Bool.eqb r (is_saved v)); [|done]. injection He as <-. by intros id [=].
  - injection He as <-. eexists. split; [done|]. split; [|by intros p' l' _ _ Hl']. intros id Hid. apply Hl. by rewrite Hv.
Qed.

Section Deployment.
Context {W : Type} `{Backend W} `{!ProvisionerClient} `{!ProvisionerClientOk}.
Context `{!InstanceMeta W} `{!InstanceMetaOk W} `{!ApiServer W}.
Context (fuel : nat) (block : Block.blockProvisioner) (ctrl : ProvisionController).
Context (Hfuel : enough_fuel fuel (5 * Second) (Block.bp_timeout block)).
Context (skew : string -> Z) (latency longest delay : Z) (strays : bool) (claim : PersistentVolumeClaim).

#[local] Instance block_plugin : ProvisionerPlugin W := BlockSpec.block_Plugin fuel block.
#[local] Instance block_provisioner : Provisioner W := core_Provisioner.

Definition contend : Operations.move -> Operations.claim -> option Operations.claim :=
  Operations.advance ctrl skew latency longest delay strays.

(** The volumes after a call, as far as its reply tells; the OCID of a new one is new. *)
Definition acknowledged (V : gset string) (e : event) : option (gset string) :=
  match ev_call e with
  | CCreateVolume _ (inl v) =>
      match vol_Id v with
      | Some id => if bool_decide (id ∈ V) then None else Some ({[id]} ∪ V)
      | None => Some V
      end
  | CDeleteVolume (Some id) reply =>
      match dv_err reply with None => Some (V ∖ {[id]}) | Some _ => Some V end
  | _ => Some V
  end.

(** An operation that runs in the contest makes a call; the event with its result takes it
    out of the contest. *)
Definition make_call (n : nat) (e : event) (d : deployment) : option deployment :=
  l ← logs d !! n;
  o ← Operations.running (contest d) !! n;
  vols ← acknowledged (volumes d) e;
  let p := Operations.op_by o in
  match task_result e with
  | None => Some (Deployment (contest d) (<[n := l ++ [e]]> (logs d)) (settled d) (trace d ++ [(p, e)]) vols)
  | Some success =>
      c ← contend (Operations.End n (Some success)) (contest d);
      Some (Deployment c (delete n (logs d)) (settled d ++ [Past p (l ++ [e]) Continues])
              (trace d ++ [(p, e)]) vols)
  end.

Definition act (a : action) (d : deployment) : option deployment :=
  match a with
  | Contend (Operations.Start _ | Operations.End _ _) => None
  | Contend m =>
      c ← contend m (contest d);
      Some (Deployment c (logs d) (settled d) (trace d) (volumes d))
  | Begin p =>
      c ← contend (Operations.Start p) (contest d);
      Some (Deployment c ([] :: logs d) (settled d) (trace d) (volumes d))
  | Call n e => make_call n e d
  | Leave n f =>
      l ← logs d !! n;
      o ← Operations.running (contest d) !! n;
      c ← contend (Operations.End n None) (contest d);
      Some (Deployment c (delete n (logs d)) (settled d ++ [Past (Operations.op_by o) l f]) (trace d) (volumes d))
  | GoOn n e =>
      vols ← acknowledged (volumes d) e;
      match settled d !! n with
      | Some (Past p l Continues) =>
          Some (Deployment (contest d) (logs d) (<[n := Past p (l ++ [e]) Continues]> (settled d))
                  (trace d ++ [(p, e)]) vols)
      | _ => None
      end
  | Stop n f =>
      match settled d !! n with
      | Some (Past p l Continues) =>
          Some (Deployment (contest d) (logs d) (<[n := Past p l f]> (settled d)) (trace d) (volumes d))
      | _ => None
      end
  | Elsewhere V => Some (Deployment (contest d) (logs d) (settled d) (trace d) V)
  end.

Lemma calls_snoc c ls ss tr p e V : calls (Deployment c ls ss (tr ++ [(p, e)]) V) = tr.*2 ++ [e].
Proof. unfold calls. simpl. by rewrite fmap_app. Qed.

(** The calls of a log are the first of a run, or all of a run that returns. *)
Definition begins (l : list event) : Prop :=
  exists (s s' : state W) o rest, provisionClaimOperation ctrl claim s = (o, s', l ++ rest).
Definition ends (l : list event) (f : fate) : Prop :=
  match f with
  | Continues => False
  | Returned => exists (s s' : state W) r, provisionClaimOperation ctrl claim s = (Val r, s', l)
  | CutShort => True
  end.

(** The volume service does not give an OCID twice. *)
Definition new_id (e : event) (d : deployment) : Prop :=
  forall id, created_id e = Some id -> id ∉ created_ids (calls d).

(** What the operations do comes from their code.  Others make and delete volumes of their
    own; a volume of the claim may vanish late after its deletion was asked for. *)
Definition genuine (a : action) (d : deployment) : Prop :=
  match a with
  | Contend _ | Begin _ => True
  | Call n e => new_id e d /\ forall l, logs d !! n = Some l -> begins (l ++ [e])
  | Leave n f => forall l, logs d !! n = Some l -> ends l f
  | GoOn n e => new_id e d /\ forall p l f, settled d !! n = Some (Past p l f) -> begins (l ++ [e])
  | Stop n f => forall p l f', settled d !! n = Some (Past p l f') -> ends l f
  | Elsewhere V => forall id, id ∈ created_ids (calls d) ->
      (id ∈ V -> id ∈ volumes d) /\ (id ∈ volumes d -> id ∉ deleted_ids (calls d) -> id ∈ V)
  end.

Inductive deployed : deployment -> Prop :=
| deployed_start t V : deployed (Deployment (Operations.start t) [] [] [] V)
| deployed_step d a d' : deployed d -> genuine a d -> act a d = Some d' -> deployed d'.

(** ** Playing a deployment *)

Fixpoint play (l : list action) (d : deployment) : option deployment :=
  match l with
  | [] => Some d
  | a :: l => match act a d with Some d => play l d | None => None end
  end.

(** The contest alone. *)
Definition contends (a : action) : bool := match a with Contend _ | Begin _ => true | _ => false end.

Lemma play_contends l d d' :
  deployed d -> forallb contends l = true -> play l d = Some d' -> deployed d'.
Proof.
  revert d. induction l as [|a l IH]; intros d Hd; simpl; [by intros _ [= <-]|].
  intros [Ha Hl]%andb_true_iff Hp. destruct (act a d) as [d1|] eqn:Hact; [|done].
  apply (IH d1); [|done|done]. eapply deployed_step; [exact Hd| |exact Hact]. by destruct a.
Qed.

(** An operation makes calls of a run of its code. *)
Lemma play_calls n s l0 l rest d d' :
  deployed d -> snd (provisionClaimOperation ctrl claim s) = l0 ++ l ++ rest -> logs d !! n = Some l0 ->
  Forall (fun e => task_result e = None) l -> NoDup (created_ids (calls d ++ l)) ->
  play (Call n <$> l) d = Some d' -> deployed d'.
Proof.
  revert l0 d. induction l as [|e l IH]; intros l0 d Hd Hrun Hl0 Hres Hnd; simpl; [by intros [= <-]|].
  apply Forall_cons in Hres as [He Hres]. intros Hp. destruct (make_call n e d) as [d1|] eqn:Hact; [|done].
  pose proof Hact as Hcall. unfold make_call in Hcall. rewrite Hl0 in Hcall. simpl in Hcall.
  apply bind_Some in Hcall as (op & _ & (V & _ & Hcall)%bind_Some). rewrite He in Hcall. injection Hcall as Hd1.
  apply (IH (l0 ++ [e]) d1); [|by rewrite <- app_assoc| |done| |done].
  - apply (deployed_step d (Call n e)); [exact Hd| |exact Hact]. simpl. split.
    + intros id Hid Hin. change (e :: l) with ([e] ++ l) in Hnd.
      rewrite created_ids_app in Hnd. apply NoDup_app in Hnd as (_ & Hdisj & _). apply (Hdisj id Hin).
      rewrite created_ids_app. unfold created_ids at 1. simpl. rewrite Hid. by left.
    + rewrite Hl0. intros ? [= <-]. destruct (provisionClaimOperation ctrl claim s) as [[o s'] log] eqn:Heq.
      simpl in Hrun. exists s, s', o, (l ++ rest). by rewrite Heq, Hrun, <- app_assoc.
  - rewrite <- Hd1. simpl. apply list_lookup_insert_eq. by eapply lookup_lt_Some.
  - rewrite <- Hd1, calls_snoc, <- app_assoc. done.
Qed.

(** ** Volumes and calls *)

(** A deletion that succeeded. *)
Definition deletes_ok (id : string) (e : event) : Prop :=
  exists reply, ev_call e = CDeleteVolume (Some id) reply /\ dv_err reply = None.

Lemma deletes_ok_id id e : deletes_ok id e -> deleted_id e = Some id /\ created_id e = None.
Proof. intros (reply & Hc & _). unfold deleted_id, created_id. by rewrite Hc. Qed.

(** The calls make each volume once; a volume exists if its deletion was not asked for, and
    does not if its deletion succeeded. *)
Record booked (cs : list event) (V : gset string) : Prop := {
  b_new : NoDup (created_ids cs);
  b_kept id : id ∈ created_ids cs -> id ∉ deleted_ids cs -> id ∈ V;
  b_gone e id : e ∈ cs -> deletes_ok id e -> id ∉ V
}.

Lemma elem_of_deleted cs id :
  id ∈ deleted_ids cs <-> exists e, e ∈ cs /\ deleted_id e = Some id.
Proof. unfold deleted_ids. by rewrite list_elem_of_omap. Qed.
Lemma elem_of_created cs id :
  id ∈ created_ids cs <-> exists e, e ∈ cs /\ created_id e = Some id.
Proof. unfold created_ids. by rewrite list_elem_of_omap. Qed.
Lemma elem_of_saved cs pv :
  pv ∈ saved_pvs cs <-> exists e, e ∈ cs /\ saved_pv e = Some pv.
Proof. unfold saved_pvs. by rewrite list_elem_of_omap. Qed.

(** What a call does to the volumes. *)
Lemma effect_cases V e V' :
  acknowledged V e = Some V' ->
  match created_id e with
  | Some id => (id ∉ V) /\ V' = {[id]} ∪ V
  | None => (V' = V /\ forall id, ~ deletes_ok id e) \/ exists id, deletes_ok id e /\ V' = V ∖ {[id]}
  end.
Proof.
  unfold acknowledged, created_id, deletes_ok. destruct (ev_call e) as [req [v|x]| |[id|] reply| | | | | | | | | | | | | | | | |];
    try (intros [= <-]; left; split; [done|]; intros i (? & ? & _); congruence).
  - destruct (vol_Id v) as [id|]; [|intros [= <-]; left; split; [done|]; intros i (? & ? & _); congruence].
    case_bool_decide; [done|]. by intros [= <-].
  - destruct (dv_err reply) eqn:Herr; intros [= <-]; [left|right; by exists id; split; [exists reply|]].
    split; [done|]. intros i (r & [= <- <-] & ?). congruence.
Qed.

Lemma booked_call cs V e V' :
  booked cs V -> acknowledged V e = Some V' ->
  (forall id, created_id e = Some id -> id ∉ created_ids cs) ->
  (forall id, id ∈ deleted_ids cs -> id ∈ created_ids cs) -> booked (cs ++ [e]) V'.
Proof.
  intros [Hnew Hkept Hgone] Heff%effect_cases Hfresh Hdel. split.
  - rewrite created_ids_app. apply NoDup_app. split; [done|].
    unfold created_ids at 2 3. simpl. destruct (created_id e) as [id|] eqn:He; simpl; [|split; [set_solver|constructor]].
    split; [|apply NoDup_singleton]. intros x Hx ->%list_elem_of_singleton. by apply (Hfresh id).
  - intros id. rewrite created_ids_app, deleted_ids_app, !elem_of_app.
    rewrite (elem_of_created [e]), (elem_of_deleted [e]).
    intros [Hid|(e' & ->%list_elem_of_singleton & He)] Hno; [|rewrite He in Heff; destruct Heff as [_ ->]; set_solver].
    assert (id ∈ V) as Hin by auto. destruct (created_id e); [destruct Heff as [_ ->]; set_solver|].
    destruct Heff as [[-> _]|(i & Hi & ->)]; [done|]. apply deletes_ok_id in Hi as [Hi _].
    apply elem_of_difference. split; [done|]. intros ->%elem_of_singleton.
    apply Hno. right. exists e. split; [by left|done].
  - intros e' id Hin Hok. apply elem_of_app in Hin as [Hin| ->%list_elem_of_singleton].
    + assert (id ∉ V) as HV by by eapply Hgone. destruct (created_id e) as [i|] eqn:Hi.
      * destruct Heff as [_ ->]. assert (id <> i); [|set_solver]. intros ->.
        apply (Hfresh i eq_refl), Hdel, elem_of_deleted. exists e'. split; [done|]. by apply deletes_ok_id.
      * destruct Heff as [[-> _]|(? & _ & ->)]; set_solver.
    + rewrite (proj2 (deletes_ok_id _ _ Hok)) in Heff.
      destruct Heff as [[_ Hno]|(i & Hi & ->)]; [by destruct (Hno id)|].
      apply deletes_ok_id in Hi as [Hi _]. apply deletes_ok_id in Hok as [Hok _].
      rewrite Hi in Hok. injection Hok as ->. set_solver.
Qed.

(** ** The invariant *)

Context (Hretry : 0 < createProvisionedPVRetryCount ctrl).

Definition left_with (x : past) : Prop :=
  exists q, balance blank (past_log x) = Some q
    /\ match past_fate x with
       | Continues => lg_result q <> None
       | Returned => LookupEnv (W := W) "OCI_SHORT_REGION" <> None -> forall id, lg_volume q <> Made id
       | CutShort => True
       end.

Definition working (l : list event) : Prop := exists v, balance blank l = Some (opened v).

Definition all_logs (d : deployment) : list (list event) := (past_log <$> settled d) ++ logs d.

Record sound (d : deployment) : Prop := {
  s_contest : Operations.reachable ctrl skew latency longest delay strays (contest d);
  s_logs : length (logs d) = length (Operations.running (contest d));
  s_working : Forall working (logs d);
  s_settled : Forall left_with (settled d);
  s_calls : calls d ≡ₚ mjoin (all_logs d);
  s_booked : booked (calls d) (volumes d)
}.

Lemma begins_balance l : begins l -> exists q, balance blank l = Some q.
Proof using All.
  intros (s & s' & o & rest & Hrun).
  destruct (post_run _ _ _ _ _ _ (operation_balance fuel block ctrl Hfuel claim s Hretry) Hrun) as (q & Hq & _).
  rewrite balance_app in Hq. apply bind_Some in Hq as (q' & Hq' & _). eauto.
Qed.

Lemma ends_left_with p l q f : balance blank l = Some q -> ends l f -> left_with (Past p l f).
Proof using All.
  intros Hq Hf. exists q. split; [done|]. destruct f; simpl in *; [done| |done].
  destruct Hf as (s & s' & r & Hrun).
  destruct (post_run _ _ _ _ _ _ (operation_balance fuel block ctrl Hfuel claim s Hretry) Hrun) as (q' & Hq' & Hc).
  rewrite Hq in Hq'. injection Hq' as <-. by eapply Hc.
Qed.

(** Every log has a ledger. *)
Lemma sound_balance d l : sound d -> l ∈ all_logs d -> exists q, balance blank l = Some q.
Proof.
  intros Hd. unfold all_logs. rewrite elem_of_app, list_elem_of_fmap. intros [([p l' f] & -> & Hin)|Hin].
  - pose proof (s_settled _ Hd) as Hs. rewrite Forall_forall in Hs. destruct (Hs _ Hin) as (q & Hq & _). by exists q.
  - pose proof (s_working _ Hd) as Hs. rewrite Forall_forall in Hs. destruct (Hs _ Hin) as (v & Hv). by exists (opened v).
Qed.

(** The calls are those of the logs. *)
Lemma elem_of_calls d e : sound d -> e ∈ calls d <-> exists l, l ∈ all_logs d /\ e ∈ l.
Proof.
  intros Hd. rewrite (s_calls _ Hd), list_elem_of_join. naive_solver.
Qed.

(** What an operation deletes and saves it has created. *)
Lemma own_created l q id :
  balance blank l = Some q ->
  (id ∈ deleted_ids l \/ exists pv, pv ∈ saved_pvs l /\ pv_Name pv = id) -> created_ids l = [id].
Proof.
  intros Hq%balance_accounts. unfold standing_accounts, accounts in Hq.
  destruct (lg_volume q) as [|i|i|i];
    [destruct Hq as (Hc & Hs & Hd)|destruct Hq as (Hc & Hs & Hd)|destruct Hq as (pv0 & Hn & Hc & Hs & Hd)
    |destruct Hq as (k & Hc & Hs & Hd)]; rewrite Hc, Hs, Hd; intros [Hid|(pv & Hpv & <-)]; try set_solver.
  - apply elem_of_replicate in Hid as [-> _]. done.
Qed.

Lemma created_in_log l id e : e ∈ l -> created_id e = Some id -> id ∈ created_ids l.
Proof. intros ? ?. apply elem_of_created. eauto. Qed.

Lemma sound_own d id :
  sound d -> (id ∈ deleted_ids (calls d) \/ exists pv, pv ∈ saved_pvs (calls d) /\ pv_Name pv = id) ->
  id ∈ created_ids (calls d).
Proof.
  intros Hd. rewrite elem_of_deleted.
  assert (forall l, l ∈ all_logs d -> created_ids l = [id] -> id ∈ created_ids (calls d)) as Hin.
  { intros l Hl Hc. assert (id ∈ created_ids l) as Hid by (rewrite Hc; by left).
    apply elem_of_created in Hid as (e & He & Hid). eapply created_in_log; [|done]. apply elem_of_calls; eauto. }
  intros [(e & He & Hid)|(pv & (e & He & Hpv)%elem_of_saved & Hn)];
    apply elem_of_calls in He as (l & Hl & He); [|done| |done];
    destruct (sound_balance _ _ Hd Hl) as (q & Hq); apply (Hin l Hl), (own_created _ q); try done.
  - left. apply elem_of_deleted. eauto.
  - right. exists pv. split; [|done]. apply elem_of_saved. eauto.
Qed.

(** ** Preservation *)

Lemma begins_enters l e q :
  balance blank l = Some q -> begins (l ++ [e]) ->
  exists q', enter q e = Some q' /\ balance blank (l ++ [e]) = Some q'.
Proof using All.
  intros Hq (q' & Hq')%begins_balance. exists q'. split; [|done].
  rewrite balance_app, Hq in Hq'. simpl in Hq'. by destruct (enter q e).
Qed.

Lemma sound_call d d' l rest e :
  sound d -> all_logs d ≡ₚ l :: rest -> all_logs d' ≡ₚ (l ++ [e]) :: rest ->
  calls d' = calls d ++ [e] -> acknowledged (volumes d) e = Some (volumes d') -> new_id e d ->
  Operations.reachable ctrl skew latency longest delay strays (contest d') ->
  length (logs d') = length (Operations.running (contest d')) ->
  Forall working (logs d') -> Forall left_with (settled d') -> sound d'.
Proof.
  intros Hd Hl Hl' Hcalls Heff Hfresh Hr Hlen Hw Hs. split; try done.
  - rewrite Hcalls. rewrite (s_calls _ Hd). by eapply join_call.
  - rewrite Hcalls. eapply booked_call; [apply Hd|done|exact Hfresh|].
    intros id Hid. apply sound_own; auto.
Qed.

Lemma running_end n result c c' :
  contend (Operations.End n result) c = Some c' ->
  exists o, Operations.running c !! n = Some o /\ Operations.running c' = delete n (Operations.running c).
Proof. simpl. intros (o & Ho & [= <-])%bind_Some. by exists o. Qed.

Lemma running_start p c c' :
  contend (Operations.Start p) c = Some c' ->
  exists o, Operations.running c' = o :: Operations.running c.
Proof.
  unfold contend. cbn [Operations.advance]. destruct (Lease.leading_since _ _); [done|].
  intros (l & _ & [= <-])%bind_Some. by eexists.
Qed.

Lemma sound_contest m c c' :
  Operations.reachable ctrl skew latency longest delay strays c -> contend m c = Some c' ->
  Operations.reachable ctrl skew latency longest delay strays c'.
Proof. intros. by eapply Operations.r_move. Qed.

Lemma sound_Call n e d d' : sound d -> genuine (Call n e) d -> act (Call n e) d = Some d' -> sound d'.
Proof using All.
  intros Hd [Hfresh Hbegins] Hact. simpl in Hact. unfold make_call in Hact.
  apply bind_Some in Hact as (l & Hl & (op & Hop & (V & Heff & Hact)%bind_Some)%bind_Some). specialize (Hbegins _ Hl).
  destruct (split_at _ _ _ Hl) as (ls1 & ls2 & Hls & Hdel & Hins).
  pose proof (s_working _ Hd) as Hw. rewrite Hls in Hw. apply Forall_app in Hw as [Hw1 Hw2].
  apply Forall_cons in Hw2 as [[v Hv] Hw2].
  destruct (begins_enters _ _ _ Hv Hbegins) as (q' & He & Hq').
  assert (all_logs d ≡ₚ l :: (past_log <$> settled d) ++ ls1 ++ ls2) as Hall.
  { unfold all_logs. rewrite Hls. apply logs_middle. }
  destruct (task_result e) as [b|] eqn:Hres.
  - apply bind_Some in Hact as (c & Hc & [= <-]).
    apply (sound_call d _ l ((past_log <$> settled d) ++ ls1 ++ ls2) e); try done; try apply calls_snoc; simpl.
    + unfold all_logs. simpl. rewrite fmap_app, Hdel, <- app_assoc. symmetry. apply Permutation_middle.
    + eapply sound_contest; [apply Hd|done].
    + destruct (running_end _ _ _ _ Hc) as (o & Ho & ->). by rewrite !length_delete, (s_logs _ Hd) by eauto.
    + rewrite Hdel. by apply Forall_app.
    + apply Forall_app. split; [apply Hd|]. constructor; [|constructor]. exists q'. split; [done|]. simpl.
      destruct (enter_result _ _ _ _ He Hres) as [-> _]. done.
  - injection Hact as <-.
    apply (sound_call d _ l ((past_log <$> settled d) ++ ls1 ++ ls2) e); try done; try apply calls_snoc; simpl.
    + unfold all_logs. simpl. rewrite Hins. apply logs_middle.
    + apply Hd.
    + rewrite length_insert. apply Hd.
    + rewrite Hins. apply Forall_app. split; [done|]. constructor; [|done].
      destruct (enter_opened _ _ _ He Hres) as [v' ->]. by exists v'.
    + apply Hd.
Qed.

Lemma sound_GoOn n e d d' : sound d -> genuine (GoOn n e) d -> act (GoOn n e) d = Some d' -> sound d'.
Proof using All.
  intros Hd [Hfresh Hbegins] Hact. simpl in Hact. apply bind_Some in Hact as (V & Heff & Hact).
  destruct (settled d !! n) as [[p l f]|] eqn:Hl; [|done]. destruct f; try done. injection Hact as <-.
  specialize (Hbegins _ _ _ eq_refl). destruct (split_at _ _ _ Hl) as (ls1 & ls2 & Hls & _ & Hins).
  pose proof (s_settled _ Hd) as Hs. rewrite Hls in Hs. apply Forall_app in Hs as [Hs1 Hs2].
  apply Forall_cons in Hs2 as [(q & Hq & Hres) Hs2]. simpl in Hq, Hres.
  destruct (begins_enters _ _ _ Hq Hbegins) as (q' & He & Hq').
  apply (sound_call d _ l ((past_log <$> ls1) ++ (past_log <$> ls2) ++ logs d) e); try done; try apply calls_snoc;
    simpl; try apply Hd.
  - unfold all_logs. rewrite Hls, fmap_app. simpl. rewrite <- app_assoc. symmetry. apply Permutation_middle.
  - unfold all_logs. simpl. rewrite Hins, fmap_app. simpl. rewrite <- app_assoc. symmetry. apply Permutation_middle.
  - rewrite Hins. apply Forall_app. split; [done|]. constructor; [|done]. exists q'. split; [done|]. simpl.
    destruct (enter_reported _ _ _ He Hres) as [-> _]. done.
Qed.

(** The contest goes on without the operations. *)
Lemma running_contend m c c' :
  match m with Operations.Start _ | Operations.End _ _ => False | _ => True end ->
  contend m c = Some c' -> Operations.running c' = Operations.running c.
Proof.
  assert (forall e c c', Operations.elect ctrl skew latency e c = Some c' ->
    Operations.running c' = Operations.running c) as Helect by (by intros e c0 c1 (l & _ & ->)%fmap_Some).
  assert (forall p c c', Operations.return_ ctrl skew latency p c = Some c' ->
    Operations.running c' = Operations.running c) as Hreturn.
  { unfold Operations.return_. by intros p c0 c1 (l & _ & [= <-])%bind_Some. }
  unfold contend. destruct m as [e|p|n r|n|p|p b|p|p|t]; try done; cbn [Operations.advance]; intros _ Hm.
  - destruct e; try done; try (by eapply Helect). destruct (Lease.leading_since _ _); [by eapply Helect|done].
  - by apply bind_Some in Hm as (r & _ & [= <-]).
  - destruct (Operations.inbox c p) as [|r rs]; [done|].
    destruct (Lease.leading_since _ _), (Operations.rp_success r); try (by eapply Hreturn). by injection Hm as <-.
  - destruct strays; [|done].
    destruct (Lease.leading_since _ _), b; try (by eapply Hreturn). by injection Hm as <-.
  - apply bind_Some in Hm as (s & _ & Hm). destruct (_ <=? _); [by eapply Hreturn|done].
  - apply bind_Some in Hm as (s & _ & Hm). destruct (_ <=? _); [by eapply Hreturn|done].
  - destruct (forallb _ _ && _ && _); [by eapply Helect|done].
Qed.

(** No call is made. *)
Lemma sound_rest d d' :
  sound d -> calls d' = calls d -> volumes d' = volumes d -> all_logs d' ≡ₚ all_logs d ->
  Operations.reachable ctrl skew latency longest delay strays (contest d') ->
  length (logs d') = length (Operations.running (contest d')) ->
  Forall working (logs d') -> Forall left_with (settled d') -> sound d'.
Proof.
  intros Hd Hc Hv Hl Hr Hlen Hw Hs. split; rewrite ?Hc, ?Hv; try done; [|apply Hd].
  rewrite Hl. apply Hd.
Qed.

Lemma sound_Contend m d d' : sound d -> act (Contend m) d = Some d' -> sound d'.
Proof.
  intros Hd Hact. assert (match m with Operations.Start _ | Operations.End _ _ => False | _ => True end /\
    exists c, contend m (contest d) = Some c
      /\ d' = Deployment c (logs d) (settled d) (trace d) (volumes d)) as (Hm & c & Hc & ->).
  { destruct m; try done; split; try done; apply bind_Some in Hact as (c & Hc & [= <-]); by exists c. }
  apply (sound_rest d); try done; simpl; [eapply sound_contest; [apply Hd|done]| |apply Hd|apply Hd].
  rewrite (running_contend _ _ _ Hm Hc). apply Hd.
Qed.

Lemma sound_Begin p d d' : sound d -> act (Begin p) d = Some d' -> sound d'.
Proof.
  intros Hd (c & Hc & [= <-])%bind_Some. split; simpl.
  - eapply sound_contest; [apply Hd|done].
  - destruct (running_start _ _ _ Hc) as [o ->]. simpl. f_equal. apply Hd.
  - constructor; [by exists Unmade|apply Hd].
  - apply Hd.
  - etrans; [apply (s_calls _ Hd)|]. unfold all_logs. simpl. by rewrite !join_app.
  - apply Hd.
Qed.

Lemma sound_Leave n f d d' : sound d -> genuine (Leave n f) d -> act (Leave n f) d = Some d' -> sound d'.
Proof using All.
  intros Hd Hends (l & Hl & (op & Hop & (c & Hc & [= <-])%bind_Some)%bind_Some)%bind_Some. specialize (Hends _ Hl).
  destruct (split_at _ _ _ Hl) as (ls1 & ls2 & Hls & Hdel & _).
  pose proof (s_working _ Hd) as Hw. rewrite Hls in Hw. apply Forall_app in Hw as [Hw1 Hw2].
  apply Forall_cons in Hw2 as [[v Hv] Hw2].
  apply (sound_rest d); try done; simpl.
  - unfold all_logs. simpl. rewrite fmap_app, Hdel, Hls, <- app_assoc. simpl.
    apply Permutation_app_head, Permutation_middle.
  - eapply sound_contest; [apply Hd|done].
  - destruct (running_end _ _ _ _ Hc) as (o & Ho & ->). by rewrite !length_delete, (s_logs _ Hd) by eauto.
  - rewrite Hdel. by apply Forall_app.
  - apply Forall_app. split; [apply Hd|]. constructor; [|constructor]. by eapply ends_left_with.
Qed.

Lemma sound_Stop n f d d' : sound d -> genuine (Stop n f) d -> act (Stop n f) d = Some d' -> sound d'.
Proof using All.
  intros Hd Hends Hact. simpl in Hact. destruct (settled d !! n) as [[p l f']|] eqn:Hl; [|done].
  destruct f'; try done. injection Hact as <-. specialize (Hends _ _ _ Hl).
  destruct (split_at _ _ _ Hl) as (ls1 & ls2 & Hls & _ & Hins).
  pose proof (s_settled _ Hd) as Hs. rewrite Hls in Hs. apply Forall_app in Hs as [Hs1 Hs2].
  apply Forall_cons in Hs2 as [(q & Hq & _) Hs2].
  apply (sound_rest d); try done; simpl; try apply Hd.
  - unfold all_logs. simpl. by rewrite Hins, Hls, !fmap_app.
  - rewrite Hins. apply Forall_app. split; [done|]. constructor; [by eapply ends_left_with|done].
Qed.

Lemma sound_Elsewhere V d : sound d -> genuine (Elsewhere V) d ->
  sound (Deployment (contest d) (logs d) (settled d) (trace d) V).
Proof.
  intros Hd HV. pose proof (s_booked _ Hd) as Hb. split; try apply Hd. split; simpl; [apply Hb|..].
  - intros id Hc Hno. apply HV; [done| |done]. by apply (b_kept _ _ Hb).
  - intros e id He Hok Hin. apply (b_gone _ _ Hb e id He Hok). apply HV; [|done].
    apply sound_own; [done|]. left. apply elem_of_deleted. exists e. split; [done|]. by apply deletes_ok_id.
Qed.

Lemma deployed_sound d : deployed d -> sound d.
Proof using All.
  induction 1 as [t V|d a d' _ IH Hg Ha].
  - split; simpl; try done; [constructor|]. split; simpl; [constructor|set_solver|set_solver].
  - destruct a as [m|p|n e|n f|n e|n f|V].
    + by eapply sound_Contend.
    + by eapply sound_Begin.
    + by eapply sound_Call.
    + by eapply sound_Leave.
    + by eapply sound_GoOn.
    + by eapply sound_Stop.
    + injection Ha as <-. by apply sound_Elsewhere.
Qed.

(** ** What the ledgers say together *)

#[local] Instance created_ids_Permutation : Proper (Permutation ==> Permutation) created_ids.
Proof. unfold created_ids. intros l l' Hl. by rewrite Hl. Qed.
#[local] Instance saved_pvs_Permutation : Proper (Permutation ==> Permutation) saved_pvs.
Proof. unfold saved_pvs. intros l l' Hl. by rewrite Hl. Qed.

Lemma saved_created l q : balance blank l = Some q -> (pv_Name <$> saved_pvs l) `sublist_of` created_ids l.
Proof.
  intros Hq%balance_accounts. unfold standing_accounts, accounts in Hq.
  destruct (lg_volume q) as [|i|i|i]; [destruct Hq as (Hc & Hs & _)|destruct Hq as (Hc & Hs & _)
    |destruct Hq as (pv & <- & Hc & Hs & _)|destruct Hq as (k & Hc & Hs & _)]; rewrite Hc, Hs; simpl;
    auto using sublist_nil_l, sublist_skip, sublist_nil.
Qed.

Lemma names_sublist ls :
  (forall l, l ∈ ls -> exists q, balance blank l = Some q) ->
  (pv_Name <$> saved_pvs (mjoin ls)) `sublist_of` created_ids (mjoin ls).
Proof.
  induction ls as [|l ls IH]; intros Hls; [by constructor|]. simpl.
  rewrite saved_pvs_app, created_ids_app, fmap_app. destruct (Hls l ltac:(by left)) as (q & Hq).
  apply sublist_app; [by eapply saved_created|]. apply IH. intros l' Hl'. apply Hls. by right.
Qed.

(** One log per volume. *)
Lemma one_log ls l1 l2 id :
  NoDup (created_ids (mjoin ls)) -> l1 ∈ ls -> l2 ∈ ls ->
  id ∈ created_ids l1 -> id ∈ created_ids l2 -> l1 = l2.
Proof.
  assert (forall l ls, l ∈ ls -> id ∈ created_ids l -> id ∈ created_ids (mjoin ls)) as Hin.
  { intros l ls' Hl (e & He & Hid)%elem_of_created. eapply created_in_log; [|done].
    apply list_elem_of_join. eauto. }
  induction ls as [|l ls IH]; simpl; [by intros _ ?%not_elem_of_nil|].
  rewrite created_ids_app. intros (_ & Hdisj & Hnd)%NoDup_app.
  intros [->|Hl1]%elem_of_cons [->|Hl2]%elem_of_cons Hid1 Hid2; [done|..|by apply IH]; exfalso.
  - by apply (Hdisj id Hid1), (Hin l2).
  - by apply (Hdisj id Hid2), (Hin l1).
Qed.

Lemma sound_new d : sound d -> NoDup (created_ids (mjoin (all_logs d))).
Proof. intros Hd. rewrite <- (s_calls _ Hd). apply Hd. Qed.

(** The log of a volume. *)
Lemma log_of d id :
  sound d -> id ∈ created_ids (calls d) ->
  exists l q, l ∈ all_logs d /\ balance blank l = Some q /\ created_ids l = [id].
Proof.
  intros Hd (e & (l & Hl & He)%elem_of_calls & Hid)%elem_of_created; [|done].
  destruct (sound_balance _ _ Hd Hl) as (q & Hq). exists l, q. split; [done|]. split; [done|].
  pose proof (created_in_log _ _ _ He Hid) as Hin. apply balance_accounts in Hq.
  unfold standing_accounts, accounts in Hq. destruct (lg_volume q) as [|i|i|i];
    [destruct Hq as (Hc & _)|destruct Hq as (Hc & _)|destruct Hq as (pv & _ & Hc & _)|destruct Hq as (k & Hc & _)];
    rewrite Hc in Hin |- *; [by apply not_elem_of_nil in Hin|..]; by apply list_elem_of_singleton in Hin as ->.
Qed.

(** What the operations did to a volume is in its log. *)
Lemma deleted_in_log d l id :
  sound d -> l ∈ all_logs d -> created_ids l = [id] -> id ∈ deleted_ids (calls d) <-> id ∈ deleted_ids l.
Proof.
  intros Hd Hl Hc. rewrite !elem_of_deleted. split.
  - intros (e & (l' & Hl' & He)%elem_of_calls & Hid); [|done].
    destruct (sound_balance _ _ Hd Hl') as (q & Hq).
    assert (id ∈ deleted_ids l') as Hdel by (apply elem_of_deleted; eauto).
    pose proof (own_created _ _ _ Hq (or_introl Hdel)) as Hc'.
    rewrite (one_log _ l l' id (sound_new _ Hd)); [by exists e|done|done|rewrite Hc|rewrite Hc']; by left.
  - intros (e & He & Hid). exists e. split; [|done]. apply elem_of_calls; eauto.
Qed.

Lemma saved_in_log d pv :
  sound d -> pv ∈ saved_pvs (calls d) ->
  exists l, l ∈ all_logs d /\ pv ∈ saved_pvs l /\ created_ids l = [pv_Name pv].
Proof.
  intros Hd (e & (l & Hl & He)%elem_of_calls & Hpv)%elem_of_saved; [|done].
  destruct (sound_balance _ _ Hd Hl) as (q & Hq).
  assert (pv ∈ saved_pvs l) as Hin by (apply elem_of_saved; eauto).
  exists l. split; [done|]. split; [done|]. eapply own_created; [done|]. right. by exists pv.
Qed.

Lemma saved_not_deleted d pv :
  sound d -> pv ∈ saved_pvs (calls d) -> pv_Name pv ∉ deleted_ids (calls d).
Proof.
  intros Hd Hpv. destruct (saved_in_log _ _ Hd Hpv) as (l & Hl & Hin & Hc).
  rewrite (deleted_in_log _ l) by done. destruct (sound_balance _ _ Hd Hl) as (q & Hq%balance_accounts).
  unfold standing_accounts, accounts in Hq. destruct (lg_volume q) as [|i|i|i];
    [destruct Hq as (_ & Hs & Hdel)|destruct Hq as (_ & Hs & Hdel)|destruct Hq as (pv' & _ & _ & Hs & Hdel)
    |destruct Hq as (k & _ & Hs & _)]; rewrite Hs in Hin; try (by apply not_elem_of_nil in Hin).
  rewrite Hdel. apply not_elem_of_nil.
Qed.

(** An operation that goes on or was cut short made the volume, and did no more about it; one
    that returned can have left it so only if it had to look up the region. *)
Definition in_hand (d : deployment) (id : string) : Prop :=
  exists l, accounts l [id] [] []
    /\ (l ∈ logs d
        \/ exists p f, Past p l f ∈ settled d
             /\ (f = Returned -> LookupEnv (W := W) "OCI_SHORT_REGION" = None)).

(** C6: every volume that any number of provisioners make for a claim is accounted for,
    however their operations overlap and wherever they are cut short: two PV objects are
    never saved for one volume; the volume of a PV object that was saved exists and was
    never asked to be deleted; and a volume that was made, according to the reply of the
    service, and exists is the one of such an object, or its deletion was asked for and did
    not succeed, or an operation that goes on or was cut short has it in hand. An operation
    that returned leaves nothing else behind if OCI_SHORT_REGION is set; if it is not, as in
    the manifests of the repository, it may leave a volume whose region it failed to look
    up. *)
Theorem volumes_accounted d :
  deployed d ->
  NoDup (pv_Name <$> saved_pvs (calls d))
  /\ (forall pv, pv ∈ saved_pvs (calls d) ->
        pv_Name pv ∈ volumes d /\ pv_Name pv ∉ deleted_ids (calls d))
  /\ (forall id, id ∈ created_ids (calls d) -> id ∈ volumes d ->
        (exists pv, pv ∈ saved_pvs (calls d) /\ pv_Name pv = id)
        \/ (id ∈ deleted_ids (calls d) /\ forall e, e ∈ calls d -> ~ deletes_ok id e)
        \/ in_hand d id).
Proof using All.
  intros Hd%deployed_sound. split; [|split].
  - rewrite (s_calls _ Hd). eapply sublist_NoDup; [by apply sound_new|].
    apply names_sublist. intros l. by apply sound_balance.
  - intros pv Hpv. pose proof (saved_not_deleted _ _ Hd Hpv) as Hno. split; [|done].
    apply (b_kept _ _ (s_booked _ Hd)); [|done]. apply sound_own; [done|]. right. eauto.
  - intros id Hid Hex. destruct (log_of _ _ Hd Hid) as (l & q & Hl & Hq & Hc).
    destruct (decide (id ∈ deleted_ids (calls d))) as [Hdel|Hno].
    { right. left. split; [done|]. intros e He Hok. by apply (b_gone _ _ (s_booked _ Hd) e id). }
    rewrite (deleted_in_log _ l) in Hno by done.
    pose proof (balance_accounts _ _ Hq) as Ha. unfold standing_accounts in Ha.
    destruct (lg_volume q) as [|i|i|i] eqn:Hv.
    + unfold accounts in Ha. destruct Ha as (Hc' & _). congruence.
    + right. right. assert (i = id) as -> by (unfold accounts in Ha; destruct Ha; congruence).
      exists l. split; [done|]. unfold all_logs in Hl. apply elem_of_app in Hl as [Hl|Hl]; [right|by left].
      apply list_elem_of_fmap in Hl as ([p l' f] & -> & Hl). exists p, f. split; [done|]. intros ->.
      pose proof (s_settled _ Hd) as Hs. rewrite Forall_forall in Hs.
      destruct (Hs _ Hl) as (q' & Hq' & Hret). simpl in *. rewrite Hq in Hq'. injection Hq' as <-.
      destruct (LookupEnv _) eqn:Henv; [|done]. by destruct (Hret ltac:(done) id).
    + left. destruct Ha as (pv & Hn & Hc' & Hs & _). exists pv.
      split; [|congruence]. apply elem_of_saved.
      assert (pv ∈ saved_pvs l) as (e & He & Hpv)%elem_of_saved by (rewrite Hs; by left).
      exists e. split; [|done]. apply elem_of_calls; eauto.
    + unfold accounts in Ha. destruct Ha as (k & Hc' & _ & Hdel). rewrite Hdel in Hno. rewrite Hc' in Hc.
      injection Hc as ->. set_solver.
Qed.

(** ** Whose turn it is *)

(** Every operation of the contest that has a volume in hand has the turn. *)
Definition turn_kept (strict : bool) (d : deployment) : Prop :=
  exists x, turns strict no_turn (trace d) = Some x
    /\ Forall2 (fun o l => has_turn strict x (Operations.op_by o) l)
         (Operations.running (contest d)) (logs d).

Section Turns.
Context (strict : bool).
(** The operations of the contest are in one process, and if [strict] there is one. *)
Context (Hplaced : forall d, deployed d -> forall o o',
  o ∈ Operations.running (contest d) -> o' ∈ Operations.running (contest d) ->
  Operations.op_by o = Operations.op_by o').
Context (Hone : strict = true -> forall d, deployed d -> (length (Operations.running (contest d)) <= 1)%nat).

(** A call of the operation [n] of the contest. *)
Lemma turn_kept_call n l o e v q x d :
  deployed d -> logs d !! n = Some l -> Operations.running (contest d) !! n = Some o ->
  balance blank l = Some (opened v) -> enter (opened v) e = Some q ->
  Forall2 (fun o l => has_turn strict x (Operations.op_by o) l) (Operations.running (contest d)) (logs d) ->
  exists x', take_turn strict x (Operations.op_by o, e) = Some x'
    /\ Forall2 (fun o l => has_turn strict x' (Operations.op_by o) l)
         (Operations.running (contest d)) (<[n := l ++ [e]]> (logs d)).
Proof using All.
  intros Hd Hl Ho Hv He Hall.
  destruct (turn_call strict x (Operations.op_by o) l v e q Hv He) as (x' & Hx' & Hn & Hothers).
  { by apply (Forall2_lookup_lr _ _ _ _ _ _ Hall Ho Hl). }
  exists x'. split; [done|]. apply Forall2_same_length_lookup. rewrite length_insert.
  split; [by eapply Forall2_length|]. intros m o' l' Ho' Hl'. destruct (decide (m = n)) as [->|Hm].
  - rewrite list_lookup_insert_eq in Hl' by by eapply lookup_lt_Some. simplify_eq. done.
  - rewrite list_lookup_insert_ne in Hl' by done. apply Hothers.
    + intros Hs. pose proof (Hone Hs d Hd) as Hlen. apply lookup_lt_Some in Ho, Ho'. lia.
    + apply (Hplaced d); [done|by eapply list_elem_of_lookup_2..].
    + by apply (Forall2_lookup_lr _ _ _ _ _ _ Hall Ho' Hl').
Qed.

Lemma turn_kept_Call n e d d' :
  deployed d -> turn_kept strict d -> genuine (Call n e) d -> act (Call n e) d = Some d' -> turn_kept strict d'.
Proof using All.
  intros Hd (x & Hx & Hall) [_ Hb] Hact. simpl in Hact. unfold make_call in Hact.
  apply bind_Some in Hact as (l & Hl & (o & Ho & (V & _ & Hact)%bind_Some)%bind_Some). specialize (Hb _ Hl).
  pose proof (s_working _ (deployed_sound _ Hd)) as Hw. rewrite Forall_forall in Hw.
  destruct (Hw l) as [v Hv]; [by eapply list_elem_of_lookup_2|].
  destruct (begins_enters _ _ _ Hv Hb) as (q & He & _).
  destruct (turn_kept_call _ _ _ _ _ _ _ _ Hd Hl Ho Hv He Hall) as (x' & Hx' & Hall').
  exists x'. destruct (task_result e) as [b|].
  - apply bind_Some in Hact as (c & Hc & [= <-]). destruct (running_end _ _ _ _ Hc) as (o' & _ & Hrun). simpl.
    split; [by rewrite turns_snoc, Hx|]. rewrite Hrun.
    apply (Forall2_delete _ _ _ n) in Hall'. by rewrite delete_update in Hall'.
  - injection Hact as <-. simpl. split; [by rewrite turns_snoc, Hx|done].
Qed.

Lemma turn_kept_GoOn n e d d' :
  deployed d -> turn_kept strict d -> genuine (GoOn n e) d -> act (GoOn n e) d = Some d' -> turn_kept strict d'.
Proof using All.
  intros Hd (x & Hx & Hall) [_ Hb] (V & _ & Hact)%bind_Some.
  destruct (settled d !! n) as [[p l f]|] eqn:Hl; [|done]. destruct f; try done. injection Hact as <-.
  specialize (Hb _ _ _ eq_refl).
  pose proof (s_settled _ (deployed_sound _ Hd)) as Hs. rewrite Forall_forall in Hs.
  destruct (Hs (Past p l Continues)) as (q & Hq & Hres); [by eapply list_elem_of_lookup_2|]. simpl in Hq, Hres.
  destruct (begins_enters _ _ _ Hq Hb) as (q' & He & _). destruct (enter_reported _ _ _ He Hres) as [_ Hw].
  exists x. simpl. split; [|done]. rewrite turns_snoc, Hx. by apply take_turn_idle.
Qed.

Lemma deployed_turn_kept d : deployed d -> turn_kept strict d.
Proof using All.
  induction 1 as [t V|d a d' Hd IH Hg Ha]; [by exists no_turn|].
  destruct a as [m|p|n e|n f|n e|n f|V].
  - assert (match m with Operations.Start _ | Operations.End _ _ => False | _ => True end /\
      exists c, contend m (contest d) = Some c
        /\ d' = Deployment c (logs d) (settled d) (trace d) (volumes d)) as (Hm & c & Hc & ->).
    { destruct m; try done; split; try done; apply bind_Some in Ha as (c & Hc & [= <-]); by exists c. }
    unfold turn_kept. simpl. by rewrite (running_contend _ _ _ Hm Hc).
  - apply bind_Some in Ha as (c & Hc & [= <-]). destruct (running_start _ _ _ Hc) as [o Ho].
    destruct IH as (x & Hx & Hall). exists x. split; [done|]. simpl. rewrite Ho.
    constructor; [|done]. by apply has_turn_unmade.
  - by eapply turn_kept_Call.
  - apply bind_Some in Ha as (l & Hl & (o & Ho & (c & Hc & [= <-])%bind_Some)%bind_Some).
    destruct (running_end _ _ _ _ Hc) as (o' & _ & Hrun). destruct IH as (x & Hx & Hall).
    exists x. split; [done|]. simpl. rewrite Hrun. by apply Forall2_delete.
  - by eapply turn_kept_GoOn.
  - simpl in Ha. destruct (settled d !! n) as [[p l f']|]; [|done]. destruct f'; try done. by injection Ha as <-.
  - by injection Ha as <-.
Qed.
End Turns.

Context (Hlat : 0 <= latency) (Hlong : 0 <= longest <= renewDeadline ctrl).
Context (Hlease : renewDeadline ctrl + 3 * latency + Second <= leaseDuration ctrl).

Definition holder (d : deployment) : string :=
  Lease.HolderIdentity (Lease.current (Operations.locks (contest d))).

Lemma deployed_placed d o :
  deployed d -> o ∈ Operations.running (contest d) -> holder d = Operations.op_by o.
Proof using All.
  intros Hd%deployed_sound. eapply (Operations.operations_placed ctrl skew latency longest delay strays);
    [done..|apply Hd].
Qed.

(** C25: the provisioners of a claim take turns, if every operation reports its result
    within the deadline for a renewal, and the lease is longer than that deadline by three
    latencies and a second: whatever the watches deliver, all operations that have not
    reported their result are in the process that the claim names, and in all calls of all
    provisioners, in their order in time, a PV object is saved only for a volume that the
    same process made, with no creation or saving by another process since. If moreover no
    result is stray, and the operations and the delivery of their results end within the
    deadline for a renewal and within the term, then at most one operation has not reported
    its result, its process leads, and a PV object is saved only for the volume that was
    made last. (A watch can deliver stray results, of earlier operations, and they do end
    the leadership.) *)
Theorem processes_take_turns d :
  deployed d ->
  (forall o, o ∈ Operations.running (contest d) -> Operations.op_by o = holder d)
  /\ is_Some (turns false no_turn (trace d))
  /\ (strays = false -> 0 <= delay -> longest + delay < renewDeadline ctrl ->
      longest + delay < termLimit ctrl ->
      (length (logs d) <= 1)%nat
      /\ (forall o, o ∈ Operations.running (contest d) ->
            Lease.leads (Operations.locks (contest d)) (Operations.op_by o))
      /\ is_Some (turns true no_turn (trace d))).
Proof using All.
  intros Hd. assert (forall d, deployed d -> forall o o',
    o ∈ Operations.running (contest d) -> o' ∈ Operations.running (contest d) ->
    Operations.op_by o = Operations.op_by o') as Hplaced.
  { intros d' Hd' o o' Ho%deployed_placed Ho'%deployed_placed; [congruence|done..]. }
  split; [intros o Ho; symmetry; by apply deployed_placed|]. split.
  - by destruct (deployed_turn_kept false Hplaced ltac:(done) d Hd) as (x & -> & _).
  - intros Hstray Hdelay Hrenew Hterm.
    assert (forall d, deployed d -> (length (Operations.running (contest d)) <= 1)%nat
      /\ forall o, o ∈ Operations.running (contest d) ->
           Lease.leads (Operations.locks (contest d)) (Operations.op_by o)) as Hone.
    { intros d' Hd'%deployed_sound.
      destruct (Operations.operations_exclusive ctrl skew latency longest delay strays
        Hlat Hlong Hlease Hstray Hdelay Hrenew Hterm _ (s_contest _ Hd')) as [? Hl].
      split; [done|]. intros o Ho. by apply Hl. }
    rewrite (s_logs _ (deployed_sound _ Hd)). split; [by apply Hone|]. split; [by apply Hone|].
    destruct (deployed_turn_kept true Hplaced ltac:(intros _ d' ?; by apply Hone) d Hd) as (x & -> & _). done.
Qed.
End Deployment.
