(* ===== verification/Signals.v ===== *)
(** * Signal handling: pkg/signals/signal.go and the signal lists of the platforms

    [SetupSignalHandler] closes a package-level channel, so that it can be called only once,
    and starts a goroutine that turns the first signal into a closed stop channel and the
    second into exit code 1.  The process is a transition system: a signal of the platform's
    list arrives (the runtime drops it when the two-element buffer is full; other signals
    keep their default action), and the goroutine takes its next step. *)

From S2P Require Import Prelude.

(** ** signal_posix.go and signal_windows.go *)

Inductive os_Signal : Set := Interrupt | SIGTERM.

Definition shutdownSignals_posix : list os_Signal := [Interrupt; SIGTERM].
Definition shutdownSignals_windows : list os_Signal := [Interrupt].

(** ** signal.go *)

(** Where the goroutine is: before its first receive, between the receives, after the exit. *)
Inductive handler : Set := AwaitFirst | AwaitSecond | Exited (code : Z).

Record process : Set := {
  onlyOneSignalHandler : bool;      (* closed? *)
  pending : nat;                    (* signals in the buffer *)
  stop : bool;                      (* closed? *)
  goroutine : option handler
}.

Definition initial : process :=
  {| onlyOneSignalHandler := false; pending := 0; stop := false; goroutine := None |}.

(** None: the close of a closed channel panics. *)
Definition SetupSignalHandler (p : process) : option process :=
  if onlyOneSignalHandler p then None
  else Some {| onlyOneSignalHandler := true; pending := 0; stop := false;
               goroutine := Some AwaitFirst |}.

Definition capacity : nat := 2.

(** [signal.Notify] never blocks: a full buffer drops the signal. *)
Definition deliver (p : process) : process :=
  match goroutine p with
  | Some _ =>
      {| onlyOneSignalHandler := onlyOneSignalHandler p;
         pending := if (pending p <? capacity)%nat then S (pending p) else pending p;
         stop := stop p; goroutine := goroutine p |}
  | None => p
  end.

(** One receive of the goroutine and what follows it. *)
Definition receive (p : process) : option process :=
  match pending p, goroutine p with
  | S n, Some AwaitFirst =>
      Some {| onlyOneSignalHandler := onlyOneSignalHandler p; pending := n; stop := true;
              goroutine := Some AwaitSecond |}
  | S n, Some AwaitSecond =>
      Some {| onlyOneSignalHandler := onlyOneSignalHandler p; pending := n; stop := stop p;
              goroutine := Some (Exited 1) |}
  | _, _ => None
  end.

Inductive label : Set := Signal (sig : os_Signal) | Step.

(** The file of the platform the program is built for gives the list. *)
Section Process.
Context (shutdownSignals : list os_Signal).

Inductive step : process -> label -> process -> Prop :=
| step_signal p sig :
    goroutine p <> Some (Exited 1) -> sig ∈ shutdownSignals -> step p (Signal sig) (deliver p)
| step_receive p q : receive p = Some q -> step p Step q.

Inductive steps : process -> list label -> process -> Prop :=
| steps_nil p : steps p [] p
| steps_snoc p l q a r : steps p l q -> step q a r -> steps p (l ++ [a]) r.

Definition signals (l : list label) : nat :=
  length (List.filter (fun a => match a with Signal _ => true | Step => false end) l).

Lemma signals_app l k : signals (l ++ k) = (signals l + signals k)%nat.
Proof. unfold signals. by rewrite List.filter_app, length_app. Qed.

(** The signals taken so far, by the position of the goroutine. *)
Definition taken (p : process) : nat :=
  match goroutine p with
  | Some AwaitSecond => 1
  | Some (Exited _) => 2
  | _ => 0
  end.

Definition started (p : process) : Prop :=
  onlyOneSignalHandler p = true /\ (pending p <= capacity)%nat
  /\ (goroutine p = Some AwaitFirst /\ stop p = false
      \/ goroutine p = Some AwaitSecond /\ stop p = true
      \/ goroutine p = Some (Exited 1) /\ stop p = true).

Lemma steps_invariant p0 l p :
  SetupSignalHandler initial = Some p0 -> steps p0 l p ->
  started p /\ (pending p + taken p <= signals l)%nat
  /\ (signals l <= pending p + taken p \/ 2 <= pending p + taken p)%nat.
Proof.
  intros [= <-] Hs. remember {| onlyOneSignalHandler := true |} as p0 eqn:Hp0.
  induction Hs as [p|p l q a r Hs IH Hstep]; [subst; unfold started, capacity, taken, signals; simpl; repeat split; auto; lia|].
  specialize (IH Hp0) as ((Ho & Hc & Hg) & Hle & Hge). rewrite signals_app.
  inversion Hstep as [? sig Hne Hsig|? ? Hrecv]; subst.
  - change (signals [Signal sig]) with 1%nat. unfold started, deliver, taken, capacity in *.
    destruct (goroutine q) as [h|]; [|naive_solver]. simpl.
    destruct (Nat.ltb_spec (pending q) 2); destruct h;
      cbn [pending goroutine stop onlyOneSignalHandler] in *; (split; [naive_solver lia|split; lia]).
  - change (signals [Step]) with 0%nat. unfold receive, started, taken, capacity in *.
    destruct (pending q) as [|n]; [done|]. destruct (goroutine q) as [[| |]|]; [| |done|done];
      injection Hrecv as <-; cbn [pending goroutine stop onlyOneSignalHandler] in *; (split; [|split; lia]); (split; [done|]); (split; [lia|]);
      naive_solver.
Qed.

(** ** Properties *)

(** C39: the handler can be installed once (a second call panics), and from then on, in
    every interleaving of arriving signals and steps of the goroutine: the stop channel is
    closed only after a signal, the process exits only with code 1, only after two signals
    and only after the stop channel was closed; and no two signals are ever lost: whenever
    the goroutine has nothing left to receive, one signal has closed the stop channel and
    two have ended the process. *)
Theorem signal_protocol p0 l p :
  SetupSignalHandler initial = Some p0 -> steps p0 l p ->
  SetupSignalHandler p = None
  /\ (stop p = true -> 1 <= signals l)%nat
  /\ (forall code, goroutine p = Some (Exited code) -> code = 1%Z /\ stop p = true /\ 2 <= signals l)%nat
  /\ (receive p = None ->
        (1 <= signals l -> stop p = true)%nat
        /\ (2 <= signals l -> goroutine p = Some (Exited 1))%nat).
Proof.
  intros Hsetup Hs. destruct (steps_invariant _ _ _ Hsetup Hs) as ((Ho & Hc & Hg) & Hle & Hge).
  unfold SetupSignalHandler. rewrite Ho. split; [done|]. unfold taken, receive in *.
  destruct Hg as [[Hg Hst]|[[Hg Hst]|[Hg Hst]]]; rewrite Hg, Hst in *.
  - split; [done|]. split; [done|]. destruct (pending p); [|done]. intros _. lia.
  - split; [lia|]. split; [done|]. destruct (pending p); [|done]. intros _. split; [done|lia].
  - split; [lia|]. split; [intros c [= <-]; repeat split; lia|]. auto.
Qed.
End Process.
