(* ===== verification/Depot.v ===== *)
(** * Services that keep their promises

    A second concrete backend.  A volume exists from its creation to its deletion and is
    available a fixed time after it was created, as Store.v and BlockLive.v ask of a volume
    service; a file system is listed from its creation on, and still after its deletion, as
    FssStore.v allows; an export is listed, on one page, until it is deleted, and a given
    number of creations of exports are answered by an error although they are executed.  The service of the availability
    domains is out of order. *)

From S2P Require Import Prelude GoStrings Errors Quantity Objects Config Effects Logic Wait Plugin Cloud InstanceMeta Client Block BlockLive Store.
From S2P Require FssStore FssAssets FssLive.

Open Scope Z_scope.

(** The volumes with the time from which each is available, the file systems with their
    keys, the deleted ones, the exports with theirs, and the number of creations of exports
    that will be answered by an error. *)
Record depot : Type := Depot {
  d_vols : gmap string Z;
  d_files : gmap string FssStore.fs_key;
  d_gone : gmap string FssStore.fs_key;
  d_exports : gmap string FssAssets.ex_key;
  d_busy : nat
}.
Definition set_vols (w : depot) (m : gmap string Z) : depot := Depot m (d_files w) (d_gone w) (d_exports w) (d_busy w).

(** A name that is longer than every name in use. *)
Definition longest (X : gset string) : nat :=
  foldr (fun s n => Nat.max (String.length s) n) 0%nat (elements X).
Definition fresh_in (X : gset string) : string := ticks (S (longest X)).
Definition new_id (w : depot) : string := fresh_in (dom (d_vols w)).

Lemma length_ticks n : String.length (ticks n) = n.
Proof. induction n as [|n IH]; [done|]. simpl ticks. by rewrite length_append, IH. Qed.

Lemma longest_spec (X : gset string) s : s ∈ X -> (String.length s <= longest X)%nat.
Proof.
  unfold longest. rewrite <- elem_of_elements. induction 1 as [|s' t l Hin IH]; simpl; lia.
Qed.

Lemma fresh_in_spec X : fresh_in X ∉ X.
Proof. intros Hin%longest_spec. unfold fresh_in in Hin. rewrite length_ticks in Hin. lia. Qed.

(** The environment names the region; a volume is available a minute after its creation. *)
Definition depot_env : gmap string string := {["OCI_SHORT_REGION" := "phx"]}.
Definition boot_time : Z := Minute.

(** Every call takes a second. *)
Definition second : N := 1000000000%N.

Definition depot_op {A} (late : A) (op : Z -> depot -> A * depot) (c : ctx) : Op depot A :=
  fun t w => if expired c t then (late, 0%N, w)
             else let '(a, w') := op (t + Z.of_N second) w in (a, second, w').

Definition depot_Create (c : ctx) (_ : CreateVolumeDetails) : Op depot (api Volume) :=
  depot_op (inr late) (fun t w =>
    (inl {| vol_Id := Some (new_id w); vol_LifecycleState := VolumeProvisioning |},
     set_vols w (<[new_id w := t + boot_time]> (d_vols w)))) c.

(** The state is that of the time at which the call arrives. *)
Definition depot_Get (c : ctx) (id : option string) : Op depot (api Volume) := fun t w =>
  if expired c t then (inr late, 0%N, w)
  else match id with
       | Some i =>
           match d_vols w !! i with
           | Some T =>
               (inl {| vol_Id := Some i;
                       vol_LifecycleState := if T <=? t then VolumeAvailable else VolumeProvisioning |},
                second, w)
           | None => (inr missing, second, w)
           end
       | None => (inr missing, second, w)
       end.

Definition depot_Delete (c : ctx) (id : option string) : Op depot DeleteVolumeReply :=
  depot_op {| dv_RawStatus := None; dv_err := Some late |} (fun _ w =>
    match id with
    | Some i =>
        match d_vols w !! i with
        | Some _ => ({| dv_RawStatus := Some 204; dv_err := None |}, set_vols w (delete i (d_vols w)))
        | None => ({| dv_RawStatus := Some 404; dv_err := Some missing |}, w)
        end
    | None => ({| dv_RawStatus := Some 404; dv_err := Some missing |}, w)
    end) c.

Definition broken {A} : Op depot (api A) := fun _ w => (inr late, 0%N, w).

(** ** The file-storage service

    Every mount target is active, with one address and an export set. *)

Definition depot_CreateFileSystem (c : ctx) (r : CreateFileSystemDetails) :
  Op depot (api FileSystem) :=
  depot_op (inr late) (fun _ w =>
    let id := fresh_in (dom (d_files w) ∪ dom (d_gone w)) in
    (inl {| fs_Id := Some id; fs_LifecycleState := FssActive |},
     Depot (d_vols w) (<[id := (cf_AvailabilityDomain r, cf_DisplayName r)]> (d_files w))
       (d_gone w) (d_exports w) (d_busy w))) c.

Definition depot_ListFileSystems (c : ctx) (r : ListFileSystemsRequest) :
  Op depot (api ListFileSystemsResponse) :=
  depot_op (inr late) (fun _ w =>
    (inl {| lfs_Items := (fun id => {| fss_Id := Some id; fss_DisplayName := lf_DisplayName r |}) <$>
              elements (FssStore.named (d_files w ∪ d_gone w)
                          (lf_AvailabilityDomain r, lf_DisplayName r));
            lfs_OpcNextPage := None |}, w)) c.

(** A reply that needs no look at the store. *)
Definition depot_reply {A} (a : A) (c : ctx) : Op depot (api A) :=
  depot_op (inr late) (fun _ w => (inl a, w)) c.

Definition depot_GetFileSystem (c : ctx) (id : option string) : Op depot (api FileSystem) :=
  depot_op (inr late) (fun _ w =>
    match id with
    | Some i =>
        if bool_decide (i ∈ dom (d_files w)) then (inl {| fs_Id := id; fs_LifecycleState := FssActive |}, w)
        else if bool_decide (i ∈ dom (d_gone w)) then (inl {| fs_Id := id; fs_LifecycleState := FssDeleted |}, w)
        else (inr missing, w)
    | None => (inr missing, w)
    end) c.

Definition depot_DeleteFileSystem (c : ctx) (id : option string) : Op depot (api unit) :=
  depot_op (inr late) (fun _ w =>
    match id with
    | Some i =>
        match d_files w !! i with
        | Some k => (inl tt, Depot (d_vols w) (delete i (d_files w)) (<[i := k]> (d_gone w)) (d_exports w) (d_busy w))
        | None => (inr missing, w)
        end
    | None => (inr missing, w)
    end) c.

Definition depot_CreateExport (c : ctx) (r : CreateExportDetails) : Op depot (api Export) :=
  depot_op (inr late) (fun _ w =>
    let id := fresh_in (dom (d_exports w)) in
    (match d_busy w with
     | S _ => inr (ServiceFailure 503 "ServiceUnavailable" "try again")
     | O => inl {| ex_Id := Some id; ex_LifecycleState := FssActive; ex_Path := ce_Path r |}
     end,
     Depot (d_vols w) (d_files w) (d_gone w)
       (<[id := (ce_FileSystemId r, ce_ExportSetId r)]> (d_exports w)) (Nat.pred (d_busy w)))) c.

Definition depot_ListExports (c : ctx) (r : ListExportsRequest) : Op depot (api ListExportsResponse) :=
  depot_op (inr late) (fun _ w =>
    (inl {| le_Items := (fun id => {| es_Id := Some id; es_LifecycleState := FssActive |}) <$>
              elements (FssStore.named (d_exports w) (FssAssets.list_key r));
            le_OpcNextPage := None |}, w)) c.

Definition depot_GetExport (c : ctx) (id : option string) : Op depot (api Export) :=
  depot_op (inr late) (fun _ w =>
    match id with
    | Some i =>
        if bool_decide (i ∈ dom (d_exports w))
        then (inl {| ex_Id := id; ex_LifecycleState := FssActive; ex_Path := Some "/export" |}, w)
        else (inr missing, w)
    | None => (inr missing, w)
    end) c.

Definition depot_DeleteExport (c : ctx) (id : option string) : Op depot (api unit) :=
  depot_op (inr late) (fun _ w =>
    match id with
    | Some i =>
        if bool_decide (i ∈ dom (d_exports w))
        then (inl tt, Depot (d_vols w) (d_files w) (d_gone w) (delete i (d_exports w)) (d_busy w))
        else (inr missing, w)
    | None => (inr missing, w)
    end) c.

Definition depot_FSS : FSS depot :=
  {| fss_CreateFileSystem := depot_CreateFileSystem; fss_GetFileSystem := depot_GetFileSystem;
     fss_ListFileSystems := depot_ListFileSystems; fss_DeleteFileSystem := depot_DeleteFileSystem;
     fss_CreateExport := depot_CreateExport;
     fss_ListExports := depot_ListExports;
     fss_GetExport := depot_GetExport;
     fss_DeleteExport := depot_DeleteExport;
     fss_GetMountTarget := fun c id =>
       depot_reply {| mt_Id := id; mt_LifecycleState := FssActive; mt_PrivateIpIds := ["ip"];
                      mt_ExportSetId := Some "es" |} c |}.

#[export] Instance depot_Backend : Backend depot :=
  {| backend_BlockStorage :=
       {| bs_CreateVolume := depot_Create; bs_DeleteVolume := depot_Delete;
          bs_GetVolume := depot_Get |};
     backend_Identity := {| id_ListAvailabilityDomains := fun _ _ => broken |};
     backend_FSS := depot_FSS;
     backend_VCN := {| vcn_GetPrivateIp := fun c _ =>
       depot_reply {| ip_IpAddress := Some "10.0.0.1" |} c |};
     backend_Host :=
       {| host_ListNodes := fun _ w => (Ok [], 0%N, w);
          host_HttpGet := fun _ _ w => (Err (errors_New "no route to host"), 0%N, w);
          host_environ := depot_env;
          host_rand := fun _ w => (0%N, 0%N, w);
          host_select := fun w => (true, w) |} |}.

Definition available_at (w : depot) (id : string) (T : Z) : Prop :=
  exists T', d_vols w !! id = Some T' /\ T' <= T.

#[export] Instance depot_prompt : PromptVolumes depot boot_time (Z.of_N second).
Proof.
  refine {| prompt := fun _ => True; available_by := available_at |}.
  - intros c r t w a d w' _ Hexp. simpl. unfold depot_Create, depot_op. rewrite Hexp.
    intros [= <- <- <-]. split; [done|]. do 2 eexists. split; [done|]. split; [done|].
    exists (t + Z.of_N second + boot_time). split; [apply lookup_insert_eq|lia].
  - intros c id T t w a d w' (T' & HT' & Hle) Hexp. simpl. unfold depot_Get. rewrite Hexp, HT'.
    intros [= <- <- <-]. split; [done|]. split; [by exists T'|]. eexists. split; [done|]. simpl.
    destruct (Z.leb_spec T' t); [by left|right]. split; [done|lia].
  - done.
Defined.

#[export] Instance depot_store : VolumeStore depot.
Proof.
  refine {| vols := fun w => dom (d_vols w) |}.
  - intros c r t w a d w'. simpl. unfold depot_Create, depot_op.
    destruct (expired c t); intros [= <- <- <-]; simpl; [by left|].
    split; [apply fresh_in_spec|]. by rewrite dom_insert_L.
  - intros c id t w a d w'. simpl. unfold depot_Get.
    repeat case_match; by intros [= <- <- <-].
  - intros c id t w a d w'. simpl. unfold depot_Delete, depot_op.
    repeat case_match; intros; simplify_eq; simpl; try done; try (by left). by rewrite dom_delete_L.
  - done.
  - by intros u t w a d w' [= <- <- <-].
Defined.

(** What is listed of a key: what is live and what is deleted. *)
Lemma depot_lists w r :
  FssStore.lists (d_files w) r
    {| lfs_Items := (fun id => {| fss_Id := Some id; fss_DisplayName := lf_DisplayName r |}) <$>
         elements (FssStore.named (d_files w ∪ d_gone w) (lf_AvailabilityDomain r, lf_DisplayName r));
       lfs_OpcNextPage := None |}.
Proof.
  set (k := (lf_AvailabilityDomain r, lf_DisplayName r)).
  assert (forall id, Some id ∈ fss_Id <$> ((fun id => {| fss_Id := Some id; fss_DisplayName := lf_DisplayName r |}) <$>
    elements (FssStore.named (d_files w ∪ d_gone w) k)) <-> (d_files w ∪ d_gone w) !! id = Some k) as Hin.
  { intros id. rewrite <- list_fmap_compose, list_elem_of_fmap. simpl.
    setoid_rewrite elem_of_elements. setoid_rewrite FssStore.elem_named. naive_solver. }
  split.
  - intros _ id Hid. apply Hin. by apply lookup_union_Some_l.
  - intros id k' Hi%Hin Hk. rewrite (lookup_union_Some_l _ _ _ _ Hk) in Hi. by simplify_eq.
Qed.

#[export] Instance depot_files : FssStore.FileStore depot.
Proof.
  refine {| FssStore.files := d_files |}.
  - intros k c t d w w' Hop. destruct k; try done; simpl in Hop |- *;
      unfold depot_CreateFileSystem, depot_ListFileSystems, depot_GetFileSystem,
        depot_DeleteFileSystem, depot_CreateExport, depot_ListExports, depot_GetExport, depot_DeleteExport,
        depot_reply, depot_op in Hop;
      destruct (expired c t); repeat case_match; simplify_eq; try done; simpl in *; simplify_eq; try (by left).
    + split; [|done]. apply not_elem_of_dom. intros Hin.
      apply (fresh_in_spec (dom (d_files w) ∪ dom (d_gone w))). set_solver.
    + split; [done|]. split; [done|]. intros _ i [= <-]. case_bool_decide; [|done]. by apply elem_of_dom.
    + split; [apply depot_lists|done].
  - by intros t w a d w' [= <- <- <-].
  - done.
Defined.

(** All the exports with a key are on the first page. *)
Definition one_page (E : gmap string FssAssets.ex_key) (k : FssAssets.ex_key) (page : option string) : gset string :=
  FssStore.named E k.

#[export] Instance depot_export_store : FssAssets.ExportStore depot.
Proof.
  refine {| FssAssets.exports := d_exports; FssAssets.upcoming := one_page |}.
  - intros k c t d w w' Hop. destruct k; try done; simpl in Hop |- *;
      unfold depot_CreateFileSystem, depot_ListFileSystems, depot_GetFileSystem,
        depot_DeleteFileSystem, depot_CreateExport, depot_ListExports, depot_GetExport, depot_DeleteExport,
        depot_reply, depot_op in Hop;
      destruct (expired c t); repeat case_match; simplify_eq; try done; simpl in *; simplify_eq; try done; try (by left).
    + split; [|done]. apply not_elem_of_dom, fresh_in_spec.
    + right. eexists. split; [|done]. apply not_elem_of_dom, fresh_in_spec.
    + split; [split|done].
      * intros x id (i & -> & Hi%elem_of_elements)%list_elem_of_fmap _ [= <-]. by apply FssStore.elem_named.
      * intros id Hid. left. exists {| es_Id := Some id; es_LifecycleState := FssActive |}.
        split; [|done]. apply list_elem_of_fmap. exists id. split; [done|]. by apply elem_of_elements.
  - by intros t w a d w' [= <- <- <-].
  - done.
  - done.
Defined.

(** The file-storage service is in order when no creation is going to fail. *)
Definition depot_knows (w : depot) (f : FssLive.fact) : Prop :=
  match f with
  | FssLive.Healthy => d_busy w = 0%nat
  | FssLive.TargetUp _ es => es = "es"
  | FssLive.Unambiguous k =>
      (size (FssStore.named (d_files w) k) <= 1)%nat /\ FssStore.named (d_gone w) k = ∅
  | FssLive.FileBy id _ => id ∈ dom (d_files w)
  | FssLive.AddressUp _ => True
  | FssLive.ExportBy id _ => id ∈ dom (d_exports w)
  end.

Ltac run_depot Hop :=
  simpl in Hop;
  unfold depot_CreateFileSystem, depot_ListFileSystems, depot_GetFileSystem, depot_DeleteFileSystem,
    depot_CreateExport, depot_ListExports, depot_GetExport, depot_DeleteExport, depot_reply, depot_op in Hop;
  simpl in Hop.

Lemma depot_listed w k :
  (size (FssStore.named (d_files w) k) <= 1)%nat -> FssStore.named (d_gone w) k = ∅ ->
  elements (FssStore.named (d_files w ∪ d_gone w) k) = []
  \/ exists id, elements (FssStore.named (d_files w ∪ d_gone w) k) = [id] /\ id ∈ dom (d_files w).
Proof.
  intros Hone Hnone.
  assert (FssStore.named (d_files w ∪ d_gone w) k ⊆ FssStore.named (d_files w) k) as Hsub.
  { intros id. rewrite !FssStore.elem_named. intros [Hid|[_ Hid]]%lookup_union_Some_raw; [done|].
    apply FssStore.elem_named in Hid. set_solver. }
  pose proof (subseteq_size _ _ Hsub) as Hsize. set (X := FssStore.named (_ ∪ _) k) in *.
  assert (length (elements X) <= 1)%nat as Hlen by (change (length (elements X)) with (size X); lia).
  destruct (elements X) as [|id [|]] eqn:HX; [by left|right|simpl in Hlen; lia].
  exists id. split; [done|]. apply elem_of_dom. exists k. apply FssStore.elem_named, Hsub, elem_of_elements.
  rewrite HX. by left.
Qed.

#[export] Instance depot_prompt_files : FssLive.PromptFiles depot 0.
Proof.
  refine {| FssLive.knows := depot_knows; FssLive.page_rank := fun _ => 0%nat; FssLive.page_bound := 0%nat |}.
  - intros k t d w w' f Hop Hdel Hf Hk. destruct k; try done; run_depot Hop;
      repeat case_match; simplify_eq; try done; destruct f; simpl in *; simplify_eq; try done;
      (congruence || set_solver || by specialize (Hf _ _ eq_refl)).
  - by intros t w a d w' f [= <- <- <-].
  - done.
  - intros mt es a t d w w' Hop ->. run_depot Hop. simplify_eq. by eexists.
  - intros ip a t d w w' Hop _. run_depot Hop. simplify_eq. by do 2 eexists.
  - intros req a t d w w' Hop _ [Hone Hnone]. run_depot Hop. simplify_eq.
    eexists. split; [done|]. simpl.
    destruct (depot_listed w' _ Hone Hnone) as [->|(id & -> & Hid)]; [by left|right]. by do 2 eexists.
  - intros req a t d w w' Hop _. run_depot Hop. simplify_eq. do 2 eexists. split; [done|].
    split; [done|]. simpl. set_solver.
  - intros id T a t d w w' Hop Hk. run_depot Hop. simpl in Hk. rewrite bool_decide_eq_true_2 in Hop by done.
    simplify_eq. eexists. split; [done|]. split; [done|]. by left.
  - intros req a t d w w' Hop _. run_depot Hop. simplify_eq. eexists. split; [done|].
    split; [|done]. intros x (id & -> & Hi%elem_of_elements)%list_elem_of_fmap _. exists id.
    split; [done|]. apply FssStore.elem_named in Hi. simpl. apply elem_of_dom. by eexists.
  - intros req a t d w w' Hop Hk. run_depot Hop. simpl in Hk. rewrite Hk in Hop. simplify_eq.
    do 2 eexists. split; [done|]. split; [done|]. simpl. set_solver.
  - intros id T a t d w w' Hop Hk. run_depot Hop. simpl in Hk. rewrite bool_decide_eq_true_2 in Hop by done.
    simplify_eq. do 2 eexists. split; [done|]. split; [done|]. split; [done|]. by left.
Defined.

(** The volumes follow the log of the metadata service, which only reads. *)
Lemma depot_meta_follows `{GoLib} : upholds (meta_Get (W := depot)) follows.
Proof.
  intros s. simpl. unfold Get. destruct (url_Parse _); [|by go]. go.
  injection Hop as <- _ <-. go. unfold follows. simpl. eauto.
Qed.

(** Nothing stored, at time 0. *)
Definition empty_depot (cfg : option Config) : state depot := State 0 (Depot ∅ ∅ ∅ ∅ 0) cfg.
