(* ===== verification/Sample.v ===== *)
(** * A sample process and a small cluster

    Concrete values at which the library is run: a client, a configuration, a claim, the
    small cloud of Cloud.v in a few states, and, for the controller, that cloud together with
    an API server whose objects are maps. *)

From S2P Require Import Prelude GoStrings Version Errors Quantity Objects Config Effects Logic Wait Plugin Cloud InstanceMeta Client Core Controller.
From S2P Require Block Fss.

Open Scope Z_scope.

(** ** A sample process *)

Definition env0 : gmap string string :=
  {["OCI_SHORT_REGION" := "phx"; "OCI_VOLUME_NAME_PREFIX" := "dev"]}.

#[export] Instance backend0 : Backend cloud := cloud_Backend env0 1000000.
(** The same cloud in an environment without a region. *)
Definition backend1 : Backend cloud := cloud_Backend ∅ 1000000.

Definition auth0 : AuthConfig :=
  {| TenancyOCID := "ocid1.tenancy"; UserOCID := "ocid1.user"; auth_CompartmentOCID := EmptyString;
     PrivateKey := "key"; Fingerprint := "aa:bb"; Region := "us-phoenix-1";
     PrivateKeyPassphrase := EmptyString |}.
Definition config0 : Config :=
  {| Auth := auth0; UseInstancePrincipals := false; CompartmentOCID := "ocid1.compartment" |}.

#[export] Instance golib0 : GoLib :=
  {| url_Parse := fun u => Ok u;
     json_Decode := fun _ => Ok {| md_CompartmentOCID := "ocid1.compartment"; md_Region := "phx" |};
     yaml_Unmarshal := fun _ _ => Ok (Some config0);
     ReadFile := fun _ => Ok "pem";
     os_Open := fun _ => Ok (Ok "yaml");
     AppendCertsFromPEM := fun p => Some p |}.

Definition client0 : provisionerClient :=
  {| pc_tenancyID := "ocid1.tenancy"; pc_blockStorage := OtherDispatcher;
     pc_identity := OtherDispatcher; pc_fileStorage := OtherDispatcher;
     pc_virtualNetwork := OtherDispatcher; pc_timeout := 3 * Minute; pc_metadata := None |}.

#[export] Instance pclient0 : ProvisionerClient := client_of client0.

Definition node0 (z : string) : Node :=
  {| node_Name := z; node_Labels := {[LabelZoneFailureDomain := z]} |}.

(** A cloud whose new volumes go through the given lifecycle states. *)
Definition cloud0 (boot : list string) : cloud :=
  {| c_vols := ∅; c_boot := boot; c_next := 0;
     c_ads := [{| ad_Name := Some "XdWi:PHX-AD-1"; ad_CompartmentId := None |};
               {| ad_Name := Some "XdWi:PHX-AD-2"; ad_CompartmentId := None |}];
     c_fs := ∅; c_exports := ∅;
     c_mts := {["mt1" := {| mt_Id := Some "mt1"; mt_LifecycleState := FssActive;
                            mt_PrivateIpIds := ["ip1"; "ip2"]; mt_ExportSetId := Some "es1" |}]};
     c_ips := {["ip1" := "10.0.0.1"; "ip2" := "10.0.0.2"]};
     c_nodes := [node0 "PHX-AD-1"; node0 "PHX-AD-2"];
     c_http := Err (errors_New "no route to host") |}.

Definition state0 (boot : list string) : state cloud := State 0 (cloud0 boot) (Some config0).
Definition good : state cloud := state0 [VolumeProvisioning; VolumeAvailable].
Definition faulty : state cloud := state0 [VolumeProvisioning; VolumeFaulty].
Definition stuck : state cloud := state0 [VolumeProvisioning].

Definition block0 : Block.blockProvisioner :=
  {| Block.bp_volumeRoundingEnabled := true;
     Block.bp_minVolumeSize := NewQuantity 53687091200;
     Block.bp_timeout := 3 * Minute |}.

Definition claim0 : PersistentVolumeClaim :=
  {| pvc_Namespace := "default"; pvc_Name := "data-db-1"; pvc_UID := "uid-1"; pvc_Annotations := ∅;
     pvc_AccessModes := [ReadWriteOnce]; pvc_Selector := None;
     pvc_Requests := {[ResourceStorage := NewQuantity 1073741824]};
     pvc_VolumeName := EmptyString; pvc_StorageClassName := Some "oci"; pvc_VolumeMode := None |}.

Definition options0 : VolumeOptions :=
  {| vo_ReclaimPolicy := "Delete"; vo_PVName := "pv"; vo_MountOptions := [];
     vo_PVC := Some claim0; vo_Parameters := {["mntTargetId" := "mt1"]} |}.

Definition ad0 : AvailabilityDomain :=
  {| ad_Name := Some "XdWi:PHX-AD-1"; ad_CompartmentId := None |}.

Definition fsp0 : Fss.filesystemProvisioner := {| Fss.fsp_region := "phx" |}.

(** The outcome of a run, without the values. *)
Inductive ending : Set := Success | Failure | Other.
Definition ending_of {A} (r : outcome (result A) * state cloud * list event) : ending :=
  match r with (Val (Ok _), _, _) => Success | (Val (Err _), _, _) => Failure | _ => Other end.

Lemma fuel37 : enough_fuel 37 (5 * Second) (Block.bp_timeout block0).
Proof. by vm_compute. Qed.

(** ** A cluster *)

(** The services of Oracle's cloud next to an API server. *)
Record cluster : Type := Cluster {
  k_cloud : cloud;
  k_pvs : gmap string PersistentVolume;
  k_classes : gmap string StorageClass;
  k_claims : gmap string PersistentVolumeClaim
}.

Definition set_cloud (w : cluster) (c : cloud) : cluster :=
  Cluster c (k_pvs w) (k_classes w) (k_claims w).
Definition set_pvs (w : cluster) (m : gmap string PersistentVolume) : cluster :=
  Cluster (k_cloud w) m (k_classes w) (k_claims w).

Definition lift {A} (op : Op cloud A) : Op cluster A := fun t w =>
  let '(a, d, c) := op t (k_cloud w) in (a, d, set_cloud w c).

Definition lift_Backend (b : Backend cloud) : Backend cluster :=
  {| backend_BlockStorage :=
       {| bs_CreateVolume := fun c r => lift (bs_CreateVolume c r);
          bs_DeleteVolume := fun c id => lift (bs_DeleteVolume c id);
          bs_GetVolume := fun c id => lift (bs_GetVolume c id) |};
     backend_Identity :=
       {| id_ListAvailabilityDomains := fun c id => lift (id_ListAvailabilityDomains c id) |};
     backend_FSS :=
       {| fss_CreateFileSystem := fun c r => lift (fss_CreateFileSystem c r);
          fss_GetFileSystem := fun c id => lift (fss_GetFileSystem c id);
          fss_ListFileSystems := fun c r => lift (fss_ListFileSystems c r);
          fss_DeleteFileSystem := fun c id => lift (fss_DeleteFileSystem c id);
          fss_CreateExport := fun c r => lift (fss_CreateExport c r);
          fss_ListExports := fun c r => lift (fss_ListExports c r);
          fss_GetExport := fun c id => lift (fss_GetExport c id);
          fss_DeleteExport := fun c id => lift (fss_DeleteExport c id);
          fss_GetMountTarget := fun c id => lift (fss_GetMountTarget c id) |};
     backend_VCN := {| vcn_GetPrivateIp := fun c id => lift (vcn_GetPrivateIp c id) |};
     backend_Host :=
       {| host_ListNodes := lift host_ListNodes;
          host_HttpGet := fun u => lift (host_HttpGet u);
          host_environ := host_environ (W := cloud);
          host_rand := lift host_rand;
          host_select := fun w =>
            let '(b, c) := host_select (k_cloud w) in (b, set_cloud w c) |} |}.

#[export] Instance cluster_Backend : Backend cluster := lift_Backend backend0.

(** An API server that answers at once and keeps object names unique. *)
#[export] Instance cluster_ApiServer : ApiServer cluster :=
  {| api_GetPV := fun name _ w =>
       (match k_pvs w !! name with
        | Some pv => Ok (Some pv)
        | None => Err (Errorf "persistentvolumes %q not found" [FStr name])
        end, 1%N, w);
     api_CreatePV := fun pv _ w =>
       match k_pvs w !! pv_Name pv with
       | Some _ => (Err (Errorf "persistentvolumes %q already exists" [FStr (pv_Name pv)]), 1%N, w)
       | None => (Ok tt, 1%N, set_pvs w (<[pv_Name pv := pv]> (k_pvs w)))
       end;
     api_DeletePV := fun name _ w =>
       match k_pvs w !! name with
       | Some _ => (Ok tt, 1%N, set_pvs w (delete name (k_pvs w)))
       | None => (Err (Errorf "persistentvolumes %q not found" [FStr name]), 1%N, w)
       end;
     cache_GetClass := fun name _ w => (Ok (k_classes w !! name), 0%N, w);
     cache_GetClaim := fun key _ w => (Ok (k_claims w !! key), 0%N, w);
     cache_GetVolume := fun key _ w => (Ok (k_pvs w !! key), 0%N, w);
     ref_GetReference := fun claim =>
       Ok {| or_Kind := "PersistentVolumeClaim"; or_APIVersion := "v1";
             or_Namespace := pvc_Namespace claim; or_Name := pvc_Name claim;
             or_UID := pvc_UID claim; or_ResourceVersion := "1" |};
     feature_BlockVolume := false |}.

(** Nobody else races for the claims. *)
#[export] Instance cluster_Election : Election cluster :=
  {| el_IsLeader := fun _ => ret false; el_Run := fun _ => ret Elected |}.

(** A claim of the class "oci" for the given provisioner. *)
Definition claim_for (provisioner : string) : PersistentVolumeClaim :=
  {| pvc_Namespace := "default"; pvc_Name := "data-db-1"; pvc_UID := "uid-1";
     pvc_Annotations := {[annStorageProvisioner := provisioner]};
     pvc_AccessModes := [ReadWriteOnce]; pvc_Selector := None;
     pvc_Requests := {[ResourceStorage := NewQuantity 1073741824]};
     pvc_VolumeName := EmptyString; pvc_StorageClassName := Some "oci"; pvc_VolumeMode := None |}.

Definition class_for (provisioner : string) : StorageClass :=
  {| sc_Provisioner := provisioner; sc_Parameters := {["mntTargetId" := "mt1"]};
     sc_ReclaimPolicy := Some "Delete"; sc_MountOptions := [] |}.

Definition cluster0 (provisioner : string) (boot : list string) : state cluster :=
  State 0 {| k_cloud := cloud0 boot; k_pvs := ∅; k_classes := {["oci" := class_for provisioner]};
             k_claims := {["default/data-db-1" := claim_for provisioner]} |} (Some config0).

Definition kube_1_9 : Version := release 1 9 3.
