(* ===== verification/Scenarios.v ===== *)
(** * The controller at work, in the cluster of Sample.v

    Whole operations of the controller with core and each plugin behind it, run to the end:
    the life of a claim, what a second operation on a claim does whose volume is saved but not
    yet bound, and what two processes do on a claim at once. *)

From S2P Require Import Prelude GoStrings Version Errors Quantity Objects Config Effects Logic Wait Plugin Cloud InstanceMeta Client Core Controller Sample.
From S2P Require Block BlockSpec Fss FssSpec ControllerSpec Operations Overlap Lease Ledger Deployment.

Open Scope Z_scope.

Definition block_type : string := "oracle.com/oci-block".
Definition fss_type : string := "oracle.com/oci-fss".

Definition cluster_block : Provisioner cluster :=
  @ControllerSpec.core_Provisioner cluster _ _ (BlockSpec.block_Plugin 37 block0).
Definition cluster_fss : Provisioner cluster :=
  @ControllerSpec.core_Provisioner cluster _ _ (FssSpec.fss_Plugin fsp0 1).

Definition provisioner_of (type : string) : Provisioner cluster :=
  if String.eqb type fss_type then cluster_fss else cluster_block.

(** One sync of the sample claim, as a worker of the process does it. *)
Definition sync_claim (type : string) : M cluster (result unit) :=
  @syncClaimHandler cluster _ (provisioner_of type) (main_controller type kube_1_9) _
    "default/data-db-1".

Definition start (type : string) : state cluster :=
  cluster0 type [VolumeProvisioning; VolumeAvailable].

(** What is left of a run: the block volumes and the file systems in the cloud, the names of
    the PV objects in the API server, and what the operations returned. *)
Definition remains {A} (r : outcome A * state cluster * list event) :
  outcome A * (list string * list string * list string) :=
  let '(o, s, _) := r in
  (o, ((map_to_list (c_vols (k_cloud (st_world s)))).*1,
       (map_to_list (c_fs (k_cloud (st_world s)))).*1,
       (map_to_list (k_pvs (st_world s))).*1)).

(** The PV controller of Kubernetes releases the volumes whose claim is gone. *)
Definition release (pv : PersistentVolume) : PersistentVolume :=
  {| pv_Name := pv_Name pv; pv_Annotations := pv_Annotations pv; pv_Labels := pv_Labels pv;
     pv_ReclaimPolicy := pv_ReclaimPolicy pv; pv_AccessModes := pv_AccessModes pv;
     pv_Capacity := pv_Capacity pv; pv_FlexVolume := pv_FlexVolume pv; pv_NFS := pv_NFS pv;
     pv_MountOptions := pv_MountOptions pv; pv_ClaimRef := pv_ClaimRef pv;
     pv_StorageClassName := pv_StorageClassName pv; pv_Phase := VolumeReleased |}.

Definition release_all : M cluster unit := fun s =>
  (Val tt, State (st_now s) (set_pvs (st_world s) (release <$> k_pvs (st_world s))) (st_cfg s), []).

Definition sync_volumes (type : string) : M cluster (list (result unit)) := fun s =>
  mapM (@syncVolumeHandler cluster _ (provisioner_of type) (main_controller type kube_1_9))
    (map_to_list (k_pvs (st_world s))).*1 s.

Definition life (type : string) : M cluster (result unit * list (result unit)) :=
  let* r := sync_claim type in
  let* _ := release_all in
  let* rs := sync_volumes type in
  ret (r, rs).

(** The whole life of a claim under the controller, with either plugin: it is provisioned and
    saved, and after its release the deletion leaves neither a volume nor a PV object. *)
Theorem claim_life :
  remains (sync_claim block_type (start block_type))
    = (Val (Ok tt), (["ocid1.volume.oc1.phx."], [], ["ocid1.volume.oc1.phx."]))
  /\ remains (life block_type (start block_type)) = (Val (Ok tt, [Ok tt]), ([], [], []))
  /\ remains (sync_claim fss_type (start fss_type))
     = (Val (Ok tt), ([], ["ocid1.filesystem.oc1.phx."], ["ocid1.filesystem.oc1.phx."]))
  /\ remains (life fss_type (start fss_type)) = (Val (Ok tt, [Ok tt]), ([], [], [])).
Proof. by vm_compute. Qed.

Definition twice {A} (m : M cluster A) : M cluster (A * A) :=
  let* x := m in let* y := m in ret (x, y).

(** A second operation on the same claim is not recognised as such. The controller
    looks for a PV object under the name it proposed, "pvc-" and the claim's UID, and core
    names the volume by its OCID instead. When a claim is synced twice before it is bound,
    then with the block plugin there are two volumes and two PV objects for it; and with the
    file-storage plugin the second operation finds the file system of the first, cannot save
    it again under the same name, and deletes it: both operations report success, the PV
    object is there, and the file system is gone. *)
Theorem second_operation :
  remains (twice (sync_claim block_type) (start block_type))
    = (Val (Ok tt, Ok tt),
       (["ocid1.volume.oc1.phx.iii"; "ocid1.volume.oc1.phx."], [],
        ["ocid1.volume.oc1.phx.iii"; "ocid1.volume.oc1.phx."]))
  /\ remains (twice (sync_claim fss_type) (start fss_type))
     = (Val (Ok tt, Ok tt), ([], [], ["ocid1.filesystem.oc1.phx."])).
Proof. by vm_compute. Qed.

(** ** Several processes *)

Ltac computed := first [apply (bool_decide_unpack _); by vm_compute | by vm_compute].

Definition block_ctrl : ProvisionController := main_controller block_type kube_1_9.

(** The calls of an operation from a state of the cluster. *)
Definition calls_from (s : state cluster) : list event :=
  snd (@provisionClaimOperation cluster _ cluster_block block_ctrl (claim_for block_type) s).

Abbreviation deployed longest :=
  (Deployment.deployed 37 block0 block_ctrl Overlap.no_skew Second longest (3 * Second) false (claim_for block_type)).
Abbreviation playing longest := (Deployment.play block_ctrl Overlap.no_skew Second longest (3 * Second) false).

Definition as_action (m : Operations.move) : Deployment.action :=
  match m with Operations.Start p => Deployment.Begin p | m => Deployment.Contend m end.

Definition unused : Deployment.deployment := Deployment.Deployment (Operations.start 0) [] [] [] ∅.
Definition played (longest : Z) (l : list Deployment.action) (d : Deployment.deployment) :
  Deployment.deployment := default unused (playing longest l d).

(** The next calls of the operation [n] of the contest. *)
Lemma calls_deployed longest n s l0 l rest d :
  deployed longest d -> calls_from s = l0 ++ l ++ rest -> Deployment.logs d !! n = Some l0 ->
  Forall (fun e => Ledger.task_result e = None) l -> NoDup (ControllerSpec.created_ids (Deployment.calls d ++ l)) ->
  is_Some (playing longest (Deployment.Call n <$> l) d) ->
  deployed longest (played longest (Deployment.Call n <$> l) d).
Proof.
  intros Hd Hrun Hl Hres Hnew [d' Hp]. unfold played. rewrite Hp.
  exact (Deployment.play_calls 37 block0 block_ctrl Overlap.no_skew Second longest (3 * Second) false
    (claim_for block_type) n s l0 l rest d d' Hd Hrun Hl Hres Hnew Hp).
Qed.

Lemma contest_deployed longest l :
  forallb Deployment.contends l = true -> is_Some (playing longest l unused) ->
  deployed longest (played longest l unused).
Proof.
  intros Hl [d Hp]. unfold played. rewrite Hp.
  refine (Deployment.play_contends _ _ _ _ _ _ _ _ _ l unused d _ Hl Hp). apply Deployment.deployed_start.
Qed.

(** A process gets the lock, and its operation makes a volume and saves it. *)
Definition begun_deployment : Deployment.deployment :=
  played (6 * Second) (as_action <$> Operations.Elect (Lease.Run "a") :: Overlap.acquisition "a") unused.
Definition sample_deployment : Deployment.deployment :=
  played (6 * Second) (Deployment.Call 0 <$> take 8 (calls_from (start block_type))) begun_deployment.

Lemma sample_deployed : deployed (6 * Second) sample_deployment.
Proof.
  apply (calls_deployed _ 0 (start block_type) [] _ (drop 8 (calls_from (start block_type))));
    [apply contest_deployed; computed|by rewrite take_drop|computed..].
Qed.

(** The same cluster for another process, a moment later. *)
Definition later (s : state cluster) : state cluster :=
  let c := k_cloud (st_world s) in
  State (st_now s)
    (set_cloud (st_world s) (Cloud (c_vols c) (c_boot c) (S (c_next c)) (c_ads c) (c_fs c)
       (c_exports c) (c_mts c) (c_ips c) (c_nodes c) (c_http c))) (st_cfg s).

Definition first_calls : list event := calls_from (start block_type).
Definition second_calls : list event := calls_from (later (start block_type)).

(** The leader makes a volume and cannot renew its lock; another process gets the lock and
    makes a volume; then the first saves its own. *)
Definition overlap_1 : Deployment.deployment :=
  played (15 * Second) (as_action <$> Overlap.lost_lease "p" "q") unused.
Definition overlap_2 : Deployment.deployment :=
  played (15 * Second) (Deployment.Call 1 <$> take 5 first_calls) overlap_1.
Definition overlap_3 : Deployment.deployment :=
  played (15 * Second) (Deployment.Call 0 <$> take 5 second_calls) overlap_2.
Definition overlap_4 : Deployment.deployment :=
  played (15 * Second) (Deployment.Call 1 <$> take 3 (drop 5 first_calls)) overlap_3.

Lemma overlap_deployed : deployed (15 * Second) overlap_4.
Proof.
  apply (calls_deployed _ 1 (start block_type) (take 5 first_calls) _ (drop 8 first_calls)); [|computed..].
  apply (calls_deployed _ 0 (later (start block_type)) [] _ (drop 5 second_calls));
    [|by rewrite take_drop|computed..].
  apply (calls_deployed _ 1 (start block_type) [] _ (drop 5 first_calls));
    [apply contest_deployed; computed|by rewrite take_drop|computed..].
Qed.

(** Operations that take as long as the lease do not take turns: two processes have each made
    a volume, and the first saves its own when the second has made another. *)
Theorem overlapping_volumes :
  exists d, deployed (15 * Second) d
    /\ Ledger.balance Ledger.blank (default [] (Deployment.logs d !! 0%nat))
       = Some (Ledger.opened (Ledger.Made "ocid1.volume.oc1.phx.i"))
    /\ Ledger.balance Ledger.blank (default [] (Deployment.logs d !! 1%nat))
       = Some (Ledger.opened (Ledger.Saved "ocid1.volume.oc1.phx."))
    /\ Deployment.turns false Deployment.no_turn (Deployment.trace d) = None.
Proof. exists overlap_4. split; [exact overlap_deployed|]. by vm_compute. Qed.
