(* ===== verification/Witnesses.v ===== *)
(** * The hypotheses can hold

    Every property with hypotheses, applied at the small cloud of Cloud.v (or, for the pure
    ones, at literal values), with the hypotheses discharged by evaluation.  Where a property
    speaks of the runs of an operation, the witness also evaluates the run it is applied to. *)

From Stdlib Require Import Ascii.
From S2P Require Import Prelude GoStrings Version Errors Quantity Parse ParseSpec Objects Config Effects Logic Wait Plugin Cloud InstanceMeta Client Zones Core Controller ControllerSpec Typing Signals Flags Depot Sample Scenarios.
From S2P Require Block BlockSpec BlockLive Store Fss FssSpec FssStore FssAssets FssLive CoreSpec Startup Queue Lease Operations Overlap Ledger Deployment.

Open Scope Z_scope.

(** ** Block *)

Abbreviation provision0 := (Block.Provision 37 block0 options0 ad0).

Lemma Provision_protocol_witness :
  ending_of (provision0 good) = Success /\
  post provision0 good (fun o s' l => exists ph, BlockSpec.psteps BlockSpec.Idle l ph /\ BlockSpec.finished ph o).
Proof. split; [by vm_compute|]. apply (BlockSpec.Provision_protocol 37 block0 options0 ad0 good fuel37). Defined.

Lemma Provision_deletes_own_witness :
  ending_of (provision0 faulty) = Failure /\
  post provision0 faulty (fun o s' l =>
    (forall l1 e l2, l = l1 ++ e :: l2 -> BlockSpec.is_create (ev_call e) = true -> l1 = [])
    /\ (forall l1 e l2 x r, l = l1 ++ e :: l2 -> ev_call e = CDeleteVolume x r ->
          l2 = [] /\ exists id, x = Some id /\ BlockSpec.created id l)).
Proof. split; [by vm_compute|]. apply (BlockSpec.Provision_deletes_own 37 block0 options0 ad0 faulty fuel37). Defined.

Lemma Provision_failure_witness :
  match provision0 faulty with
  | (Val (Err e), _, l) =>
      exists id, BlockSpec.created id l /\ (BlockSpec.ends_in_delete id l \/ BlockSpec.never_deletes l)
  | _ => False
  end.
Proof.
  assert (ending_of (provision0 faulty) = Failure /\ length (snd (provision0 faulty)) = 4%nat) as Hend
    by by vm_compute.
  pose proof (BlockSpec.Provision_failure 37 block0 options0 ad0 faulty fuel37) as Hf. unfold post in Hf.
  destruct (provision0 faulty) as [[[[pv|e]|p|c|] s'] l]; destruct Hend as [Hend Hlen]; try discriminate.
  destruct (Hf e eq_refl) as [[-> _]|[(ev & req & x & -> & _ & _)|[(id & ? & ?)|(id & ? & ? & _)]]];
    [discriminate|discriminate|exists id; auto|exists id; auto].
Defined.

Lemma Provision_success_witness :
  match provision0 good with
  | (Val (Ok pv), _, l) =>
      BlockSpec.seen_available (pv_Name pv) (tail l)
      /\ pv_FlexVolume pv = Some {| flex_Driver := "oracle/oci"; flex_FSType := "ext4" |}
  | _ => False
  end.
Proof.
  assert (ending_of (provision0 good) = Success) as Hend by by vm_compute.
  pose proof (BlockSpec.Provision_success 37 block0 options0 ad0 good fuel37) as Hs. unfold post in Hs.
  destruct (provision0 good) as [[[[pv|e]|p|c|] s'] l]; try discriminate.
  destruct (Hs pv eq_refl) as (pvc & cap & adn & comp & c & region & id & v & l' &
    _ & _ & _ & _ & _ & Hl & _ & Hseen & _ & Hname & _ & _ & _ & _ & Hflex & _).
  rewrite Hl, Hname, Hflex. split; [exact Hseen|]. reflexivity.
Defined.

(** A claim with a mode that block volumes do not support. *)
Definition rwx_claim : PersistentVolumeClaim :=
  {| pvc_Namespace := "default"; pvc_Name := "c"; pvc_UID := "u"; pvc_Annotations := ∅;
     pvc_AccessModes := [ReadWriteOnce; ReadWriteMany]; pvc_Selector := None; pvc_Requests := ∅;
     pvc_VolumeName := EmptyString; pvc_StorageClassName := Some "oci"; pvc_VolumeMode := None |}.
Definition rwx_options : VolumeOptions :=
  {| vo_ReclaimPolicy := "Delete"; vo_PVName := "pv"; vo_MountOptions := [];
     vo_PVC := Some rwx_claim; vo_Parameters := ∅ |}.

Lemma Provision_bounded_witness :
  exists polls rest, snd (provision0 stuck) = polls ++ rest
    /\ Z.of_nat (length polls) <= 39 /\ (length rest <= 1)%nat.
Proof.
  pose proof (BlockSpec.Provision_bounded 37 block0 options0 ad0 stuck fuel37) as Hb. unfold post in Hb.
  destruct (provision0 stuck) as [[o s'] l] eqn:E. destruct Hb as (polls & rest & Hl & Hp & Hr).
  exists polls, rest. split; [exact Hl|]. split; [exact Hp|]. destruct Hr as [Hr|Hr]; [exact Hr|].
  assert (Forall (fun e => match ev_call e with CHttpGet _ _ => false | _ => true end = true) l) as Hno
    by (change l with (snd (o, s', l)); rewrite <- E; vm_compute; repeat constructor).
  rewrite Hl in Hno. apply Forall_app in Hno as [_ Hno].
  destruct rest as [|e rest]; [simpl; lia|]. apply Forall_cons in Hr as [(u & r & Hc) _].
  apply Forall_cons in Hno as [Hno _]. rewrite Hc in Hno. discriminate.
Defined.

(** The run that leaks: the volume never becomes available, the cleanup is sent too late,
    and the volume stays. *)
Lemma cleanup_deadline_witness :
  ending_of (provision0 stuck) = Failure
  /\ existsb (fun e => BlockSpec.is_delete (ev_call e)) (snd (provision0 stuck)) = true
  /\ Forall (fun e => BlockSpec.is_delete (ev_call e) = true -> expired (ev_ctx e) (ev_at e) = true)
       (snd (provision0 stuck))
  /\ size (c_vols (st_world (snd (fst (provision0 stuck))))) = 1%nat.
Proof.
  split; [by vm_compute|]. split; [by vm_compute|]. split; [|by vm_compute].
  pose proof (BlockSpec.cleanup_deadline 37 block0 options0 ad0 stuck fuel37) as Hc. unfold post in Hc.
  assert (forallb (fun e => negb (BlockSpec.is_delete (ev_call e)) || (180000000000 <=? ev_at e))
            (snd (provision0 stuck)) = true) as Hlate by by vm_compute.
  rewrite forallb_forall in Hlate.
  destruct (provision0 stuck) as [[o s'] l]. simpl in *. rewrite Forall_forall in Hc |- *.
  intros e Hin Hdel. apply (Hc e Hin Hdel). left. rewrite list_elem_of_In in Hin.
  specialize (Hlate e Hin). rewrite Hdel in Hlate. by apply Z.leb_le.
Defined.

Lemma size_covers_witness :
  let '(mb, cap) := Block.size_and_capacity block0 ∅ (NewQuantity 1073741824) in
  (mb - 1) * 1048576 < exact_ceil cap <= mb * 1048576.
Proof.
  assert (Block.sizes_fit (NewQuantity 1073741824)) as H1 by (split; [by vm_compute|vm_compute; discriminate]).
  assert (Block.sizes_fit (Block.bp_minVolumeSize block0)) as H2 by (split; [by vm_compute|vm_compute; discriminate]).
  pose proof (BlockSpec.size_covers block0 ∅ (NewQuantity 1073741824) H1 H2) as Hs.
  destruct (Block.size_and_capacity _ _ _) as [mb cap]. exact (proj1 Hs).
Defined.

Lemma roundUpSize_int64_witness :
  (0 <= MaxInt64 <= MaxInt64) /\ Block.roundUpSize MaxInt64 1048576 < 0.
Proof.
  assert (0 <= MaxInt64 <= MaxInt64) as Hv by (split; vm_compute; discriminate).
  split; [exact Hv|]. exact (BlockSpec.roundUpSize_int64 MaxInt64 Hv).
Defined.

Lemma Provision_validates_witness :
  fst (fst (Block.Provision 37 block0 rwx_options ad0 good))
    = Val (Err (Errorf "invalid access mode %v specified. Only %v is supported"
                  [FStr "ReadWriteMany"; FStr "ReadWriteOnce"]))
  /\ snd (Block.Provision 37 block0 rwx_options ad0 good) = [].
Proof.
  pose proof (BlockSpec.Provision_validates 37 block0 rwx_options ad0 good fuel37) as Hv. unfold post in Hv.
  destruct (Block.Provision 37 block0 rwx_options ad0 good) as [[o s'] l].
  destruct (Hv rwx_claim eq_refl) as [Hm _].
  destruct (Hm [ReadWriteOnce] ReadWriteMany [] eq_refl) as (-> & _ & ->);
    [by repeat constructor|done|done].
Defined.

(** ** File storage *)

Abbreviation fss_provision0 := (Fss.Provision 1 fsp0 options0 ad0).

Lemma fss_Provision_protocol_witness :
  ending_of (fss_provision0 good) = Success /\
  exists q, FssSpec.frun "mt1" (Some "XdWi:PHX-AD-1") "dev-uid-1" FssSpec.FTarget (snd (fss_provision0 good)) = Some q.
Proof.
  split; [by vm_compute|].
  pose proof (FssSpec.fss_Provision_protocol 1 fsp0 options0 ad0 good) as Hp. unfold post in Hp.
  destruct (fss_provision0 good) as [[o s'] l]. simpl in Hp.
  destruct Hp as (q & Hq & _). exists q. exact Hq.
Defined.

Lemma fss_creates_checked_witness :
  length (snd (fss_provision0 good)) = 10%nat /\
  forall l1 e l2, snd (fss_provision0 good) = l1 ++ e :: l2 ->
    FssSpec.is_fss_delete (ev_call e) = false
    /\ (forall req r, ev_call e = CCreateFileSystem req r ->
          cf_DisplayName req = Some "dev-uid-1"
          /\ FssSpec.listed_none (cf_CompartmentId req) (Some "XdWi:PHX-AD-1") (Some "dev-uid-1") l1).
Proof.
  split; [by vm_compute|].
  pose proof (FssSpec.fss_creates_checked 1 fsp0 options0 ad0 good) as Hp. unfold post in Hp.
  destruct (fss_provision0 good) as [[o s'] l]. intros l1 e l2 Hl.
  destruct (Hp l1 e l2 Hl) as (Hd & Hfs & _). split; [exact Hd|]. intros req r Hc.
  destruct (Hfs req r Hc) as (Had & (pvc & [= <-] & Hn) & (ip & es & _ & Hnone)).
  rewrite Had, Hn in Hnone. split; [by rewrite Hn|exact Hnone].
Defined.

Lemma fss_Provision_success_witness :
  match fss_provision0 good with
  | (Val (Ok pv), _, l) => FssSpec.file_system_seen (pv_Name pv) l
  | _ => False
  end.
Proof.
  assert (ending_of (fss_provision0 good) = Success) as Hend by by vm_compute.
  pose proof (FssSpec.fss_Provision_success 1 fsp0 options0 ad0 good) as Hs. unfold post in Hs.
  destruct (fss_provision0 good) as [[[[pv|e]|p|c|] s'] l]; try discriminate.
  destruct (Hs pv eq_refl) as (pvc & ip & es & fs & ex & path & _ & _ & Hfs & _ & Hname & _).
  rewrite Hname. exact Hfs.
Defined.

Lemma findExport_spec_witness :
  FssSpec.found "fs1" "es1" None (fst (fst (Fss.findExport 1 Background "fs1" "es1" good)))
    (snd (Fss.findExport 1 Background "fs1" "es1" good))
  /\ fst (fst (Fss.findExport 1 Background "fs1" "es1" good)) = Val (Err (ErrSentinel fss_errNotFound)).
Proof.
  split; [|by vm_compute].
  pose proof (FssSpec.findExport_spec 1 "fs1" "es1" good) as Hf. unfold post in Hf.
  destruct (Fss.findExport 1 Background "fs1" "es1" good) as [[o s'] l]. exact (proj1 Hf).
Defined.

(** The cloud answers every listing with one page. *)
Lemma one_page t (w : cloud) req c resp d w' q :
  fss_ListExports c req t w = (inl resp, d, w') -> le_OpcNextPage resp = Some q ->
  (0 < match le_Page req with Some _ => 0 | None => 0 end)%nat.
Proof.
  simpl. unfold cloud_ListExports, served. destruct (expired c t); [done|]. intros [= <- _ _]. done.
Qed.

Lemma findExport_terminates_witness :
  post (Fss.findExport 1 Background "fs1" "es1") good (fun o _ _ => o <> OutOfFuel).
Proof. exact (FssSpec.findExport_terminates (fun _ => 0%nat) 0 "fs1" "es1" good one_page). Defined.

(** ** Core *)

#[local] Instance block_plugin0 : ProvisionerPlugin cloud := BlockSpec.block_Plugin 37 block0.
#[local] Instance block_contract0 : PluginContract cloud := BlockSpec.block_contract 37 block0 fuel37.

Lemma chooseAvailabilityDomain_spec_witness :
  ending_of (chooseAvailabilityDomain Background (Some claim0) good) = Success /\
  post (chooseAvailabilityDomain Background (Some claim0)) good (fun o s' l =>
    forall name ad, o = Val (Ok (name, ad)) -> exists l1 e items comp,
      l = l1 ++ [e] /\ CoreSpec.named_by claim0 name l1
      /\ ev_call e = CListAvailabilityDomains (Some comp) (inl items)
      /\ CoreSpec.first_suffixed name items ad).
Proof. split; [by vm_compute|]. exact (CoreSpec.chooseAvailabilityDomain_spec Background claim0 good). Defined.

Lemma core_Delete_of_provisioned_witness :
  ending_of (Core.Provision options0 good) = Success /\
  post (Core.Provision options0) good (fun o _ _ => forall pv', o = Val (Ok pv') ->
    exists ad pv s1 s2 l2, plugin_Provision options0 ad s1 = (Val (Ok pv), s2, l2)
      /\ forall later, Core.Delete pv' later = plugin_Delete pv later).
Proof. split; [by vm_compute|]. exact (CoreSpec.core_Delete_of_provisioned options0 good). Defined.

Lemma block_life_cycle_witness :
  ending_of (CoreSpec.provision_then_delete options0 good) = Success /\
  post (CoreSpec.provision_then_delete options0) good (fun o _ l =>
    forall pv r, o = Val (Ok (pv, r)) -> exists id l1 l2 d reply,
      l = l1 ++ l2 ++ [d] /\ Forall (fun e => CoreSpec.lists_only (ev_call e)) l1
      /\ BlockSpec.created id l2 /\ BlockSpec.seen_available id l2 /\ BlockSpec.never_deletes l2
      /\ ev_call d = CDeleteVolume (Some id) reply)
  /\ size (c_vols (st_world (snd (fst (CoreSpec.provision_then_delete options0 good))))) = 0%nat.
Proof.
  split; [by vm_compute|]. split; [|by vm_compute].
  exact (CoreSpec.block_life_cycle 37 block0 options0 good fuel37).
Defined.

Lemma fss_life_cycle_witness :
  ending_of (@CoreSpec.provision_then_delete cloud backend0 pclient0 (FssSpec.fss_Plugin fsp0 0) options0 good)
    = Success /\
  post (@CoreSpec.provision_then_delete cloud backend0 pclient0 (FssSpec.fss_Plugin fsp0 0) options0) good
    (fun o _ l => forall pv, o = Val (Ok (pv, Ok tt)) -> exists ex fs path l1 l2 d1 d2 r1 r2,
      l = l1 ++ l2 ++ [d1; d2] /\ Forall (fun e => CoreSpec.lists_only (ev_call e)) l1
      /\ FssSpec.file_system_seen fs l2 /\ FssSpec.export_seen ex path l2
      /\ ev_call d1 = CDeleteExport (Some ex) r1 /\ ev_call d2 = CDeleteFileSystem (Some fs) r2).
Proof.
  split; [by vm_compute|].
  exact (CoreSpec.fss_life_cycle fsp0 (fun _ => 0%nat) 0 options0 good one_page).
Defined.

Lemma label_selects_witness :
  exists ad' n, find_ad "PHX-AD-2" (c_ads (cloud0 [])) good = (Val (Some ad'), good, [])
    /\ ad_Name ad' = Some n /\ HasSuffix n "PHX-AD-2" = true.
Proof.
  apply (CoreSpec.label_selects (c_ads (cloud0 []))
           {| ad_Name := Some "XdWi:PHX-AD-2"; ad_CompartmentId := None |} "XdWi:PHX-AD-2" good).
  - repeat constructor; by eexists.
  - right. left.
  - done.
Defined.

(** ** Zones *)

Definition zones0 : gset string := {["PHX-AD-1"; "PHX-AD-2"; "PHX-AD-3"]}.

Lemma ChooseZone_member_witness :
  post (ChooseZoneForVolume zones0 "data-db-1") good (fun o _ l =>
    l = [] /\ exists z, o = Val z /\ z ∈ zones0).
Proof. apply ChooseZone_member. by vm_compute. Defined.

Lemma ChooseZone_statefulset_witness :
  exists z1 z2,
    fst (fst (ChooseZoneForVolume zones0 "data-db-0" good)) = Val z1
    /\ fst (fst (ChooseZoneForVolume zones0 "logs-db-2" good)) = Val z2
    /\ (z1 = z2 <-> 0 = 2).
Proof.
  apply (ChooseZone_statefulset zones0 "db" "data" "logs" "0" "2" 0 2 good good);
    try (by vm_compute); vm_compute; split; done.
Defined.

(** ** Polling, metadata, signals *)

(** A condition that holds from the third check on. *)
Definition third : @condition cloud nat := fun n => ret (S n, Ok (2 <=? n)%nat).

Lemma PollImmediate_total_witness :
  enough_fuel 13 (5 * Second) Minute /\
  post (PollImmediate 13 (5 * Second) Minute (counted third) (O, O)) good (fun o _ _ =>
    o <> OutOfFuel /\ forall x' n r, o = Val ((x', n), r) -> 1 <= Z.of_nat n <= Minute / (5 * Second) + 2).
Proof.
  assert (enough_fuel 13 (5 * Second) Minute) as Hf by by vm_compute. split; [exact Hf|].
  eapply post_mono; [apply (PollImmediate_total third 13 (5 * Second) Minute O good Hf)|].
  - intros x s. apply upholds_ret, _.
  - intros x s. done.
  - intros o s' l [Ho Hn]. split; [exact Ho|]. intros x' n r Hr. exact (proj1 (Hn x' n r Hr)).
Defined.

Lemma Get_never_cached_witness :
  length (snd ((let* a := InstanceMeta.Get New in let* b := InstanceMeta.Get New in ret (a, b)) good)) = 2%nat.
Proof.
  pose proof (Get_never_cached "http://169.254.169.254/opc/v1/instance/" good eq_refl) as Hg.
  unfold post in Hg.
  destruct ((let* a := InstanceMeta.Get New in let* b := InstanceMeta.Get New in ret (a, b)) good) as [[o s'] l].
  destruct Hg as (t & r1 & r2 & -> & _). reflexivity.
Defined.

Definition handling : process :=
  {| onlyOneSignalHandler := true; pending := 0; stop := false; goroutine := Some AwaitFirst |}.
Definition stopped : process :=
  {| onlyOneSignalHandler := true; pending := 0; stop := true; goroutine := Some AwaitSecond |}.

Lemma signal_protocol_witness :
  SetupSignalHandler initial = Some handling /\ steps shutdownSignals_posix handling [Signal SIGTERM; Step] stopped
  /\ SetupSignalHandler stopped = None.
Proof.
  assert (steps shutdownSignals_posix handling [Signal SIGTERM; Step] stopped) as Hs.
  { apply (steps_snoc _ _ [Signal SIGTERM] (deliver handling) Step); [|by constructor].
    apply (steps_snoc _ _ [] handling (Signal SIGTERM)); [constructor|].
    constructor; [done|]. set_solver. }
  split; [reflexivity|]. split; [exact Hs|].
  exact (proj1 (signal_protocol shutdownSignals_posix handling [Signal SIGTERM; Step] stopped eq_refl Hs)).
Defined.

(** ** The flags *)

(** No other package declares a flag. *)
#[local] Instance no_flags : OtherFlags := {| other_flag := fun _ => None |}.
Definition verbose : flags :=
  {| flag_kubeconfig := "a=b"; flag_rounding_enabled := false; flag_min_volume_size := "100Gi";
     flag_master := "-"; flag_logging := {| Logging.lvl := Logging.DebugLevel;
       Logging.logJSON := true; Logging.logfilePath := "/var/log/p" |} |}.

Lemma log_flags_ignored_witness :
  let '(log, parsed) :=
    Startup.main_prologue ["LOG_FIELD_a=b"] (command_line verbose "Debug" ++ ["--"]) in
  parsed = Parsed verbose [] /\ Logging.co_level (Logging.log_core log) = Logging.InfoLevel
  /\ Logging.log_stack log = Logging.FatalLevel.
Proof.
  assert (Logging.UnmarshalText "Debug" = Some (Logging.lvl (flag_logging verbose))) as Hl by (by vm_compute).
  pose proof (Startup.log_flags_ignored ["LOG_FIELD_a=b"] verbose "Debug" [] Hl) as Hs.
  destruct (Startup.main_prologue _ _) as [log parsed]. destruct Hs as (Hp & Hc & Hst).
  split; [exact Hp|]. split; [by rewrite Hc|exact Hst].
Defined.

(** ** The store *)

Definition depot0 : state depot := empty_depot (Some config0).

(** The volume that the first operation makes. *)
Definition stored : PersistentVolume :=
  Block.volume_pv options0 claim0 "i" "phx" "XdWi:PHX-AD-1" "ext4" (NewQuantity 53687091200).
Definition commands0 : list Store.command :=
  [Store.CmdProvision options0 ad0; Store.CmdDelete stored].

(** The run has two answers and leaves no volume. *)
Definition came_and_went (r : outcome (list Store.response) * state depot * list event) : bool :=
  match r with
  | (Val [Store.RProvision (Ok _); Store.RDelete (Ok _)], s', _) =>
      bool_decide (d_vols (st_world s') = ∅)
  | _ => false
  end.

Lemma came_and_went_0 : came_and_went (mapM (Store.do_command 37 block0) commands0 depot0) = true.
Proof. by vm_compute. Qed.

Lemma store_refinement_witness :
  match mapM (Store.do_command 37 block0) commands0 depot0 with
  | (Val rs, s', l) => length rs = 2%nat /\ Store.store_run (W := depot) ∅ commands0 rs l ∅
  | _ => False
  end.
Proof.
  pose proof came_and_went_0 as Hrun.
  pose proof (Store.store_refinement depot_meta_follows 37 block0 fuel37 commands0 depot0) as Hs.
  unfold post in Hs. destruct (mapM _ _ _) as [[[rs|p|n|] s'] l]; try discriminate.
  specialize (Hs rs eq_refl).
  assert (Store.vols (st_world s') = ∅ /\ length rs = 2%nat) as [Hv Hl].
  { destruct rs as [|[[]|] [|[|[]] [|]]]; try discriminate. simpl in Hrun |- *.
    apply bool_decide_eq_true in Hrun. by rewrite Hrun. }
  rewrite Hv in Hs. split; [exact Hl|exact Hs].
Defined.

(** Every listing of file systems was complete. *)
Definition whole (l : list event) : bool :=
  forallb (fun e => match ev_call e with
                    | CListFileSystems _ (inl resp) => bool_decide (lfs_OpcNextPage resp = None)
                    | _ => true
                    end) l.

Lemma whole_not_cut l : whole l = true -> ~ FssStore.cut_short l.
Proof.
  unfold whole. rewrite forallb_forall. intros Hl Hcut. apply Exists_exists in Hcut as (e & He & req & resp & Hc & Hn).
  specialize (Hl e (proj1 (list_elem_of_In _ _) He)). rewrite Hc in Hl. by apply bool_decide_eq_true in Hl.
Qed.

(** Three attempts for one claim, the first of which fails after it made the file system. *)
Definition busy0 : state depot := State 0 (Depot ∅ ∅ ∅ ∅ 1) (Some config0).
Definition requests0 : list (VolumeOptions * AvailabilityDomain) := replicate 3 (options0, ad0).
Definition retried (r : outcome (list (result PersistentVolume)) * state depot * list event) : bool :=
  match r with
  | (Val [Err _; Ok _; Ok _], s', l) => bool_decide (FssStore.files (st_world s') <> ∅) && whole l
  | _ => false
  end.

Lemma retried_0 : retried (FssStore.attempts 1 fsp0 requests0 busy0) = true.
Proof. by vm_compute. Qed.

Lemma fss_Provision_retries_witness :
  match FssStore.attempts 1 fsp0 requests0 busy0 with
  | (Val [Err _; Ok pv; Ok pv'], s', _) =>
      FssStore.evolves ∅ (FssStore.files (st_world s')) /\ pv_Name pv = pv_Name pv'
  | _ => False
  end.
Proof.
  pose proof retried_0 as Hrun.
  pose proof (FssStore.fss_Provision_retries 1 fsp0 requests0 busy0) as Hs.
  unfold post in Hs. destruct (FssStore.attempts _ _ _ _) as [[[rs|p|n|] s'] l]; try discriminate.
  destruct rs as [|[?|?] [|[pv|?] [|[pv'|?] [|]]]]; try discriminate.
  simpl in Hrun. apply andb_true_iff in Hrun as [_ Hcut%whole_not_cut].
  destruct (Hs Hcut) as [Hev Hrs]. split; [exact Hev|]. specialize (Hrs _ eq_refl).
  unfold requests0 in Hrs. simpl in Hrs. rewrite !Forall2_cons in Hrs.
  destruct Hrs as (_ & H1 & H2 & _). apply (inj singleton (B := gset string)).
  by rewrite <- (H1 pv eq_refl), <- (H2 pv' eq_refl).
Defined.

(** The state that an attempt leaves which made the file system but not the export. *)
Definition left0 : state depot :=
  let '(_, s, _) := Fss.Provision 1 fsp0 options0 ad0 busy0 in s.

Lemma fss_Provision_succeeds_witness :
  size (FssStore.files (st_world left0)) = 1%nat /\
  post (Fss.Provision 1 fsp0 options0 ad0) left0 (fun o _ _ => exists ip fs ex path,
    o = Val (Ok (Fss.filesystem_pv fsp0 options0 claim0 fs ex ip path))).
Proof.
  split; [by vm_compute|].
  refine (FssLive.fss_Provision_succeeds 0 _ fsp0 options0 ad0 claim0 "XdWi:PHX-AD-1" "ocid1.compartment" "es"
    left0 eq_refl eq_refl eq_refl _ _ _ _).
  - vm_compute. discriminate.
  - by vm_compute.
  - by vm_compute.
  - by vm_compute.
  - split; [vm_compute; lia|by vm_compute].
Defined.

(** A volume that is made and deleted, and made again while the deleted one is listed. *)
Definition idle0 : state depot := State 0 (Depot ∅ ∅ ∅ ∅ 0) (Some config0).
Definition shared : PersistentVolume :=
  Fss.filesystem_pv fsp0 options0 claim0 "i" "i" "10.0.0.1" "/export".
Definition commands1 : list FssAssets.command :=
  [FssAssets.CmdProvision options0 ad0; FssAssets.CmdDelete shared; FssAssets.CmdProvision options0 ad0].
Definition made_and_gone (r : outcome (list FssAssets.response) * state depot * list event) : bool :=
  match r with
  | (Val [FssAssets.RProvision (Ok pv); FssAssets.RDelete (Ok _); FssAssets.RProvision (Err _)], s', _) =>
      String.eqb (pv_Name pv) "i" && bool_decide (FssStore.files (st_world s') = ∅)
      && bool_decide (FssAssets.exports (st_world s') = ∅)
  | _ => false
  end.

Lemma made_and_gone_0 : made_and_gone (mapM (FssAssets.do_command 1 fsp0) commands1 idle0) = true.
Proof. by vm_compute. Qed.

Definition nothing : FssAssets.assets := FssAssets.Assets ∅ ∅.

Lemma fss_store_refinement_witness :
  match mapM (FssAssets.do_command 1 fsp0) commands1 idle0 with
  | (Val rs, _, l) => length rs = 3%nat /\ FssAssets.store_run (W := depot) nothing commands1 rs l nothing
  | _ => False
  end.
Proof.
  pose proof made_and_gone_0 as Hrun.
  pose proof (FssAssets.fss_store_refinement 1 fsp0 commands1 idle0) as Hs.
  unfold post in Hs. destruct (mapM _ _ _) as [[[rs|p|n|] s'] l]; try discriminate.
  destruct (Hs rs eq_refl) as [Hst _].
  assert (FssAssets.assets_of (st_world s') = nothing /\ length rs = 3%nat) as [Hf Hl].
  { destruct rs as [|[[]|] [|[|[]] [|[[]|] [|]]]]; try discriminate. simpl in Hrun |- *.
    apply andb_true_iff in Hrun as [[_ Hrun]%andb_true_iff He].
    apply bool_decide_eq_true in Hrun, He. unfold FssAssets.assets_of, nothing. split; [f_equal; [exact Hrun|exact He]|done]. }
  rewrite Hf in Hst. split; [exact Hl|exact Hst].
Defined.




Lemma Provision_succeeds_witness :
  match Block.Provision 37 block0 options0 ad0 depot0 with
  | (Val (Ok pv), s', l) => BlockSpec.created (pv_Name pv) l /\ st_now s' <= 69000000000
  | _ => False
  end.
Proof.
  pose proof (BlockLive.Provision_succeeds boot_time (Z.of_N second) 37 block0 options0 ad0 claim0
    (NewQuantity 1073741824) "XdWi:PHX-AD-1" "ocid1.compartment" (Some config0) "phx" depot0 fuel37 eq_refl) as Hs.
  unfold post in Hs.
  assert (st_now depot0 = 0) as Hnow by reflexivity.
  destruct (Block.Provision 37 block0 options0 ad0 depot0) as [[o s'] l].
  destruct Hs as (id & -> & Hc & _ & Ht).
  - repeat constructor.
  - reflexivity.
  - reflexivity.
  - reflexivity.
  - reflexivity.
  - vm_compute. discriminate.
  - vm_compute. discriminate.
  - exact I.
  - vm_compute. discriminate.
  - vm_compute. reflexivity.
  - split; [exact Hc|]. rewrite Hnow in Ht. exact Ht.
Defined.

(** ** The controller *)


#[local] Instance block_plugin1 : ProvisionerPlugin cluster := BlockSpec.block_Plugin 37 block0.
#[local] Instance core_provisioner1 : Provisioner cluster := core_Provisioner.

Definition ctrl0 : ProvisionController := main_controller block_type kube_1_9.

Definition ends_well {A} (r : outcome (result A) * state cluster * list event) : bool :=
  match r with (Val (Ok _), _, _) => true | _ => false end.

Lemma block_claim_accounted_witness :
  ends_well (provisionClaimOperation ctrl0 (claim_for block_type) (start block_type)) = true /\
  post (provisionClaimOperation ctrl0 (claim_for block_type)) (start block_type) (fun o _ l => forall r, o = Val r ->
    accounts l [] [] []
    \/ exists id,
        (r = Ok tt /\ exists pv claimRef, accounts l [id] [pv] [] /\ pv_Name pv = id
           /\ gomap_lookup (pv_Annotations pv) "ociVolumeID" = Some id
           /\ ref_GetReference (W := cluster) (claim_for block_type) = Ok claimRef
           /\ pv_ClaimRef pv = Some claimRef)
        \/ (exists k, accounts l [id] [] (replicate (S k) id) /\ Z.of_nat (S k) <= Z.max 1 5)
        \/ (accounts l [id] [] [] /\ LookupEnv (W := cluster) "OCI_SHORT_REGION" = None)).
Proof.
  split; [vm_compute; reflexivity|].
  exact (block_claim_accounted 37 block0 ctrl0 fuel37 (claim_for block_type) (start block_type) eq_refl).
Defined.

(** The sample volume as the cluster has it after its claim is gone. *)
Definition released_run : state cluster :=
  match (let* _ := sync_claim block_type in release_all) (start block_type) with (_, s, _) => s end.
Definition some_volume : PersistentVolume :=
  default stored (k_pvs (st_world released_run) !! "ocid1.volume.oc1.phx.").

Lemma block_delete_safe_witness :
  length (snd (deleteVolumeOperation ctrl0 some_volume released_run)) = 3%nat /\
  post (deleteVolumeOperation ctrl0 some_volume) released_run (fun o _ l =>
    (Exists deletes l -> deletable ctrl0 some_volume l)
    /\ Forall (fun e => forall id reply, ev_call e = CDeleteVolume id reply ->
         id = gomap_lookup (pv_Annotations some_volume) "ociVolumeID") l
    /\ (forall l1 d l2 n r, l = l1 ++ d :: l2 -> ev_call d = CDeletePV n r ->
          n = pv_Name some_volume /\ l2 = [] /\ o = Val r
          /\ exists e0 e1, l1 = [e0; e1] /\ volume_gone some_volume e1)).
Proof.
  split; [vm_compute; reflexivity|].
  exact (block_delete_safe 37 block0 ctrl0 fuel37 some_volume released_run).
Defined.

Definition oci0 : OCIProvisioner :=
  {| oci_client := client0; oci_provisioner := PBlock block0 |}.

Lemma Provision_typed_witness :
  ending_of (Core.Provision options0 good) = Success /\
  post (Core.Provision options0) good (fun o _ _ => forall pv, o = Val (Ok pv) ->
    pv_typed (PBlock block0) pv
    /\ forall ctrl claimRef class,
         pv_typed (PBlock block0) (claimed_volume ctrl pv claimRef class)
         /\ forall s' : state cloud, Core.Delete (claimed_volume ctrl pv claimRef class) s'
              = plugin_Delete (claimed_volume ctrl pv claimRef class) s').
Proof.
  split; [vm_compute; reflexivity|].
  pose proof (Provision_typed 37 oci0 options0 good fuel37) as Ht. cbv zeta in Ht.
  change (plugin_of 37 oci0) with block_plugin0 in Ht.
  change (client_of (oci_client oci0)) with pclient0 in Ht.
  change (oci_provisioner oci0) with (PBlock block0) in Ht. exact Ht.
Defined.

(** ** The work queue and the leader's term *)

Definition key0 : string := "default/data-db-1".
Definition limiter0 : list Queue.RateLimiter := Queue.controller_limiter ctrl0.

(** A claim is reported, taken by a worker, reported again, and fails. *)
Definition first_try : list Queue.label :=
  [Queue.LInformer key0; Queue.LGet key0; Queue.LInformer key0; Queue.LSynced key0 true].

Ltac next := eapply Queue.steps_cons;
  [first [apply Queue.s_informer | eapply Queue.s_get; reflexivity
         | apply (Queue.s_synced _ _ _ [] key0 [] true 0); reflexivity]|].

Definition after_first_try : Queue.sys :=
  Queue.Sys
    {| Queue.rq := {| Queue.queue := []; Queue.dirty := {[key0]}; Queue.processing := {[key0]};
                      Queue.shuttingDown := false |};
       Queue.waiting := ∅; Queue.rateLimiter := limiter0 |} [] [key0].

Lemma workers_exclusive_witness :
  Queue.steps 5 Queue.idle (Queue.initial limiter0) first_try after_first_try
  /\ Queue.processing (Queue.rq (Queue.sq after_first_try)) = {[key0]}.
Proof.
  assert (Queue.steps 5 Queue.idle (Queue.initial limiter0) first_try after_first_try) as Hrun.
  { do 4 next. apply Queue.steps_nil. }
  split; [exact Hrun|].
  destruct (Queue.workers_exclusive _ _ _ _ Hrun) as (_ & Hp & _). reflexivity.
Defined.

Lemma failed_claims_retried_witness :
  Queue.steps 5 (fun _ _ => False) (Queue.initial limiter0) ([] ++ first_try) after_first_try
  /\ Queue.pending after_first_try key0.
Proof.
  assert (Queue.steps 5 (fun _ _ => False) (Queue.initial limiter0) ([] ++ first_try) after_first_try) as Hrun.
  { do 4 next. apply Queue.steps_nil. }
  split; [exact Hrun|].
  refine (proj1 (Queue.failed_claims_retried block_type kube_1_9 _ [] (tail first_try) after_first_try key0 Hrun _ _)).
  - intros Hin. simpl in Hin. repeat (apply elem_of_cons in Hin as [?|Hin]; [discriminate|]).
    by apply elem_of_nil in Hin.
  - intros Hin. simpl in Hin. repeat (apply elem_of_cons in Hin as [?|Hin]; [discriminate|]).
    by apply elem_of_nil in Hin.
Defined.

(** Six terms fit into the timeout of the block provisioner. *)
Lemma long_operations_overlap_witness :
  exists c, Operations.reachable ctrl0 Overlap.no_skew Second (Block.bp_timeout block0) (3 * Second) false c
    /\ length (Operations.running c) = 7%nat.
Proof.
  assert (0 <= Second) as Hlat by done.
  assert (Z.of_nat 6 * termLimit ctrl0 <= Block.bp_timeout block0) as Hn by (vm_compute; congruence).
  destruct (Overlap.long_operations_overlap block_type kube_1_9 Overlap.no_skew Second (Block.bp_timeout block0)
    (3 * Second) false "p" Hlat 6 Hn) as (c & Hc & Hlen & _).
  exists c. split; [exact Hc|exact Hlen].
Defined.

(** Two provisioners, ["a"] and ["b"], whose clocks differ by a minute. *)
Definition skew0 (p : string) : Z := if String.eqb p "b" then Minute else 0.
Definition try_events (p : string) : list Lease.event := [Lease.Try p; Lease.Get p; Lease.Decide p].
Definition handover : list Lease.event :=
  Lease.Run "a" :: try_events "a" ++ [Lease.Apply 0; Lease.Success "a"; Lease.Run "b"]
  ++ try_events "b" ++ [Lease.Tick (10 * Second); Lease.Return "a"] ++ try_events "b"
  ++ [Lease.Tick (5 * Second)] ++ try_events "b" ++ [Lease.Touch; Lease.Failure "b"]
  ++ try_events "b" ++ [Lease.Tick Second; Lease.Apply 0; Lease.Success "b"].

(** The second process gets the lock fifteen seconds after it first saw the record. *)
Definition handed : Lease.system :=
  default (Lease.start 0) (Lease.play ctrl0 skew0 Second handover (Lease.start 0)).

Lemma handed_reachable : Lease.reachable ctrl0 skew0 Second handed.
Proof.
  apply (Lease.play_reachable ctrl0 skew0 Second handover (Lease.start 0)); [constructor|by vm_compute].
Qed.

Lemma leaders_exclusive_witness :
  Lease.leads handed "b" /\ Lease.HolderIdentity (Lease.current handed) = "b".
Proof.
  assert (Lease.leads handed "b") as Hb by (eexists; split; [by vm_compute|by eexists]).
  split; [exact Hb|].
  refine (proj2 (Lease.leaders_exclusive ctrl0 skew0 Second _ _ _ handed "b" "b" handed_reachable Hb Hb));
    vm_compute; discriminate.
Defined.

(** Two operations of at most five seconds, whose results are received within three: the
    first fails, and its process receives the result and gives up; the other process, which
    received it while it tried for the lock, gets the lock when the lease is over. *)
Definition moves0 : list Operations.move :=
  [Operations.Elect (Lease.Run "a"); Operations.Elect (Lease.Run "b")]
  ++ Overlap.acquisition "a" ++ Overlap.attempt "b"
  ++ [Operations.Pass (5 * Second); Operations.End 0 (Some false); Operations.Pass Second;
      Operations.Deliver 0; Operations.Pass Second; Operations.Receive "a"; Operations.Receive "b"]
  ++ Overlap.attempt "b" ++ [Operations.Pass (10 * Second)] ++ Overlap.acquisition "b".

Definition taken_turns : Operations.claim :=
  default (Operations.start 0)
    (Operations.play ctrl0 skew0 Second (5 * Second) (3 * Second) false moves0 (Operations.start 0)).

Lemma taken_turns_reachable :
  Operations.reachable ctrl0 skew0 Second (5 * Second) (3 * Second) false taken_turns.
Proof.
  refine (Operations.plays_reachable ctrl0 skew0 Second _ _ _ moves0 (Operations.start 0) _ _ _);
    [constructor|by vm_compute].
Qed.

Lemma operations_exclusive_witness :
  Operations.running taken_turns = [Operations.Operation "b" (17 * Second)]
  /\ Lease.leads (Operations.locks taken_turns) "b"
  /\ Lease.HolderIdentity (Lease.current (Operations.locks taken_turns)) = "b".
Proof.
  assert (Operations.running taken_turns = [Operations.Operation "b" (17 * Second)]) as Hb by by vm_compute.
  split; [exact Hb|].
  refine (proj2 (Operations.operations_exclusive ctrl0 skew0 Second (5 * Second) (3 * Second) false _ _ _ _ _ _ _
    taken_turns taken_turns_reachable) (Operations.Operation "b" (17 * Second)) _);
    try (vm_compute; congruence); [by split; vm_compute; congruence|rewrite Hb; by left].
Defined.

Definition sample_pv : PersistentVolume :=
  default stored (head (saved_pvs (Deployment.calls sample_deployment))).

Lemma volumes_accounted_witness :
  pv_Name sample_pv = "ocid1.volume.oc1.phx." /\ pv_Name sample_pv ∈ Deployment.volumes sample_deployment.
Proof.
  split; [by vm_compute|].
  assert (0 < createProvisionedPVRetryCount block_ctrl) as Hretry by done.
  refine (proj1 (proj1 (proj2 (Deployment.volumes_accounted 37 block0 block_ctrl fuel37 Overlap.no_skew Second
    (6 * Second) (3 * Second) false (claim_for block_type) Hretry sample_deployment sample_deployed)) sample_pv _)).
  assert (saved_pvs (Deployment.calls sample_deployment) = [sample_pv]) as -> by by vm_compute. by left.
Defined.

Lemma processes_take_turns_witness :
  length (Deployment.calls sample_deployment) = 8%nat
  /\ is_Some (Deployment.turns true Deployment.no_turn (Deployment.trace sample_deployment)).
Proof.
  split; [by vm_compute|].
  refine (proj2 (proj2 (proj2 (proj2 (Deployment.processes_take_turns 37 block0 block_ctrl fuel37 Overlap.no_skew
    Second (6 * Second) (3 * Second) false (claim_for block_type) _ _ _ _ sample_deployment sample_deployed))
    eq_refl _ _ _))); try (vm_compute; congruence); by split; vm_compute; congruence.
Defined.

(** Two operations on the sample claim, one after the other, make two volumes. *)
Definition two_operations : outcome (list (result unit)) * state cluster * list event :=
  mapM (@provisionClaimOperation cluster _ cluster_block block_ctrl)
    [claim_for block_type; claim_for block_type] (start block_type).

(** Every object that the API server shows was saved. *)
Definition shown (l : list event) : bool :=
  forallb (fun e => match ev_call e with
                    | CGetPV name (Ok (Some _)) => bool_decide (name ∈ pv_Name <$> saved_pvs l)
                    | _ => true
                    end) l.

Lemma shown_stored l : shown l = true -> Ledger.shows_stored ∅ l.
Proof.
  unfold shown. rewrite forallb_forall. intros Hl e name pv He Hc. right.
  specialize (Hl e (proj1 (list_elem_of_In _ _) He)). rewrite Hc in Hl. by apply bool_decide_eq_true in Hl.
Qed.

Lemma saved_volume_not_found_witness :
  length (ControllerSpec.created_ids (snd two_operations)) = 2%nat
  /\ forall e name pv, e ∈ snd two_operations -> ev_call e <> CGetPV name (Ok (Some pv)).
Proof.
  split; [by vm_compute|].
  assert (0 < createProvisionedPVRetryCount block_ctrl) as Hretry by done.
  pose proof (Ledger.saved_volume_not_found 37 block0 block_ctrl fuel37 Hretry
    [claim_for block_type; claim_for block_type] (start block_type) ∅) as Hp.
  unfold post in Hp.
  assert (shown (snd two_operations) = true) as Hs%shown_stored by by vm_compute.
  assert (getProvisionedVolumeNameForClaim (claim_for block_type)
    ∉ ControllerSpec.created_ids (snd two_operations)) as Hn by (apply (bool_decide_unpack _); by vm_compute).
  change (mapM _ _ _) with two_operations in Hp. destruct two_operations as [[o s'] l].
  apply (Hp Hs). intros claim Hc. assert (claim = claim_for block_type) as -> by set_solver.
  split; [apply not_elem_of_empty|exact Hn].
Defined.

(** ** Quantities *)

Definition text0 : text :=
  {| tx_sign := EmptyString; tx_int := "50"; tx_frac := None; tx_suffix := "Gi" |}.

Lemma ParseQuantity_meaning_witness :
  render text0 = "50Gi" /\ meaning text0 (2 ^ 30 * 10 ^ 9) true = {| unscaled := 53687091200000000000; dscale := 9 |}
  /\ exists q, ParseQuantity "50Gi" = Ok q
       /\ dec_Cmp (quantity_AsDec q) (meaning text0 (2 ^ 30 * 10 ^ 9) true) = 0.
Proof.
  split; [reflexivity|]. split; [vm_compute; reflexivity|].
  apply (ParseQuantity_meaning text0 (2 ^ 30 * 10 ^ 9) true).
  - split; [by apply (bool_decide_unpack _)|]. split; [reflexivity|]. by split.
  - by apply (bool_decide_unpack _).
Defined.
